(* ===== verification/_CoqProject ===== *)
-Q . S2P
Prelude.v
GoFloat.v
GoText.v
GoUtf8.v
GoBase64.v
GoTime.v
GoJson.v
GoJsonRead.v
GoNumber.v
GoTimeParse.v
GoJsonDecode.v
GoJsonIndent.v
GoLines.v
GoService.v
GoNet.v
SimPool.v
SimRotation.v
SimLiveness.v
SimService.v
SimMain.v
CircuitStore.v
CircuitConstructor.v
CircuitProps.v
WireGuard.v
WireGuardApi.v
CircuitRotation.v
CircuitSteps.v
CircuitMain.v
ApnMock.v
ApnCore.v
ApnMain.v
GossipRecord.v
GossipWire.v
GossipStore.v
GossipServer.v
GossipNode.v
EndToEnd.v
