(* ===== verification/Prelude.v ===== *)
(** * CAMO: a verification development for the Go services of the repository

    CAMO routes the traffic of mobile devices through chains of servers.  The
    repository holds five Go programs that run side by side on a server and talk
    over Unix sockets:

    - camo-gossip tells the node about other servers: signed records and
      heartbeats over TCP, a store with liveness, and a query socket;
    - camo-circuit builds circuits of three to five servers from the records
      the gossip agent lists, keeps one circuit per device and rotates it every
      ten minutes;
    - camo-wireguard adds and removes the WireGuard peers of circuit hops on
      behalf of camo-circuit;
    - camo-simpool hands out SIMs to sessions, rotates which SIMs are active and
      checks their liveness;
    - camo-apncore programs routes on an APN core through an adapter interface,
      of which the repository has a mock.

    ** Files

    Shared foundations (the language and its standard library):
    - Prelude: outcomes of Go calls ([Ok], [Err], [Panic]), the entropy monad,
      machine integers, loops over maps in an arbitrary order, time, tactics and
      the hint database [camo];
    - GoFloat: binary64 arithmetic and comparison, over SpecFloat; GoNumber:
      strconv's integers and floats, with the shortest decimal of a float;
    - GoText: decimal text and cancellation lemmas; GoUtf8: UTF-8 and what
      encoding/json does to bytes that are not; GoBase64: encoding/base64 with
      its decode-encode round trip; GoTime: the Gregorian calendar and the
      RFC 3339 texts of time.Format and MarshalJSON, with injectivity;
      GoTimeParse: the reading of these texts;
    - GoJson: the compact text of json.Marshal with its escapes, \ufffd for bytes
      that are not UTF-8 included; GoJsonRead: the reader of json.Unmarshal and
      json.Decoder, sound and complete for a declarative grammar, and the inverse
      of the writer up to that replacement; GoJsonIndent: json.MarshalIndent; GoJsonDecode: decoding into Go
      values (repeated and case-folded keys, null, type errors, reused slices);
    - GoLines: the lines of bufio.Scanner, with its length limit; GoService:
      configuration files, sockets, exit codes; GoNet: host:port and CIDR texts.

    camo-simpool (sim.go, pool.go, rotation.go, liveness.go, api.go, main.go):
    - SimPool: [SIM], [pool] and its operations; SimRotation: [rotate], the
      drain goroutine [retire], [targetCount]; SimLiveness: [checkActive],
      [checkDormant], [backoffDuration], and the writes they are made of;
      SimService: the API and the process as a step relation over requests,
      rotations, retirements, and the checks and writes of the liveness
      goroutine, with draws, check results and clocks chosen anew at each step;
      SimMain: the socket in bytes, the inventory file and [main].

    camo-circuit (circuit.go, constructor.go, main.go):
    - CircuitStore: circuits, the store with its token index, session tokens;
      CircuitConstructor: [build] and everything it calls, draws from the
      entropy stream included; CircuitProps: what [build] guarantees;
      CircuitRotation: configuration, [rotate], [checkRotations], the teardown
      goroutine, the socket commands in bytes, and the process as a step
      relation; CircuitSteps: the same process with every query, socket command
      and store a step of its own; CircuitMain: the queries to the gossip agent
      in bytes and [main].

    camo-wireguard (main.go):
    - WireGuard: the manager and its API over interfaces for name resolution and
      the wgctrl client, each with laws and a concrete instance (the table of
      peers moves an allowed network between peers, as the kernel does);
      WireGuardApi: the socket in bytes, the process with its concurrent
      connections, where a command and its answer are two steps, and [main].

    camo-apncore (adapter.go, api.go, main.go, mock/mock.go):
    - ApnMock: the mock core; ApnCore: the adapter interface with its contract,
      the API proved against the contract, the wrapper that discharges it, and
      the event pipeline with its bounded channels; ApnMain: the socket in bytes
      and [main].

    camo-gossip (record.go, keys.go, store.go, peer.go, server.go, heartbeat.go,
    api.go, main.go, config.go):
    - GossipRecord: records, heartbeats, the signed bytes, keys and the key
      file; GossipWire: messages on the wire; GossipStore: store and peers;
      GossipServer: handlers, broadcaster, API and the process as sequences of
      events, each write of an announcement to the shared own record being one;
      GossipNode: the process on connections that carry bytes, the query
      socket in bytes, and [main].

    EndToEnd: the circuit controller fed, in bytes, by the gossip agent.

    ** What the theorems show

    - Gossip: the signed bytes determine every signed field up to UTF-8
      replacement, signing and verification fit, keys persist in their file,
      deduplication keys identify server and second; under every interleaving of
      events, whatever bytes arrive, the records of other servers are stored and
      answered under their own ids and validly signed, and the own record is so
      outside the window of an announcement (in which the API hands it out
      unsigned); each record is forwarded at most once per address; what a node
      with a matching key pair writes its peers verify, and decode as the same
      message within the length limit of a line; a record that arrives is kept
      for storing until it, or another with its key, is stored and queued; which
      lines kill the process, for every key it can start with; maintenance is
      exact and independent of the visiting order; what announcing does to the
      stored own record through the shared pointer; exit codes of start-up.
    - Circuits: what a built circuit looks like, when a construction succeeds
      and refuses, that the sort sorts, that the token index is the inverse of
      the store, that rotation is all or nothing per device and exact per pass,
      that the interleaving of its single commands with teardowns changes
      nothing in the store, what teardown removes.
    - WireGuard: where a request kills the process, and that the commands of
      concurrent connections have one order that explains the device and every
      answer.
    - SIM pool: no SIM serves two sessions in any reachable state, allocation,
      release and statistics fit together, the outcome of a rotation is
      determined by counts for every visiting order, liveness checks and backoff
      are exact; every line of a client is answered in order; the pool a running
      program starts with, and that a SIM listed with a session is lost to it.
    - APN core: the socket refines the adapter contract for every adapter;
      session events arrive in sending order, and delivery terminates.
    - End to end: what the controller reads is what the agent holds, and every
      hop of a circuit is a server whose stored, active record is validly signed
      over the key and address the hop carries.
    - Where the code does not do what its comments or the specification say,
      a theorem states what it does instead.

    ** Conventions, bounds and fuel

    Go strings are byte strings.  An [int] has 64 bits unless a width is given.
    A mutex section is one atomic step; a goroutine started by a handler is a
    step of its own.  A loop over a map takes the order of its keys as an
    argument, and theorems quantify over all orders.  Random bytes come from a
    finite list, so running out of entropy is an error path.  A clock is an
    argument.  What the system returns for a file, a directory, a socket or a
    connection is an argument too, so every error path of start-up is covered.

    The JSON reader has fuel, twice the length of its input: by
    [read_json_complete] that is enough for every text of the grammar, and by
    [read_json_sound] nothing else is read.  It refuses nesting deeper than
    10000, as encoding/json does.  The search for the shortest decimal of a
    float tries 1 to 17 digits; 17 always suffice for a binary64, a float for
    which none did would count as not marshallable.  Every other recursion is
    structural: the search for middle hops recurses on the number of hops left,
    the insertion sort on the index, the backoff loop on the failure count.

    Outside code is an interface with laws: Ed25519, name resolution and wgctrl.
    Each has a concrete instance that satisfies its laws.  The texts of errors
    that come from the Go library are abbreviated.

    ** Not modelled

    Logging, the wait for a signal, the timing of tickers (events may happen at
    any time), the contents of what a failed write leaves on a connection, torn
    reads of a single field that is written without a lock, fused multiply-add
    (the score is computed in two roundings), the stopping of other goroutines
    while one panics, and the deployment files.  An answer of a query API is
    built from one state: that its fields may be read on both sides of a write
    of an announcement is not modelled (each write is a step, and answers are
    given between any two).

    ** Open ends

    What the WireGuard device ends up with when the commands of a rotation and
    of running teardowns interleave, the length of a relayed line (a record that
    was received within the scanner's limit can exceed it when escaped again),
    and the loops of camo-simpool's [run] methods with their tickers as programs
    rather than as free steps. *)

From stdpp Require Import base option list gmap strings fin_maps sorting.
From Stdlib Require Import ZArith Lia Strings.Byte.

(** ** Outcomes of Go calls

    A Go function that returns [(T, error)] either returns a value, returns an
    error, or panics at run time (an index or slice out of range).  The text of
    an error is kept because the servers send it back to their clients. *)

Inductive go (A : Type) : Type :=
| Ok (a : A)
| Err (msg : string)
| Panic.
Arguments Ok {A} a.
Arguments Err {A} msg.
Arguments Panic {A}.

#[export] Instance go_ret : MRet go := λ A a, Ok a.
#[export] Instance go_bind : MBind go := λ A B f m,
  match m with
  | Ok a => f a
  | Err e => Err e
  | Panic => Panic
  end.

#[export] Instance go_fmap : FMap go := λ A B f m, m ≫= λ a, Ok (f a).

#[export] Instance go_eq_dec {A} `{EqDecision A} : EqDecision (go A).
Proof. solve_decision. Defined.

(** [err != nil] and [err == nil] as the code tests them. *)
Definition is_ok {A} (m : go A) : bool :=
  match m with Ok _ => true | _ => false end.

(** ** Entropy

    [crypto/rand.Reader] is a finite list of bytes still to be delivered: a
    read consumes what it delivers, and a read the list cannot satisfy fails
    after delivering what is left, as [io.ReadFull] does.  A computation that
    draws entropy threads the list. *)

Definition entropy := list byte.
Definition M (A : Type) : Type := entropy → go A * entropy.

#[export] Instance M_ret : MRet M := λ A a ent, (Ok a, ent).
#[export] Instance M_bind : MBind M := λ A B f m ent,
  match m ent with
  | (Ok a, ent') => f a ent'
  | (Err e, ent') => (Err e, ent')
  | (Panic, ent') => (Panic, ent')
  end.

Definition raise {A} (msg : string) : M A := λ ent, (Err msg, ent).
Definition lift {A} (m : go A) : M A := λ ent, (m, ent).

(** [rand.Read(b)] on a buffer of [n] zero bytes: the buffer afterwards and
    whether the read succeeded. *)
Definition rand_Read (n : nat) : entropy → list byte * bool * entropy := λ ent,
  (take n ent ++ replicate (n - length ent) x00, bool_decide (n ≤ length ent), drop n ent).

(** ** Machine integers *)

(** Two's complement value of the low [w] bits of [z]. *)
Definition swrap (w z : Z) : Z := (z + 2 ^ (w - 1)) `mod` 2 ^ w - 2 ^ (w - 1).
Definition wrap64 (z : Z) : Z := swrap 64 z.
Definition uwrap32 (z : Z) : Z := z `mod` 2 ^ 32.
Definition max_int64 : Z := 2 ^ 63 - 1.
Definition min_int64 : Z := - 2 ^ 63.

#[export] Instance byte_eq_dec : EqDecision byte := Byte.byte_eq_dec.

Definition byte_Z (b : byte) : Z := Z.of_N (Byte.to_N b).
Definition Z_byte (z : Z) : byte := default x00 (Byte.of_N (Z.to_N (z `mod` 256))).

(** ** Ranging over a Go map

    Go visits the keys of a map once each, in an order it does not specify and
    that may differ from one loop to the next.  A loop therefore takes the
    order as an argument, and theorems hold for every order the run time may
    choose. *)

Definition keys {A} (m : gmap string A) : list string := (map_to_list m).*1.
Definition range_of {A} (m : gmap string A) (it : list string) : Prop := it ≡ₚ keys m.

(** The values a [for _, v := range m] loop sees, in visiting order. *)
Definition range_values {A} (m : gmap string A) (it : list string) : list A :=
  omap (λ k, m !! k) it.

(** The keys whose value satisfies [P], in visiting order. *)
Definition sat {A} (P : A → bool) (o : option A) : bool :=
  match o with Some v => P v | None => false end.
Definition select_keys {A} (P : A → bool) (m : gmap string A) (it : list string) : list string :=
  filter (λ k, sat P (m !! k) = true) it.

(** How many values of the map satisfy [P]. *)
Definition count_values {A} (P : A → bool) (m : gmap string A) : nat :=
  length (filter (λ v, P v = true) (map_to_list m).*2).

(** ** Tactics *)

Create HintDb camo.

(** Case split on the tests of the code: boolean decisions, matches, ifs. *)
Ltac go_split :=
  repeat (first
    [ progress simplify_eq/=
    | case_bool_decide
    | case_decide
    | case_match ]).

(** Linear arithmetic with division and remainder by constants. *)
Ltac divlia := Z.to_euclidean_division_equations; lia.

(** Close a goal after splitting every test. *)
Ltac go_solve := intros; go_split; try done; try lia; eauto with camo.

(** Invert an equation [m ≫= f = Ok x] or [m ≫= f = (Ok x, _)]. *)
Ltac go_inv H :=
  lazymatch type of H with
  | mbind _ ?m = Ok _ =>
      let E := fresh "E" in
      destruct m eqn:E; simpl in H; try discriminate H
  end.

(** ** Shared lemmas *)

(** A successful sequence is two successful computations. *)
Lemma M_bind_Ok {A B} (m : M A) (f : A → M B) ent b ent' :
  (m ≫= f) ent = (Ok b, ent') → ∃ a ent1, m ent = (Ok a, ent1) ∧ f a ent1 = (Ok b, ent').
Proof. unfold mbind, M_bind. destruct (m ent) as [[a|e|] ent1]; intros; [eauto|by simplify_eq..]. Qed.

Lemma M_bind_run {A B} (m : M A) (f : A → M B) ent a ent1 :
  m ent = (Ok a, ent1) → (m ≫= f) ent = f a ent1.
Proof. intros H. unfold mbind, M_bind. by rewrite H. Qed.

(** A subset without repetitions is no longer than the list that holds it. *)
Lemma NoDup_subset_length {A} (l k : list A) : NoDup l → (∀ x, x ∈ l → x ∈ k) → length l ≤ length k.
Proof. intros Hl Hs. apply submseteq_length, NoDup_submseteq; [done|]. intros x. apply Hs. Qed.

Lemma filter_all {A} (P : A → Prop) `{∀ x, Decision (P x)} l : Forall P l → filter P l = l.
Proof. induction 1 as [|x l Hx _ IH]; [done|]. by rewrite filter_cons_True, IH by done. Qed.

Lemma lor_bound k x y : (0 ≤ k → 0 ≤ x < 2 ^ k → 0 ≤ y < 2 ^ k → 0 ≤ Z.lor x y < 2 ^ k)%Z.
Proof.
  intros Hk Hx Hy. split; [apply Z.lor_nonneg; lia|].
  destruct (decide (Z.lor x y = 0)%Z) as [->|Hne]; [lia|].
  assert (0 ≤ Z.lor x y)%Z by (apply Z.lor_nonneg; lia).
  apply Z.log2_lt_pow2; [lia|]. rewrite Z.log2_lor by lia.
  destruct (decide (x = 0)%Z) as [->|]; [|destruct (decide (y = 0)%Z) as [->|]].
  - rewrite Z.lor_0_l in Hne. apply Z.max_lub_lt; [|apply Z.log2_lt_pow2; lia].
    destruct (decide (k = 0)%Z); [subst; lia|simpl; lia].
  - apply Z.max_lub_lt; [apply Z.log2_lt_pow2; lia|].
    destruct (decide (k = 0)%Z); [subst; lia|simpl; lia].
  - apply Z.max_lub_lt; apply Z.log2_lt_pow2; lia.
Qed.

Lemma swrap_small w z : (0 < w → - 2 ^ (w - 1) ≤ z < 2 ^ (w - 1) → swrap w z = z)%Z.
Proof.
  intros Hw Hz. unfold swrap.
  assert (2 ^ w = 2 * 2 ^ (w - 1))%Z by (rewrite <-Z.pow_succ_r by lia; f_equal; lia).
  rewrite Z.mod_small; lia.
Qed.

Lemma range_of_keys {A} (m : gmap string A) : range_of m (keys m).
Proof. unfold range_of. reflexivity. Qed.
#[export] Hint Resolve range_of_keys : camo.

Lemma range_of_elem {A} (m : gmap string A) it k :
  range_of m it → k ∈ it ↔ is_Some (m !! k).
Proof.
  intros Hit. unfold range_of in Hit. rewrite Hit. unfold keys.
  rewrite list_elem_of_fmap. split.
  - intros [[k' v] [-> Hin]]. apply elem_of_map_to_list in Hin. by exists v.
  - intros [v Hv]. exists (k, v). split; [done|]. by apply elem_of_map_to_list.
Qed.

Lemma range_of_NoDup {A} (m : gmap string A) it : range_of m it → NoDup it.
Proof. intros Hit. unfold range_of in Hit. rewrite Hit. apply NoDup_fst_map_to_list. Qed.

Lemma range_of_length {A} (m : gmap string A) it : range_of m it → length it = size m.
Proof.
  intros Hit. apply Permutation_length in Hit. rewrite Hit.
  unfold keys. by rewrite length_fmap, length_map_to_list.
Qed.

(** A loop over a map sees its values, each once. *)
Lemma range_values_perm {A} (m : gmap string A) it :
  range_of m it → range_values m it ≡ₚ (map_to_list m).*2.
Proof.
  intros Hit. unfold range_values. rewrite Hit. unfold keys.
  assert (∀ l : list (string * A), (∀ k v, (k, v) ∈ l → m !! k = Some v) →
    omap (λ k, m !! k) l.*1 = l.*2) as Hl.
  { induction l as [|[k v] l IH]; intros Hm; [done|]. csimpl. rewrite (Hm k v) by left.
    f_equal. apply IH. intros k' v' ?. apply Hm. by right. }
  rewrite Hl; [done|]. intros k v. apply elem_of_map_to_list.
Qed.

Lemma sat_true {A} (P : A → bool) (o : option A) :
  sat P o = true ↔ ∃ v, o = Some v ∧ P v = true.
Proof. destruct o; simpl; split; [eauto|intros (? & ? & ?); by simplify_eq|done|by intros (? & ? & ?)]. Qed.

Lemma elem_of_select_keys {A} (P : A → bool) (m : gmap string A) it k :
  k ∈ select_keys P m it ↔ k ∈ it ∧ ∃ v, m !! k = Some v ∧ P v = true.
Proof. unfold select_keys. rewrite list_elem_of_filter, sat_true. tauto. Qed.

Lemma select_keys_NoDup {A} (P : A → bool) (m : gmap string A) it :
  NoDup it → NoDup (select_keys P m it).
Proof. apply NoDup_filter. Qed.

(** The number of selected keys does not depend on the order of the loop. *)
Lemma length_select_keys {A} (P : A → bool) (m : gmap string A) it :
  range_of m it → length (select_keys P m it) = count_values P m.
Proof.
  intros Hit. unfold select_keys, count_values. rewrite Hit. unfold keys.
  assert (∀ l : list (string * A), (∀ k v, (k, v) ∈ l → m !! k = Some v) →
    length (filter (λ k, sat P (m !! k) = true) l.*1) = length (filter (λ v, P v = true) l.*2)) as Hl.
  { induction l as [|[k v] l IH]; intros Hm; [done|]. rewrite !fmap_cons, !filter_cons. simpl.
    rewrite (Hm k v) by left. simpl.
    case_decide; simpl; rewrite IH; naive_solver (set_solver). }
  apply Hl. intros k v. apply elem_of_map_to_list.
Qed.

Lemma count_values_insert_None {A} (P : A → bool) (m : gmap string A) k v :
  m !! k = None → count_values P (<[k:=v]> m) = Nat.b2n (P v) + count_values P m.
Proof.
  intros Hk. unfold count_values. rewrite map_to_list_insert by done.
  rewrite fmap_cons, filter_cons. simpl. case_decide as Hd; simpl.
  - by rewrite Hd.
  - by destruct (P v).
Qed.

(** Overwriting one value moves the count by the two tests. *)
Lemma count_values_insert {A} (P : A → bool) (m : gmap string A) k v v' :
  m !! k = Some v →
  count_values P (<[k:=v']> m) + Nat.b2n (P v) = count_values P m + Nat.b2n (P v').
Proof.
  intros Hk. rewrite <-(insert_id m k v) at 2 by done.
  rewrite <-(insert_delete_eq m k v'), <-(insert_delete_eq m k v).
  rewrite !count_values_insert_None by apply lookup_delete_eq. lia.
Qed.

Lemma count_values_pos {A} (P : A → bool) (m : gmap string A) :
  count_values P m ≠ 0 ↔ ∃ k v, m !! k = Some v ∧ P v = true.
Proof.
  rewrite <-(length_select_keys P m (keys m)) by apply range_of_keys.
  split.
  - destruct (select_keys P m (keys m)) as [|k l] eqn:E; [done|intros _].
    assert (k ∈ select_keys P m (keys m)) as Hk by (rewrite E; left).
    apply elem_of_select_keys in Hk as (_ & v & ? & ?). by exists k, v.
  - intros (k & v & Hk & Hv) Hl. apply nil_length_inv in Hl.
    assert (k ∈ select_keys P m (keys m)) as Hin; [|rewrite Hl in Hin; by apply elem_of_nil in Hin].
    apply elem_of_select_keys. split; [|eauto].
    apply (range_of_elem m); [apply range_of_keys|eauto].
Qed.

Lemma count_values_mono {A} (P Q : A → bool) (m : gmap string A) :
  (∀ v, P v = true → Q v = true) → count_values P m ≤ count_values Q m.
Proof.
  intros HPQ. unfold count_values. induction (map_to_list m).*2 as [|v l IH]; [done|].
  rewrite !filter_cons. do 2 case_decide; simpl; naive_solver lia.
Qed.

Lemma count_values_true {A} (m : gmap string A) : count_values (λ _, true) m = size m.
Proof.
  unfold count_values. rewrite <-length_map_to_list.
  induction (map_to_list m) as [|[k v] l IH]; [done|].
  rewrite fmap_cons, filter_cons_True by done. simpl. by rewrite IH.
Qed.

(** A loop that visits distinct keys and changes only the visited one. *)
Lemma foldl_alter_lookup {A} (g : string → A → A) ks (m : gmap string A) j :
  NoDup ks →
  foldl (λ m k, alter (g k) k m) m ks !! j =
  (if decide (j ∈ ks) then g j <$> m !! j else m !! j).
Proof.
  revert m. induction ks as [|k ks IH]; intros m Hnd; cbn [foldl].
  { by rewrite decide_False by apply not_elem_of_nil. }
  apply NoDup_cons in Hnd as [Hk Hnd]. rewrite IH by done.
  destruct (decide (k = j)) as [->|Hkj].
  - rewrite decide_False by done. rewrite decide_True by left. by rewrite lookup_alter_eq.
  - rewrite lookup_alter_ne by done.
    destruct (decide (j ∈ ks)); destruct (decide (j ∈ k :: ks)) as [Hj|Hj]; try done.
    + exfalso. apply Hj. by right.
    + apply elem_of_cons in Hj. intuition congruence.
Qed.

(** ** Time

    A [time.Time] is the number of nanoseconds since the Unix epoch, a
    [time.Duration] a number of nanoseconds in 64 bits. *)

Definition Second : Z := 1000000000.
Definition Hour : Z := 3600 * Second.

(** [t.Sub(u)] saturates at the ends of the [Duration] range. *)
Definition time_Sub (t u : Z) : Z := Z.max min_int64 (Z.min max_int64 (t - u)).

(** [t.After(u)] *)
Definition time_After (t u : Z) : bool := bool_decide (u < t)%Z.
