(* ===== verification/GoFloat.v ===== *)
(** * [float64] as the services use it

    IEEE 754 binary64 by the Standard Library's executable specification:
    multiplication, addition, comparison, and the conversions [float64(i)] and
    [int(f)].  The lemmas say that the arithmetic of [score] never makes a NaN
    and that comparison of numbers that are not NaN is a total preorder. *)

From stdpp Require Import base option list.
From Stdlib Require Import ZArith Lia Floats.SpecFloat.

Local Open Scope Z_scope.

Definition float64 := spec_float.

Definition fmul : float64 → float64 → float64 := SFmul 53 1024.
Definition fadd : float64 → float64 → float64 := SFadd 53 1024.
Definition fgt (a b : float64) : bool := SFltb b a.

(** [float64(i)] *)
Definition float64_of_int (z : Z) : float64 := binary_normalize 53 1024 z 0 false.

(** [int(f)]: the fraction is discarded; a value [int] cannot represent gives
    the smallest integer, as the amd64 conversion instruction does. *)
Definition int_of_float64 (f : float64) : Z :=
  match f with
  | S754_zero _ => 0
  | S754_infinity _ | S754_nan => - 2 ^ 63
  | S754_finite s m e =>
      let a := if 0 <=? e then Z.pos m * 2 ^ e else Z.pos m / 2 ^ (- e) in
      let v := if s then - a else a in
      if (- 2 ^ 63 <=? v) && (v <? 2 ^ 63) then v else - 2 ^ 63
  end.

(** The constant [0.35] rounded to binary64. *)
Definition float64_0_35 : float64 := S754_finite false 6305039478318694 (-54).

Definition is_nan (f : float64) : bool :=
  match f with S754_nan => true | _ => false end.

(** A number with neither NaN nor infinity: what a JSON number decodes to. *)
Definition is_finite (f : float64) : bool :=
  match f with S754_zero _ | S754_finite _ _ _ => true | _ => false end.

(** ** Order

    A number that is not NaN is ranked by a triple; comparing two numbers is
    comparing the triples lexicographically. *)

Definition frank (f : float64) : Z * Z * Z :=
  match f with
  | S754_nan => (0, 0, 0)
  | S754_infinity s => (if s then -2 else 2, 0, 0)
  | S754_zero _ => (0, 0, 0)
  | S754_finite false m e => (1, e, Z.pos m)
  | S754_finite true m e => (-1, - e, - Z.pos m)
  end.

Definition lex_lt (x y : Z * Z * Z) : Prop :=
  let '(x1, x2, x3) := x in let '(y1, y2, y3) := y in
  x1 < y1 ∨ (x1 = y1 ∧ (x2 < y2 ∨ (x2 = y2 ∧ x3 < y3))).

Lemma lex_lt_trans x y z : lex_lt x y → lex_lt y z → lex_lt x z.
Proof. destruct x as [[??]?], y as [[??]?], z as [[??]?]; simpl; lia. Qed.

Lemma lex_lt_neg_trans x y z : ¬ lex_lt x y → ¬ lex_lt y z → ¬ lex_lt x z.
Proof. destruct x as [[??]?], y as [[??]?], z as [[??]?]; simpl; lia. Qed.

Lemma SFltb_rank a b :
  is_nan a = false → is_nan b = false → SFltb a b = true ↔ lex_lt (frank a) (frank b).
Proof.
  intros Ha Hb. unfold SFltb, SFcompare.
  destruct a as [[]|[]| |[] m e], b as [[]|[]| |[] m' e']; try discriminate; simpl;
    try (split; intros; first [discriminate | reflexivity | lia]).
  - change (Pos.compare_cont Eq m m') with (Pos.compare m m').
    destruct (Z.compare_spec e e'), (Pos.compare_spec m m'); simpl;
      (split; intros; first [discriminate | reflexivity | lia]).
  - change (Pos.compare_cont Eq m m') with (Pos.compare m m').
    destruct (Z.compare_spec e e'), (Pos.compare_spec m m'); simpl;
      (split; intros; first [discriminate | reflexivity | lia]).
Qed.

(** Comparison is transitive through its negation: [a <= b] and [b <= c] give
    [a <= c]. *)
Lemma fgt_neg_trans a b c :
  is_nan a = false → is_nan b = false → is_nan c = false →
  fgt b a = false → fgt c b = false → fgt c a = false.
Proof.
  unfold fgt. intros Ha Hb Hc H1 H2.
  apply not_true_iff_false. rewrite SFltb_rank by done.
  apply not_true_iff_false in H1, H2. rewrite SFltb_rank in H1, H2 by done.
  eauto using lex_lt_neg_trans.
Qed.

Lemma fgt_asym a b : fgt a b = true → fgt b a = false.
Proof.
  unfold fgt. intros H.
  assert (is_nan a = false ∧ is_nan b = false) as [Ha Hb].
  { unfold SFltb, SFcompare in H. by destruct a, b. }
  apply SFltb_rank in H; [|done..]. apply not_true_iff_false.
  rewrite SFltb_rank by done. intros H'.
  pose proof (lex_lt_trans _ _ _ H H') as Hc. revert Hc.
  destruct (frank b) as [[??]?]; simpl. lia.
Qed.

(** ** Rounding never produces NaN *)

Lemma shr_1_nonneg r : 0 ≤ shr_m r → 0 ≤ shr_m (shr_1 r).
Proof. destruct r as [[|[]|[]] ??]; simpl; lia. Qed.

Lemma iter_pos_nonneg p r : 0 ≤ shr_m r → 0 ≤ shr_m (iter_pos shr_1 p r).
Proof. revert r. induction p; simpl; intros; eauto using shr_1_nonneg. Qed.

Lemma shr_fexp_nonneg m e l : 0 ≤ m → 0 ≤ shr_m (shr_fexp 53 1024 m e l).1.
Proof.
  intros Hm. unfold shr_fexp, shr.
  assert (0 ≤ shr_m (shr_record_of_loc m l)) by (by destruct l as [|[]]).
  destruct (_ - _)%Z; simpl; auto using iter_pos_nonneg.
Qed.

Lemma binary_round_aux_not_nan s m e l :
  0 ≤ m → is_nan (binary_round_aux 53 1024 s m e l) = false.
Proof.
  intros Hm. unfold binary_round_aux.
  pose proof (shr_fexp_nonneg m e l Hm) as H1.
  destruct (shr_fexp 53 1024 m e l) as [r1 e1]. simpl in H1.
  assert (0 ≤ round_nearest_even (shr_m r1) (loc_of_shr_record r1)) as H2.
  { unfold round_nearest_even. repeat case_match; lia. }
  pose proof (shr_fexp_nonneg _ e1 loc_Exact H2) as H3.
  destruct (shr_fexp 53 1024 _ e1 loc_Exact) as [r2 e2]. simpl in H3.
  destruct (shr_m r2); [done| |lia]. by case_match.
Qed.

Lemma binary_normalize_not_nan m e s : is_nan (binary_normalize 53 1024 m e s) = false.
Proof.
  unfold binary_normalize, binary_round.
  destruct m; [done|destruct (shl_align _ _ _)..]; by apply binary_round_aux_not_nan.
Qed.

Lemma float64_of_int_not_nan z : is_nan (float64_of_int z) = false.
Proof. apply binary_normalize_not_nan. Qed.

Lemma fmul_not_nan a b : is_finite a = true → is_finite b = true → is_nan (fmul a b) = false.
Proof. destruct a, b; simpl; try done; intros; by apply binary_round_aux_not_nan. Qed.

(** Adding a finite number to anything that is not NaN. *)
Lemma fadd_not_nan a b : is_nan a = false → is_finite b = true → is_nan (fadd a b) = false.
Proof.
  destruct a as [s|s| |s m e], b as [s'|s'| |s' m' e']; simpl; try done;
    intros; [by destruct s, s'|].
  unfold fadd. simpl. apply binary_normalize_not_nan.
Qed.

(** ** [float64(i)] is finite for every 64-bit integer *)

Lemma digits2_pos_bound p : 2 ^ (Z.pos (digits2_pos p) - 1) ≤ Z.pos p.
Proof.
  induction p; simpl; [| |done];
    replace (Z.pos (Pos.succ (digits2_pos p)) - 1)
      with (Z.succ (Z.pos (digits2_pos p) - 1)) by lia;
    rewrite Z.pow_succ_r by lia; lia.
Qed.

Lemma Zdigits2_le z k : 0 ≤ k → 0 ≤ z < 2 ^ k → Zdigits2 z ≤ k.
Proof.
  intros Hk Hz. destruct z as [|p|p]; simpl; [done| |lia].
  pose proof (digits2_pos_bound p).
  assert (2 ^ (Z.pos (digits2_pos p) - 1) < 2 ^ k) as Hlt by lia.
  apply Z.pow_lt_mono_r_iff in Hlt; lia.
Qed.

Lemma shr_1_le r : 0 ≤ shr_m r → shr_m (shr_1 r) ≤ shr_m r.
Proof. destruct r as [[|[]|[]] ??]; simpl; lia. Qed.

Lemma iter_pos_le p r : 0 ≤ shr_m r → shr_m (iter_pos shr_1 p r) ≤ shr_m r.
Proof.
  revert r. induction p as [p IH|p IH|]; simpl; intros r Hr; [| |by apply shr_1_le].
  - pose proof (shr_1_nonneg r Hr). pose proof (shr_1_le r Hr).
    pose proof (iter_pos_nonneg p (shr_1 r)). pose proof (IH (shr_1 r)).
    pose proof (IH (iter_pos shr_1 p (shr_1 r))). lia.
  - pose proof (iter_pos_nonneg p r Hr). pose proof (IH r Hr).
    pose proof (IH (iter_pos shr_1 p r)). lia.
Qed.

Lemma shr_fexp_bound m e l k c :
  0 ≤ m < 2 ^ k → 0 ≤ k ≤ 1000 → -1000 ≤ e ≤ c → k + e - 53 ≤ c →
  0 ≤ shr_m (shr_fexp 53 1024 m e l).1 ≤ m ∧ e ≤ (shr_fexp 53 1024 m e l).2 ≤ c.
Proof.
  intros Hm Hk He Hc. pose proof (shr_fexp_nonneg m e l).
  pose proof (Zdigits2_le m k) as Hd.
  assert (shr_m (shr_record_of_loc m l) = m) as Hr by (by destruct l as [|[]]).
  unfold shr_fexp, shr in *.
  pose proof (iter_pos_le (Z.to_pos (fexp 53 1024 (Zdigits2 m + e) - e)) (shr_record_of_loc m l)).
  unfold fexp, emin in *. destruct (_ - e) eqn:E; simpl in *; lia.
Qed.

Lemma binary_round_aux_finite s m e l k :
  0 ≤ m < 2 ^ k → 0 ≤ k ≤ 500 → -500 ≤ e ≤ 0 → is_finite (binary_round_aux 53 1024 s m e l) = true.
Proof.
  intros Hm Hk He. pose proof (binary_round_aux_not_nan s m e l).
  unfold binary_round_aux in *.
  pose proof (shr_fexp_bound m e l k (Z.max 0 (k - 53))) as H1.
  destruct (shr_fexp 53 1024 m e l) as [r1 e1]. simpl in H1.
  assert (0 ≤ round_nearest_even (shr_m r1) (loc_of_shr_record r1) < 2 ^ (Z.succ k)) as H2.
  { rewrite Z.pow_succ_r by lia. unfold round_nearest_even. repeat case_match; lia. }
  pose proof (shr_fexp_bound _ e1 loc_Exact (Z.succ k) 960 H2) as H3.
  destruct (shr_fexp 53 1024 _ e1 loc_Exact) as [r2 e2]. simpl in *.
  destruct (shr_m r2); [done| |lia].
  replace (e2 <=? 1024 - 53) with true by lia. done.
Qed.

Lemma shl_align_shape m e e' :
  shl_align m e e' = (m, e) ∨
  (e' < e ∧ shl_align m e e' = (Pos.iter xO m (Z.to_pos (e - e')), e')).
Proof.
  unfold shl_align. destruct (e' - e) eqn:E; [by left..|right].
  split; [lia|]. by replace (Z.to_pos (e - e')) with p by lia.
Qed.

Lemma Pos_iter_xO m d : Z.pos (Pos.iter xO m d) = Z.pos m * 2 ^ Z.pos d.
Proof.
  revert m. induction d using Pos.peano_ind; intros m; [simpl; lia|].
  rewrite Pos.iter_succ. change (Z.pos (xO (Pos.iter xO m d))) with (2 * Z.pos (Pos.iter xO m d)).
  rewrite IHd, Pos2Z.inj_succ, Z.pow_succ_r by lia. lia.
Qed.

Lemma float64_of_int_finite z : - 2 ^ 63 ≤ z < 2 ^ 63 → is_finite (float64_of_int z) = true.
Proof.
  assert (∀ s p, Z.pos p ≤ 2 ^ 63 → is_finite (binary_round 53 1024 s p 0) = true) as Hr.
  { intros s p Hp. unfold binary_round.
    pose proof (Zdigits2_le (Z.pos p) 64) as Hd. simpl in Hd.
    destruct (shl_align_shape p 0 (fexp 53 1024 (Z.pos (digits2_pos p) + 0))) as [->|[Hlt ->]].
    - apply (binary_round_aux_finite _ _ _ _ 64); lia.
    - unfold fexp, emin in *.
      set (d := Z.to_pos _). assert (Z.pos d ≤ 53) by (subst d; lia).
      apply (binary_round_aux_finite _ _ _ _ 120); [|lia..].
      rewrite Pos_iter_xO. split; [lia|].
      assert (2 ^ Z.pos d ≤ 2 ^ 53) by (apply Z.pow_le_mono_r; lia).
      change (2 ^ 120) with (2 ^ 63 * 2 ^ 57). nia. }
  intros Hz. unfold float64_of_int, binary_normalize.
  destruct z; [done|apply Hr; lia..].
Qed.
