(* ===== verification/GoText.v ===== *)
(** * Text

    Characters, decimal numbers as [%d] and [strconv] print them, and the
    cancellation lemmas the readers of concatenated text need. *)

From Stdlib Require Import ZArith Lia Ascii String.
From stdpp Require Import base option list strings pretty.
From S2P Require Import Prelude.

Definition is_digit (c : ascii) : bool :=
  (48 <=? nat_of_ascii c)%nat && (nat_of_ascii c <=? 57)%nat.

Definition digits (s : string) : Prop := Forall (λ c, is_digit c = true) (list_ascii_of_string s).

Lemma list_ascii_of_string_app s t :
  list_ascii_of_string (s ++ t) = list_ascii_of_string s ++ list_ascii_of_string t.
Proof. induction s as [|c s IH]; [done|]. simpl. by rewrite IH. Qed.

Lemma list_ascii_of_string_inj s t : list_ascii_of_string s = list_ascii_of_string t → s = t.
Proof. intros E. rewrite <-(string_of_list_ascii_of_string s), E. apply string_of_list_ascii_of_string. Qed.

Lemma string_length_app (a b : string) : String.length (a ++ b) = String.length a + String.length b.
Proof. induction a as [|x a IH]; [done|]. exact (f_equal S IH). Qed.

Lemma string_app_assoc (a b c : string) : ((a ++ b) ++ c = a ++ b ++ c)%string.
Proof. induction a as [|x a IH]; [done|]. exact (f_equal (String x) IH). Qed.

(** Concatenations whose parts have equal lengths. *)
Lemma app_cancel_length (a b k1 k2 : string) :
  String.length a = String.length b → (a ++ k1 = b ++ k2)%string → a = b ∧ k1 = k2.
Proof.
  revert b. induction a as [|c a IH]; intros [|c' b] Hl E; try done.
  injection Hl as Hl. injection E as <- E. by destruct (IH b Hl E) as [-> ->].
Qed.

Lemma app_cancel_suffix (a b k1 k2 : string) :
  String.length k1 = String.length k2 → (a ++ k1 = b ++ k2)%string → a = b ∧ k1 = k2.
Proof.
  intros Hl E. apply app_cancel_length; [|done].
  apply (f_equal String.length) in E. rewrite !string_length_app in E. lia.
Qed.

(** A literal separator. *)
Lemma char_cancel c k1 k2 : (String c "" ++ k1 = String c "" ++ k2)%string → k1 = k2.
Proof. by intros [= E]. Qed.

(** Two runs of characters of a class, each followed by a character outside the
    class or by nothing, are equal together with what follows. *)
Lemma run_cancel (P : ascii → bool) (l1 l2 k1 k2 : list ascii) :
  Forall (λ c, P c = true) l1 → Forall (λ c, P c = true) l2 →
  (∀ c k, k1 = c :: k → P c = false) → (∀ c k, k2 = c :: k → P c = false) →
  l1 ++ k1 = l2 ++ k2 → l1 = l2 ∧ k1 = k2.
Proof.
  intros H1. revert l2. induction H1 as [|c l1 Hc _ IH]; intros l2 H2 Hk1 Hk2 E.
  - destruct H2 as [|c l2 Hc _]; [done|]. simpl in E. rewrite (Hk1 c (l2 ++ k2)) in Hc; done.
  - destruct H2 as [|c' l2 Hc' H2]; simpl in E.
    + rewrite (Hk2 c (l1 ++ k1)) in Hc; done.
    + injection E as <- E. destruct (IH l2 H2 Hk1 Hk2 E) as [-> ->]. done.
Qed.

(** ** Decimal numbers *)

Lemma pretty_N_char_digit x : is_digit (pretty_N_char x) = true.
Proof. unfold pretty_N_char. by repeat case_match. Qed.

Lemma pretty_N_go_digits x s : digits s → digits (pretty_N_go x s).
Proof.
  revert s. induction (N.lt_wf_0 x) as [x _ IH]; intros s Hs.
  destruct (decide (0 < x)%N) as [Hx|Hx].
  - rewrite pretty_N_go_step by done. apply IH; [by apply N.div_lt|].
    constructor; [apply pretty_N_char_digit|done].
  - assert (x = 0%N) as -> by lia. by rewrite pretty_N_go_0.
Qed.

Lemma pretty_N_digits (n : N) : digits (pretty n).
Proof.
  unfold pretty, pretty_N. case_decide; [repeat constructor|]. apply pretty_N_go_digits. constructor.
Qed.

Lemma pretty_N_go_nonempty x s : s ≠ "" → pretty_N_go x s ≠ "".
Proof.
  revert s. induction (N.lt_wf_0 x) as [x _ IH]; intros s Hs.
  destruct (decide (0 < x)%N) as [Hx|Hx].
  - rewrite pretty_N_go_step by done. apply IH; [by apply N.div_lt|done].
  - assert (x = 0%N) as -> by lia. by rewrite pretty_N_go_0.
Qed.

Lemma pretty_N_nonempty (n : N) : pretty n ≠ "".
Proof.
  unfold pretty, pretty_N. case_decide; [done|]. rewrite pretty_N_go_step by lia. by apply pretty_N_go_nonempty.
Qed.

Lemma pretty_Z_nonneg z : (0 ≤ z)%Z → digits (pretty z).
Proof. intros Hz. destruct z; [repeat constructor|apply pretty_N_digits|lia]. Qed.

(** Decimal text is read back up to the first non-digit. *)
Lemma decimal_cancel (x y : Z) (k1 k2 : string) :
  (0 ≤ x)%Z → (0 ≤ y)%Z →
  (∀ c k, k1 = String c k → is_digit c = false) → (∀ c k, k2 = String c k → is_digit c = false) →
  (pretty x ++ k1 = pretty y ++ k2)%string → x = y ∧ k1 = k2.
Proof.
  intros Hx Hy H1 H2 E. apply (f_equal list_ascii_of_string) in E.
  rewrite !list_ascii_of_string_app in E.
  apply (run_cancel is_digit) in E as [E1 E2]; [|by apply pretty_Z_nonneg..| |].
  - split; [by apply (inj pretty), list_ascii_of_string_inj|by apply list_ascii_of_string_inj].
  - intros c k Ek. destruct k1 as [|c1 k1]; [done|]. injection Ek as -> _. eauto.
  - intros c k Ek. destruct k2 as [|c2 k2]; [done|]. injection Ek as -> _. eauto.
Qed.

(** The value and the length of decimal text. *)
Definition char_value (c : ascii) : N := N_of_ascii c - 48.

Fixpoint text_value (acc : N) (s : string) : N :=
  match s with EmptyString => acc | String c s => text_value (10 * acc + char_value c) s end.

Lemma char_value_pretty x : (x < 10)%N → char_value (pretty_N_char x) = x.
Proof.
  intros Hx. assert (x = 0 ∨ x = 1 ∨ x = 2 ∨ x = 3 ∨ x = 4 ∨ x = 5 ∨ x = 6 ∨ x = 7 ∨ x = 8 ∨ x = 9)%N as H by lia.
  by repeat (destruct H as [->|H]; [done|]); subst.
Qed.

Lemma pretty_N_go_value x s : text_value 0 (pretty_N_go x s) = text_value x s.
Proof.
  revert s. induction (N.lt_wf_0 x) as [x _ IH]; intros s.
  destruct (decide (0 < x)%N) as [Hx|Hx].
  - rewrite pretty_N_go_step by done. rewrite IH by (by apply N.div_lt). cbn [text_value].
    rewrite char_value_pretty by (apply N.mod_lt; lia). by rewrite <-N.div_mod by lia.
  - assert (x = 0%N) as -> by lia. by rewrite pretty_N_go_0.
Qed.

Lemma pretty_N_value (x : N) : text_value 0 (pretty x) = x.
Proof. unfold pretty, pretty_N. case_decide as Hx; [by subst|]. apply pretty_N_go_value. Qed.

Lemma pretty_N_go_length (k : nat) x s :
  (x < 10 ^ N.of_nat k)%N → String.length (pretty_N_go x s) ≤ k + String.length s.
Proof.
  revert x s. induction k as [|k IH]; intros x s Hx.
  - assert (x = 0%N) as -> by (simpl in Hx; lia). rewrite pretty_N_go_0. lia.
  - destruct (decide (0 < x)%N) as [H0|H0].
    + rewrite pretty_N_go_step by done. rewrite Nat2N.inj_succ, N.pow_succ_r' in Hx.
      etrans; [apply IH|simpl; lia]. apply N.Div0.div_lt_upper_bound; lia.
    + assert (x = 0%N) as -> by lia. rewrite pretty_N_go_0. lia.
Qed.

Lemma pretty_N_length (k : nat) (x : N) :
  (x < 10 ^ N.of_nat (S k))%N → String.length (pretty x) ≤ S k.
Proof.
  intros Hx. unfold pretty, pretty_N. case_decide; [simpl; lia|].
  etrans; [by apply (pretty_N_go_length (S k))|simpl; lia].
Qed.
