(* ===== verification/GoUtf8.v ===== *)
(** * UTF-8 as Go reads it

    [utf8.DecodeRune] on byte strings, the validity of a text, the coercion of
    an arbitrary byte string to valid UTF-8 that [encoding/json] applies to
    strings, and the encoding of a code point. *)

From Stdlib Require Import ZArith Lia Ascii String.
From stdpp Require Import base option list strings.
From S2P Require Import Prelude GoText.

(** ** Runes *)

Definition within (lo hi : N) (c : ascii) : bool := (lo <=? N_of_ascii c)%N && (N_of_ascii c <=? hi)%N.

(** A continuation byte. *)
Definition cont (c : ascii) : bool := within 128 191 c.

(** The first two bytes of a rune of three bytes, neither overlong nor a
    surrogate, and of one of four bytes, neither overlong nor above U+10FFFF. *)
Definition lead3 (a b : ascii) : bool :=
  (within 224 224 a && within 160 191 b) || (within 225 236 a && cont b) ||
  (within 237 237 a && within 128 159 b) || (within 238 239 a && cont b).
Definition lead4 (a b : ascii) : bool :=
  (within 240 240 a && within 144 191 b) || (within 241 243 a && cont b) || (within 244 244 a && within 128 143 b).

(** The number of bytes of the rune a text starts with; 0 when there is none. *)
Definition rune_size (l : list ascii) : nat :=
  match l with
  | [] => 0
  | a :: l =>
      if within 0 127 a then 1 else
      match l with
      | [] => 0
      | b :: l =>
          if within 194 223 a && cont b then 2 else
          match l with
          | [] => 0
          | c :: l =>
              if lead3 a b && cont c then 3 else
              match l with
              | [] => 0
              | d :: _ => if lead4 a b && cont c && cont d then 4 else 0
              end
          end
      end
  end.

(** [utf8.Valid]; the first argument counts the bytes of the current rune still
    to come. *)
Fixpoint valid_from (k : nat) (l : list ascii) : bool :=
  match l with
  | [] => true
  | _ :: t =>
      match k with
      | S k => valid_from k t
      | O => match rune_size l with O => false | S n => valid_from n t end
      end
  end.
Definition valid_utf8 (l : list ascii) : bool := valid_from 0 l.

(** U+FFFD *)
Definition replacement : list ascii := ["239"; "191"; "189"]%char.

(** Every byte that starts no rune becomes U+FFFD. *)
Fixpoint coerce_from (k : nat) (l : list ascii) : list ascii :=
  match l with
  | [] => []
  | a :: t =>
      match k with
      | S k => a :: coerce_from k t
      | O => match rune_size l with O => replacement ++ coerce_from 0 t | S n => a :: coerce_from n t end
      end
  end.
Definition coerce (l : list ascii) : list ascii := coerce_from 0 l.

Lemma coerce_from_id k l : valid_from k l = true → coerce_from k l = l.
Proof.
  revert k. induction l as [|a l IH]; intros [|k]; cbn [valid_from coerce_from]; [done..| |].
  - destruct (rune_size (a :: l)) as [|n]; [done|]. intros Hv. by rewrite IH.
  - intros Hv. by rewrite IH.
Qed.

(** Valid text is left alone. *)
Lemma coerce_id l : valid_utf8 l = true → coerce l = l.
Proof. apply coerce_from_id. Qed.

(** The rune at the head is settled by its own bytes. *)
Lemma rune_size_prefix n l l' : rune_size l = S n → take (S n) l = take (S n) l' → rune_size l' = S n.
Proof.
  destruct l as [|a [|b [|c [|d l]]]]; cbn [rune_size]; repeat case_match; try done;
    intros [= <-]; destruct l' as [|a' [|b' [|c' [|d' l']]]]; cbn [take]; try done;
    intros [= ]; subst; cbn [rune_size]; repeat (case_match; try congruence).
Qed.

Lemma rune_size_length l : rune_size l ≤ length l.
Proof. destruct l as [|a [|b [|c [|d l]]]]; cbn [rune_size length]; repeat case_match; lia. Qed.

Lemma coerce_from_take n l : take n (coerce_from n l) = take n l.
Proof. revert n. induction l as [|a l IH]; intros [|n]; [done..|]. cbn. by rewrite IH. Qed.

Lemma coerce_from_valid k l : valid_from k (coerce_from k l) = true.
Proof.
  revert k. induction l as [|a l IH]; intros [|k]; cbn [coerce_from]; [done..| |cbn; apply IH].
  destruct (rune_size (a :: l)) as [|n] eqn:E.
  - exact (IH 0).
  - cbn [valid_from]. rewrite (rune_size_prefix n (a :: l)); [apply IH|done|].
    cbn [take]. by rewrite coerce_from_take.
Qed.

(** Coerced text is valid. *)
Lemma coerce_valid l : valid_utf8 (coerce l) = true.
Proof. apply coerce_from_valid. Qed.

(** ** Code points *)

Definition byte_at (n : N) : ascii := ascii_of_N n.

(** [utf8.AppendRune] for a code point that is no surrogate. *)
Definition encode_rune (r : N) : list ascii :=
  (if r <? 128 then [byte_at r]
   else if r <? 2048 then [byte_at (192 + r / 64); byte_at (128 + r mod 64)]
   else if r <? 65536 then
     [byte_at (224 + r / 4096); byte_at (128 + (r / 64) mod 64); byte_at (128 + r mod 64)]
   else
     [byte_at (240 + r / 262144); byte_at (128 + (r / 4096) mod 64); byte_at (128 + (r / 64) mod 64);
      byte_at (128 + r mod 64)])%N.

Definition is_surrogate (r : N) : bool := (55296 <=? r)%N && (r <? 57344)%N.

(** [utf16.DecodeRune] on a high and a low surrogate. *)
Definition surrogate_pair (r1 r2 : N) : option N :=
  if (55296 <=? r1)%N && (r1 <? 56320)%N && (56320 <=? r2)%N && (r2 <? 57344)%N
  then Some ((r1 - 55296) * 1024 + (r2 - 56320) + 65536)%N else None.

Example coerce_sample :
  coerce ["A"; "195"; "169"; "195"; "B"; "255"]%char =
  ["A"; "195"; "169"; "239"; "191"; "189"; "B"; "239"; "191"; "189"]%char.
Proof. reflexivity. Qed.

Example encode_rune_sample :
  encode_rune 233 = ["195"; "169"]%char ∧ encode_rune 8232 = ["226"; "128"; "168"]%char ∧
  surrogate_pair 55357 56832 = Some 128512%N ∧ encode_rune 128512 = ["240"; "159"; "152"; "128"]%char.
Proof. repeat split. Qed.
