(* ===== verification/GoBase64.v ===== *)
(** * Bytes, hexadecimal and base64 as the services use them

    [encoding/base64] with the two encodings the code names: [StdEncoding]
    (padded, alphabet ending in + and /) and [RawURLEncoding] (no padding,
    alphabet ending in - and _).  The decoder skips carriage returns and line
    feeds and does not check trailing bits, as Go's does. *)

From Stdlib Require Import ZArith Lia Ascii String Strings.Byte.
From stdpp Require Import base option list strings.
From S2P Require Import Prelude.

Local Open Scope Z_scope.

(** ** Bytes *)

Lemma byte_Z_range b : 0 ≤ byte_Z b < 256.
Proof. unfold byte_Z. pose proof (Byte.to_N_bounded b). lia. Qed.

Lemma Z_byte_Z b : Z_byte (byte_Z b) = b.
Proof.
  unfold Z_byte. pose proof (byte_Z_range b). rewrite Z.mod_small by lia.
  unfold byte_Z. by rewrite N2Z.id, Byte.of_to_N.
Qed.

Lemma byte_Z_byte z : byte_Z (Z_byte z) = z `mod` 256.
Proof.
  unfold Z_byte, byte_Z. pose proof (Z.mod_pos_bound z 256 ltac:(lia)).
  destruct (Byte.of_N (Z.to_N (z `mod` 256))) as [b|] eqn:E; simpl.
  - apply Byte.to_of_N in E. rewrite E. lia.
  - apply Byte.of_N_None_iff in E. lia.
Qed.

(** ** Alphabets *)

Record encoding := mkEncoding { alphabet : list ascii; padded : bool }.

Definition StdEncoding : encoding :=
  mkEncoding (list_ascii_of_string
    "ABCDEFGHIJKLMNOPQRSTUVWXYZabcdefghijklmnopqrstuvwxyz0123456789+/") true.
Definition RawURLEncoding : encoding :=
  mkEncoding (list_ascii_of_string
    "ABCDEFGHIJKLMNOPQRSTUVWXYZabcdefghijklmnopqrstuvwxyz0123456789-_") false.

Definition pad_char : ascii := "="%char.

Definition enc_char (e : encoding) (i : Z) : ascii := default pad_char (alphabet e !! Z.to_nat i).
Definition dec_char (e : encoding) (c : ascii) : option Z :=
  Z.of_nat ∘ fst <$> list_find (λ x, x = c) (alphabet e).

(** ** Encoding *)

Fixpoint enc_chars (e : encoding) (l : list byte) : list ascii :=
  match l with
  | a :: b :: c :: t =>
      let a := byte_Z a in let b := byte_Z b in let c := byte_Z c in
      enc_char e (a / 4) :: enc_char e (a `mod` 4 * 16 + b / 16) ::
      enc_char e (b `mod` 16 * 4 + c / 64) :: enc_char e (c `mod` 64) :: enc_chars e t
  | [a; b] =>
      let a := byte_Z a in let b := byte_Z b in
      [enc_char e (a / 4); enc_char e (a `mod` 4 * 16 + b / 16); enc_char e (b `mod` 16 * 4)]
      ++ (if padded e then [pad_char] else [])
  | [a] =>
      let a := byte_Z a in
      [enc_char e (a / 4); enc_char e (a `mod` 4 * 16)]
      ++ (if padded e then [pad_char; pad_char] else [])
  | [] => []
  end.

Definition EncodeToString (e : encoding) (l : list byte) : string :=
  string_of_list_ascii (enc_chars e l).

(** ** Decoding *)

Definition is_newline (c : ascii) : bool :=
  bool_decide (c = "010"%char) || bool_decide (c = "013"%char).

Definition quantum1 (s1 s2 : Z) : list byte := [Z_byte (s1 * 4 + s2 / 16)].
Definition quantum2 (s1 s2 s3 : Z) : list byte :=
  [Z_byte (s1 * 4 + s2 / 16); Z_byte (s2 `mod` 16 * 16 + s3 / 4)].
Definition quantum3 (s1 s2 s3 s4 : Z) : list byte :=
  [Z_byte (s1 * 4 + s2 / 16); Z_byte (s2 `mod` 16 * 16 + s3 / 4); Z_byte (s3 `mod` 4 * 64 + s4)].

Fixpoint dec_chars (e : encoding) (l : list ascii) : option (list byte) :=
  match l with
  | [] => Some []
  | c1 :: c2 :: c3 :: c4 :: t =>
      s1 ← dec_char e c1; s2 ← dec_char e c2;
      if padded e && bool_decide (c3 = pad_char) then
        if bool_decide (c4 = pad_char) && bool_decide (t = []) then Some (quantum1 s1 s2) else None
      else
        s3 ← dec_char e c3;
        if padded e && bool_decide (c4 = pad_char) then
          if bool_decide (t = []) then Some (quantum2 s1 s2 s3) else None
        else
          s4 ← dec_char e c4; r ← dec_chars e t; Some (quantum3 s1 s2 s3 s4 ++ r)
  | [c1; c2; c3] =>
      if padded e then None
      else s1 ← dec_char e c1; s2 ← dec_char e c2; s3 ← dec_char e c3; Some (quantum2 s1 s2 s3)
  | [c1; c2] =>
      if padded e then None
      else s1 ← dec_char e c1; s2 ← dec_char e c2; Some (quantum1 s1 s2)
  | [_] => None
  end.

Definition DecodeString (e : encoding) (s : string) : option (list byte) :=
  dec_chars e (filter (λ c, is_newline c = false) (list_ascii_of_string s)).

(** ** Round trip *)

(** What the proofs need of an alphabet, checked by computation. *)
Definition good_char (e : encoding) (i : nat) : bool :=
  let c := enc_char e (Z.of_nat i) in
  bool_decide (dec_char e c = Some (Z.of_nat i)) && negb (bool_decide (c = pad_char)) && negb (is_newline c).

Class GoodEncoding (e : encoding) := good_chars : forallb (good_char e) (seq 0 64) = true.

#[export] Instance StdEncoding_good : GoodEncoding StdEncoding.
Proof. vm_compute. reflexivity. Qed.
#[export] Instance RawURLEncoding_good : GoodEncoding RawURLEncoding.
Proof. vm_compute. reflexivity. Qed.

Section roundtrip.
Context (e : encoding) `{!GoodEncoding e}.

Lemma enc_char_good i :
  0 ≤ i < 64 → dec_char e (enc_char e i) = Some i ∧ enc_char e i ≠ pad_char ∧
               is_newline (enc_char e i) = false.
Proof.
  intros Hi. pose proof good_chars as H. rewrite List.forallb_forall in H.
  specialize (H (Z.to_nat i) ltac:(apply List.in_seq; lia)). unfold good_char in H.
  rewrite Z2Nat.id in H by lia.
  rewrite !andb_true_iff, !negb_true_iff, bool_decide_eq_true, bool_decide_eq_false in H. tauto.
Qed.

Lemma quantum3_enc a b c :
  quantum3 (byte_Z a / 4) (byte_Z a `mod` 4 * 16 + byte_Z b / 16)
    (byte_Z b `mod` 16 * 4 + byte_Z c / 64) (byte_Z c `mod` 64) = [a; b; c].
Proof.
  pose proof (byte_Z_range a). pose proof (byte_Z_range b). pose proof (byte_Z_range c).
  unfold quantum3.
  replace (_ / 4 * 4 + _) with (byte_Z a) by divlia.
  replace ((_ + byte_Z b / 16) `mod` 16 * 16 + _) with (byte_Z b) by divlia.
  replace ((_ + byte_Z c / 64) `mod` 4 * 64 + _) with (byte_Z c) by divlia.
  by rewrite !Z_byte_Z.
Qed.

Lemma quantum2_enc a b :
  quantum2 (byte_Z a / 4) (byte_Z a `mod` 4 * 16 + byte_Z b / 16) (byte_Z b `mod` 16 * 4) = [a; b].
Proof.
  pose proof (byte_Z_range a). pose proof (byte_Z_range b). unfold quantum2.
  replace (_ / 4 * 4 + _) with (byte_Z a) by divlia.
  replace ((_ + byte_Z b / 16) `mod` 16 * 16 + _) with (byte_Z b) by divlia.
  by rewrite !Z_byte_Z.
Qed.

Lemma quantum1_enc a : quantum1 (byte_Z a / 4) (byte_Z a `mod` 4 * 16) = [a].
Proof.
  pose proof (byte_Z_range a). unfold quantum1.
  replace (_ / 4 * 4 + _) with (byte_Z a) by divlia. by rewrite Z_byte_Z.
Qed.

(** Decode the encoding of each sextet. *)
Ltac sextets :=
  repeat match goal with
  | |- context [dec_char e (enc_char e ?i)] =>
      rewrite (proj1 (enc_char_good i ltac:(divlia))); simpl
  | |- context [bool_decide (enc_char e ?i = pad_char)] =>
      rewrite (bool_decide_eq_false_2 _ (proj1 (proj2 (enc_char_good i ltac:(divlia))))); simpl
  end.

Lemma dec_enc_chars l : dec_chars e (enc_chars e l) = Some l.
Proof.
  induction l as [l IH] using (well_founded_induction (well_founded_ltof _ length)).
  destruct l as [|a [|b [|c l]]]; simpl.
  - done.
  - pose proof (byte_Z_range a). destruct (padded e) eqn:Hp; simpl; rewrite ?Hp; simpl; sextets;
      by rewrite quantum1_enc.
  - pose proof (byte_Z_range a). pose proof (byte_Z_range b).
    destruct (padded e) eqn:Hp; simpl; rewrite ?Hp; simpl; sextets; by rewrite quantum2_enc.
  - pose proof (byte_Z_range a). pose proof (byte_Z_range b). pose proof (byte_Z_range c).
    sextets. rewrite !andb_false_r.
    rewrite IH by (unfold ltof; simpl; lia). exact (f_equal (λ q, Some (q ++ l)) (quantum3_enc a b c)).
Qed.

Lemma enc_chars_no_newline l : Forall (λ c, is_newline c = false) (enc_chars e l).
Proof.
  induction l as [l IH] using (well_founded_induction (well_founded_ltof _ length)).
  destruct l as [|a [|b [|c l]]]; simpl.
  - constructor.
  - pose proof (byte_Z_range a). destruct (padded e); repeat constructor; apply enc_char_good; divlia.
  - pose proof (byte_Z_range a). pose proof (byte_Z_range b).
    destruct (padded e); repeat constructor; apply enc_char_good; divlia.
  - pose proof (byte_Z_range a). pose proof (byte_Z_range b). pose proof (byte_Z_range c).
    repeat constructor; try (apply enc_char_good; divlia). apply IH. unfold ltof. simpl. lia.
Qed.

Lemma Decode_Encode l : DecodeString e (EncodeToString e l) = Some l.
Proof.
  unfold DecodeString, EncodeToString. rewrite list_ascii_of_string_of_list_ascii.
  rewrite filter_all by apply enc_chars_no_newline. apply dec_enc_chars.
Qed.

Lemma EncodeToString_inj l1 l2 : EncodeToString e l1 = EncodeToString e l2 → l1 = l2.
Proof. intros H. apply (f_equal (DecodeString e)) in H. rewrite !Decode_Encode in H. congruence. Qed.

Lemma EncodeToString_nonempty l : l ≠ [] → EncodeToString e l ≠ "".
Proof.
  intros Hl H. apply Hl. apply EncodeToString_inj. by rewrite H.
Qed.
End roundtrip.

Lemma EncodeToString_length e l : (length l ≤ String.length (EncodeToString e l))%nat.
Proof.
  unfold EncodeToString. assert (∀ cs, String.length (string_of_list_ascii cs) = length cs) as ->.
  { induction cs as [|c cs IH]; simpl; [done|]. by rewrite IH. }
  induction l as [l IH] using (well_founded_induction (well_founded_ltof _ length)).
  destruct l as [|a [|b [|c l]]]; simpl; [lia..|].
  specialize (IH l). unfold ltof in IH. simpl in IH. lia.
Qed.

(** ** Hexadecimal *)

Definition hex_digit (z : Z) : ascii :=
  default "0"%char (list_ascii_of_string "0123456789abcdef" !! Z.to_nat (z `mod` 16)).

(** [%x] of a byte slice. *)
Fixpoint hex_bytes (l : list byte) : list ascii :=
  match l with
  | [] => []
  | b :: t => hex_digit (byte_Z b / 16) :: hex_digit (byte_Z b) :: hex_bytes t
  end.

Lemma length_hex_bytes l : length (hex_bytes l) = (2 * length l)%nat.
Proof. induction l; simpl; lia. Qed.
