(* ===== verification/GoTime.v ===== *)
(** * Civil time and its RFC 3339 text

    A [time.Time] that was parsed or made UTC is an instant with a zone offset.
    The text of [Format(time.RFC3339)] and of [MarshalJSON] is built from the
    proleptic Gregorian date of the local second. *)

From Stdlib Require Import ZArith Lia Ascii String.
From stdpp Require Import base option list strings pretty numbers.
From S2P Require Import Prelude GoText.
Local Open Scope Z_scope.

Record Time := mkTime {
  unix_ns : Z;      (* nanoseconds since 1970-01-01T00:00:00Z *)
  offset_min : Z    (* zone offset, minutes east of UTC *)
}.

#[export] Instance Time_eq_dec : EqDecision Time.
Proof. solve_decision. Defined.

(** The zero [time.Time], the first instant of year 1. *)
Definition zero_time : Time := mkTime (-62135596800 * Second) 0.

(** [t.UTC()] *)
Definition UTC (t : Time) : Time := mkTime (unix_ns t) 0.

(** ** The calendar *)

(** Days from the first day of year 0 to the first day of year [y]. *)
Definition days_before_year (y : Z) : Z := 365 * y + (y + 3) / 4 - (y + 99) / 100 + (y + 399) / 400.

Definition is_leap (y : Z) : bool :=
  bool_decide (y `mod` 4 = 0) && (negb (bool_decide (y `mod` 100 = 0)) || bool_decide (y `mod` 400 = 0)).

(** The year of a day: the guess by the mean length of a year is off by one at
    most. *)
Definition year_of_day (d : Z) : Z :=
  let y := 400 * d / 146097 in
  if bool_decide (d < days_before_year y) then y - 1
  else if bool_decide (days_before_year (y + 1) ≤ d) then y + 1
  else y.

Definition month_lengths (leap : bool) : list Z :=
  [31; (if leap then 29 else 28); 31; 30; 31; 30; 31; 31; 30; 31; 30; 31].

(** Month and day of the month, from 1, of a day of the year, from 0. *)
Fixpoint month_day (ms : list Z) (m doy : Z) : Z * Z :=
  match ms with
  | [] => (m, doy + 1)
  | n :: ms => if bool_decide (doy < n) then (m, doy + 1) else month_day ms (m + 1) (doy - n)
  end.

Definition epoch_day : Z := 719528.

Record civil := mkCivil { c_year : Z; c_month : Z; c_day : Z; c_hour : Z; c_min : Z; c_sec : Z }.

(** The civil time of a second since 1970, read without zone. *)
Definition civil_of (s : Z) : civil :=
  let day := s / 86400 + epoch_day in
  let sod := s `mod` 86400 in
  let y := year_of_day day in
  let '(m, d) := month_day (month_lengths (is_leap y)) 1 (day - days_before_year y) in
  mkCivil y m d (sod / 3600) ((sod / 60) `mod` 60) (sod `mod` 60).

(** ** Text *)

(** [appendInt]: decimal, padded with zeros to the width. *)
Definition zeros_text (n : nat) : string := string_of_list_ascii (replicate n "0"%char).

Definition appendInt (w : nat) (x : Z) : string :=
  let t := pretty (Z.abs x) in
  ((if bool_decide (x < 0) then "-" else "") ++ zeros_text (w - String.length t) ++ t)%string.

Definition date_text (c : civil) : string :=
  (appendInt 4 (c_year c) ++ "-" ++ appendInt 2 (c_month c) ++ "-" ++ appendInt 2 (c_day c) ++ "T" ++
   appendInt 2 (c_hour c) ++ ":" ++ appendInt 2 (c_min c) ++ ":" ++ appendInt 2 (c_sec c))%string.

Definition zone_text (off : Z) : string :=
  if bool_decide (off = 0) then "Z"
  else ((if bool_decide (off < 0) then "-" else "+") ++ appendInt 2 (Z.abs off / 60) ++ ":" ++
        appendInt 2 (Z.abs off `mod` 60))%string.

(** The second, since 1970, that the clock of the zone shows. *)
Definition local_second (t : Time) : Z := unix_ns t / Second + 60 * offset_min t.

(** [t.Format(time.RFC3339)] *)
Definition Format_RFC3339 (t : Time) : string :=
  (date_text (civil_of (local_second t)) ++ zone_text (offset_min t))%string.

(** ** The calendar is exact *)

Lemma year_of_day_spec d :
  days_before_year (year_of_day d) ≤ d < days_before_year (year_of_day d + 1).
Proof.
  unfold year_of_day. set (y := 400 * d / 146097).
  assert (146097 * y ≤ 400 * d < 146097 * y + 146097) as Hy by (unfold y; divlia).
  assert (days_before_year (y - 1) ≤ d < days_before_year (y + 2)) as Hb.
  { unfold days_before_year. clearbody y. divlia. }
  case_bool_decide; [replace (y - 1 + 1) with y by lia; lia|].
  case_bool_decide; [replace (y + 1 + 1) with (y + 2) by lia; lia|lia].
Qed.

Lemma year_length y : days_before_year (y + 1) - days_before_year y = if is_leap y then 366 else 365.
Proof.
  unfold days_before_year, is_leap.
  destruct (decide (y `mod` 4 = 0)), (decide (y `mod` 100 = 0)), (decide (y `mod` 400 = 0));
    rewrite ?bool_decide_true, ?bool_decide_false by done; simpl; divlia.
Qed.

Definition sum_Z (l : list Z) : Z := foldr Z.add 0 l.

(** The day of the year is recovered from month and day. *)
Lemma month_day_inv ms m doy m' d' :
  month_day ms m doy = (m', d') →
  m ≤ m' ≤ m + Z.of_nat (length ms) ∧ doy = sum_Z (take (Z.to_nat (m' - m)) ms) + d' - 1.
Proof.
  revert m doy. induction ms as [|n ms IH]; intros m doy E; simpl in E.
  - injection E as <- <-. rewrite Z.sub_diag. simpl. lia.
  - case_bool_decide.
    + injection E as <- <-. rewrite Z.sub_diag. simpl. lia.
    + apply IH in E as [Hm Hd]. split; [simpl; lia|].
      replace (Z.to_nat (m' - m)) with (S (Z.to_nat (m' - (m + 1)))) by lia. simpl. lia.
Qed.

Lemma month_day_range ms m doy m' d' :
  Forall (λ n, 0 ≤ n ≤ 31) ms → 0 ≤ doy → doy < sum_Z ms + 31 → month_day ms m doy = (m', d') → 1 ≤ d' ≤ 31.
Proof.
  intros Hms. revert m doy. induction Hms as [|n ms Hn _ IH]; intros m doy H0 H1 E; simpl in *.
  - injection E as <- <-. lia.
  - case_bool_decide; [injection E as <- <-; lia|]. apply (IH (m + 1) (doy - n)); [lia..|done].
Qed.

Lemma month_lengths_ok b : Forall (λ n, 0 ≤ n ≤ 31) (month_lengths b) ∧ sum_Z (month_lengths b) = if b then 366 else 365.
Proof. destruct b; (split; [repeat constructor; lia|reflexivity]). Qed.

Definition civil_ok (c : civil) : Prop :=
  1 ≤ c_month c ≤ 13 ∧ 1 ≤ c_day c ≤ 31 ∧ 0 ≤ c_hour c < 24 ∧ 0 ≤ c_min c < 60 ∧ 0 ≤ c_sec c < 60.

(** The second a civil time stands for. *)
Definition second_of (c : civil) : Z :=
  (days_before_year (c_year c) +
   sum_Z (take (Z.to_nat (c_month c - 1)) (month_lengths (is_leap (c_year c)))) + c_day c - 1 - epoch_day) * 86400 +
  c_hour c * 3600 + c_min c * 60 + c_sec c.

Lemma clock_sum s :
  s / 86400 * 86400 + (s `mod` 86400) / 3600 * 3600 + (((s `mod` 86400) / 60) `mod` 60) * 60 +
  (s `mod` 86400) `mod` 60 = s.
Proof.
  pose proof (Z.div_mod s 86400 ltac:(lia)). set (a := s `mod` 86400) in *. clearbody a. divlia.
Qed.

Lemma clock_range s :
  0 ≤ (s `mod` 86400) / 3600 < 24 ∧ 0 ≤ ((s `mod` 86400) / 60) `mod` 60 < 60 ∧ 0 ≤ (s `mod` 86400) `mod` 60 < 60.
Proof.
  pose proof (Z.mod_pos_bound s 86400 ltac:(lia)). set (a := s `mod` 86400) in *. clearbody a. divlia.
Qed.

Lemma civil_of_spec s : second_of (civil_of s) = s ∧ civil_ok (civil_of s).
Proof.
  unfold civil_of. set (day := s / 86400 + epoch_day). set (y := year_of_day day).
  pose proof (year_of_day_spec day) as Hy. fold y in Hy. pose proof (year_length y) as Hl.
  destruct (month_day (month_lengths (is_leap y)) 1 (day - days_before_year y)) as [m d] eqn:E.
  pose proof (month_lengths_ok (is_leap y)) as [Hms Hsum].
  assert (1 ≤ d ≤ 31) as Hd.
  { eapply month_day_range; [exact Hms| | |exact E]; [lia|]. rewrite Hsum. destruct (is_leap y); lia. }
  apply month_day_inv in E as [Hm He].
  assert (length (month_lengths (is_leap y)) = 12%nat) as Hlen by done. rewrite Hlen in Hm.
  unfold second_of, civil_ok. cbn [c_year c_month c_day c_hour c_min c_sec]. split.
  - assert (days_before_year y + sum_Z (take (Z.to_nat (m - 1)) (month_lengths (is_leap y))) + d - 1 = day)
      as -> by lia. unfold day. pose proof (clock_sum s). lia.
  - pose proof (clock_range s). lia.
Qed.

Lemma civil_of_inj s1 s2 : civil_of s1 = civil_of s2 → s1 = s2.
Proof. intros E. destruct (civil_of_spec s1) as [<- _]. rewrite E. apply civil_of_spec. Qed.

(** ** The text is exact *)

Example rfc3339_sample : Format_RFC3339 (mkTime (1709210096 * Second) 0) = "2024-02-29T12:34:56Z".
Proof. reflexivity. Qed.

Example rfc3339_zone : Format_RFC3339 (mkTime (-1 * Second) (-330)) = "1969-12-31T18:29:59-05:30".
Proof. reflexivity. Qed.

(** Padded decimal text of a number that fits the width. *)
Lemma appendInt_spec (k : nat) x :
  0 ≤ x < 10 ^ Z.of_nat (S k) →
  String.length (appendInt (S k) x) = S k ∧ text_value 0 (appendInt (S k) x) = Z.to_N x.
Proof.
  intros Hx. unfold appendInt. rewrite bool_decide_false, Z.abs_eq by lia.
  assert (pretty x = pretty (Z.to_N x)) as -> by (destruct x; [reflexivity|reflexivity|lia]).
  assert (Z.to_N x < 10 ^ N.of_nat (S k))%N as Hn.
  { apply N2Z.inj_lt. rewrite Z2N.id by lia. rewrite N2Z.inj_pow, nat_N_Z. lia. }
  pose proof (pretty_N_length k _ Hn) as Hl. set (t := pretty (Z.to_N x)) in *. split.
  - rewrite !string_length_app. unfold zeros_text.
    assert (∀ n, String.length (string_of_list_ascii (replicate n "0"%char)) = n) as ->.
    { induction n as [|n IH]; [done|]. exact (f_equal S IH). }
    simpl. lia.
  - assert (∀ n, text_value 0 ("" ++ zeros_text n ++ t) = text_value 0 t) as ->.
    { induction n as [|n IH]; [done|]. exact IH. }
    apply pretty_N_value.
Qed.

Lemma appendInt_cancel k x y k1 k2 :
  0 ≤ x < 10 ^ Z.of_nat (S k) → 0 ≤ y < 10 ^ Z.of_nat (S k) →
  (appendInt (S k) x ++ k1 = appendInt (S k) y ++ k2)%string → x = y ∧ k1 = k2.
Proof.
  intros Hx Hy E. destruct (appendInt_spec k x Hx) as [Lx Vx], (appendInt_spec k y Hy) as [Ly Vy].
  apply app_cancel_length in E as [E ->]; [|congruence]. split; [|done].
  rewrite E, Vy in Vx. apply (f_equal Z.of_N) in Vx. rewrite !Z2N.id in Vx by lia. done.
Qed.

Definition representable (c : civil) : Prop := 0 ≤ c_year c < 10000.

Lemma date_text_cancel c1 c2 k1 k2 :
  civil_ok c1 → civil_ok c2 → representable c1 → representable c2 →
  (date_text c1 ++ k1 = date_text c2 ++ k2)%string → c1 = c2 ∧ k1 = k2.
Proof.
  destruct c1 as [y1 m1 d1 h1 i1 s1], c2 as [y2 m2 d2 h2 i2 s2].
  unfold civil_ok, representable, date_text. cbn [c_year c_month c_day c_hour c_min c_sec].
  intros O1 O2 R1 R2 E. rewrite !string_app_assoc in E.
  apply (appendInt_cancel 3) in E as [-> E]; [|lia..]. apply char_cancel in E.
  do 4 (apply (appendInt_cancel 1) in E as [-> E]; [|lia..]; apply char_cancel in E).
  apply (appendInt_cancel 1) in E as [-> ->]; [|lia..]. done.
Qed.

(** The UTC text has a fixed length, so it can be split off the end of a text. *)
Lemma date_text_length c : civil_ok c → representable c → String.length (date_text c) = 19%nat.
Proof.
  destruct c as [y m d h i s]. unfold civil_ok, representable, date_text.
  cbn [c_year c_month c_day c_hour c_min c_sec]. intros O R.
  rewrite !string_length_app, (proj1 (appendInt_spec 3 y R)).
  rewrite (proj1 (appendInt_spec 1 m ltac:(lia))), (proj1 (appendInt_spec 1 d ltac:(lia))).
  rewrite (proj1 (appendInt_spec 1 h ltac:(lia))), (proj1 (appendInt_spec 1 i ltac:(lia))).
  by rewrite (proj1 (appendInt_spec 1 s ltac:(lia))).
Qed.

(** A text that ends in the UTC time of an instant determines the text before
    it and the second of the instant. *)
Lemma Format_UTC_suffix t1 t2 a b :
  representable (civil_of (unix_ns t1 / Second)) → representable (civil_of (unix_ns t2 / Second)) →
  (a ++ Format_RFC3339 (UTC t1) = b ++ Format_RFC3339 (UTC t2))%string →
  a = b ∧ unix_ns t1 / Second = unix_ns t2 / Second.
Proof.
  unfold Format_RFC3339, local_second. cbn [UTC unix_ns offset_min]. rewrite Z.mul_0_r, !Z.add_0_r.
  intros R1 R2 E. destruct (civil_of_spec (unix_ns t1 / Second)) as [_ O1].
  destruct (civil_of_spec (unix_ns t2 / Second)) as [_ O2].
  rewrite <-!string_app_assoc in E. apply app_cancel_suffix in E as [E _]; [|done].
  apply app_cancel_suffix in E as [-> E]; [|by rewrite !date_text_length]. split; [done|].
  apply civil_of_inj. apply (date_text_cancel _ _ "" ""); [done..|]. by rewrite E.
Qed.

(** ** The text of [MarshalJSON] *)

Definition digit_char (d : Z) : ascii := ascii_of_nat (Z.to_nat (d + 48)).

(** The last [n] decimal digits. *)
Fixpoint fixed_digits (n : nat) (x : Z) : list ascii :=
  match n with O => [] | S n => fixed_digits n (x / 10) ++ [digit_char (x `mod` 10)] end.

(** A digit list without its trailing zeros. *)
Fixpoint trim_zeros (l : list ascii) : list ascii :=
  match l with
  | [] => []
  | c :: l =>
      match trim_zeros l with
      | [] => if bool_decide (c = "0"%char) then [] else [c]
      | l' => c :: l'
      end
  end.

(** The fraction ".999999999" of the layout: nothing for whole seconds. *)
Definition fraction_chars (ns : Z) : list ascii :=
  match trim_zeros (fixed_digits 9 ns) with [] => [] | ds => "."%char :: ds end.

Definition in_json_range (t : Time) : bool :=
  bool_decide (0 ≤ c_year (civil_of (local_second t)) < 10000) && bool_decide (Z.abs (offset_min t) < 1440).

(** [t.MarshalJSON()] without the quotes; it fails outside its range. *)
Definition time_json (t : Time) : option string :=
  if in_json_range t then
    Some (date_text (civil_of (local_second t)) ++
          string_of_list_ascii (fraction_chars (unix_ns t `mod` Second)) ++
          zone_text (offset_min t))%string
  else None.

Example time_json_sample : time_json (mkTime (1709210096 * Second + 250000000) 60) = Some "2024-02-29T13:34:56.25+01:00".
Proof. reflexivity. Qed.

Lemma digit_char_spec d : 0 ≤ d < 10 → is_digit (digit_char d) = true ∧ Z.of_nat (nat_of_ascii (digit_char d)) - 48 = d.
Proof.
  intros Hd. assert (d = 0 ∨ d = 1 ∨ d = 2 ∨ d = 3 ∨ d = 4 ∨ d = 5 ∨ d = 6 ∨ d = 7 ∨ d = 8 ∨ d = 9) as H by lia.
  by repeat (destruct H as [->|H]; [done|]); subst.
Qed.

Lemma fixed_digits_value n x :
  0 ≤ x < 10 ^ Z.of_nat n →
  foldl (λ v c, 10 * v + (Z.of_nat (nat_of_ascii c) - 48)) 0 (fixed_digits n x) = x.
Proof.
  revert x. induction n as [|n IH]; intros x Hx; [simpl; lia|]. cbn [fixed_digits]. rewrite foldl_snoc.
  rewrite Nat2Z.inj_succ, Z.pow_succ_r in Hx by lia.
  rewrite IH by divlia. destruct (digit_char_spec (x `mod` 10)) as [_ ->]; divlia.
Qed.

Lemma fixed_digits_digits n x : Forall (λ c, is_digit c = true) (fixed_digits n x).
Proof.
  revert x. induction n as [|n IH]; intros x; [constructor|]. cbn [fixed_digits]. apply Forall_app.
  split; [apply IH|]. repeat constructor. apply digit_char_spec. divlia.
Qed.

Lemma length_fixed_digits n x : length (fixed_digits n x) = n.
Proof. revert x. induction n as [|n IH]; intros x; [done|]. cbn [fixed_digits]. rewrite length_app, IH. simpl. lia. Qed.

Lemma trim_zeros_pad l : l = trim_zeros l ++ replicate (length l - length (trim_zeros l)) "0"%char.
Proof.
  induction l as [|c l IH]; [done|]. cbn [trim_zeros].
  destruct (trim_zeros l) as [|c' l'] eqn:E; [case_bool_decide as Hc|]; simpl in *.
  - rewrite Nat.sub_0_r in IH. subst c. f_equal. exact IH.
  - rewrite Nat.sub_0_r in *. f_equal. exact IH.
  - f_equal. exact IH.
Qed.

Lemma trim_zeros_Forall (P : ascii → Prop) l : Forall P l → Forall P (trim_zeros l).
Proof. intros H. rewrite (trim_zeros_pad l) in H. by apply Forall_app in H as [? _]. Qed.

Lemma fraction_inj x y :
  0 ≤ x < Second → 0 ≤ y < Second → trim_zeros (fixed_digits 9 x) = trim_zeros (fixed_digits 9 y) → x = y.
Proof.
  intros Hx Hy E. change Second with (10 ^ Z.of_nat 9) in *.
  rewrite <-(fixed_digits_value 9 x), <-(fixed_digits_value 9 y) by done. f_equal.
  rewrite (trim_zeros_pad (fixed_digits 9 x)), (trim_zeros_pad (fixed_digits 9 y)).
  by rewrite E, !length_fixed_digits.
Qed.

Lemma zone_text_head off : ∃ c k, zone_text off = String c k ∧ is_digit c = false ∧ c ≠ "."%char.
Proof.
  unfold zone_text. repeat case_bool_decide; by eexists _, _.
Qed.

Lemma zone_text_inj o1 o2 : Z.abs o1 < 1440 → Z.abs o2 < 1440 → zone_text o1 = zone_text o2 → o1 = o2.
Proof.
  intros H1 H2. unfold zone_text. repeat case_bool_decide; intros E; try congruence; try discriminate E.
  all: apply char_cancel in E; apply (appendInt_cancel 1) in E as [Eh E]; [|divlia..].
  all: apply char_cancel in E.
  all: assert (∀ s, (s ++ "")%string = s) as Hnil by (intros s; induction s as [|c s IH]; [done|exact (f_equal (String c) IH)]).
  all: rewrite <-(Hnil (appendInt 2 (Z.abs o1 `mod` 60))), <-(Hnil (appendInt 2 (Z.abs o2 `mod` 60))) in E.
  all: apply (appendInt_cancel 1) in E as [Em _]; [|divlia..].
  all: divlia.
Qed.

Lemma fraction_cancel x y z1 z2 :
  0 ≤ x < Second → 0 ≤ y < Second →
  (string_of_list_ascii (fraction_chars x) ++ zone_text z1 =
   string_of_list_ascii (fraction_chars y) ++ zone_text z2)%string →
  x = y ∧ zone_text z1 = zone_text z2.
Proof.
  intros Hx Hy E. apply (f_equal list_ascii_of_string) in E.
  rewrite !list_ascii_of_string_app, !list_ascii_of_string_of_list_ascii in E.
  destruct (zone_text_head z1) as (c1 & k1 & Z1 & D1 & N1), (zone_text_head z2) as (c2 & k2 & Z2 & D2 & N2).
  pose proof (trim_zeros_Forall _ _ (fixed_digits_digits 9 x)) as F1.
  pose proof (trim_zeros_Forall _ _ (fixed_digits_digits 9 y)) as F2.
  pose proof (fraction_inj x y Hx Hy) as Hinj.
  rewrite Z1, Z2 in *. unfold fraction_chars in E.
  destruct (trim_zeros (fixed_digits 9 x)) as [|a l1] eqn:E1, (trim_zeros (fixed_digits 9 y)) as [|b l2] eqn:E2;
    simpl in E.
  - split; [auto|]. injection E as -> E. f_equal. by apply list_ascii_of_string_inj.
  - by injection E as -> _.
  - by injection E as <- _.
  - apply (f_equal tail) in E. apply (run_cancel is_digit (a :: l1) (b :: l2)) in E as [El Ek]; [|done|done| |].
    + split; [auto|]. injection Ek as -> Ek. f_equal. by apply list_ascii_of_string_inj.
    + by intros c k [= <- _].
    + by intros c k [= <- _].
Qed.

(** The JSON text of a time determines instant and zone. *)
Lemma time_json_inj t1 t2 s : time_json t1 = Some s → time_json t2 = Some s → t1 = t2.
Proof.
  unfold time_json. destruct (in_json_range t1) eqn:R1; [|done]. destruct (in_json_range t2) eqn:R2; [|done].
  unfold in_json_range in *. rewrite andb_true_iff, !bool_decide_eq_true in R1, R2.
  destruct R1 as [Y1 O1], R2 as [Y2 O2]. intros [= <-] [= E].
  apply date_text_cancel in E as [Ec E]; [|apply civil_of_spec..|done|done].
  apply civil_of_inj in Ec.
  apply fraction_cancel in E as [En Ez]; [|apply Z.mod_pos_bound; done..].
  apply zone_text_inj in Ez; [|done..]. destruct t1 as [n1 o1], t2 as [n2 o2]. unfold local_second in Ec. simpl in *.
  subst o2. f_equal. rewrite (Z.div_mod n1 Second), (Z.div_mod n2 Second) by done. rewrite En.
  assert (n1 / Second = n2 / Second) as -> by lia. done.
Qed.
