(* ===== verification/GoJson.v ===== *)
(** * JSON text as [encoding/json] writes it

    Values and the compact text of [json.Marshal] with its escapes.  Strings are
    byte strings; a byte that is not part of a UTF-8 sequence is written as the
    escape of U+FFFD. *)

From Stdlib Require Import ZArith Lia Ascii String.
From stdpp Require Import base option list strings pretty.
From S2P Require Import Prelude GoText GoUtf8.

(** ** Values and text *)

(** A number carries its literal. *)
Unset Elimination Schemes.
Inductive jval :=
| JNull
| JBool (b : bool)
| JNum (literal : list ascii)
| JStr (s : string)
| JArr (l : list jval)
| JObj (l : list (string * jval)).
Set Elimination Schemes.

Lemma jval_ind (P : jval → Prop) :
  P JNull → (∀ b, P (JBool b)) → (∀ t, P (JNum t)) → (∀ s, P (JStr s)) →
  (∀ l, Forall P l → P (JArr l)) → (∀ l, Forall (λ kv, P kv.2) l → P (JObj l)) → ∀ v, P v.
Proof.
  intros Hnull Hb Hn Hs Ha Ho. fix IH 1. intros [|b|t|s|l|l]; [done|done|done|done| |].
  - apply Ha. induction l as [|v l IHl]; constructor; [apply IH|apply IHl].
  - apply Ho. induction l as [|[k v] l IHl]; constructor; [apply IH|apply IHl].
Qed.

Definition hex_lower (z : nat) : ascii := ascii_of_nat (if (z <? 10)%nat then z + 48 else z + 87).

Definition quote : ascii := "034"%char.
Definition backslash : ascii := "\"%char.

(** One byte below 0x80 as the encoder of Go 1.21 writes it, with the HTML
    characters escaped; a byte above is part of a rune and is copied. *)
Definition escape_char (c : ascii) : list ascii :=
  let n := nat_of_ascii c in
  if bool_decide (c = quote) || bool_decide (c = backslash) then [backslash; c]
  else if bool_decide (n = 10) then [backslash; "n"%char]
  else if bool_decide (n = 13) then [backslash; "r"%char]
  else if bool_decide (n = 9) then [backslash; "t"%char]
  else if bool_decide (n < 32) || bool_decide (c = "<"%char) || bool_decide (c = ">"%char)
          || bool_decide (c = "&"%char)
  then [backslash; "u"%char; "0"%char; "0"%char; hex_lower (n / 16); hex_lower (n `mod` 16)]
  else [c].

(** U+2028 and U+2029, the bytes E2 80 A8 and E2 80 A9, are escaped as a rune. *)
Definition is_line_sep (a b c : ascii) : bool :=
  bool_decide (a = "226"%char) && bool_decide (b = "128"%char) &&
  (bool_decide (c = "168"%char) || bool_decide (c = "169"%char)).

Definition line_sep_escape (c : ascii) : list ascii :=
  [backslash; "u"%char; "2"%char; "0"%char; "2"%char;
   if bool_decide (c = "168"%char) then "8"%char else "9"%char].

(** What the encoder writes for a byte that starts no rune. *)
Definition bad_rune : list ascii := [backslash; "u"; "f"; "f"; "f"; "d"]%char.

(** [appendString]; the first argument counts the bytes of the current rune that
    are still to be copied. *)
Fixpoint escape_from (k : nat) (l : list ascii) : list ascii :=
  match l with
  | [] => []
  | a :: t =>
      match k with
      | S k => a :: escape_from k t
      | O =>
          match rune_size l with
          | O => bad_rune ++ escape_from 0 t
          | S O => escape_char a ++ escape_from 0 t
          | S n =>
              match t with
              | b :: (c :: t') =>
                  if is_line_sep a b c then line_sep_escape c ++ escape_from 0 t' else a :: escape_from n t
              | _ => a :: escape_from n t
              end
          end
      end
  end.
Definition escape (l : list ascii) : list ascii := escape_from 0 l.

Definition string_chars (s : string) : list ascii := quote :: escape (list_ascii_of_string s) ++ [quote].

Fixpoint render (v : jval) : list ascii :=
  match v with
  | JNull => ["n"; "u"; "l"; "l"]%char
  | JBool true => ["t"; "r"; "u"; "e"]%char
  | JBool false => ["f"; "a"; "l"; "s"; "e"]%char
  | JNum t => t
  | JStr s => string_chars s
  | JArr l =>
      "["%char ::
      match l with
      | [] => ["]"%char]
      | v :: l => render v ++
          (fix tail l := match l with [] => ["]"%char] | v :: l => ","%char :: render v ++ tail l end) l
      end
  | JObj l =>
      "{"%char ::
      match l with
      | [] => ["}"%char]
      | (k, v) :: l => string_chars k ++ ":"%char :: render v ++
          (fix tail l :=
             match l with
             | [] => ["}"%char]
             | (k, v) :: l => ","%char :: string_chars k ++ ":"%char :: render v ++ tail l
             end) l
      end
  end.

(** The bytes [json.Marshal] returns for a value. *)
Definition marshal (v : jval) : list ascii := render v.

Example marshal_sample :
  string_of_list_ascii (marshal (JObj [("a<b", JArr [JNum ["1"]%char; JNull]); ("t", JBool true)]))
  = string_of_list_ascii (["{"; "034"; "a"; "\"; "u"; "0"; "0"; "3"; "c"; "b"; "034"; ":"; "["; "1"; ","; "n"; "u"; "l"; "l";
     "]"; ","; "034"; "t"; "034"; ":"; "t"; "r"; "u"; "e"; "}"]%char).
Proof. reflexivity. Qed.

Example escape_sample :
  escape ["A"; "255"; "195"; "169"; "226"; "128"; "168"; "195"; "<"]%char =
  ["A"]%char ++ bad_rune ++ ["195"; "169"; "\"; "u"; "2"; "0"; "2"; "8"]%char ++ bad_rune ++ ["\"; "u"; "0"; "0"; "3"; "c"]%char.
Proof. reflexivity. Qed.

(** ** What the escapes stand for *)

Definition high (c : ascii) : bool := within 128 255 c.

(** [escaped t l]: the text [t] is written for a string that reads as [l]. *)
Inductive escaped : list ascii → list ascii → Prop :=
| es_nil : escaped [] []
| es_char c t l : escaped t l → escaped (escape_char c ++ t) (c :: l)
| es_bad t l : escaped t l → escaped (bad_rune ++ t) (replacement ++ l)
| es_sep a b c t l : is_line_sep a b c = true → escaped t l → escaped (line_sep_escape c ++ t) (a :: b :: c :: l)
| es_high c t l : high c = true → escaped t l → escaped (c :: t) (c :: l).

Lemma within_high lo hi c : (128 <= lo)%N → within lo hi c = true → high c = true.
Proof.
  unfold high, within. rewrite !andb_true_iff, !N.leb_le. intros Hlo [H1 H2]. split; [lia|].
  pose proof (N_ascii_bounded c). lia.
Qed.

(** The bytes of a rune of more than one byte are all high. *)
Lemma rune_size_high n a t : rune_size (a :: t) = S (S n) → high a = true ∧ Forall (λ c, high c = true) (take (S n) t).
Proof.
  assert (∀ b, cont b = true → high b = true) as Hc by (intros b; by apply within_high).
  assert (∀ x y, lead3 x y = true → high x = true ∧ high y = true) as H3.
  { intros x y. unfold lead3. rewrite !orb_true_iff, !andb_true_iff. intros [[[[]|[]]|[]]|[]]; split; auto; (eapply within_high; [|eassumption]; done). }
  assert (∀ x y, lead4 x y = true → high x = true ∧ high y = true) as H4.
  { intros x y. unfold lead4. rewrite !orb_true_iff, !andb_true_iff. intros [[[]|[]]|[]]; split; auto; (eapply within_high; [|eassumption]; done). }
  cbn [rune_size]. destruct (within 0 127 a); [done|]. destruct t as [|b t]; [done|].
  destruct (within 194 223 a && cont b) eqn:E2.
  { intros [= <-]. apply andb_true_iff in E2 as [Ha Hb]. split; [by eapply within_high; [|exact Ha]|]. repeat constructor; auto. }
  destruct t as [|c t]; [done|]. destruct (lead3 a b && cont c) eqn:E3.
  { intros [= <-]. apply andb_true_iff in E3 as [[]%H3 ?%Hc]. split; [done|]. by repeat constructor. }
  destruct t as [|d t]; [done|]. destruct (lead4 a b && cont c && cont d) eqn:E4; [|done].
  intros [= <-]. rewrite !andb_true_iff in E4. destruct E4 as [[[]%H4 ?%Hc] ?%Hc]. split; [done|]. by repeat constructor.
Qed.

Lemma line_sep_size a b c t : is_line_sep a b c = true → rune_size (a :: b :: c :: t) = 3.
Proof.
  unfold is_line_sep. rewrite !andb_true_iff, orb_true_iff, !bool_decide_eq_true.
  by intros [[-> ->] [->| ->]].
Qed.

Lemma escape_from_escaped k l : Forall (λ c, high c = true) (take k l) → escaped (escape_from k l) (coerce_from k l).
Proof.
  revert k. induction l as [l IH] using (well_founded_induction (well_founded_ltof _ length)). unfold ltof in IH.
  destruct l as [|a t]; intros k Hk; [destruct k; constructor|]. cbn [escape_from coerce_from].
  destruct k as [|k]; [|apply Forall_cons in Hk as [Ha Hk]; apply es_high; [done|apply IH; [cbn; lia|done]]].
  destruct (rune_size (a :: t)) as [|[|n]] eqn:Er.
  - apply es_bad, IH; [cbn; lia|constructor].
  - apply es_char, IH; [cbn; lia|constructor].
  - destruct (rune_size_high n a t Er) as [Ha Ht].
    assert (escaped (a :: escape_from (S n) t) (a :: coerce_from (S n) t)) as Hone
      by (apply es_high; [done|apply IH; [cbn; lia|done]]).
    destruct t as [|b [|c t']]; [exact Hone..|]. destruct (is_line_sep a b c) eqn:Es; [|exact Hone].
    rewrite (line_sep_size a b c t' Es) in Er. injection Er as <-. cbn [coerce_from].
    apply es_sep; [done|]. apply IH; [cbn; lia|constructor].
Qed.

Lemma escape_escaped l : escaped (escape l) (coerce l).
Proof. apply escape_from_escaped. constructor. Qed.

(** ** The shape of the text *)

Definition num_char (c : ascii) : bool :=
  is_digit c || bool_decide (c = "-"%char) || bool_decide (c = "+"%char) || bool_decide (c = "."%char)
  || bool_decide (c = "e"%char) || bool_decide (c = "E"%char).

(** A literal: not empty, made of the characters of numbers. *)
Definition num_literal (t : list ascii) : Prop := t ≠ [] ∧ Forall (λ c, num_char c = true) t.

Fixpoint wf (v : jval) : Prop :=
  match v with
  | JNum t => num_literal t
  | JArr l => (fix all l := match l with [] => True | v :: l => wf v ∧ all l end) l
  | JObj l => (fix all l := match l with [] => True | (_, v) :: l => wf v ∧ all l end) l
  | _ => True
  end.

(** What may follow a value. *)
Definition delimited (k : list ascii) : Prop :=
  match k with [] => True | c :: _ => num_char c = false end.

Definition arr_tail : list jval → list ascii :=
  fix tail l := match l with [] => ["]"%char] | v :: l => ","%char :: render v ++ tail l end.

Definition obj_tail : list (string * jval) → list ascii :=
  fix tail l :=
    match l with
    | [] => ["}"%char]
    | (k, v) :: l => ","%char :: string_chars k ++ ":"%char :: render v ++ tail l
    end.

Lemma arr_tail_delimited l k : delimited (arr_tail l ++ k).
Proof. by destruct l. Qed.
Lemma obj_tail_delimited l k : delimited (obj_tail l ++ k).
Proof. by destruct l as [|[]]. Qed.

(** ** Numbers *)

Definition json_int (z : Z) : jval := JNum (list_ascii_of_string (pretty z)).

Lemma json_int_wf z : wf (json_int z).
Proof.
  assert (∀ c, is_digit c = true → num_char c = true) as Hd.
  { intros c Hc. unfold num_char. by rewrite Hc. }
  assert (∀ n : N, Forall (λ c, num_char c = true) (list_ascii_of_string (pretty n))) as Hn.
  { intros n. eapply Forall_impl; [apply pretty_N_digits|]. exact Hd. }
  simpl. destruct z as [|p|p].
  - split; [done|]. repeat constructor.
  - split; [|apply Hn]. change (pretty (Z.pos p)) with (pretty (N.pos p)).
    intros E. apply (pretty_N_nonempty (N.pos p)). by destruct (pretty (N.pos p)).
  - split; [done|]. change (pretty (Z.neg p)) with (String "-" (pretty (N.pos p))). constructor; [done|apply Hn].
Qed.

Lemma json_int_inj x y : json_int x = json_int y → x = y.
Proof. intros [= E]. by apply (inj pretty), list_ascii_of_string_inj. Qed.
