(* ===== verification/GoJsonRead.v ===== *)
(** * JSON text as [encoding/json] reads it

    The reader of [json.Unmarshal] and [json.Decoder]: white space, literals,
    the number grammar, strings with their escapes, the nesting limit and the
    refusal of trailing data.  A declarative grammar of JSON texts says which
    texts are values; the reader is proved to accept exactly those, whatever
    fuel it is given beyond the length of the text, and to read back what the
    writer of GoJson wrote.

    In a value that was read, a string or key is the raw text between its
    quotes, as [encoding/json] keeps it until a field asks for it; [unquote]
    gives the string it stands for. *)

From Stdlib Require Import ZArith Lia Ascii String.
From stdpp Require Import base option list strings pretty.
From S2P Require Import Prelude GoText GoUtf8 GoJson.

(** ** Lexical elements *)

Definition is_ws (c : ascii) : bool :=
  bool_decide (c = " "%char) || bool_decide (c = "009"%char) || bool_decide (c = "010"%char) ||
  bool_decide (c = "013"%char).

Fixpoint skip (l : list ascii) : list ascii :=
  match l with c :: t => if is_ws c then skip t else l | [] => [] end.

(** The longest prefix whose characters satisfy [P], and the rest. *)
Fixpoint span (P : ascii → bool) (l : list ascii) : list ascii * list ascii :=
  match l with
  | c :: t => if P c then prod_map (cons c) id (span P t) else ([], l)
  | [] => ([], [])
  end.

Definition is_hex (c : ascii) : bool := is_digit c || within 65 70 c || within 97 102 c.

(** A character that stands for itself in a string. *)
Definition plain (c : ascii) : bool :=
  negb (within 0 31 c) && negb (bool_decide (c = quote)) && negb (bool_decide (c = backslash)).

Definition escapable (c : ascii) : bool :=
  bool_decide (c ∈ [quote; backslash; "/"; "b"; "f"; "n"; "r"; "t"]%char).

(** The raw text of a string up to its closing quote, and what follows. *)
Fixpoint scan_string (l : list ascii) : option (list ascii * list ascii) :=
  match l with
  | [] => None
  | c :: t =>
      if bool_decide (c = quote) then Some ([], t)
      else if bool_decide (c = backslash) then
        match t with
        | [] => None
        | e :: t1 =>
            if escapable e then prod_map (λ r, c :: e :: r) id <$> scan_string t1
            else if bool_decide (e = "u"%char) then
              match t1 with
              | h1 :: (h2 :: (h3 :: (h4 :: t2))) =>
                  if forallb is_hex [h1; h2; h3; h4]
                  then prod_map (λ r, c :: e :: h1 :: h2 :: h3 :: h4 :: r) id <$> scan_string t2 else None
              | _ => None
              end
            else None
        end
      else if plain c then prod_map (cons c) id <$> scan_string t
      else None
  end.

(** The parts of a number, each with what follows. *)
Definition read_sign (l : list ascii) : list ascii * list ascii :=
  match l with c :: t => if bool_decide (c = "-"%char) then ([c], t) else ([], l) | [] => ([], l) end.

Definition read_int (l : list ascii) : option (list ascii * list ascii) :=
  match l with
  | c :: t => if bool_decide (c = "0"%char) then Some ([c], t)
              else if is_digit c then Some (span is_digit l) else None
  | [] => None
  end.

Definition read_digits (l : list ascii) : option (list ascii * list ascii) :=
  let '(ds, k) := span is_digit l in if bool_decide (ds = []) then None else Some (ds, k).

Definition read_frac (l : list ascii) : option (list ascii * list ascii) :=
  match l with
  | c :: t => if bool_decide (c = "."%char) then prod_map (cons c) id <$> read_digits t else Some ([], l)
  | [] => Some ([], l)
  end.

Definition read_exp_sign (l : list ascii) : list ascii * list ascii :=
  match l with
  | c :: t => if bool_decide (c = "-"%char) || bool_decide (c = "+"%char) then ([c], t) else ([], l)
  | [] => ([], l)
  end.

Definition is_e (c : ascii) : bool := bool_decide (c = "e"%char) || bool_decide (c = "E"%char).

Definition read_exp (l : list ascii) : option (list ascii * list ascii) :=
  match l with
  | c :: t => if is_e c then
                let '(s, t1) := read_exp_sign t in
                prod_map (λ ds, c :: s ++ ds) id <$> read_digits t1
              else Some ([], l)
  | [] => Some ([], l)
  end.

Definition read_number (l : list ascii) : option (list ascii * list ascii) :=
  let '(s, l1) := read_sign l in
  i ← read_int l1;
  f ← read_frac i.2;
  e ← read_exp f.2;
  Some (s ++ i.1 ++ f.1 ++ e.1, e.2).

(** What follows an expected character, or an expected text. *)
Definition eat (c : ascii) (l : list ascii) : option (list ascii) :=
  match l with x :: k => if bool_decide (x = c) then Some k else None | [] => None end.
Fixpoint eat_all (p l : list ascii) : option (list ascii) :=
  match p with [] => Some l | c :: p => eat c l ≫= eat_all p end.

Definition null_text : list ascii := ["n"; "u"; "l"; "l"]%char.
Definition true_text : list ascii := ["t"; "r"; "u"; "e"]%char.
Definition false_text : list ascii := ["f"; "a"; "l"; "s"; "e"]%char.

Definition read_literal (l : list ascii) : option (jval * list ascii) :=
  match eat_all null_text l, eat_all true_text l, eat_all false_text l with
  | Some k, _, _ => Some (JNull, k)
  | _, Some k, _ => Some (JBool true, k)
  | _, _, Some k => Some (JBool false, k)
  | _, _, _ => None
  end.

(** ** Values *)

(** The limit [maxNestingDepth] of the scanner. *)
Definition max_depth : N := 10000.

Definition raw_string (l : list ascii) : jval := JStr (string_of_list_ascii l).

(** [n] is fuel, [d] the number of brackets that may still be opened. *)
Fixpoint read_value (n : nat) (d : N) (l : list ascii) {struct n} : option (jval * list ascii) :=
  match n, l with
  | S n, c :: t =>
      if bool_decide (c = quote) then prod_map raw_string id <$> scan_string t
      else if bool_decide (c = "["%char) then
        if (d =? 0)%N then None else
        match eat "]" (skip t) with
        | Some k => Some (JArr [], k)
        | None => prod_map JArr id <$> read_elems n (N.pred d) (skip t)
        end
      else if bool_decide (c = "{"%char) then
        if (d =? 0)%N then None else
        match eat "}" (skip t) with
        | Some k => Some (JObj [], k)
        | None => prod_map JObj id <$> read_members n (N.pred d) (skip t)
        end
      else if is_digit c || bool_decide (c = "-"%char) then prod_map JNum id <$> read_number l
      else read_literal l
  | _, _ => None
  end
with read_elems (n : nat) (d : N) (l : list ascii) {struct n} : option (list jval * list ascii) :=
  match n with
  | O => None
  | S n =>
      v ← read_value n d l;
      match eat "]" (skip v.2), eat "," (skip v.2) with
      | Some k, _ => Some ([v.1], k)
      | _, Some k => prod_map (cons v.1) id <$> read_elems n d (skip k)
      | _, _ => None
      end
  end
with read_members (n : nat) (d : N) (l : list ascii) {struct n} : option (list (string * jval) * list ascii) :=
  match n with
  | O => None
  | S n =>
      t ← eat quote l;
      x ← scan_string t;
      k ← eat ":" (skip x.2);
      v ← read_value n d (skip k);
      match eat "}" (skip v.2), eat "," (skip v.2) with
      | Some k, _ => Some ([(string_of_list_ascii x.1, v.1)], k)
      | _, Some k => prod_map (cons (string_of_list_ascii x.1, v.1)) id <$> read_members n d (skip k)
      | _, _ => None
      end
  end.

Definition fuel_for (l : list ascii) : nat := 2 * length l.

(** The check of [json.Unmarshal]: one value and nothing but white space around
    it. *)
Definition read_json (l : list ascii) : option jval :=
  v ← read_value (fuel_for (skip l)) max_depth (skip l);
  match skip v.2 with [] => Some v.1 | _ => None end.

Definition is_composite (v : jval) : bool := match v with JArr _ | JObj _ => true | _ => false end.

(** [Decoder.Decode] on the bytes of a stream that has ended: the first value; a
    value without closing bracket must be followed by white space or the end. *)
Definition read_stream (l : list ascii) : option jval :=
  v ← read_value (fuel_for (skip l)) max_depth (skip l);
  if is_composite v.1 then Some v.1
  else match v.2 with [] => Some v.1 | c :: _ => if is_ws c then Some v.1 else None end.

(** ** Strings *)

Definition hex_val (c : ascii) : N :=
  let n := N_of_ascii c in (if n <? 58 then n - 48 else if n <? 97 then n - 55 else n - 87)%N.
Definition hex4 (a b c d : ascii) : N :=
  (((hex_val a * 16 + hex_val b) * 16 + hex_val c) * 16 + hex_val d)%N.

Definition escaped_char (e : ascii) : ascii :=
  if bool_decide (e = "b"%char) then "008"%char
  else if bool_decide (e = "f"%char) then "012"%char
  else if bool_decide (e = "n"%char) then "010"%char
  else if bool_decide (e = "r"%char) then "013"%char
  else if bool_decide (e = "t"%char) then "009"%char else e.

(** Escapes resolved; a surrogate that is not half of a pair is U+FFFD. *)
Fixpoint resolve (l : list ascii) : list ascii :=
  match l with
  | [] => []
  | c :: t =>
      if bool_decide (c = backslash) then
        match t with
        | [] => []
        | e :: t1 =>
            if bool_decide (e = "u"%char) then
              match t1 with
              | h1 :: (h2 :: (h3 :: (h4 :: t2))) =>
                  let r := hex4 h1 h2 h3 h4 in
                  if is_surrogate r then
                    match t2 with
                    | b :: (u :: (g1 :: (g2 :: (g3 :: (g4 :: t3))))) =>
                        if bool_decide (b = backslash) && bool_decide (u = "u"%char) then
                          match surrogate_pair r (hex4 g1 g2 g3 g4) with
                          | Some p => encode_rune p ++ resolve t3
                          | None => replacement ++ resolve t2
                          end
                        else replacement ++ resolve t2
                    | _ => replacement ++ resolve t2
                    end
                  else encode_rune r ++ resolve t2
              | _ => []
              end
            else escaped_char e :: resolve t1
        end
      else c :: resolve t
  end.

(** [unquoteBytes]: escapes are resolved and bytes that are not UTF-8 replaced.
    A resolved escape never starts with a continuation byte and is complete, so
    the order of the two makes no difference. *)
Definition unquote (s : string) : string :=
  string_of_list_ascii (coerce (resolve (list_ascii_of_string s))).

(** Text written with single quotes, for samples. *)
Definition qt (s : string) : list ascii :=
  (λ c, if bool_decide (c = "'"%char) then quote else c) <$> list_ascii_of_string s.

Example read_sample :
  read_json (qt " { 'a' : [1, -2.5e+3 ,true], 'b\u00e9':null } ")
  = Some (JObj [("a", JArr [JNum ["1"]%char; JNum ["-"; "2"; "."; "5"; "e"; "+"; "3"]%char; JBool true]);
                ("b\u00e9", JNull)]) ∧
  read_json (qt "{'a':01}") = None ∧ read_json (qt "{'a':1,}") = None ∧ read_json (qt "1 2") = None ∧
  read_json (qt "'\x'") = None ∧ read_json [] = None.
Proof. vm_compute. repeat split. Qed.

(** ** The grammar *)

Definition blank (w : list ascii) : Prop := Forall (λ c, is_ws c = true) w.
Definition all_digits (l : list ascii) : Prop := Forall (λ c, is_digit c = true) l.

Definition int_part (t : list ascii) : Prop :=
  t = ["0"%char] ∨ ∃ c ds, t = c :: ds ∧ is_digit c = true ∧ c ≠ "0"%char ∧ all_digits ds.
Definition frac_part (t : list ascii) : Prop :=
  t = [] ∨ ∃ ds, t = "."%char :: ds ∧ ds ≠ [] ∧ all_digits ds.
Definition exp_part (t : list ascii) : Prop :=
  t = [] ∨ ∃ e s ds, t = e :: s ++ ds ∧ is_e e = true ∧ (s = [] ∨ s = ["-"%char] ∨ s = ["+"%char]) ∧
                     ds ≠ [] ∧ all_digits ds.
Definition number (t : list ascii) : Prop :=
  ∃ s i f e, t = s ++ i ++ f ++ e ∧ (s = [] ∨ s = ["-"%char]) ∧ int_part i ∧ frac_part f ∧ exp_part e.

Inductive string_body : list ascii → Prop :=
| sb_nil : string_body []
| sb_plain c t : plain c = true → string_body t → string_body (c :: t)
| sb_escape e t : escapable e = true → string_body t → string_body (backslash :: e :: t)
| sb_unicode h1 h2 h3 h4 t :
    forallb is_hex [h1; h2; h3; h4] = true → string_body t →
    string_body (backslash :: "u"%char :: h1 :: h2 :: h3 :: h4 :: t).

(** [gval d v t]: the text [t] is the value [v], nested [d] deep at most. *)
Inductive gval : N → jval → list ascii → Prop :=
| g_null d : gval d JNull null_text
| g_true d : gval d (JBool true) true_text
| g_false d : gval d (JBool false) false_text
| g_num d t : number t → gval d (JNum t) t
| g_str d t : string_body t → gval d (raw_string t) (quote :: t ++ [quote])
| g_arr_nil d w : blank w → gval (N.succ d) (JArr []) ("["%char :: w ++ ["]"%char])
| g_arr d w vs t : blank w → gelems d vs t → gval (N.succ d) (JArr vs) ("["%char :: w ++ t)
| g_obj_nil d w : blank w → gval (N.succ d) (JObj []) ("{"%char :: w ++ ["}"%char])
| g_obj d w ms t : blank w → gmembers d ms t → gval (N.succ d) (JObj ms) ("{"%char :: w ++ t)
with gelems : N → list jval → list ascii → Prop :=
| ge_last d v t w : gval d v t → blank w → gelems d [v] (t ++ w ++ ["]"%char])
| ge_more d v t w w' vs t' :
    gval d v t → blank w → blank w' → gelems d vs t' →
    gelems d (v :: vs) (t ++ w ++ ","%char :: w' ++ t')
with gmembers : N → list (string * jval) → list ascii → Prop :=
| gm_last d x w1 w2 v t w :
    string_body x → blank w1 → blank w2 → gval d v t → blank w →
    gmembers d [(string_of_list_ascii x, v)] (quote :: x ++ quote :: w1 ++ ":"%char :: w2 ++ t ++ w ++ ["}"%char])
| gm_more d x w1 w2 v t w w' ms t' :
    string_body x → blank w1 → blank w2 → gval d v t → blank w → blank w' → gmembers d ms t' →
    gmembers d ((string_of_list_ascii x, v) :: ms)
      (quote :: x ++ quote :: w1 ++ ":"%char :: w2 ++ t ++ w ++ ","%char :: w' ++ t').

Scheme gval_mut := Minimality for gval Sort Prop
  with gelems_mut := Minimality for gelems Sort Prop
  with gmembers_mut := Minimality for gmembers Sort Prop.
Combined Scheme grammar_mut from gval_mut, gelems_mut, gmembers_mut.

(** A text of JSON. *)
Definition json_text (v : jval) (l : list ascii) : Prop :=
  ∃ w t w', l = w ++ t ++ w' ∧ blank w ∧ gval max_depth v t ∧ blank w'.

(** ** Lexical lemmas *)

Lemma eat_eq c k : eat c (c :: k) = Some k.
Proof. unfold eat. by rewrite bool_decide_true. Qed.
Lemma eat_ne c x k : x ≠ c → eat c (x :: k) = None.
Proof. intros. unfold eat. by rewrite bool_decide_false. Qed.
Lemma eat_Some c l k : eat c l = Some k → l = c :: k.
Proof. unfold eat. destruct l; [done|]. case_bool_decide; [|done]. by intros [= ->]; subst. Qed.

Lemma eat_all_app p k : eat_all p (p ++ k) = Some k.
Proof. induction p as [|c p IH]; [done|]. cbn [eat_all app]. by rewrite eat_eq. Qed.
Lemma eat_all_Some p l k : eat_all p l = Some k → l = p ++ k.
Proof.
  revert l. induction p as [|c p IH]; intros l; cbn [eat_all]; [by intros [= ->]|].
  destruct (eat c l) as [l'|] eqn:E; [|done]. intros Hp. apply eat_Some in E as ->. by rewrite (IH _ Hp).
Qed.

(** A text that does not start with white space. *)
Definition solid (l : list ascii) : Prop := match l with [] => True | c :: _ => is_ws c = false end.

Lemma skip_solid l : solid l → skip l = l.
Proof. destruct l as [|c l]; [done|]. cbn. by intros ->. Qed.
Lemma skip_app w l : blank w → skip (w ++ l) = skip l.
Proof. induction 1 as [|c w Hc _ IH]; [done|]. cbn. by rewrite Hc. Qed.
Lemma skip_blank w c k : blank w → is_ws c = false → skip (w ++ c :: k) = c :: k.
Proof. intros Hw Hc. rewrite skip_app by done. by apply skip_solid. Qed.
Lemma skip_spec l : ∃ w, l = w ++ skip l ∧ blank w ∧ solid (skip l).
Proof.
  induction l as [|c l (w & E & Hw & Hs)]; [by exists []; repeat constructor|]. cbn [skip].
  destruct (is_ws c) eqn:Hc.
  - exists (c :: w). split; [by rewrite E at 1|]. split; [by constructor|done].
  - exists []. by repeat constructor.
Qed.

(** A text whose first character, if any, does not satisfy [P]. *)
Definition stops (P : ascii → bool) (l : list ascii) : Prop := match l with [] => True | c :: _ => P c = false end.

Lemma span_app P ds k : Forall (λ c, P c = true) ds → stops P k → span P (ds ++ k) = (ds, k).
Proof.
  intros Hds Hk. induction Hds as [|c ds Hc _ IH]; cbn [span app].
  - destruct k as [|c k]; [done|]. cbn. by rewrite Hk.
  - by rewrite Hc, IH.
Qed.
Lemma span_spec P l : l = (span P l).1 ++ (span P l).2 ∧ Forall (λ c, P c = true) (span P l).1.
Proof.
  induction l as [|c l [E F]]; [done|]. cbn [span]. destruct (P c) eqn:Hc; [|done].
  destruct (span P l) as [a b]. cbn in *. split; [by f_equal|by constructor].
Qed.

(** ** Numbers *)

Lemma read_digits_app ds k : ds ≠ [] → all_digits ds → stops is_digit k → read_digits (ds ++ k) = Some (ds, k).
Proof. intros Hn Hd Hk. unfold read_digits. rewrite span_app by done. by rewrite bool_decide_false. Qed.

Lemma read_digits_Some l ds k : read_digits l = Some (ds, k) → l = ds ++ k ∧ ds ≠ [] ∧ all_digits ds.
Proof.
  unfold read_digits. pose proof (span_spec is_digit l) as [E F]. destruct (span is_digit l) as [a b].
  case_bool_decide; [done|]. by intros [= -> ->].
Qed.

Lemma read_int_app i k : int_part i → stops is_digit k → read_int (i ++ k) = Some (i, k).
Proof.
  intros [->|(c & ds & -> & Hc & Hz & Hds)] Hk; [done|]. cbn [app read_int].
  rewrite bool_decide_false, Hc by done. change (c :: ds ++ k) with ((c :: ds) ++ k).
  by rewrite span_app by (done || by constructor).
Qed.

Lemma read_int_Some l i k : read_int l = Some (i, k) → l = i ++ k ∧ int_part i.
Proof.
  destruct l as [|c l]; [done|]. cbn [read_int]. case_bool_decide as Hz.
  - intros [= <- <-]. subst. split; [done|by left].
  - destruct (is_digit c) eqn:Hc; [|done]. pose proof (span_spec is_digit (c :: l)) as [E F].
    destruct (span is_digit (c :: l)) as [a b] eqn:Es. intros [= -> ->]. cbn in E, F. split; [done|]. right.
    destruct i as [|c' i]; cbn [span] in Es; rewrite Hc in Es.
    + destruct (span is_digit l); done.
    + injection E as <- E. apply Forall_cons in F as [_ F]. by exists c, i.
Qed.

Lemma read_frac_app f k : frac_part f → stops is_digit k → stops (λ c, bool_decide (c = "."%char)) k →
  read_frac (f ++ k) = Some (f, k).
Proof.
  intros [->|(ds & -> & Hn & Hds)] Hk Hk'; cbn [app read_frac].
  - destruct k as [|c k]; [done|]. cbn in *. by rewrite Hk'.
  - by rewrite read_digits_app.
Qed.

Lemma read_frac_Some l f k : read_frac l = Some (f, k) → l = f ++ k ∧ frac_part f.
Proof.
  destruct l as [|c l]; cbn [read_frac]; [intros [= <- <-]; split; [done|by left]|].
  case_bool_decide as Hc; [|intros [= <- <-]; split; [done|by left]].
  destruct (read_digits l) as [[ds k']|] eqn:E; [|done]. intros [= <- <-].
  apply read_digits_Some in E as (-> & Hn & Hds). subst c. split; [done|]. right. by exists ds.
Qed.

Lemma read_exp_app e k : exp_part e → stops is_digit k → stops is_e k → read_exp (e ++ k) = Some (e, k).
Proof.
  intros [->|(c & s & ds & -> & Hc & Hs & Hn & Hds)] Hk Hk'.
  - destruct k as [|c k]; [done|]. cbn in *. by rewrite Hk'.
  - cbn [app read_exp]. rewrite Hc, <-app_assoc.
    assert (read_exp_sign (s ++ ds ++ k) = (s, ds ++ k)) as ->.
    { destruct Hs as [->|[->| ->]]; [|done..]. destruct ds as [|x ds]; [done|]. cbn.
      apply Forall_cons in Hds as [Hx _].
      by rewrite !bool_decide_false by (intros ->; discriminate Hx). }
    by rewrite read_digits_app.
Qed.

Lemma read_exp_Some l e k : read_exp l = Some (e, k) → l = e ++ k ∧ exp_part e.
Proof.
  destruct l as [|c l]; cbn [read_exp]; [intros [= <- <-]; split; [done|by left]|].
  destruct (is_e c) eqn:Hc; [|intros [= <- <-]; split; [done|by left]].
  assert (∃ s t, read_exp_sign l = (s, t) ∧ l = s ++ t ∧ (s = [] ∨ s = ["-"%char] ∨ s = ["+"%char]))
    as (s & t & Es & -> & Hs).
  { destruct l as [|x l]; [by exists [], []; eauto|]. cbn.
    repeat case_bool_decide; cbn; subst; eexists _, _; (split_and!; [reflexivity|reflexivity|eauto]). }
  rewrite Es. destruct (read_digits t) as [[ds k']|] eqn:E; [|done]. intros [= <- <-].
  apply read_digits_Some in E as (-> & Hn & Hds). split; [simpl; by rewrite <-app_assoc|]. right.
  by exists c, s, ds.
Qed.

Lemma delimited_stops P k : (∀ c, P c = true → num_char c = true) → delimited k → stops P k.
Proof.
  intros HP. destruct k as [|c k]; [done|]. cbn. intros Hc. destruct (P c) eqn:E; [|done].
  apply HP in E. congruence.
Qed.

Lemma is_digit_num c : is_digit c = true → num_char c = true.
Proof. unfold num_char. by intros ->. Qed.
Lemma is_e_num c : is_e c = true → num_char c = true.
Proof. unfold is_e, num_char. intros [->| ->]%orb_true_iff; by rewrite ?orb_true_r. Qed.
Lemma dot_num c : bool_decide (c = "."%char) = true → num_char c = true.
Proof. unfold num_char. intros ->. by rewrite ?orb_true_r. Qed.

(** The parts of a number stop each other. *)
Lemma frac_exp_stop f e k P :
  frac_part f → exp_part e → (∀ c, P c = true → num_char c = true) → P "."%char = false →
  (∀ c, is_e c = true → P c = false) → delimited k → stops P (f ++ e ++ k).
Proof.
  intros [->|(ds & -> & _)] He HP Hd Hee Hk; [|done].
  destruct He as [->|(c & s & ds & -> & Hc & _)]; [by apply delimited_stops|]. by apply Hee.
Qed.

Lemma number_head t : number t → ∃ c t', t = c :: t' ∧ (is_digit c || bool_decide (c = "-"%char)) = true.
Proof.
  intros (s & i & f & e & -> & Hs & Hi & _). destruct Hs as [->| ->]; [|by eexists _, _].
  destruct Hi as [->|(c & ds & -> & Hc & _)]; [by eexists _, _|]. eexists _, _. split; [done|]. by rewrite Hc.
Qed.

Lemma read_number_app t k : number t → delimited k → read_number (t ++ k) = Some (t, k).
Proof.
  intros (s & i & f & e & -> & Hs & Hi & Hf & He) Hk. unfold read_number.
  assert (read_sign ((s ++ i ++ f ++ e) ++ k) = (s, i ++ f ++ e ++ k)) as ->.
  { rewrite <-!app_assoc. destruct Hs as [->| ->]; [|done].
    destruct Hi as [->|(c & ds & -> & Hc & _)]; [done|]. cbn.
    by rewrite bool_decide_false by (intros ->; discriminate Hc). }
  assert (∀ c, is_e c = true → is_digit c = false) as Hed by (intros c [H%bool_decide_eq_true|H%bool_decide_eq_true]%orb_true_iff; by subst).
  assert (∀ c, is_e c = true → bool_decide (c = "."%char) = false) as Hedot
    by (intros c [H%bool_decide_eq_true|H%bool_decide_eq_true]%orb_true_iff; by subst).
  rewrite read_int_app; [|done|apply frac_exp_stop; auto using is_digit_num]. cbn [mbind option_bind snd fst].
  rewrite read_frac_app; [|done|..].
  2: { apply (frac_exp_stop [] e k); auto using is_digit_num. by left. }
  2: { destruct He as [->|(c & s' & ds & -> & Hc & _)]; [|by apply Hedot]. apply delimited_stops; [apply dot_num|done]. }
  cbn [mbind option_bind snd fst].
  rewrite read_exp_app by (auto; apply delimited_stops; auto using is_digit_num, is_e_num). done.
Qed.

Lemma read_number_Some l t k : read_number l = Some (t, k) → l = t ++ k ∧ number t.
Proof.
  unfold read_number.
  assert (∃ s l1, read_sign l = (s, l1) ∧ l = s ++ l1 ∧ (s = [] ∨ s = ["-"%char])) as (s & l1 & -> & -> & Hs).
  { destruct l as [|x l]; [by exists [], []; eauto|]. cbn.
    case_bool_decide; subst; eexists _, _; (split_and!; [reflexivity|reflexivity|eauto]). }
  destruct (read_int l1) as [[i l2]|] eqn:Ei; [|done]. cbn [mbind option_bind fst snd].
  destruct (read_frac l2) as [[f l3]|] eqn:Ef; [|done]. cbn [mbind option_bind fst snd].
  destruct (read_exp l3) as [[e l4]|] eqn:Ee; [|done]. cbn [mbind option_bind fst snd]. intros [= <- <-].
  apply read_int_Some in Ei as [-> Hi]. apply read_frac_Some in Ef as [-> Hf]. apply read_exp_Some in Ee as [-> He].
  split; [by rewrite <-!app_assoc|]. by exists s, i, f, e.
Qed.

(** ** Strings in the grammar *)

Lemma plain_ne c : plain c = true → bool_decide (c = quote) = false ∧ bool_decide (c = backslash) = false.
Proof. unfold plain. rewrite !andb_true_iff, !negb_true_iff. tauto. Qed.

Lemma scan_string_app x k : string_body x → scan_string (x ++ quote :: k) = Some (x, k).
Proof.
  induction 1 as [|c t Hc _ IH|e t He _ IH|h1 h2 h3 h4 t Hh _ IH]; cbn [app scan_string].
  - by rewrite bool_decide_true.
  - destruct (plain_ne c Hc) as [-> ->]. by rewrite Hc, IH.
  - rewrite He, IH. done.
  - change (escapable "u"%char) with false. rewrite Hh, IH. done.
Qed.

Lemma scan_string_Some l x k : scan_string l = Some (x, k) → l = x ++ quote :: k ∧ string_body x.
Proof.
  revert x k. induction l as [l IH] using (well_founded_induction (well_founded_ltof _ length)). unfold ltof in IH.
  assert (∀ (f : list ascii → list ascii) l' x k, length l' < length l → prod_map f id <$> scan_string l' = Some (x, k) →
    ∃ x', x = f x' ∧ l' = x' ++ quote :: k ∧ string_body x') as Hrec.
  { intros f l' x k Hl E. destruct (scan_string l') as [[x' k']|] eqn:E'; [|done]. cbn in E.
    injection E as <- <-. destruct (IH l' Hl x' k' E') as [-> ?]. eauto. }
  clear IH. destruct l as [|c l]; intros x k; cbn [scan_string]; [done|].
  case_bool_decide as Hq; [by intros [= <- <-]; subst; split; [done|constructor]|].
  case_bool_decide as Hb.
  - subst c. destruct l as [|e l]; [done|]. destruct (escapable e) eqn:He.
    + intros E. apply Hrec in E as (x' & -> & -> & Hx); [|simpl; lia]. split; [done|by constructor].
    + case_bool_decide as Hu; [|done]. subst e. destruct l as [|h1 [|h2 [|h3 [|h4 l]]]]; try done.
      destruct (forallb _ _) eqn:Hh; [|done].
      intros E. apply Hrec in E as (x' & -> & -> & Hx); [|simpl; lia]. split; [done|by constructor].
  - destruct (plain c) eqn:Hp; [|done].
    intros E. apply Hrec in E as (x' & -> & -> & Hx); [|simpl; lia]. split; [done|by constructor].
Qed.

(** ** The reader accepts the grammar *)

Lemma blank_delimited w c k : blank w → num_char c = false → delimited (w ++ c :: k).
Proof.
  intros Hw Hc. destruct w as [|x w]; [done|]. apply Forall_cons in Hw as [Hx _]. cbn.
  unfold is_ws in Hx. rewrite !orb_true_iff, !bool_decide_eq_true in Hx.
  by destruct Hx as [[[->| ->]| ->]| ->].
Qed.

(** A value starts with a character that is neither white space nor closing. *)
Lemma gval_head d v t :
  gval d v t → ∃ c t', t = c :: t' ∧ is_ws c = false ∧ c ≠ "]"%char ∧ c ≠ "}"%char.
Proof.
  destruct 1 as [| | |d t Hn| | | | |]; try by eexists _, _.
  destruct (number_head t Hn) as (c & t' & -> & Hc). exists c, t'. split; [done|].
  apply orb_true_iff in Hc as [Hc|Hc%bool_decide_eq_true]; [|by subst].
  split_and!; [|by intros ->..]. unfold is_ws.
  by rewrite !bool_decide_false by (intros ->; discriminate Hc).
Qed.

Lemma gelems_head d vs t :
  gelems d vs t → ∃ c t', t = c :: t' ∧ is_ws c = false ∧ c ≠ "]"%char.
Proof.
  destruct 1 as [d v t w Hv|d v t w w' vs t' Hv]; destruct (gval_head _ _ _ Hv) as (c & t0 & -> & ? & ? & ?);
    by eexists _, _.
Qed.

Lemma gmembers_head d ms t : gmembers d ms t → ∃ t', t = quote :: t'.
Proof. destruct 1; by eexists. Qed.

(** Skip white space before a text with a solid head. *)
Lemma skip_to w t k c t' : blank w → t = c :: t' → is_ws c = false → skip (w ++ t ++ k) = t ++ k.
Proof. intros Hw -> Hc. by apply skip_blank. Qed.

Lemma skip_value d v t w k : gval d v t → blank w → skip (w ++ t ++ k) = t ++ k.
Proof. intros (c & t' & E & Hc & _)%gval_head Hw. by eapply skip_to. Qed.

Definition value_ok (d : N) (v : jval) (t : list ascii) : Prop :=
  ∀ n k, 2 * length t ≤ n → delimited k → read_value n d (t ++ k) = Some (v, k).
Definition elems_ok (d : N) (vs : list jval) (t : list ascii) : Prop :=
  ∀ n k, 2 * length t < n → read_elems n d (t ++ k) = Some (vs, k).
Definition members_ok (d : N) (ms : list (string * jval)) (t : list ascii) : Prop :=
  ∀ n k, 2 * length t < n → read_members n d (t ++ k) = Some (ms, k).

Ltac lengths := repeat (progress (cbn [length] in *; rewrite ?length_app in * )); lia.

Lemma value_ok_arr d w vs t : blank w → gelems d vs t → elems_ok d vs t →
  value_ok (N.succ d) (JArr vs) ("["%char :: w ++ t).
Proof.
  intros Hw Hg IH [|n] k Hn _; [lengths|]. cbn [app read_value].
  rewrite bool_decide_false, bool_decide_true by done. destruct (N.eqb_spec (N.succ d) 0) as [?|_]; [lia|].
  destruct (gelems_head _ _ _ Hg) as (c & t' & Et & Hc & Hne).
  rewrite <-app_assoc, (skip_to w t k c t' Hw Et Hc), N.pred_succ.
  replace (eat "]" (t ++ k)) with (@None (list ascii)) by (rewrite Et; symmetry; by apply eat_ne).
  by rewrite IH by lengths.
Qed.

Lemma value_ok_obj d w ms t : blank w → gmembers d ms t → members_ok d ms t →
  value_ok (N.succ d) (JObj ms) ("{"%char :: w ++ t).
Proof.
  intros Hw Hg IH [|n] k Hn _; [lengths|]. cbn [app read_value].
  do 2 rewrite bool_decide_false by done. rewrite bool_decide_true by done.
  destruct (N.eqb_spec (N.succ d) 0) as [?|_]; [lia|].
  destruct (gmembers_head _ _ _ Hg) as (t' & Et).
  rewrite <-app_assoc, (skip_to w t k quote t' Hw Et eq_refl), N.pred_succ.
  replace (eat "}" (t ++ k)) with (@None (list ascii)) by (rewrite Et; symmetry; by apply eat_ne).
  by rewrite IH by lengths.
Qed.

Lemma value_ok_nil d w : blank w →
  value_ok (N.succ d) (JArr []) ("["%char :: w ++ ["]"%char]) ∧ value_ok (N.succ d) (JObj []) ("{"%char :: w ++ ["}"%char]).
Proof.
  intros Hw; split; intros [|n] k Hn _; [lengths| |lengths|]; cbn [app read_value];
    repeat first [rewrite bool_decide_true by done|rewrite bool_decide_false by done];
    (destruct (N.eqb_spec (N.succ d) 0) as [?|_]; [lia|]); rewrite <-app_assoc; cbn [app];
    by rewrite skip_blank, eat_eq by done.
Qed.

Lemma elems_ok_step d v t w n k c :
  gval d v t → value_ok d v t → blank w → num_char c = false → is_ws c = false → 2 * length t < n →
  ∃ m, n = S m ∧ read_value m d (t ++ w ++ c :: k) = Some (v, w ++ c :: k) ∧ skip (w ++ c :: k) = c :: k.
Proof.
  intros Hv IH Hw Hc Hs Hn. destruct n as [|m]; [lia|]. exists m. split; [done|].
  rewrite IH by (lia || by apply blank_delimited). split; [done|]. by apply skip_blank.
Qed.

Lemma elems_ok_last d v t w : gval d v t → value_ok d v t → blank w → elems_ok d [v] (t ++ w ++ ["]"%char]).
Proof.
  intros Hv IH Hw n k Hn. rewrite <-!app_assoc. cbn [app].
  destruct (elems_ok_step d v t w n k "]" Hv IH Hw eq_refl eq_refl) as (m & -> & E & Es); [lengths|].
  cbn [read_elems]. rewrite E. cbn [mbind option_bind fst snd]. by rewrite Es, eat_eq.
Qed.

Lemma elems_ok_more d v t w w' vs t' :
  gval d v t → value_ok d v t → blank w → blank w' → gelems d vs t' → elems_ok d vs t' →
  elems_ok d (v :: vs) (t ++ w ++ ","%char :: w' ++ t').
Proof.
  intros Hv IH Hw Hw' Hg IH' n k Hn. rewrite <-!app_assoc. cbn [app]. rewrite <-!app_assoc.
  destruct (elems_ok_step d v t w n (w' ++ t' ++ k) "," Hv IH Hw eq_refl eq_refl) as (m & -> & E & Es); [lengths|].
  cbn [read_elems]. rewrite E. cbn [mbind option_bind fst snd]. rewrite Es, eat_ne, eat_eq by done.
  destruct (gelems_head _ _ _ Hg) as (c & t0 & Et & Hc & _). rewrite (skip_to w' t' k c t0 Hw' Et Hc).
  by rewrite IH' by lengths.
Qed.

Lemma members_ok_step d x w1 w2 v t w n k c :
  string_body x → blank w1 → blank w2 → gval d v t → value_ok d v t → blank w → num_char c = false →
  is_ws c = false → 2 * length (x ++ t) < n →
  ∃ m, n = S m ∧ skip (w1 ++ ":"%char :: w2 ++ t ++ w ++ c :: k) = ":"%char :: w2 ++ t ++ w ++ c :: k ∧
    skip (w2 ++ t ++ w ++ c :: k) = t ++ w ++ c :: k ∧
    read_value m d (t ++ w ++ c :: k) = Some (v, w ++ c :: k) ∧ skip (w ++ c :: k) = c :: k.
Proof.
  intros Hx Hw1 Hw2 Hv IH Hw Hc Hs Hn. rewrite length_app in Hn.
  destruct (elems_ok_step d v t w n k c Hv IH Hw Hc Hs) as (m & -> & E & Es); [lia|].
  exists m. split_and!; [done|by apply skip_blank|by eapply skip_value|done..].
Qed.

Lemma members_ok_last d x w1 w2 v t w :
  string_body x → blank w1 → blank w2 → gval d v t → value_ok d v t → blank w →
  members_ok d [(string_of_list_ascii x, v)] (quote :: x ++ quote :: w1 ++ ":"%char :: w2 ++ t ++ w ++ ["}"%char]).
Proof.
  intros Hx Hw1 Hw2 Hv IH Hw n k Hn.
  destruct (members_ok_step d x w1 w2 v t w n k "}" Hx Hw1 Hw2 Hv IH Hw eq_refl eq_refl)
    as (m & -> & E1 & E2 & E3 & E4); [lengths|].
  repeat (rewrite <-?app_assoc; cbn [app]). cbn [read_members]. rewrite eat_eq. cbn [mbind option_bind].
  rewrite scan_string_app by done. cbn [mbind option_bind fst snd]. rewrite E1, eat_eq. cbn [mbind option_bind].
  rewrite E2, E3. cbn [mbind option_bind fst snd]. by rewrite E4, eat_eq.
Qed.

Lemma members_ok_more d x w1 w2 v t w w' ms t' :
  string_body x → blank w1 → blank w2 → gval d v t → value_ok d v t → blank w → blank w' →
  gmembers d ms t' → members_ok d ms t' →
  members_ok d ((string_of_list_ascii x, v) :: ms)
    (quote :: x ++ quote :: w1 ++ ":"%char :: w2 ++ t ++ w ++ ","%char :: w' ++ t').
Proof.
  intros Hx Hw1 Hw2 Hv IH Hw Hw' Hg IH' n k Hn.
  destruct (members_ok_step d x w1 w2 v t w n (w' ++ t' ++ k) "," Hx Hw1 Hw2 Hv IH Hw eq_refl eq_refl)
    as (m & -> & E1 & E2 & E3 & E4); [lengths|].
  repeat (rewrite <-?app_assoc; cbn [app]). cbn [read_members]. rewrite eat_eq. cbn [mbind option_bind].
  rewrite scan_string_app by done. cbn [mbind option_bind fst snd]. rewrite E1, eat_eq. cbn [mbind option_bind].
  rewrite E2, E3. cbn [mbind option_bind fst snd]. rewrite E4, eat_ne, eat_eq by done.
  destruct (gmembers_head _ _ _ Hg) as (t0 & Et). rewrite (skip_to w' t' k quote t0 Hw' Et eq_refl).
  by rewrite IH' by lengths.
Qed.

Lemma value_ok_simple d :
  value_ok d JNull null_text ∧ value_ok d (JBool true) true_text ∧ value_ok d (JBool false) false_text ∧
  (∀ t, number t → value_ok d (JNum t) t) ∧ (∀ t, string_body t → value_ok d (raw_string t) (quote :: t ++ [quote])).
Proof.
  split_and!; [by intros [|n] k Hn _; [cbn in Hn; lia|]..| |].
  - intros t Ht [|n] k Hn Hk; destruct (number_head t Ht) as (c & t' & E & Hc); [rewrite E in Hn; cbn in Hn; lia|].
    rewrite E. cbn [app read_value]. rewrite Hc.
    assert (c ≠ quote ∧ c ≠ "["%char ∧ c ≠ "{"%char) as (? & ? & ?) by (split_and!; intros ->; discriminate Hc).
    rewrite !bool_decide_false by done. change (c :: t' ++ k) with ((c :: t') ++ k).
    rewrite <-E, read_number_app by done. done.
  - intros t Ht [|n] k Hn _; [cbn in Hn; lia|]. cbn [app read_value]. rewrite bool_decide_true by done.
    rewrite <-app_assoc. cbn [app]. by rewrite scan_string_app.
Qed.

Lemma read_complete :
  (∀ d v t, gval d v t → value_ok d v t) ∧ (∀ d vs t, gelems d vs t → elems_ok d vs t) ∧
  (∀ d ms t, gmembers d ms t → members_ok d ms t).
Proof.
  apply grammar_mut; intros; try (by apply value_ok_simple); try (by apply value_ok_nil).
  - by apply value_ok_arr.
  - by apply value_ok_obj.
  - by apply elems_ok_last.
  - by apply elems_ok_more.
  - by apply members_ok_last.
  - by apply members_ok_more.
Qed.

(** ** The reader accepts nothing else *)

Definition value_sound (n : nat) : Prop :=
  ∀ d l v k, read_value n d l = Some (v, k) → ∃ t, l = t ++ k ∧ gval d v t.
Definition elems_sound (n : nat) : Prop :=
  ∀ d l vs k, read_elems n d l = Some (vs, k) → ∃ t, l = t ++ k ∧ gelems d vs t.
Definition members_sound (n : nat) : Prop :=
  ∀ d l ms k, read_members n d l = Some (ms, k) → ∃ t, l = t ++ k ∧ gmembers d ms t.

(** Invert [f <$> m = Some (x, k)]. *)
Lemma fmap_pair_Some {A B} (f : A → B) (m : option (A * list ascii)) x k :
  prod_map f id <$> m = Some (x, k) → ∃ y, m = Some (y, k) ∧ x = f y.
Proof. destruct m as [[y k']|]; [|done]. cbn. intros [= <- <-]. eauto. Qed.

Lemma succ_pred d : (d =? 0)%N = false → d = N.succ (N.pred d).
Proof. intros ?%N.eqb_neq. lia. Qed.

Lemma read_literal_sound d l v k : read_literal l = Some (v, k) → ∃ t, l = t ++ k ∧ gval d v t.
Proof.
  unfold read_literal.
  destruct (eat_all null_text l) as [k1|] eqn:E1; [|destruct (eat_all true_text l) as [k1|] eqn:E2;
    [|destruct (eat_all false_text l) as [k1|] eqn:E3; [|done]]]; intros [= <- <-].
  - apply eat_all_Some in E1 as ->. eexists. split; [done|constructor].
  - apply eat_all_Some in E2 as ->. eexists. split; [done|constructor].
  - apply eat_all_Some in E3 as ->. eexists. split; [done|constructor].
Qed.

Lemma read_arr_sound n d t v k :
  elems_sound n → (d =? 0)%N = false →
  match eat "]" (skip t) with
  | Some k => Some (JArr [], k)
  | None => prod_map JArr id <$> read_elems n (N.pred d) (skip t)
  end = Some (v, k) → ∃ t', "["%char :: t = t' ++ k ∧ gval d v t'.
Proof.
  intros IH Hd. rewrite (succ_pred d Hd), N.pred_succ. destruct (skip_spec t) as (w & Ew & Hw & _).
  destruct (eat "]" (skip t)) as [k'|] eqn:E.
  - intros [= <- <-]. apply eat_Some in E. rewrite E in Ew. rewrite Ew. exists ("["%char :: w ++ ["]"%char]).
    split; [simpl; by rewrite <-app_assoc|by constructor].
  - intros (vs & Er & ->)%fmap_pair_Some. apply IH in Er as (t' & Et & Hg). rewrite Et in Ew. rewrite Ew.
    exists ("["%char :: w ++ t'). split; [simpl; by rewrite <-app_assoc|by constructor].
Qed.

Lemma read_obj_sound n d t v k :
  members_sound n → (d =? 0)%N = false →
  match eat "}" (skip t) with
  | Some k => Some (JObj [], k)
  | None => prod_map JObj id <$> read_members n (N.pred d) (skip t)
  end = Some (v, k) → ∃ t', "{"%char :: t = t' ++ k ∧ gval d v t'.
Proof.
  intros IH Hd. rewrite (succ_pred d Hd), N.pred_succ. destruct (skip_spec t) as (w & Ew & Hw & _).
  destruct (eat "}" (skip t)) as [k'|] eqn:E.
  - intros [= <- <-]. apply eat_Some in E. rewrite E in Ew. rewrite Ew. exists ("{"%char :: w ++ ["}"%char]).
    split; [simpl; by rewrite <-app_assoc|by constructor].
  - intros (vs & Er & ->)%fmap_pair_Some. apply IH in Er as (t' & Et & Hg). rewrite Et in Ew. rewrite Ew.
    exists ("{"%char :: w ++ t'). split; [simpl; by rewrite <-app_assoc|by constructor].
Qed.

Lemma read_value_sound n : elems_sound n → members_sound n → value_sound (S n).
Proof.
  intros IHe IHm d [|c l] v k; [done|]. cbn [read_value].
  case_bool_decide as Hq; [|case_bool_decide as Ha; [|case_bool_decide as Ho]].
  - intros (x & E & ->)%fmap_pair_Some. apply scan_string_Some in E as [-> Hx]. subst c.
    exists (quote :: x ++ [quote]). split; [simpl; by rewrite <-app_assoc|by constructor].
  - subst c. destruct (d =? 0)%N eqn:Hd; [done|]. by apply read_arr_sound.
  - subst c. destruct (d =? 0)%N eqn:Hd; [done|]. by apply read_obj_sound.
  - destruct (is_digit c || _).
    + intros (x & E & ->)%fmap_pair_Some. apply read_number_Some in E as [-> Hx]. eexists. split; [done|by constructor].
    + apply read_literal_sound.
Qed.

Lemma read_elems_sound n : value_sound n → elems_sound n → elems_sound (S n).
Proof.
  intros IHv IHe d l vs k. cbn [read_elems]. destruct (read_value n d l) as [[v k1]|] eqn:Ev; [|done].
  cbn [mbind option_bind fst snd]. apply IHv in Ev as (t & -> & Hg).
  destruct (skip_spec k1) as (w & Ew & Hw & _). destruct (eat "]" (skip k1)) as [k2|] eqn:E1.
  - intros [= <- <-]. apply eat_Some in E1. rewrite E1 in Ew. rewrite Ew. exists (t ++ w ++ ["]"%char]).
    split; [by rewrite <-!app_assoc|by constructor].
  - destruct (eat "," (skip k1)) as [k2|] eqn:E2; [|done]. apply eat_Some in E2. rewrite E2 in Ew. rewrite Ew.
    intros (ws & Er & ->)%fmap_pair_Some. apply IHe in Er as (t' & Et & Hg').
    destruct (skip_spec k2) as (w' & Ew' & Hw' & _). rewrite Et in Ew'. rewrite Ew'.
    exists (t ++ w ++ ","%char :: w' ++ t'). split; [|by constructor]. by repeat (rewrite <-?app_assoc; cbn [app]).
Qed.

Lemma read_members_sound n : value_sound n → members_sound n → members_sound (S n).
Proof.
  intros IHv IHm d l ms k. cbn [read_members].
  destruct (eat quote l) as [l1|] eqn:El; [|done]. apply eat_Some in El as ->. cbn [mbind option_bind].
  destruct (scan_string l1) as [[x l2]|] eqn:Ex; [|done]. apply scan_string_Some in Ex as [-> Hx].
  cbn [mbind option_bind fst snd]. destruct (skip_spec l2) as (w1 & Ew1 & Hw1 & _).
  destruct (eat ":" (skip l2)) as [l3|] eqn:E3; [|done]. apply eat_Some in E3. rewrite E3 in Ew1. rewrite Ew1.
  cbn [mbind option_bind]. destruct (skip_spec l3) as (w2 & Ew2 & Hw2 & _).
  destruct (read_value n d (skip l3)) as [[v k1]|] eqn:Ev; [|done]. cbn [mbind option_bind fst snd].
  apply IHv in Ev as (t & Et & Hg). rewrite Et in Ew2. rewrite Ew2.
  destruct (skip_spec k1) as (w & Ew & Hw & _). destruct (eat "}" (skip k1)) as [k2|] eqn:E1.
  - intros [= <- <-]. apply eat_Some in E1. rewrite E1 in Ew. rewrite Ew.
    eexists. split; [|by apply (gm_last d x w1 w2 v t w)]. by repeat (rewrite <-?app_assoc; cbn [app]).
  - destruct (eat "," (skip k1)) as [k2|] eqn:E2; [|done]. apply eat_Some in E2. rewrite E2 in Ew. rewrite Ew.
    intros (ms' & Er & ->)%fmap_pair_Some. apply IHm in Er as (t' & Et' & Hg').
    destruct (skip_spec k2) as (w' & Ew' & Hw' & _). rewrite Et' in Ew'. rewrite Ew'.
    eexists. split; [|by apply (gm_more d x w1 w2 v t w w' ms' t')]. by repeat (rewrite <-?app_assoc; cbn [app]).
Qed.

Lemma read_sound n : value_sound n ∧ elems_sound n ∧ members_sound n.
Proof.
  induction n as [|n (IHv & IHe & IHm)]; [by split_and!; intros d l v k|].
  split_and!; [by apply read_value_sound|by apply read_elems_sound|by apply read_members_sound].
Qed.

(** ** The reader is the grammar *)

Lemma gval_solid d v t k : gval d v t → solid (t ++ k).
Proof. intros (c & t' & -> & Hc & _)%gval_head. done. Qed.

Lemma skip_all w : blank w → skip w = [].
Proof. intros Hw. by rewrite <-(app_nil_r w), skip_app. Qed.

Lemma skip_nil l : skip l = [] → blank l.
Proof. intros E. destruct (skip_spec l) as (w & Ew & Hw & _). rewrite E, app_nil_r in Ew. by subst. Qed.

Lemma blank_delim w : blank w → delimited w.
Proof.
  destruct w as [|c w]; [done|]. intros [Hc Hw]%Forall_cons.
  assert (blank [c]) as Hb by (by constructor). exact (blank_delimited [c] "x"%char [] Hb eq_refl).
Qed.

(** Fuel above twice the length of the text makes no difference. *)
Lemma read_value_fuel n d v t k : gval d v t → delimited k → 2 * length t ≤ n → read_value n d (t ++ k) = Some (v, k).
Proof. intros Hg Hk Hn. by apply read_complete. Qed.

Lemma read_json_complete v l : json_text v l → read_json l = Some v.
Proof.
  intros (w & t & w' & -> & Hw & Hg & Hw'). unfold read_json.
  rewrite (skip_value _ _ _ _ _ Hg Hw). rewrite read_value_fuel with (v := v) (t := t) (k := w');
    [|done|by apply blank_delim|unfold fuel_for; lengths].
  cbn [mbind option_bind fst snd]. by rewrite skip_all.
Qed.

Lemma read_json_sound v l : read_json l = Some v → json_text v l.
Proof.
  unfold read_json. destruct (read_value _ _ _) as [[v' k]|] eqn:E; [|done]. cbn [mbind option_bind fst snd].
  destruct (skip k) as [|c k'] eqn:Ek; [|done]. intros [= ->].
  apply read_sound in E as (t & Et & Hg). destruct (skip_spec l) as (w & Ew & Hw & _). rewrite Et in Ew.
  exists w, t, k. split_and!; [done..|by apply skip_nil].
Qed.

(** ** Reading what was written *)

Definition quoted_string (s : string) : string := string_of_list_ascii (escape (list_ascii_of_string s)).

(** A value with its strings as the writer quotes them. *)
Fixpoint quoted (v : jval) : jval :=
  match v with
  | JStr s => JStr (quoted_string s)
  | JArr l => JArr ((fix go l := match l with [] => [] | v :: l => quoted v :: go l end) l)
  | JObj l => JObj ((fix go l := match l with [] => [] | (k, v) :: l => (quoted_string k, quoted v) :: go l end) l)
  | v => v
  end.

Definition quoted_list : list jval → list jval :=
  fix go l := match l with [] => [] | v :: l => quoted v :: go l end.
Definition quoted_members : list (string * jval) → list (string * jval) :=
  fix go l := match l with [] => [] | (k, v) :: l => (quoted_string k, quoted v) :: go l end.

(** Numbers are numbers, and brackets nest [d] deep at most. *)
Fixpoint fits (d : N) (v : jval) : Prop :=
  match v with
  | JNum t => number t
  | JArr l => d ≠ 0%N ∧ (fix all l := match l with [] => True | v :: l => fits (N.pred d) v ∧ all l end) l
  | JObj l => d ≠ 0%N ∧ (fix all l := match l with [] => True | (_, v) :: l => fits (N.pred d) v ∧ all l end) l
  | _ => True
  end.

Lemma escape_char_body c k : string_body k → string_body (escape_char c ++ k).
Proof.
  intros Hk. destruct c as [[] [] [] [] [] [] [] []];
    first [apply (sb_unicode _ _ _ _ k); [reflexivity|exact Hk]
          |apply (sb_escape _ k); [reflexivity|exact Hk]|apply (sb_plain _ k); [reflexivity|exact Hk]].
Qed.

Lemma high_plain c : high c = true → plain c = true.
Proof. destruct c as [[] [] [] [] [] [] [] []]; first [reflexivity|discriminate]. Qed.

Lemma escaped_body t l : escaped t l → string_body t.
Proof.
  induction 1 as [|c t l _ IH|t l _ IH|a b c t l _ _ IH|c t l Hc _ IH].
  - constructor.
  - by apply escape_char_body.
  - by apply sb_unicode.
  - unfold line_sep_escape. by case_bool_decide; apply sb_unicode.
  - apply sb_plain; [by apply high_plain|done].
Qed.

Lemma escape_body l : string_body (escape l).
Proof. eapply escaped_body, escape_escaped. Qed.

Lemma string_chars_quoted s : string_chars s = quote :: list_ascii_of_string (quoted_string s) ++ [quote].
Proof. unfold string_chars, quoted_string. by rewrite list_ascii_of_string_of_list_ascii. Qed.

Lemma gval_string d s : gval d (JStr (quoted_string s)) (string_chars s).
Proof. apply g_str, escape_body. Qed.

Lemma gelems_render d v l :
  Forall (λ v, ∀ d, fits d v → gval d (quoted v) (render v)) (v :: l) →
  fits d v → fits (N.succ d) (JArr l) → gelems d (quoted v :: quoted_list l) (render v ++ arr_tail l).
Proof.
  revert v. induction l as [|v' l IH]; intros v [Hv Hl]%Forall_cons Hf [_ Hfl].
  - exact (ge_last d (quoted v) (render v) [] (Hv d Hf) (Forall_nil_2 _)).
  - rewrite N.pred_succ in Hfl. destruct Hfl as [Hf' Hfl].
    apply (ge_more d (quoted v) (render v) [] [] (quoted v' :: quoted_list l)); [by apply Hv|constructor|constructor|].
    apply IH; [done..|]. split; [lia|]. by rewrite N.pred_succ.
Qed.

Lemma gmembers_render d x v l :
  Forall (λ kv, ∀ d, fits d kv.2 → gval d (quoted kv.2) (render kv.2)) ((x, v) :: l) →
  fits d v → fits (N.succ d) (JObj l) →
  gmembers d ((quoted_string x, quoted v) :: quoted_members l) (string_chars x ++ ":"%char :: render v ++ obj_tail l).
Proof.
  revert x v. induction l as [|[x' v'] l IH]; intros x v [Hv Hl]%Forall_cons Hf [_ Hfl]; cbn [snd] in Hv;
    unfold string_chars; cbn [app]; rewrite <-app_assoc; cbn [app].
  - apply (gm_last d (escape (list_ascii_of_string x)) [] [] (quoted v) (render v) []);
      [apply escape_body|constructor|constructor|by apply Hv|constructor].
  - rewrite N.pred_succ in Hfl. destruct Hfl as [Hf' Hfl].
    apply (gm_more d (escape (list_ascii_of_string x)) [] [] (quoted v) (render v) [] []
      ((quoted_string x', quoted v') :: quoted_members l));
      [apply escape_body|constructor|constructor|by apply Hv|constructor|constructor|].
    apply IH; [done..|]. split; [lia|]. by rewrite N.pred_succ.
Qed.

Lemma render_text v d : fits d v → gval d (quoted v) (render v).
Proof.
  revert d. induction v as [|[]|t|s|l IH|l IH] using jval_ind; intros d Hf; try by constructor.
  - apply gval_string.
  - destruct Hf as [Hd Hf]. replace d with (N.succ (N.pred d)) by lia. set (d' := N.pred d) in *. clearbody d'.
    destruct l as [|v l]; [apply (g_arr_nil d' []); constructor|]. destruct Hf as [Hf Hfl].
    apply (g_arr d' [] (quoted v :: quoted_list l)); [constructor|]. apply gelems_render; [done..|].
    split; [lia|]. by rewrite N.pred_succ.
  - destruct Hf as [Hd Hf]. replace d with (N.succ (N.pred d)) by lia. set (d' := N.pred d) in *. clearbody d'.
    destruct l as [|[x v] l]; [apply (g_obj_nil d' []); constructor|]. destruct Hf as [Hf Hfl].
    apply (g_obj d' [] ((quoted_string x, quoted v) :: quoted_members l)); [constructor|]. apply gmembers_render; [done..|].
    split; [lia|]. by rewrite N.pred_succ.
Qed.

(** Writing then reading is quoting. *)
Lemma read_marshal v : fits max_depth v → read_json (marshal v) = Some (quoted v).
Proof.
  intros Hf. apply read_json_complete. exists [], (render v), []. rewrite app_nil_r.
  split_and!; [done|constructor|by apply render_text|constructor].
Qed.

Lemma read_marshal_ws v w : fits max_depth v → blank w → read_json (marshal v ++ w) = Some (quoted v).
Proof.
  intros Hf Hw. apply read_json_complete. exists [], (render v), w.
  split_and!; [done|constructor|by apply render_text|done].
Qed.

Lemma read_stream_marshal v k :
  fits max_depth v → is_composite v = true → delimited k → read_stream (marshal v ++ k) = Some (quoted v).
Proof.
  intros Hf Hc Hk. pose proof (render_text v _ Hf) as Hg. unfold read_stream, marshal.
  rewrite skip_solid by (by eapply gval_solid).
  rewrite (read_value_fuel _ _ _ _ _ Hg Hk) by (unfold fuel_for; rewrite length_app; lia).
  cbn [mbind option_bind fst snd]. by destruct v.
Qed.

Lemma resolve_char c k : resolve (escape_char c ++ k) = c :: resolve k.
Proof. destruct c as [[] [] [] [] [] [] [] []]; reflexivity. Qed.

Lemma resolve_escaped t l : escaped t l → resolve t = l.
Proof.
  induction 1 as [|c t l _ IH|t l _ IH|a b c t l Hs _ IH|c t l Hc _ IH]; [done|..].
  - by rewrite resolve_char, IH.
  - cbn -[resolve]. cbn. by rewrite IH.
  - unfold is_line_sep in Hs. rewrite !andb_true_iff, orb_true_iff, !bool_decide_eq_true in Hs.
    destruct Hs as [[-> ->] [->| ->]]; cbn; by rewrite IH.
  - cbn [resolve]. rewrite bool_decide_false; [by rewrite IH|]. intros ->. discriminate Hc.
Qed.

(** Reading what was written replaces what is not UTF-8. *)
Lemma resolve_escape l : resolve (escape l) = coerce l.
Proof. apply resolve_escaped, escape_escaped. Qed.

(** Valid UTF-8 survives quoting. *)
Lemma unquote_quoted s : valid_utf8 (list_ascii_of_string s) = true → unquote (quoted_string s) = s.
Proof.
  intros Hs. unfold unquote, quoted_string.
  rewrite list_ascii_of_string_of_list_ascii, resolve_escape, !(coerce_id (list_ascii_of_string s)) by done.
  apply string_of_list_ascii_of_string.
Qed.

(** What was unquoted is valid UTF-8. *)
Lemma unquote_valid s : valid_utf8 (list_ascii_of_string (unquote s)) = true.
Proof. unfold unquote. rewrite list_ascii_of_string_of_list_ascii. apply coerce_valid. Qed.

(** The decimal text of an integer is a number. *)
Lemma pretty_N_go_head x s : (0 < x)%N → ∃ c t, pretty_N_go x s = String c t ∧ is_digit c = true ∧ c ≠ "0"%char.
Proof.
  revert s. induction (N.lt_wf_0 x) as [x _ IH]; intros s Hx.
  rewrite pretty_N_go_step by done. destruct (decide (x / 10 = 0)%N) as [E|E].
  - rewrite E, pretty_N_go_0. assert (x < 10)%N by (apply N.div_small_iff in E; lia).
    rewrite N.mod_small by done. eexists _, _. split; [done|].
    assert (x = 1 ∨ x = 2 ∨ x = 3 ∨ x = 4 ∨ x = 5 ∨ x = 6 ∨ x = 7 ∨ x = 8 ∨ x = 9)%N as H9 by lia.
    by repeat (destruct H9 as [->|H9]; [done|]); subst.
  - apply IH; [apply N.div_lt; lia|by apply N.neq_0_lt_0].
Qed.

Lemma pretty_N_int_part (n : N) : int_part (list_ascii_of_string (pretty n)).
Proof.
  destruct (decide (n = 0)%N) as [->|Hn]; [by left|]. right.
  pose proof (pretty_N_digits n) as Hd. unfold digits in Hd. revert Hd. unfold pretty, pretty_N. rewrite decide_False by done.
  destruct (pretty_N_go_head n "" ltac:(lia)) as (c & t & -> & Hc & Hz). cbn [list_ascii_of_string].
  intros [_ Hd]%Forall_cons. by exists c, (list_ascii_of_string t).
Qed.

Lemma json_int_number (z : Z) : number (list_ascii_of_string (pretty z)).
Proof.
  assert (∀ n : N, ∃ s i, list_ascii_of_string (pretty n) = s ++ i ++ [] ++ [] ∧ s = [] ∧ int_part i) as Hp.
  { intros n. exists [], (list_ascii_of_string (pretty n)). rewrite !app_nil_r. split_and!; [done..|]. apply pretty_N_int_part. }
  destruct z as [|p|p].
  - destruct (Hp 0%N) as (s & i & E & Hs & Hi). exists s, i, [], []. split_and!; try done; by left.
  - destruct (Hp (N.pos p)) as (s & i & E & Hs & Hi). exists s, i, [], []. split_and!; try done; by left.
  - destruct (Hp (N.pos p)) as (s & i & E & -> & Hi). exists ["-"%char], i, [], [].
    change (pretty (Z.neg p)) with (String "-" (pretty (N.pos p))). cbn [list_ascii_of_string]. rewrite E.
    split_and!; try done; [by right|by left..].
Qed.
