(* ===== verification/GoNumber.v ===== *)
(** * Decimal numbers in JSON: reading and writing integers and floats

    [strconv.ParseInt] and [strconv.ParseFloat] on the number literals of JSON,
    and the text [encoding/json] writes for a float: the shortest digits that
    read back as the same float, in fixed or scientific layout. *)

From Stdlib Require Import ZArith Lia Ascii String Floats.SpecFloat.
From stdpp Require Import base option list strings pretty.
From S2P Require Import Prelude GoFloat GoText GoTime GoJson GoJsonRead.
Local Open Scope Z_scope.

#[export] Instance float64_eq_dec : EqDecision float64.
Proof. unfold float64. solve_decision. Defined.

(** ** Reading *)

Definition digit_value (c : ascii) : Z := Z.of_nat (nat_of_ascii c) - 48.
Definition digits_value (l : list ascii) : Z := foldl (λ v c, 10 * v + digit_value c) 0 l.

(** [strconv.ParseInt(lit, 10, 64)] on a literal; a fraction, an exponent or a
    value outside 64 bits is an error. *)
Definition parse_int (t : list ascii) : option Z :=
  let '(s, ds) := read_sign t in
  if bool_decide (ds = []) || negb (forallb is_digit ds) then None else
  let v := match s with [] => digits_value ds | _ => - digits_value ds end in
  if bool_decide (min_int64 ≤ v ≤ max_int64) then Some v else None.

(** An exponent stops growing at five digits, as in [readFloat]. *)
Definition exponent_value (l : list ascii) : Z :=
  let '(s, ds) := read_exp_sign l in
  let v := foldl (λ v c, if v <? 10000 then 10 * v + digit_value c else v) 0 ds in
  match s with c :: _ => if bool_decide (c = "-"%char) then - v else v | [] => v end.

(** Sign, digits and decimal exponent of a literal. *)
Definition decimal_of (t : list ascii) : option (bool * Z * Z) :=
  let '(s, l1) := read_sign t in
  i ← read_int l1;
  f ← read_frac i.2;
  e ← read_exp f.2;
  match e.2 with
  | [] => let frac := drop 1 f.1 in
          Some (bool_decide (s ≠ []), digits_value (i.1 ++ frac), exponent_value (drop 1 e.1) - Z.of_nat (length frac))
  | _ => None
  end.

(** The float nearest to [m * 10^e], ties to even.  The first tests only spare
    the arithmetic on numbers that overflow or vanish. *)
Definition dec_float (s : bool) (m e : Z) : float64 :=
  match m with
  | Z.pos p =>
      if 400 <? e then S754_infinity s
      else if 0 <=? e then binary_round 53 1024 s (Z.to_pos (m * 10 ^ e)) 0
      else if Z.log2 m + 1 + 3 * e <? -1080 then S754_zero s
      else let '(q, e', l) := SFdiv_core_binary 53 1024 m 0 (10 ^ (- e)) 0 in binary_round_aux 53 1024 s q e' l
  | _ => S754_zero s
  end.

(** [strconv.ParseFloat(lit, 64)]; overflow is an error. *)
Definition parse_float (t : list ascii) : option float64 :=
  d ← decimal_of t;
  let '(s, m, e) := d in
  let f := dec_float s m e in
  if is_finite f then Some f else None.

Definition lit (s : string) : list ascii := list_ascii_of_string s.

Example parse_float_samples :
  parse_float (lit "0.35") = Some float64_0_35 ∧ parse_float (lit "1") = Some (float64_of_int 1) ∧
  parse_float (lit "-0") = Some (S754_zero true) ∧ parse_float (lit "5e-324") = Some (S754_finite false 1 (-1074)) ∧
  parse_float (lit "1.7976931348623157e308") = Some (S754_finite false 9007199254740991 971) ∧
  parse_float (lit "1e309") = None ∧ parse_float (lit "1e99999999999") = None ∧
  parse_float (lit "1e-99999999999") = Some (S754_zero false) ∧ parse_float (lit "9007199254740993") = Some (float64_of_int 9007199254740992).
Proof. vm_compute. repeat split. Qed.

(** A literal that parses is a number. *)
Lemma decimal_of_number t d : decimal_of t = Some d → number t.
Proof.
  intros E. apply (read_number_Some t t []). revert E. unfold decimal_of, read_number.
  destruct (read_sign t) as [s l1] eqn:Es.
  destruct (read_int l1) as [[i l2]|] eqn:Ei; [|done]. cbn [mbind option_bind fst snd].
  destruct (read_frac l2) as [[f l3]|] eqn:Ef; [|done]. cbn [mbind option_bind fst snd].
  destruct (read_exp l3) as [[e l4]|] eqn:Ee; [|done]. cbn [mbind option_bind fst snd].
  destruct l4; [|done]. intros _. do 2 f_equal.
  assert (t = s ++ l1) as ->.
  { destruct t as [|c t]; cbn in Es; [by injection Es as <- <-|]. case_bool_decide; by injection Es as <- <-. }
  apply read_int_Some in Ei as [-> _]. apply read_frac_Some in Ef as [-> _]. apply read_exp_Some in Ee as [-> _].
  by rewrite app_nil_r.
Qed.

Lemma parse_float_number t f : parse_float t = Some f → number t.
Proof.
  unfold parse_float. destruct (decimal_of t) as [d|] eqn:E; [|done]. intros _. by eapply decimal_of_number.
Qed.

(** The parts of a number are made of number characters. *)
Lemma number_num_literal t : number t → num_literal t.
Proof.
  intros Ht. split; [destruct (number_head t Ht) as (c & t' & -> & _); done|].
  assert (∀ ds, all_digits ds → Forall (λ c, num_char c = true) ds) as Hd.
  { intros ds Hds. eapply Forall_impl; [exact Hds|]. apply is_digit_num. }
  destruct Ht as (s & i & f & e & -> & Hs & Hi & Hf & He). rewrite !Forall_app. split_and!.
  - destruct Hs as [->| ->]; by repeat constructor.
  - destruct Hi as [->|(c & ds & -> & Hc & _ & Hds)]; [by repeat constructor|].
    constructor; [by apply is_digit_num|by apply Hd].
  - destruct Hf as [->|(ds & -> & _ & Hds)]; constructor; [done|by apply Hd].
  - destruct He as [->|(c & s' & ds & -> & Hc & Hs' & _ & Hds)]; [constructor|]. constructor; [by apply is_e_num|].
    apply Forall_app. split; [|by apply Hd]. destruct Hs' as [->|[->| ->]]; by repeat constructor.
Qed.

(** ** Integers round trip *)

Lemma digit_char_value c : is_digit c = true → digit_value c = Z.of_N (char_value c).
Proof.
  unfold is_digit, digit_value, char_value, nat_of_ascii. rewrite andb_true_iff, !Nat.leb_le. lia.
Qed.

Lemma digits_value_text s v :
  digits s → foldl (λ v c, 10 * v + digit_value c) (Z.of_N v) (list_ascii_of_string s) = Z.of_N (text_value v s).
Proof.
  revert v. induction s as [|c s IH]; intros v Hs; [done|]. apply Forall_cons in Hs as [Hc Hs].
  cbn [list_ascii_of_string foldl text_value]. rewrite <-IH by exact Hs. f_equal.
  rewrite digit_char_value by done. lia.
Qed.

Lemma parse_int_pretty (z : Z) : min_int64 ≤ z ≤ max_int64 → parse_int (list_ascii_of_string (pretty z)) = Some z.
Proof.
  intros Hz.
  assert (∀ n : N, list_ascii_of_string (pretty n) ≠ [] ∧ forallb is_digit (list_ascii_of_string (pretty n)) = true ∧
    digits_value (list_ascii_of_string (pretty n)) = Z.of_N n) as Hn.
  { intros n. split_and!.
    - intros E. apply (pretty_N_nonempty n). by destruct (pretty n).
    - apply forallb_forall. intros c Hc. pose proof (pretty_N_digits n) as Hd.
      unfold digits in Hd. rewrite Forall_forall in Hd. apply Hd. by apply list_elem_of_In.
    - unfold digits_value. rewrite (digits_value_text (pretty n) 0) by apply pretty_N_digits. by rewrite pretty_N_value. }
  assert (∀ n : N, read_sign (list_ascii_of_string (pretty n)) = ([], list_ascii_of_string (pretty n))) as Hs.
  { intros n. pose proof (pretty_N_digits n) as Hd. unfold digits in Hd.
    destruct (list_ascii_of_string (pretty n)) as [|c l]; [done|]. cbn. apply Forall_cons in Hd as [Hc _].
    by rewrite bool_decide_false by (intros ->; discriminate Hc). }
  unfold parse_int. destruct z as [|p|p]; [done| |].
  - destruct (Hn (N.pos p)) as (H1 & H2 & H3). change (pretty (Z.pos p)) with (pretty (N.pos p)).
    rewrite Hs, bool_decide_false, H2, H3 by done. cbn [orb negb]. by rewrite bool_decide_true.
  - destruct (Hn (N.pos p)) as (H1 & H2 & H3).
    change (list_ascii_of_string (pretty (Z.neg p))) with ("-"%char :: list_ascii_of_string (pretty (N.pos p))).
    cbn [read_sign]. rewrite bool_decide_true by done. rewrite bool_decide_false, H2, H3 by done. cbn [orb negb].
    by rewrite bool_decide_true.
Qed.

(** ** Writing floats *)

(** The quotient of [m * 2^e] by [10^q], and the remainder with its divisor. *)
Definition scaled (m e q : Z) : Z * Z * Z :=
  let num := m * 2 ^ Z.max e 0 * 10 ^ Z.max (- q) 0 in
  let den := 2 ^ Z.max (- e) 0 * 10 ^ Z.max q 0 in
  (num / den, num `mod` den, den).

(** The largest [k] with [10^k <= m * 2^e]: the estimate by the binary
    logarithm is off by one at most. *)
Definition log10_floor (m e : Z) : Z :=
  let k := ((Z.log2 m + e) * 30103) / 100000 in
  if bool_decide ((scaled m e k).1.1 = 0) then k - 1
  else if bool_decide (10 ≤ (scaled m e k).1.1) then k + 1 else k.

(** The digits of [d], without trailing zeros, as a fraction [0.ds * 10^dp]. *)
Definition digits_of (d : Z) : list ascii := trim_zeros (lit (pretty d)).

Definition zeros (n : Z) : list ascii := replicate (Z.to_nat n) "0"%char.

(** Layout [%f]. *)
Definition layout_f (ds : list ascii) (dp : Z) : list ascii :=
  let nd := Z.of_nat (length ds) in
  (if 0 <? dp then take (Z.to_nat dp) ds ++ zeros (dp - nd) else ["0"%char]) ++
  (if dp <? nd then "."%char :: zeros (- dp) ++ drop (Z.to_nat dp) ds else []).

(** Layout [%e], with an exponent of one digit not padded when negative. *)
Definition layout_e (ds : list ascii) (dp : Z) : list ascii :=
  let e := dp - 1 in
  match ds with
  | [] => []
  | c :: ds => c :: (match ds with [] => [] | _ => "."%char :: ds end)
  end ++ "e"%char :: (if e <? 0 then "-"%char else "+"%char) :: lit (appendInt (if e <? 0 then 1 else 2) (Z.abs e)).

(** The literal of [d * 10^q]; scientific below 1e-6 and from 1e21. *)
Definition float_literal (s : bool) (x : float64) (d q : Z) : list ascii :=
  let text := lit (pretty d) in
  let dp := Z.of_nat (length text) + q in
  (if s then ["-"%char] else []) ++
  (if SFltb (SFabs x) (dec_float false 1 (-6)) || SFleb (dec_float false 1 21) (SFabs x)
   then layout_e (trim_zeros text) dp else layout_f (trim_zeros text) dp).

(** The candidates with [n] digits: rounded down and up.  When both read back as
    the float the nearer one is taken, the even one in the middle. *)
Definition candidate (s : bool) (m : positive) (e : Z) (n : Z) : option (list ascii) :=
  let x := S754_finite s m e in
  let q := log10_floor (Z.pos m) e - n + 1 in
  let '(d, r, den) := scaled (Z.pos m) e q in
  let down := float_literal s x d q in
  let up := float_literal s x (d + 1) q in
  match bool_decide (parse_float down = Some x), bool_decide (parse_float up = Some x) with
  | true, true => Some (if bool_decide (2 * r < den ∨ (2 * r = den ∧ Z.even d = true)) then down else up)
  | true, false => Some down
  | false, true => Some up
  | false, false => None
  end.

(** The least number of digits that determines the float. *)
Fixpoint shortest (s : bool) (m : positive) (e : Z) (n : Z) (fuel : nat) : option (list ascii) :=
  match fuel with
  | O => None
  | S fuel => match candidate s m e n with Some t => Some t | None => shortest s m e (n + 1) fuel end
  end.

(** The text of a float; a binary64 is determined by 17 digits, so the search
    ends there.  Infinities and NaN have none. *)
Definition format_float (f : float64) : option (list ascii) :=
  match f with
  | S754_zero s => Some (if s then ["-"; "0"]%char else ["0"%char])
  | S754_finite s m e => shortest s m e 1 17
  | _ => None
  end.

Example format_float_samples :
  format_float (float64_of_int 1) = Some (lit "1") ∧ format_float (float64_of_int 100) = Some (lit "100") ∧
  format_float float64_0_35 = Some (lit "0.35") ∧
  format_float (S754_finite false 1 (-1074)) = Some (lit "5e-324") ∧
  format_float (S754_finite false 9007199254740991 971) = Some (lit "1.7976931348623157e+308") ∧
  (parse_float (lit "0.0000001") ≫= format_float) = Some (lit "1e-7") ∧
  (parse_float (lit "-0.000123") ≫= format_float) = Some (lit "-0.000123") ∧
  (parse_float (lit "1e21") ≫= format_float) = Some (lit "1e+21") ∧
  (parse_float (lit "123456789012345680000") ≫= format_float) = Some (lit "123456789012345680000") ∧
  (parse_float (lit "0.333333333333333333333333") ≫= format_float) = Some (lit "0.3333333333333333").
Proof. vm_compute. repeat split. Qed.

Lemma candidate_parses s m e n t : candidate s m e n = Some t → parse_float t = Some (S754_finite s m e).
Proof.
  unfold candidate. destruct (scaled _ _ _) as [[d r] den].
  destruct (bool_decide (parse_float (float_literal _ _ d _) = _)) eqn:E1;
    destruct (bool_decide (parse_float (float_literal _ _ (d + 1) _) = _)) eqn:E2; try done;
    rewrite ?bool_decide_eq_true in *; intros [= <-]; [by case_bool_decide|done..].
Qed.

(** What is written reads back. *)
Lemma format_float_parses f t : format_float f = Some t → parse_float t = Some f.
Proof.
  destruct f as [[]|[]| |s m e]; try done; [by intros [= <-]..|]. cbn [format_float].
  generalize 17%nat as k, 1 as n. intros k. induction k as [|k IH]; intros n; [done|]. cbn [shortest].
  destruct (candidate s m e n) eqn:E; [|apply IH]. intros [= <-]. by eapply candidate_parses.
Qed.

Lemma format_float_number f t : format_float f = Some t → number t.
Proof. intros E. eapply parse_float_number. by apply format_float_parses. Qed.

Lemma format_float_inj f g t : format_float f = Some t → format_float g = Some t → f = g.
Proof. intros E1%format_float_parses E2%format_float_parses. congruence. Qed.

(** Proofs use the lemmas above; evaluation is for [vm_compute]. *)
#[global] Opaque format_float.
