(* ===== verification/GoTimeParse.v ===== *)
(** * RFC 3339 text as [time.Time.UnmarshalJSON] reads it

    The lenient parse of [time.Parse] for the layout RFC3339, which
    [UnmarshalJSON] of Go 1.21 falls back to and which accepts everything its
    strict parse accepts: an hour of one digit, a comma before the fraction and
    a zone of up to 24 hours are allowed.  The text [MarshalJSON] writes reads
    back as the same time. *)

From Stdlib Require Import ZArith Lia Ascii String.
From stdpp Require Import base option list strings pretty numbers.
From S2P Require Import Prelude GoText GoTime GoJson GoJsonRead GoNumber.
Local Open Scope Z_scope.

(** [getnum] with a fixed number of digits. *)
Fixpoint fixed_num (n : nat) (acc : Z) (l : list ascii) : option (Z * list ascii) :=
  match n, l with
  | O, _ => Some (acc, l)
  | S n, c :: l => if is_digit c then fixed_num n (10 * acc + digit_value c) l else None
  | S _, [] => None
  end.

(** [getnum] with one or two digits. *)
Definition short_num (l : list ascii) : option (Z * list ascii) :=
  match l with
  | a :: b :: _ => if is_digit b then fixed_num 2 0 l else fixed_num 1 0 l
  | _ => fixed_num 1 0 l
  end.

(** [parseNanoseconds]: nine digits count, fewer are scaled. *)
Definition nanoseconds (ds : list ascii) : Z :=
  let ds := take 9 ds in digits_value ds * 10 ^ (9 - Z.of_nat (length ds)).

Definition is_point (c : ascii) : bool := bool_decide (c = "."%char) || bool_decide (c = ","%char).

(** The fraction, when there is one. *)
Definition read_fraction (l : list ascii) : Z * list ascii :=
  match l with
  | p :: d :: _ =>
      if is_point p && is_digit d
      then let '(ds, k) := span is_digit (drop 1 l) in (nanoseconds ds, k) else (0, l)
  | _ => (0, l)
  end.

(** The zone and the end of the text: minutes east of UTC. *)
Definition read_zone (l : list ascii) : option Z :=
  match eat "Z" l with
  | Some [] => Some 0
  | Some _ => None
  | None =>
      match l with
      | s :: l =>
          h ← fixed_num 2 0 l; l ← eat ":" h.2; m ← fixed_num 2 0 l;
          if bool_decide (h.1 ≤ 24) && bool_decide (m.1 ≤ 60) && bool_decide (m.2 = []) then
            if bool_decide (s = "+"%char) then Some (h.1 * 60 + m.1)
            else if bool_decide (s = "-"%char) then Some (- (h.1 * 60 + m.1)) else None
          else None
      | [] => None
      end
  end.

(** [daysIn] *)
Definition days_in (y m : Z) : Z := default 0 (month_lengths (is_leap y) !! Z.to_nat (m - 1)).

Definition civil_valid (c : civil) : bool :=
  bool_decide (1 ≤ c_month c ≤ 12) && bool_decide (1 ≤ c_day c ≤ days_in (c_year c) (c_month c)) &&
  bool_decide (0 ≤ c_hour c < 24) && bool_decide (0 ≤ c_min c < 60) && bool_decide (0 ≤ c_sec c < 60).

Definition read_date (l : list ascii) : option (civil * list ascii) :=
  y ← fixed_num 4 0 l; l ← eat "-" y.2;
  m ← fixed_num 2 0 l; l ← eat "-" m.2;
  d ← fixed_num 2 0 l; l ← eat "T" d.2;
  h ← short_num l; l ← eat ":" h.2;
  i ← fixed_num 2 0 l; l ← eat ":" i.2;
  s ← fixed_num 2 0 l;
  Some (mkCivil y.1 m.1 d.1 h.1 i.1 s.1, s.2).

(** [time.Parse(time.RFC3339, s)] *)
Definition parse_time (s : string) : option Time :=
  c ← read_date (list_ascii_of_string s);
  if civil_valid c.1 then
    let '(ns, l) := read_fraction c.2 in
    off ← read_zone l;
    Some (mkTime ((second_of c.1 - 60 * off) * Second + ns) off)
  else None.

Example parse_time_samples :
  parse_time "2024-02-29T12:34:56Z" = Some (mkTime (1709210096 * Second) 0) ∧
  parse_time "2024-02-29T13:34:56.25+01:00" = Some (mkTime (1709210096 * Second + 250000000) 60) ∧
  parse_time "2024-02-29T3:34:56,5Z" = Some (mkTime (1709177696 * Second + 500000000) 0) ∧
  parse_time "2023-02-29T12:34:56Z" = None ∧ parse_time "2024-02-29T24:00:00Z" = None ∧
  parse_time "2024-02-29 12:34:56Z" = None ∧ parse_time "2024-02-29T12:34:56" = None.
Proof. vm_compute. repeat split. Qed.

(** ** Civil times are valid dates *)

Lemma month_day_valid ms m doy m' d' :
  Forall (λ n, 0 ≤ n) ms → 0 ≤ doy < sum_Z ms → month_day ms m doy = (m', d') →
  m ≤ m' < m + Z.of_nat (length ms) ∧ 1 ≤ d' ≤ default 0 (ms !! Z.to_nat (m' - m)).
Proof.
  intros Hms. revert m doy. induction Hms as [|n ms Hn _ IH]; intros m doy Hd E; cbn [month_day length] in E |- *; [change (sum_Z []) with 0 in Hd; lia|change (sum_Z (n :: ms)) with (n + sum_Z ms) in Hd].
  case_bool_decide.
  - injection E as <- <-. rewrite Z.sub_diag. split; [lia|]. change (1 ≤ doy + 1 ≤ n). lia.
  - apply IH in E as [Hm Hd']; [|lia]. split; [lia|].
    replace (Z.to_nat (m' - m)) with (S (Z.to_nat (m' - (m + 1)))) by lia. exact Hd'.
Qed.

Lemma civil_of_valid s : civil_valid (civil_of s) = true.
Proof.
  unfold civil_of, civil_valid. set (day := s / 86400 + epoch_day). set (y := year_of_day day).
  pose proof (year_of_day_spec day) as Hy. fold y in Hy. pose proof (year_length y) as Hl.
  destruct (month_day (month_lengths (is_leap y)) 1 (day - days_before_year y)) as [m d] eqn:E.
  pose proof (month_lengths_ok (is_leap y)) as [Hms Hsum].
  apply month_day_valid in E as [Hm Hd].
  - cbn [c_year c_month c_day c_hour c_min c_sec]. pose proof (clock_range s).
    assert (length (month_lengths (is_leap y)) = 12%nat) as Hlen by done. rewrite Hlen in Hm. unfold days_in.
    by rewrite !bool_decide_true by lia.
  - eapply Forall_impl; [|exact Hms]. cbn. lia.
  - rewrite Hsum. destruct (is_leap y); lia.
Qed.

(** ** Round trip *)

Lemma fixed_num_text (t : string) acc k :
  digits t → fixed_num (String.length t) (Z.of_N acc) (list_ascii_of_string t ++ k) = Some (Z.of_N (text_value acc t), k).
Proof.
  revert acc. induction t as [|c t IH]; intros acc Hd; [done|].
  unfold digits in Hd. cbn [list_ascii_of_string] in Hd. inversion Hd as [|? ? Hc Hd']; subst.
  cbn [String.length fixed_num list_ascii_of_string app text_value]. rewrite Hc, <-IH by exact Hd'. f_equal.
  rewrite digit_char_value by done. lia.
Qed.

Lemma appendInt_digits (k : nat) x : 0 ≤ x → digits (appendInt (S k) x).
Proof.
  intros Hx. unfold appendInt, digits. rewrite bool_decide_false, Z.abs_eq by lia.
  rewrite !list_ascii_of_string_app. apply Forall_app. split; [constructor|]. apply Forall_app. split.
  - unfold zeros_text. rewrite list_ascii_of_string_of_list_ascii. by apply Forall_replicate.
  - by apply pretty_Z_nonneg.
Qed.

Lemma fixed_num_appendInt k x rest :
  0 ≤ x < 10 ^ Z.of_nat (S k) → fixed_num (S k) 0 (list_ascii_of_string (appendInt (S k) x) ++ rest) = Some (x, rest).
Proof.
  intros Hx. destruct (appendInt_spec k x Hx) as [Hl Hv]. rewrite <-Hl at 1.
  rewrite (fixed_num_text _ 0) by (apply appendInt_digits; lia). rewrite Hv, Z2N.id by lia. done.
Qed.

Lemma short_num_appendInt x rest :
  0 ≤ x < 100 → short_num (list_ascii_of_string (appendInt 2 x) ++ rest) = Some (x, rest).
Proof.
  intros Hx. rewrite <-(fixed_num_appendInt 1 x rest) by lia.
  destruct (appendInt_spec 1 x ltac:(lia)) as [Hl _]. pose proof (appendInt_digits 1 x ltac:(lia)) as Hd.
  destruct (appendInt 2 x) as [|a [|b t]]; [done..|].
  unfold digits in Hd. cbn [list_ascii_of_string] in Hd. inversion Hd as [|? ? _ Hd']; subst. inversion Hd' as [|? ? Hb _]; subst.
  cbn [list_ascii_of_string app short_num]. by rewrite Hb.
Qed.

Lemma read_date_text c k :
  civil_ok c → representable c → read_date (list_ascii_of_string (date_text c) ++ k) = Some (c, k).
Proof.
  destruct c as [y m d h i s]. unfold civil_ok, representable, date_text, read_date.
  cbn [c_year c_month c_day c_hour c_min c_sec]. intros O R.
  rewrite !list_ascii_of_string_app, <-!app_assoc. cbn [list_ascii_of_string app].
  rewrite (fixed_num_appendInt 3) by lia. cbn [mbind option_bind fst snd]. rewrite eat_eq. cbn [mbind option_bind].
  do 2 (rewrite (fixed_num_appendInt 1) by lia; cbn [mbind option_bind fst snd]; rewrite eat_eq; cbn [mbind option_bind]).
  rewrite short_num_appendInt by lia. cbn [mbind option_bind fst snd]. rewrite eat_eq. cbn [mbind option_bind].
  rewrite (fixed_num_appendInt 1) by lia. cbn [mbind option_bind fst snd]. rewrite eat_eq. cbn [mbind option_bind].
  by rewrite (fixed_num_appendInt 1) by lia.
Qed.

Lemma digits_value_zeros ds n : digits_value (ds ++ replicate n "0"%char) = digits_value ds * 10 ^ Z.of_nat n.
Proof.
  unfold digits_value. rewrite foldl_app. generalize (foldl (λ v c, 10 * v + digit_value c) 0 ds) as v.
  induction n as [|n IH]; intros v; cbn [replicate foldl]; [simpl; lia|].
  rewrite IH. change (digit_value "0") with 0. rewrite Nat2Z.inj_succ, Z.pow_succ_r by lia. lia.
Qed.

Lemma nanoseconds_fraction ns : 0 ≤ ns < Second → nanoseconds (trim_zeros (fixed_digits 9 ns)) = ns.
Proof.
  intros Hn. pose proof (trim_zeros_pad (fixed_digits 9 ns)) as E. set (ds := trim_zeros (fixed_digits 9 ns)) in *.
  assert (length ds ≤ 9)%nat as Hl.
  { apply (f_equal length) in E. rewrite length_app, length_replicate, length_fixed_digits in E. lia. }
  unfold nanoseconds. rewrite take_ge by done.
  transitivity (digits_value (fixed_digits 9 ns)).
  - rewrite E, digits_value_zeros, length_fixed_digits. f_equal. f_equal. lia.
  - unfold digits_value, digit_value. by apply fixed_digits_value.
Qed.

Lemma read_fraction_text ns k :
  0 ≤ ns < Second → stops is_digit k → stops is_point k → read_fraction (fraction_chars ns ++ k) = (ns, k).
Proof.
  intros Hn Hk Hp. unfold fraction_chars. pose proof (nanoseconds_fraction ns Hn) as Hv.
  pose proof (trim_zeros_Forall _ _ (fixed_digits_digits 9 ns)) as Hd.
  destruct (trim_zeros (fixed_digits 9 ns)) as [|d ds].
  - cbn in Hv. subst ns. destruct k as [|c [|c' k]]; [done..|]. cbn in *. by rewrite Hp.
  - cbn [app read_fraction]. inversion Hd as [|? ? Hd0 _]. rewrite Hd0.
    cbn [is_point bool_decide andb orb drop]. change (d :: ds ++ k) with ((d :: ds) ++ k).
    rewrite span_app by done. by rewrite Hv.
Qed.

Lemma read_zone_text off : Z.abs off < 1440 → read_zone (list_ascii_of_string (zone_text off)) = Some off.
Proof.
  intros Ho. unfold zone_text. case_bool_decide as Hz; [by subst|].
  set (sg := if bool_decide (off < 0) then "-" else "+").
  assert (list_ascii_of_string (sg ++ appendInt 2 (Z.abs off / 60) ++ ":" ++ appendInt 2 (Z.abs off `mod` 60)) =
    (if bool_decide (off < 0) then "-"%char else "+"%char) ::
      list_ascii_of_string (appendInt 2 (Z.abs off / 60)) ++ ":"%char :: list_ascii_of_string (appendInt 2 (Z.abs off `mod` 60)) ++ []) as ->.
  { rewrite !list_ascii_of_string_app, app_nil_r. unfold sg. by case_bool_decide. }
  unfold read_zone. replace (eat "Z" _) with (@None (list ascii)) by (by case_bool_decide).
  rewrite (fixed_num_appendInt 1) by divlia. cbn [mbind option_bind fst snd]. rewrite eat_eq. cbn [mbind option_bind].
  rewrite (fixed_num_appendInt 1) by divlia. cbn [mbind option_bind fst snd].
  rewrite (bool_decide_true (Z.abs off / 60 ≤ 24)), (bool_decide_true (Z.abs off `mod` 60 ≤ 60)) by divlia.
  destruct (decide (off < 0)) as [Hn|Hn];
    [rewrite (bool_decide_true (off < 0)) by done|rewrite (bool_decide_false (off < 0)) by done]; cbn; f_equal; divlia.
Qed.

Lemma zone_text_stops off : stops is_digit (list_ascii_of_string (zone_text off)) ∧ stops is_point (list_ascii_of_string (zone_text off)).
Proof. unfold zone_text. repeat case_bool_decide; done. Qed.

(** The text of [MarshalJSON] reads back. *)
Lemma parse_time_json t s : time_json t = Some s → parse_time s = Some t.
Proof.
  unfold time_json. destruct (in_json_range t) eqn:R; [|done]. intros [= <-].
  unfold in_json_range in R. rewrite andb_true_iff, !bool_decide_eq_true in R. destruct R as [Hy Ho].
  destruct (civil_of_spec (local_second t)) as [Hs Hc]. unfold parse_time.
  rewrite !list_ascii_of_string_app, list_ascii_of_string_of_list_ascii.
  rewrite read_date_text by done. cbn [mbind option_bind fst snd]. rewrite civil_of_valid.
  destruct (zone_text_stops (offset_min t)) as [Hd Hp].
  rewrite read_fraction_text by (done || apply Z.mod_pos_bound; done).
  rewrite read_zone_text by done. cbn [mbind option_bind]. rewrite Hs. unfold local_second. f_equal.
  destruct t as [n o]. cbn [unix_ns offset_min] in *. f_equal. pose proof (Z.div_mod n Second ltac:(done)). lia.
Qed.
