(* ===== verification/GoJsonDecode.v ===== *)
(** * Decoding JSON into Go values, as [json.Unmarshal] does

    A decoder for a Go type says which values are type errors and what a list
    of values, decoded one after the other into the same variable, makes of it.
    The list is needed because a key may be repeated in an object: later values
    are decoded over earlier ones, [null] leaves most variables alone, and a
    slice reuses its old cells.  A type error is remembered and decoding goes
    on; a syntax error is found before anything is decoded. *)

From Stdlib Require Import ZArith Lia Ascii String Strings.Byte Floats.SpecFloat.
From stdpp Require Import base option list gmap strings pretty.
From S2P Require Import Prelude GoFloat GoText GoUtf8 GoBase64 GoTime GoJson GoJsonRead GoNumber GoTimeParse.

Record decoder (A : Type) := mkDecoder {
  dec_err : jval → bool;
  dec_into : A → list jval → A
}.
Arguments mkDecoder {A}.
Arguments dec_err {A}.
Arguments dec_into {A}.

(** [json.Unmarshal(data, &x)]: [x] afterwards and whether an error is
    returned. *)
Definition Unmarshal {A} (D : decoder A) (data : list ascii) (x : A) : A * bool :=
  match read_json data with
  | None => (x, true)
  | Some v => (dec_into D x [v], dec_err D v)
  end.

(** [json.NewDecoder(r).Decode(&x)] on a stream that has ended. *)
Definition Decode {A} (D : decoder A) (data : list ascii) (x : A) : A * bool :=
  match read_stream data with
  | None => (x, true)
  | Some v => (dec_into D x [v], dec_err D v)
  end.

(** ** Scalars *)

(** A scalar is set by a value that converts; [null] and values of another
    type leave it. *)
Definition scalar {A} (conv : jval → option A) : decoder A := {|
  dec_err v := match v with JNull => false | _ => match conv v with Some _ => false | None => true end end;
  dec_into x vs := foldl (λ x v, default x (conv v)) x vs
|}.

Definition dec_string : decoder string := scalar (λ v, match v with JStr s => Some (unquote s) | _ => None end).
Definition dec_bool : decoder bool := scalar (λ v, match v with JBool b => Some b | _ => None end).
Definition dec_int : decoder Z := scalar (λ v, match v with JNum t => parse_int t | _ => None end).
Definition dec_float64 : decoder float64 := scalar (λ v, match v with JNum t => parse_float t | _ => None end).

(** [Time.UnmarshalJSON] gets the raw text: an escape in it is an error. *)
Definition dec_time : decoder Time := scalar (λ v, match v with JStr s => parse_time s | _ => None end).

(** ** Structs *)

(** Case folding of a key: ASCII letters, and the two runes outside ASCII whose
    simple folding is an ASCII letter, U+017F and U+212A. *)
Fixpoint fold_key (l : list ascii) : list ascii :=
  match l with
  | [] => []
  | a :: t =>
      let a' := if within 97 122 a then ascii_of_N (N_of_ascii a - 32) else a in
      match t with
      | b :: t2 =>
          if bool_decide (a = "197"%char) && bool_decide (b = "191"%char) then "S"%char :: fold_key t2 else
          match t2 with
          | c :: t3 =>
              if bool_decide (a = "226"%char) && bool_decide (b = "132"%char) && bool_decide (c = "170"%char)
              then "K"%char :: fold_key t3 else a' :: fold_key t
          | [] => a' :: fold_key t
          end
      | [] => a' :: fold_key t
      end
  end.

Definition folded (s : string) : list ascii := fold_key (list_ascii_of_string s).

(** Whether a raw key names the field, exactly or up to case. *)
Definition key_matches (field key : string) : bool := bool_decide (folded (unquote key) = folded field).

Definition members_of (v : jval) : list (string * jval) := match v with JObj ms => ms | _ => [] end.

(** The values given for a field, in order. *)
Definition occurrences (field : string) (ms : list (string * jval)) : list jval :=
  omap (λ kv, if key_matches field kv.1 then Some kv.2 else None) ms.

(** One field of a struct: its name and whether a value is a type error. *)
Definition field_check : Type := string * (jval → bool).

Definition check_fields (fs : list field_check) (ms : list (string * jval)) : bool :=
  existsb (λ f, existsb f.2 (occurrences f.1 ms)) fs.

Definition struct_err (fs : list field_check) (v : jval) : bool :=
  match v with JNull => false | JObj ms => check_fields fs ms | _ => true end.

(** Decode one field from the objects given for the struct. *)
Definition get_field {A} (field : string) (D : decoder A) (x : A) (vs : list jval) : A :=
  dec_into D x (occurrences field (vs ≫= members_of)).

Definition field {A} (name : string) (D : decoder A) : field_check := (name, dec_err D).

(** A struct: its fields and how they are decoded into the old value. *)
Definition struct {A} (fs : list field_check) (into : A → list jval → A) : decoder A := mkDecoder (struct_err fs) into.

(** ** Pointers *)

(** A pointer that is nil or points to what the values since its allocation make
    of a fresh value; [null] makes it nil. *)
Definition pointer_step (h : option (list jval)) (v : jval) : option (list jval) :=
  match v with JNull => None | _ => Some (default [] h ++ [v]) end.

Definition pointer_err {A} (D : decoder A) (v : jval) : bool := match v with JNull => false | _ => dec_err D v end.

(** ** Slices *)

Section slices.
Context {C : Type} (zero : C) (step : C → jval → C).

(** The cells a slice's array holds after an array was decoded into them: cells
    beyond the new length keep their content. *)
Fixpoint fill (cells : list C) (l : list jval) : list C :=
  match l, cells with
  | [], _ => cells
  | v :: l, [] => step zero v :: fill [] l
  | v :: l, c :: cells => step c v :: fill cells l
  end.

(** Cells and length; [None] is the nil slice. *)
Definition slice_step (st : list C * option nat) (v : jval) : list C * option nat :=
  match v with
  | JArr [] => ([], Some 0)
  | JArr l => (fill st.1 l, Some (length l))
  | JNull => ([], None)
  | _ => st
  end.

Definition slice_into (x : option (list C)) (vs : list jval) : option (list C) :=
  let '(cells, len) := foldl slice_step (default [] x, length <$> x) vs in
  (λ n, take n cells) <$> len.
End slices.

Definition slice_err (elem : jval → bool) (v : jval) : bool :=
  match v with JNull => false | JArr l => existsb elem l | _ => true end.

(** [[]string] *)
Definition dec_strings : decoder (option (list string)) := {|
  dec_err := slice_err (dec_err dec_string);
  dec_into := slice_into "" (λ s v, dec_into dec_string s [v])
|}.

(** [[]T] for a struct without slices. *)
Definition dec_structs {A} (zero : A) (D : decoder A) : decoder (option (list A)) := {|
  dec_err := slice_err (dec_err D);
  dec_into := slice_into zero (λ x v, dec_into D x [v])
|}.

(** [[]*T], decoded into a nil slice. *)
Definition dec_pointers {A} (zero : A) (D : decoder A) : decoder (option (list (option A))) := {|
  dec_err := slice_err (pointer_err D);
  dec_into _ vs :=
    option_map (map (option_map (dec_into D zero))) (slice_into None pointer_step None vs)
|}.

(** ** Maps of strings *)

Definition map_into (m : gmap string string) (v : jval) : gmap string string :=
  match v with
  | JObj ms => foldl (λ m kv, <[unquote kv.1 := dec_into dec_string "" [kv.2]]> m) m ms
  | JNull => ∅
  | _ => m
  end.

(** [map[string]string]: an element of another type is stored as the empty
    string, and reported. *)
Definition dec_map : decoder (gmap string string) := {|
  dec_err v := match v with
               | JNull => false
               | JObj ms => existsb (λ kv, dec_err dec_string kv.2) ms
               | _ => true
               end;
  dec_into m vs := foldl map_into m vs
|}.

(** ** Decoding what was written *)

Lemma Unmarshal_marshal {A} (D : decoder A) v x :
  fits max_depth v → Unmarshal D (marshal v) x = (dec_into D x [quoted v], dec_err D (quoted v)).
Proof. intros Hv. unfold Unmarshal. by rewrite read_marshal. Qed.

Lemma Unmarshal_line {A} (D : decoder A) v w x :
  fits max_depth v → blank w → Unmarshal D (marshal v ++ w) x = (dec_into D x [quoted v], dec_err D (quoted v)).
Proof. intros Hv Hw. unfold Unmarshal. by rewrite read_marshal_ws. Qed.

Lemma Decode_marshal {A} (D : decoder A) v k x :
  fits max_depth v → is_composite v = true → delimited k →
  Decode D (marshal v ++ k) x = (dec_into D x [quoted v], dec_err D (quoted v)).
Proof. intros Hv Hc Hk. unfold Decode. by rewrite read_stream_marshal. Qed.

(** Text that is valid UTF-8. *)
Definition utf8 (s : string) : Prop := valid_utf8 (list_ascii_of_string s) = true.
#[export] Instance utf8_dec s : Decision (utf8 s).
Proof. unfold utf8. apply _. Defined.

Lemma dec_string_quoted s x : utf8 s → dec_into dec_string x [JStr (quoted_string s)] = s.
Proof. intros Hs. cbn. by apply unquote_quoted. Qed.

Lemma dec_int_quoted (z x : Z) :
  (min_int64 ≤ z ≤ max_int64)%Z → dec_into dec_int x [json_int z] = z ∧ dec_err dec_int (json_int z) = false.
Proof. intros Hz. cbn. by rewrite parse_int_pretty. Qed.

Lemma dec_float_quoted f t x :
  format_float f = Some t → dec_into dec_float64 x [JNum t] = f ∧ dec_err dec_float64 (JNum t) = false.
Proof. intros Hf. cbn. by rewrite (format_float_parses _ _ Hf). Qed.

(** The text of a time has nothing to escape. *)
Definition inert (c : ascii) : Prop := escape_char c = [c] ∧ within 0 127 c = true.

Lemma escape_inert l : Forall inert l → escape l = l.
Proof.
  induction 1 as [|a t [Ha Hc] _ IH]; [done|]. unfold escape in *. cbn [escape_from rune_size]. by rewrite Hc, Ha, IH.
Qed.

Lemma digit_inert c : is_digit c = true → inert c.
Proof. destruct c as [[] [] [] [] [] [] [] []]; try discriminate; intros _; (split; reflexivity). Qed.

Lemma appendInt_inert k x : (0 ≤ x)%Z → Forall inert (list_ascii_of_string (appendInt (S k) x)).
Proof.
  intros Hx. pose proof (appendInt_digits k x Hx) as Hd. unfold digits in Hd.
  rewrite Forall_forall in Hd. apply Forall_forall. intros c Hc. by apply digit_inert, Hd.
Qed.

Ltac inert_text :=
  repeat first [apply Forall_app; split|apply Forall_nil_2|apply appendInt_inert; lia
               |apply Forall_cons; split; [split; reflexivity|]].

Lemma time_json_inert t s : time_json t = Some s → Forall inert (list_ascii_of_string s).
Proof.
  unfold time_json. destruct (in_json_range t) eqn:R; [|done]. intros [= <-].
  unfold in_json_range in R. rewrite andb_true_iff, !bool_decide_eq_true in R. destruct R as [Hy Ho].
  destruct (civil_of_spec (local_second t)) as [_ Hc]. unfold civil_ok in Hc.
  rewrite !list_ascii_of_string_app, list_ascii_of_string_of_list_ascii. apply Forall_app. split.
  { unfold date_text. rewrite !list_ascii_of_string_app. cbn [list_ascii_of_string]. inert_text. }
  apply Forall_app. split.
  - unfold fraction_chars. pose proof (trim_zeros_Forall _ _ (fixed_digits_digits 9 (unix_ns t `mod` Second))) as Hd.
    destruct (trim_zeros _) as [|d ds]; [constructor|]. constructor; [by split|].
    rewrite Forall_forall in Hd. apply Forall_forall. intros c Hin. by apply digit_inert, Hd.
  - unfold zone_text. repeat case_bool_decide; rewrite ?list_ascii_of_string_app; cbn [list_ascii_of_string]; inert_text.
    all: apply appendInt_inert; divlia.
Qed.

Lemma quoted_time t s : time_json t = Some s → quoted_string s = s.
Proof.
  intros Ht. unfold quoted_string. rewrite escape_inert by (by eapply time_json_inert).
  apply string_of_list_ascii_of_string.
Qed.

Lemma dec_time_quoted t s x :
  time_json t = Some s →
  dec_into dec_time x [JStr (quoted_string s)] = t ∧ dec_err dec_time (JStr (quoted_string s)) = false.
Proof.
  intros Ht. rewrite (quoted_time t s Ht). unfold dec_time, scalar. cbn [dec_into dec_err foldl].
  by rewrite (parse_time_json t s Ht).
Qed.

(** A slice of strings, nil or not. *)
Lemma fill_strings l :
  Forall utf8 l → fill "" (λ s v, dec_into dec_string s [v]) [] (JStr ∘ quoted_string <$> l) = l.
Proof.
  induction 1 as [|s l Hs _ IH]; [done|]. rewrite fmap_cons. cbn [fill]. rewrite IH. f_equal.
  by apply dec_string_quoted.
Qed.

Definition utf8_list (l : option (list string)) : Prop := match l with Some l => Forall utf8 l | None => True end.

Lemma quoted_list_strings l : quoted_list (JStr <$> l) = JStr ∘ quoted_string <$> l.
Proof. induction l as [|s l IH]; [done|]. cbn. by rewrite IH. Qed.

(** ** Automation for objects with known keys *)

Lemma fits_wf d v : fits d v → wf v.
Proof.
  revert d. induction v as [| |t| |l IH|l IH] using jval_ind; intros d Hf; try done.
  - by apply number_num_literal.
  - destruct Hf as [_ Hf]. induction IH as [|v l Hv _ IHl]; [done|]. destruct Hf as [H1 H2].
    split; [by eapply Hv|by apply IHl].
  - destruct Hf as [_ Hf]. induction IH as [|[k v] l Hv _ IHl]; [done|]. destruct Hf as [H1 H2].
    split; [by eapply Hv|by apply IHl].
Qed.

Lemma fits_mono d d' v : fits d v → (d ≤ d')%N → fits d' v.
Proof.
  revert d d'. induction v as [| |t| |l IH|l IH] using jval_ind; intros d d' Hf Hd; try done.
  - destruct Hf as [Hne Hf]. split; [lia|]. induction IH as [|v l Hv _ IHl]; [done|]. destruct Hf as [H1 H2].
    split; [eapply Hv; [exact H1|lia]|by apply IHl].
  - destruct Hf as [Hne Hf]. split; [lia|]. induction IH as [|[k v] l Hv _ IHl]; [done|]. destruct Hf as [H1 H2].
    split; [eapply Hv; [exact H1|cbn; lia]|by apply IHl].
Qed.

Lemma fits_arr d l : fits d (JArr l) ↔ d ≠ 0%N ∧ Forall (fits (N.pred d)) l.
Proof.
  cbn [fits]. apply and_iff_compat_l. induction l as [|v l IH]; [done|]. rewrite Forall_cons. by rewrite IH.
Qed.

Lemma fits_obj d l : fits d (JObj l) ↔ d ≠ 0%N ∧ Forall (λ kv, fits (N.pred d) kv.2) l.
Proof.
  cbn [fits]. apply and_iff_compat_l. induction l as [|[k v] l IH]; [done|]. rewrite Forall_cons. by rewrite IH.
Qed.

Lemma occurrences_cons f k v ms :
  occurrences f ((k, v) :: ms) = (if key_matches f k then [v] else []) ++ occurrences f ms.
Proof. unfold occurrences. cbn. by destruct (key_matches f k). Qed.

Lemma occurrences_nil f : occurrences f [] = [].
Proof. done. Qed.

(** Members of an object that was written. *)
Lemma quoted_obj l : quoted (JObj l) = JObj (quoted_members l).
Proof. done. Qed.

Lemma quoted_members_app l1 l2 : quoted_members (l1 ++ l2) = quoted_members l1 ++ quoted_members l2.
Proof. induction l1 as [|[k v] l1 IH]; [done|]. cbn [app quoted_members]. by rewrite IH. Qed.

Lemma members_single v : [v] ≫= members_of = members_of v.
Proof. cbn. apply app_nil_r. Qed.

(** Evaluate the comparison of every known key with every known field. *)
Ltac eval_keys :=
  repeat match goal with
  | |- context [key_matches ?f (quoted_string ?k)] =>
      let b := eval vm_compute in (key_matches f (quoted_string k)) in
      change (key_matches f (quoted_string k)) with b
  end.

(** Reduce the decoding of an object to the decoding of its fields. *)
Ltac decode_fields :=
  unfold get_field; rewrite ?members_single; cbn [members_of];
  rewrite ?occurrences_cons, ?occurrences_nil; eval_keys; cbn [app].

(** ** What decoding delivers *)

Lemma scalar_inv {A} (P : A → Prop) (conv : jval → option A) x vs :
  P x → (∀ v y, conv v = Some y → P y) → P (dec_into (scalar conv) x vs).
Proof.
  intros Hx Hc. cbn. revert x Hx. induction vs as [|v vs IH]; intros x Hx; [done|]. cbn. apply IH.
  destruct (conv v) as [y|] eqn:E; [by eapply Hc|done].
Qed.

Definition int64 (z : Z) : Prop := (min_int64 ≤ z ≤ max_int64)%Z.

Lemma dec_string_cell x vs : utf8 x → utf8 (dec_into dec_string x vs).
Proof.
  intros Hx. unfold dec_string. apply (scalar_inv utf8); [done|].
  intros [] y; try done. intros [= <-]. apply unquote_valid.
Qed.

Lemma dec_string_utf8 f x vs : utf8 x → utf8 (get_field f dec_string x vs).
Proof.
  intros Hx. unfold get_field. by apply dec_string_cell.
Qed.

Lemma dec_int_int64 f x vs : int64 x → int64 (get_field f dec_int x vs).
Proof.
  intros Hx. unfold get_field, dec_int. apply (scalar_inv int64); [done|]. intros [] y; try done. unfold parse_int.
  destruct (read_sign _) as [s ds]. destruct (_ || _); [done|]. case_bool_decide as H; [|done]. by intros [= <-].
Qed.

Lemma dec_float_finite f x vs : is_finite x = true → is_finite (get_field f dec_float64 x vs) = true.
Proof.
  intros Hx. unfold get_field, dec_float64. apply (scalar_inv (λ y, is_finite y = true)); [done|]. intros [] y; try done. unfold parse_float.
  destruct (decimal_of _) as [[[s m] e]|]; [|done]. cbn [mbind option_bind].
  destruct (is_finite (dec_float s m e)) eqn:E; [|done]. by intros [= <-].
Qed.

Lemma fill_Forall {C} (P : C → Prop) zero step cells l :
  P zero → (∀ c v, P c → P (step c v)) → Forall P cells → Forall P (fill zero step cells l).
Proof.
  intros Hz Hs. revert cells. induction l as [|v l IH]; intros cells Hc; [by destruct cells|].
  destruct Hc as [|c cells Hc Hcs]; cbn; constructor; auto.
Qed.

Lemma slice_into_Forall {C} (P : C → Prop) zero step x vs l :
  P zero → (∀ c v, P c → P (step c v)) → Forall P (default [] x) → slice_into zero step x vs = Some l → Forall P l.
Proof.
  intros Hz Hs Hx. unfold slice_into.
  assert (∀ st, Forall P st.1 → Forall P (foldl (slice_step zero step) st vs).1) as Hf.
  { induction vs as [|v vs IH]; intros st Hst; [done|]. cbn. apply IH.
    destruct v as [| | | |[|v l']|]; try done; [constructor..|]. by apply fill_Forall. }
  specialize (Hf (default [] x, length <$> x) Hx).
  destruct (foldl _ _ _) as [cells [n|]]; [|done]. intros [= <-]. by apply Forall_take.
Qed.

Lemma dec_strings_utf8 f x vs : utf8_list x → utf8_list (get_field f dec_strings x vs).
Proof.
  intros Hx. unfold utf8_list, get_field. destruct (dec_into dec_strings x _) as [l|] eqn:E; [|done].
  revert E. apply (slice_into_Forall utf8); [done| |by destruct x]. intros c v Hc. by apply dec_string_cell.
Qed.

(** ** ASCII and base64 text *)

Definition ascii_char (c : ascii) : Prop := within 0 127 c = true.

Lemma ascii_valid l : Forall ascii_char l → valid_utf8 l = true.
Proof.
  unfold valid_utf8. induction 1 as [|c l Hc _ IH]; [done|]. cbn [valid_from rune_size]. by rewrite Hc.
Qed.

(** A suffix of ASCII text is coerced on its own. *)
Lemma rune_size_ascii l t : Forall ascii_char t → rune_size l = 0 → l ≠ [] → rune_size (l ++ t) = 0.
Proof.
  assert (∀ c, ascii_char c → cont c = false) as Hcont.
  { intros c. unfold ascii_char, cont, within. rewrite andb_true_iff, andb_false_iff, !N.leb_le, !N.leb_gt. lia. }
  assert (∀ a c, ascii_char c → lead3 a c = false ∧ lead4 a c = false) as Hlead.
  { intros a c Hc. pose proof (Hcont c Hc) as Hc'. unfold ascii_char, within in Hc. rewrite andb_true_iff, !N.leb_le in Hc.
    unfold lead3, lead4. rewrite Hc'. unfold within.
    assert (∀ lo hi, (127 < lo)%N → ((lo <=? N_of_ascii c) && (N_of_ascii c <=? hi))%N = false) as Hw.
    { intros lo hi Hlo. apply andb_false_iff. left. apply N.leb_gt. lia. }
    rewrite !Hw by lia. by rewrite !andb_false_r. }
  intros Ht. destruct l as [|a [|b [|c [|d l]]]]; [done|..]; intros E _.
  - destruct Ht as [|x t Hx Ht]; [done|]. cbn [app rune_size] in *. destruct (within 0 127 a); [done|].
    rewrite (Hcont x Hx), andb_false_r. destruct Ht as [|y t Hy Ht]; [done|].
    destruct (Hlead a x Hx) as [-> ->]. by destruct Ht.
  - cbn [app rune_size] in *. destruct (within 0 127 a); [done|]. destruct (_ && _); [done|].
    destruct Ht as [|x t Hx Ht]; [done|]. rewrite (Hcont x Hx), !andb_false_r. by destruct Ht.
  - cbn [app rune_size] in *. destruct (within 0 127 a); [done|]. destruct (within 194 223 a && _); [done|].
    destruct (lead3 _ _ && _); [done|]. destruct Ht as [|x t Hx Ht]; [done|]. by rewrite (Hcont x Hx), andb_false_r.
  - exact E.
Qed.

Lemma coerce_from_app k l t : Forall ascii_char t → k ≤ length l → coerce_from k (l ++ t) = coerce_from k l ++ t.
Proof.
  intros Ht. revert k. induction l as [|a l IH]; intros k Hk.
  - assert (k = 0) as -> by (simpl in Hk; lia). apply coerce_from_id, ascii_valid, Ht.
  - cbn [app coerce_from]. destruct k as [|k].
    + destruct (rune_size (a :: l)) as [|n] eqn:E.
      * pose proof (rune_size_ascii (a :: l) t Ht E ltac:(done)) as E'. cbn [app] in E'. rewrite E', IH by lia. done.
      * pose proof (rune_size_length (a :: l)) as Hn. rewrite E in Hn. cbn [length] in Hn.
        rewrite (rune_size_prefix n (a :: l) (a :: l ++ t)); [by rewrite IH by lia|done|].
        cbn [take]. by rewrite take_app_le by lia.
    + rewrite IH by (simpl in Hk; lia). done.
Qed.

Lemma coerce_app l t : Forall ascii_char t → coerce (l ++ t) = coerce l ++ t.
Proof. intros Ht. apply coerce_from_app; [done|lia]. Qed.

(** What arrives for any byte string that was written. *)
Definition delivered (s : string) : string := string_of_list_ascii (coerce (list_ascii_of_string s)).

Lemma unquote_delivered s : unquote (quoted_string s) = delivered s.
Proof. unfold unquote, quoted_string. by rewrite list_ascii_of_string_of_list_ascii, resolve_escape, (coerce_id (coerce _)) by apply coerce_valid. Qed.

Lemma delivered_utf8 s : utf8 s → delivered s = s.
Proof. intros Hs. unfold delivered. rewrite coerce_id by done. apply string_of_list_ascii_of_string. Qed.

(** A value with every string, keys included, replaced. *)
Fixpoint map_strings (f : string → string) (v : jval) : jval :=
  match v with
  | JStr s => JStr (f s)
  | JArr l => JArr ((fix go l := match l with [] => [] | v :: l => map_strings f v :: go l end) l)
  | JObj l => JObj ((fix go l := match l with [] => [] | (k, v) :: l => (f k, map_strings f v) :: go l end) l)
  | v => v
  end.

Lemma map_strings_quoted v : map_strings unquote (quoted v) = map_strings delivered v.
Proof.
  induction v as [|b|t|s|l IH|l IH] using jval_ind; [done..| | |]; cbn [quoted map_strings].
  - by rewrite unquote_delivered.
  - f_equal. induction IH as [|v l Hv _ IH]; [done|]. by rewrite Hv, IH.
  - f_equal. induction IH as [|[k v] l Hv _ IH]; [done|]. cbn in Hv. by rewrite Hv, IH, unquote_delivered.
Qed.

(** The text determines what is delivered. *)
Lemma marshal_delivered v1 v2 :
  fits max_depth v1 → fits max_depth v2 → marshal v1 = marshal v2 → map_strings delivered v1 = map_strings delivered v2.
Proof.
  intros F1 F2 E. rewrite <-!map_strings_quoted. f_equal. apply read_marshal in F1, F2. rewrite E in F1. congruence.
Qed.

Lemma delivered_app s t :
  Forall ascii_char (list_ascii_of_string t) → delivered (s ++ t) = (delivered s ++ t)%string.
Proof.
  intros Ht. unfold delivered. rewrite list_ascii_of_string_app, coerce_app by done.
  apply list_ascii_of_string_inj. by rewrite list_ascii_of_string_app, !list_ascii_of_string_of_list_ascii.
Qed.

Lemma enc_chars_Forall (P : ascii → Prop) e l :
  P pad_char → Forall P (alphabet e) → Forall P (enc_chars e l).
Proof.
  intros Hp Ha. assert (∀ i, P (enc_char e i)) as Hc.
  { intros i. unfold enc_char. destruct (alphabet e !! Z.to_nat i) as [c|] eqn:E; [|done].
    by eapply Forall_lookup_1. }
  induction l as [l IH] using (well_founded_induction (well_founded_ltof _ length)). unfold ltof in IH.
  destruct l as [|a [|b [|c l]]]; cbn [enc_chars]; [constructor|..].
  - apply Forall_app. split; [by repeat constructor|]. destruct (padded e); by repeat constructor.
  - apply Forall_app. split; [by repeat constructor|]. destruct (padded e); by repeat constructor.
  - repeat (constructor; [done|]). apply IH. simpl. lia.
Qed.

Lemma std_base64_inert l : Forall inert (list_ascii_of_string (EncodeToString StdEncoding l)).
Proof.
  unfold EncodeToString. rewrite list_ascii_of_string_of_list_ascii. apply enc_chars_Forall.
  - split; reflexivity.
  - repeat (constructor; [split; reflexivity|]). constructor.
Qed.

Lemma base64_utf8 e l : Forall ascii_char (alphabet e) → utf8 (EncodeToString e l).
Proof.
  intros Ha. unfold utf8, EncodeToString. rewrite list_ascii_of_string_of_list_ascii. by apply ascii_valid, enc_chars_Forall.
Qed.

Lemma std_base64_utf8 l : utf8 (EncodeToString StdEncoding l).
Proof. apply base64_utf8. repeat (constructor; [reflexivity|]). constructor. Qed.
Lemma url_base64_utf8 l : utf8 (EncodeToString RawURLEncoding l).
Proof. apply base64_utf8. repeat (constructor; [reflexivity|]). constructor. Qed.
