(* ===== verification/GoJsonIndent.v ===== *)
(** * Indented JSON, as [json.MarshalIndent] writes it with no prefix and two spaces *)

From Stdlib Require Import ZArith Lia Ascii String.
From stdpp Require Import base option list strings.
From S2P Require Import Prelude GoText GoJson GoJsonRead.

(** A new line at nesting [n]. *)
Definition break (n : nat) : list ascii := "010"%char :: replicate (2 * n) " "%char.

Fixpoint indented (n : nat) (v : jval) : list ascii :=
  match v with
  | JArr (v :: l) =>
      "["%char :: break (S n) ++ indented (S n) v ++
      (fix tail l :=
         match l with
         | [] => break n ++ ["]"%char]
         | v :: l => ","%char :: break (S n) ++ indented (S n) v ++ tail l
         end) l
  | JObj ((k, v) :: l) =>
      "{"%char :: break (S n) ++ string_chars k ++ ":"%char :: " "%char :: indented (S n) v ++
      (fix tail l :=
         match l with
         | [] => break n ++ ["}"%char]
         | (k, v) :: l =>
             ","%char :: break (S n) ++ string_chars k ++ ":"%char :: " "%char :: indented (S n) v ++ tail l
         end) l
  | v => render v
  end.

Definition MarshalIndent (v : jval) : list ascii := indented 0 v.

Example indent_sample :
  MarshalIndent (JObj [("a", JArr [JNull; JArr []]); ("b", JObj [])]) =
  qt "{" ++ break 1 ++ qt "'a': [" ++ break 2 ++ qt "null," ++ break 2 ++ qt "[]" ++ break 1 ++ qt "]," ++
  break 1 ++ qt "'b': {}" ++ break 0 ++ qt "}".
Proof. reflexivity. Qed.

(** ** Indentation changes nothing for a reader *)

Definition indented_tail (n : nat) : list jval → list ascii :=
  fix tail l :=
    match l with
    | [] => break n ++ ["]"%char]
    | v :: l => ","%char :: break (S n) ++ indented (S n) v ++ tail l
    end.
Definition indented_members (n : nat) : list (string * jval) → list ascii :=
  fix tail l :=
    match l with
    | [] => break n ++ ["}"%char]
    | (k, v) :: l => ","%char :: break (S n) ++ string_chars k ++ ":"%char :: " "%char :: indented (S n) v ++ tail l
    end.

Lemma break_blank n : blank (break n).
Proof. apply Forall_cons. split; [done|]. by apply Forall_replicate. Qed.

Lemma gelems_indented n d v l :
  Forall (λ v, ∀ n d, fits d v → gval d (quoted v) (indented n v)) (v :: l) →
  fits d v → fits (N.succ d) (JArr l) → gelems d (quoted v :: quoted_list l) (indented (S n) v ++ indented_tail n l).
Proof.
  revert v. induction l as [|v' l IH]; intros v [Hv Hl]%Forall_cons Hf [_ Hfl].
  - exact (ge_last d (quoted v) (indented (S n) v) (break n) (Hv (S n) d Hf) (break_blank n)).
  - rewrite N.pred_succ in Hfl. destruct Hfl as [Hf' Hfl].
    apply (ge_more d (quoted v) (indented (S n) v) [] (break (S n)) (quoted v' :: quoted_list l));
      [by apply Hv|constructor|apply break_blank|].
    apply IH; [done..|]. split; [lia|]. by rewrite N.pred_succ.
Qed.

Lemma gmembers_indented n d x v l :
  Forall (λ kv, ∀ n d, fits d kv.2 → gval d (quoted kv.2) (indented n kv.2)) ((x, v) :: l) →
  fits d v → fits (N.succ d) (JObj l) →
  gmembers d ((quoted_string x, quoted v) :: quoted_members l)
    (string_chars x ++ ":"%char :: " "%char :: indented (S n) v ++ indented_members n l).
Proof.
  assert (blank [" "%char]) as Hsp by by repeat constructor.
  revert x v. induction l as [|[x' v'] l IH]; intros x v [Hv Hl]%Forall_cons Hf [_ Hfl]; cbn [snd] in Hv;
    unfold string_chars; cbn [app]; rewrite <-app_assoc; cbn [app].
  - apply (gm_last d (escape (list_ascii_of_string x)) [] [" "%char] (quoted v) (indented (S n) v) (break n));
      [apply escape_body|constructor|done|by apply Hv|apply break_blank].
  - rewrite N.pred_succ in Hfl. destruct Hfl as [Hf' Hfl].
    apply (gm_more d (escape (list_ascii_of_string x)) [] [" "%char] (quoted v) (indented (S n) v) [] (break (S n))
      ((quoted_string x', quoted v') :: quoted_members l));
      [apply escape_body|constructor|done|by apply Hv|constructor|apply break_blank|].
    apply IH; [done..|]. split; [lia|]. by rewrite N.pred_succ.
Qed.

Lemma indented_text v n d : fits d v → gval d (quoted v) (indented n v).
Proof.
  revert n d. induction v as [|[]|t|s|l IH|l IH] using jval_ind; intros n d Hf; try by apply (render_text _ d).
  - destruct l as [|v l]; [by apply (render_text (JArr []))|]. destruct Hf as [Hd [Hf Hfl]].
    replace d with (N.succ (N.pred d)) by lia. set (d' := N.pred d) in *. clearbody d'.
    apply (g_arr d' (break (S n)) (quoted v :: quoted_list l)); [apply break_blank|]. apply gelems_indented; [done..|].
    split; [lia|]. by rewrite N.pred_succ.
  - destruct l as [|[x v] l]; [by apply (render_text (JObj []))|]. destruct Hf as [Hd [Hf Hfl]].
    replace d with (N.succ (N.pred d)) by lia. set (d' := N.pred d) in *. clearbody d'.
    apply (g_obj d' (break (S n)) ((quoted_string x, quoted v) :: quoted_members l)); [apply break_blank|].
    apply gmembers_indented; [done..|]. split; [lia|]. by rewrite N.pred_succ.
Qed.

Lemma read_MarshalIndent v : fits max_depth v → read_json (MarshalIndent v) = Some (quoted v).
Proof.
  intros Hf. apply read_json_complete. exists [], (MarshalIndent v), []. rewrite app_nil_r.
  split_and!; [done|constructor|by apply indented_text|constructor].
Qed.
