(* ===== verification/GoLines.v ===== *)
(** * Lines, as [bufio.Scanner] delivers them

    [Scan] with the default split function and buffer: lines end at a newline or
    at the end of the stream, a carriage return before the newline is dropped,
    and a line of 65536 bytes or more ends the scan with an error.  What
    [json.Encoder.Encode] writes is one such line. *)

From Stdlib Require Import ZArith Lia Ascii String.
From stdpp Require Import base option list strings pretty.
From S2P Require Import Prelude GoText GoJson GoJsonRead.

Definition newline : ascii := "010"%char.
Definition carriage : ascii := "013"%char.

(** The pieces between newlines; a last piece without newline counts when it is
    not empty. *)
Fixpoint pieces (l : list ascii) : list (list ascii) :=
  match l with
  | [] => []
  | c :: t =>
      if bool_decide (c = newline) then [] :: pieces t
      else match pieces t with [] => [[c]] | h :: r => (c :: h) :: r end
  end.

(** [dropCR] *)
Fixpoint drop_cr (l : list ascii) : list ascii :=
  match l with
  | [] => []
  | c :: t => match t with [] => if bool_decide (c = carriage) then [] else [c] | _ => c :: drop_cr t end
  end.

(** [bufio.MaxScanTokenSize]; the newline must fit the buffer too. *)
Definition max_line : N := 65535.
Definition line_fits (l : list ascii) : bool := (N.of_nat (length l) <=? max_line)%N.

(** The pieces before the first one that is too long. *)
Fixpoint scannable (ls : list (list ascii)) : list (list ascii) :=
  match ls with [] => [] | l :: ls => if line_fits l then l :: scannable ls else [] end.

Definition scan_lines (l : list ascii) : list (list ascii) := drop_cr <$> scannable (pieces l).

(** What [Encode] writes. *)
Definition encode_line (v : jval) : list ascii := marshal v ++ [newline].

(** ** Lemmas *)

Definition no_newline (l : list ascii) : Prop := Forall (λ c, c ≠ newline) l.

Lemma pieces_line l k : no_newline l → pieces (l ++ newline :: k) = l :: pieces k.
Proof.
  induction 1 as [|c l Hc _ IH]; cbn [app pieces].
  - by rewrite bool_decide_true.
  - by rewrite bool_decide_false, IH.
Qed.

Lemma drop_cr_id l c : drop_cr (l ++ [c]) = if bool_decide (c = carriage) then l else l ++ [c].
Proof.
  induction l as [|x l IH]; cbn [app drop_cr]; [done|].
  destruct (l ++ [c]) as [|y t] eqn:E; [by destruct l|]. rewrite IH. by case_bool_decide.
Qed.

Lemma scan_lines_cons l k :
  no_newline l → line_fits l = true → scan_lines (l ++ newline :: k) = drop_cr l :: scan_lines k.
Proof. intros Hn Hf. unfold scan_lines. rewrite pieces_line by done. cbn [scannable]. by rewrite Hf. Qed.

(** A line that is too long ends the scan. *)
Lemma scan_lines_long l k : no_newline l → line_fits l = false → scan_lines (l ++ newline :: k) = [].
Proof. intros Hn Hf. unfold scan_lines. rewrite pieces_line by done. cbn [scannable]. by rewrite Hf. Qed.

(** ** What is written is one line *)

(** Every character is printable: the writer puts no white space. *)
Definition visible (l : list ascii) : Prop := Forall (λ c, is_ws c = false ∨ c = " "%char) l.

Lemma escape_char_visible c : visible (escape_char c).
Proof. destruct c as [[] [] [] [] [] [] [] []]; repeat (constructor; [first [left; reflexivity|right; reflexivity]|]); constructor. Qed.

Lemma escaped_visible t l : escaped t l → visible t.
Proof.
  induction 1 as [|c t l _ IH|t l _ IH|a b c t l _ _ IH|c t l Hc _ IH].
  - constructor.
  - apply Forall_app. split; [apply escape_char_visible|done].
  - by repeat (constructor; [by left|]).
  - unfold line_sep_escape. case_bool_decide; by repeat (constructor; [by left|]).
  - constructor; [|done]. left. revert Hc. destruct c as [[] [] [] [] [] [] [] []]; first [reflexivity|discriminate].
Qed.

Lemma escape_visible l : visible (escape l).
Proof. eapply escaped_visible, escape_escaped. Qed.

Lemma visible_cons c l : is_ws c = false → visible l → visible (c :: l).
Proof. intros Hc Hl. constructor; [by left|done]. Qed.

Lemma string_chars_visible s : visible (string_chars s).
Proof.
  unfold string_chars. apply visible_cons; [done|]. apply Forall_app. split; [apply escape_visible|].
  apply visible_cons; [done|constructor].
Qed.

Lemma num_visible t : num_literal t → visible t.
Proof.
  intros [_ Ht]. unfold visible. rewrite Forall_forall in Ht |- *. intros c Hc. left. specialize (Ht c Hc).
  unfold is_ws. by rewrite !bool_decide_false by (intros ->; discriminate Ht).
Qed.

Lemma arr_tail_visible l : Forall (λ v, wf v → visible (render v)) l → wf (JArr l) → visible (arr_tail l).
Proof.
  induction 1 as [|v l Hv _ IH]; intros W; [by repeat constructor; left|]. destruct W as [W1 W2]. cbn [arr_tail].
  apply visible_cons; [done|]. apply Forall_app. split; [by apply Hv|by apply IH].
Qed.

Lemma obj_tail_visible l : Forall (λ kv, wf kv.2 → visible (render kv.2)) l → wf (JObj l) → visible (obj_tail l).
Proof.
  induction 1 as [|[k v] l Hv _ IH]; intros W; [by repeat constructor; left|]. destruct W as [W1 W2]. cbn [obj_tail].
  apply visible_cons; [done|]. apply Forall_app. split; [apply string_chars_visible|]. apply visible_cons; [done|].
  apply Forall_app. split; [by apply Hv|by apply IH].
Qed.

Lemma render_visible v : wf v → visible (render v).
Proof.
  induction v as [|[]|t|s|l IH|l IH] using jval_ind; intros W; try (by repeat (apply visible_cons; [done|]); constructor).
  - by apply num_visible.
  - apply string_chars_visible.
  - apply visible_cons; [done|]. destruct l as [|v l]; [by apply visible_cons; [done|constructor]|].
    apply Forall_cons in IH as [Hv IH]. destruct W as [W1 W2]. apply Forall_app.
    split; [by apply Hv|by apply arr_tail_visible].
  - apply visible_cons; [done|]. destruct l as [|[k v] l]; [by apply visible_cons; [done|constructor]|].
    apply Forall_cons in IH as [Hv IH]. destruct W as [W1 W2]. apply Forall_app. split; [apply string_chars_visible|].
    apply visible_cons; [done|]. apply Forall_app. split; [by apply Hv|by apply obj_tail_visible].
Qed.

Lemma visible_no_newline l : visible l → no_newline l ∧ drop_cr l = l.
Proof.
  intros Hl. split.
  - unfold visible in Hl. rewrite Forall_forall in Hl. apply Forall_forall. intros c Hc ->.
    by destruct (Hl _ Hc).
  - destruct l as [|c l _] using rev_ind; [done|]. rewrite drop_cr_id. case_bool_decide as E; [|done]. subst.
    apply Forall_app in Hl as [_ Hl]. apply Forall_cons in Hl as [[H|H] _]; done.
Qed.

(** Encoded values are scanned as the lines they were written as. *)
Lemma scan_lines_encode v k :
  wf v → line_fits (marshal v) = true → scan_lines (encode_line v ++ k) = marshal v :: scan_lines k.
Proof.
  intros W Hf. destruct (visible_no_newline (marshal v) (render_visible v W)) as [Hn Hd].
  unfold encode_line. rewrite <-app_assoc. cbn [app]. by rewrite scan_lines_cons, Hd.
Qed.

(** Encoded values are the lines of the stream they make, whatever their length. *)
Lemma pieces_encoded vs : Forall wf vs → pieces (vs ≫= encode_line) = marshal <$> vs.
Proof.
  induction 1 as [|v vs Hw _ IH]; [done|]. rewrite bind_cons, fmap_cons. unfold encode_line at 1. rewrite <-app_assoc.
  cbn [app]. rewrite pieces_line by (by apply visible_no_newline, render_visible). by rewrite IH.
Qed.

Example scan_sample : scan_lines (list_ascii_of_string "ab" ++ [carriage; newline; newline] ++ list_ascii_of_string "c") =
  [list_ascii_of_string "ab"; []; list_ascii_of_string "c"].
Proof. reflexivity. Qed.
