(* ===== verification/GoService.v ===== *)
(** * What the five programs share: configuration files, sockets, exit codes

    Each program loads a JSON configuration over its defaults, prepares its
    state, starts its listeners in goroutines and waits for a signal; an error
    on the way ends it with exit code 1.  Each socket API answers one line of
    JSON with one line of JSON. *)

From Stdlib Require Import ZArith Lia Ascii String.
From stdpp Require Import base option list strings.
From S2P Require Import Prelude GoText GoJson GoJsonRead GoJsonDecode GoLines.

(** ** Files *)

(** What [os.ReadFile] returns; [os.IsNotExist] tells the second case. *)
Inductive read_result := ReadOk (data : list ascii) | ReadNotExist | ReadErr (msg : string).

Definition errNotExist : string := "no such file or directory".
Definition errUnmarshal : string := "invalid configuration".

Definition decode_config {A} (D : decoder A) (defaults : A) (data : list ascii) : go A :=
  let '(cfg, bad) := Unmarshal D data defaults in if bad then Err errUnmarshal else Ok cfg.

(** A configuration that must exist, and one whose absence means the defaults. *)
Definition load_required {A} (D : decoder A) (defaults : A) (file : read_result) : go A :=
  match file with
  | ReadOk data => decode_config D defaults data
  | ReadNotExist => Err errNotExist
  | ReadErr e => Err e
  end.

Definition load_optional {A} (D : decoder A) (defaults : A) (file : read_result) : go A :=
  match file with
  | ReadOk data => decode_config D defaults data
  | ReadNotExist => Ok defaults
  | ReadErr e => Err e
  end.

(** ** Sockets *)

(** [listen] up to its accept loop, from what creating the directory and
    binding the socket return; the stale socket file is removed first and the
    outcome of that ignored. *)
Definition open_socket (remove mkdir bind : go unit) : go unit :=
  match mkdir with Ok _ => bind | Err e => Err e | Panic => Panic end.

(** One line of a connection as the API decodes it; [None] is a line
    [json.Unmarshal] refuses. *)
Definition decode_request {A} (D : decoder A) (zero : A) (line : list ascii) : option A :=
  let '(req, bad) := Unmarshal D line zero in if bad then None else Some req.

(** The requests of a connection. *)
Definition requests {A} (D : decoder A) (zero : A) (bytes : list ascii) : list (option A) :=
  decode_request D zero <$> scan_lines bytes.

(** [omitempty] on a string and on an integer field. *)
Definition omitempty (k s : string) : list (string * jval) := if bool_decide (s = "") then [] else [(k, JStr s)].
Definition omit_zero (k : string) (z : Z) : list (string * jval) :=
  if bool_decide (z = 0%Z) then [] else [(k, json_int z)].

(** The bytes [Encode] writes; a value that cannot be marshalled writes none. *)
Definition encode_opt (v : option jval) : list ascii := match v with Some v => encode_line v | None => [] end.

(** ** Processes *)

(** A program runs in a state or has ended with an exit code. *)
Inductive status (S : Type) := Running (s : S) | Exited (code : Z).
Arguments Running {S} s.
Arguments Exited {S} code.

(** An error of a start-up step ends the program with code 1; a panic with 2. *)
Definition or_exit {A S} (m : go A) (k : A → status S) : status S :=
  match m with Ok a => k a | Err _ => Exited 1 | Panic => Exited 2 end.

(** ** Lemmas *)

Lemma omitempty_fits d k s : Forall (λ kv, fits d kv.2) (omitempty k s).
Proof. unfold omitempty. case_bool_decide; by repeat constructor. Qed.

Lemma omit_zero_fits d k z : Forall (λ kv, fits d kv.2) (omit_zero k z).
Proof. unfold omit_zero. case_bool_decide; constructor; [apply json_int_number|constructor]. Qed.

Lemma or_exit_Running {A S} (m : go A) (k : A → status S) s :
  or_exit m k = Running s ↔ ∃ a, m = Ok a ∧ k a = Running s.
Proof.
  unfold or_exit. destruct m as [a|e|]; split; try done; [eauto|by intros (? & [= ->] & ?)|by intros (? & ? & ?)..].
Qed.

Lemma or_exit_code {A S} (m : go A) (k : A → status S) c :
  or_exit m k = Exited c ↔ (∃ a, m = Ok a ∧ k a = Exited c) ∨ (∃ e, m = Err e ∧ c = 1%Z) ∨ (m = Panic ∧ c = 2%Z).
Proof.
  unfold or_exit. destruct m as [a|e|]; split.
  - eauto.
  - by intros [(? & [= ->] & ?)|[(? & ? & _)|[? _]]].
  - intros [= <-]. eauto.
  - by intros [(? & ? & _)|[(? & _ & ->)|[? _]]].
  - intros [= <-]. eauto.
  - by intros [(? & ? & _)|[(? & ? & _)|[_ ->]]].
Qed.

(** A program that only ends through these ends with 1 or 2. *)
Lemma or_exit_failure {A S} (m : go A) (k : A → status S) :
  (∀ a c, k a = Exited c → c = 1%Z ∨ c = 2%Z) → ∀ c, or_exit m k = Exited c → c = 1%Z ∨ c = 2%Z.
Proof. intros Hk c [(a & _ & E)|[(? & _ & ->)|[_ ->]]]%or_exit_code; eauto. Qed.

(** A configuration file that is one JSON object of the right types is loaded
    over the defaults; anything else is refused. *)
Lemma decode_config_Ok {A} (D : decoder A) defaults data cfg :
  decode_config D defaults data = Ok cfg ↔
  ∃ v, json_text v data ∧ dec_err D v = false ∧ cfg = dec_into D defaults [v].
Proof.
  unfold decode_config, Unmarshal. split.
  - destruct (read_json data) as [v|] eqn:E; [|done]. destruct (dec_err D v) eqn:Ev; [done|]. intros [= <-].
    exists v. split_and!; [by apply read_json_sound|done..].
  - intros (v & Hv & He & ->). by rewrite (read_json_complete v data Hv), He.
Qed.

Lemma decode_request_marshal {A} (D : decoder A) zero v :
  fits max_depth v → dec_err D (quoted v) = false → decode_request D zero (marshal v) = Some (dec_into D zero [quoted v]).
Proof. intros Hf He. unfold decode_request. by rewrite Unmarshal_marshal, He. Qed.

(** Encoded requests are decoded one by one. *)
Lemma requests_cons {A} (D : decoder A) zero v rest :
  fits max_depth v → line_fits (marshal v) = true → dec_err D (quoted v) = false →
  requests D zero (encode_line v ++ rest) = Some (dec_into D zero [quoted v]) :: requests D zero rest.
Proof.
  intros Hf Hl He. unfold requests. rewrite scan_lines_encode by (done || by eapply fits_wf).
  by rewrite fmap_cons, decode_request_marshal.
Qed.

(** ** An API that answers every request *)

(** Responses that can all be marshalled are one line each. *)
Lemma answers_lines {A} (answer : A → option jval) (reqs : list A) :
  (∀ req, req ∈ reqs → ∃ v, answer req = Some v ∧ wf v) →
  ∃ vs, mapM answer reqs = Some vs ∧ pieces (reqs ≫= λ req, encode_opt (answer req)) = marshal <$> vs.
Proof.
  intros Hall. assert (∃ vs, mapM answer reqs = Some vs ∧ Forall wf vs ∧
    (reqs ≫= λ req, encode_opt (answer req)) = vs ≫= encode_line) as (vs & Hm & Hw & ->).
  { induction reqs as [|req reqs IH]; [by exists []|]. destruct (Hall req) as (v & Hv & Wv); [by left|].
    destruct IH as (vs & Hm & Hw & He); [intros r Hr; apply Hall; by right|]. exists (v :: vs).
    cbn [mapM]. rewrite !bind_cons, Hv. cbn [mbind option_bind]. rewrite Hm, He. split_and!; [done|by constructor|done]. }
  exists vs. split; [done|]. by apply pieces_encoded.
Qed.
