(* ===== verification/GoNet.v ===== *)
(** * Addresses, as package net parses and prints them

    [net.SplitHostPort], [net.ParseCIDR] with the address syntax of
    [netip.ParseAddr], and [IPNet.String].  [net.ResolveUDPAddr] splits its
    argument and asks the resolver, which is an interface: names of hosts and
    services are looked up outside the program. *)

From Stdlib Require Import ZArith Lia Ascii String.
From stdpp Require Import base option list strings pretty.
From S2P Require Import Prelude GoText GoUtf8 GoJson GoJsonRead GoNumber.
Local Open Scope Z_scope.

Definition count_char (c : ascii) (s : string) : nat :=
  length (filter (λ x, x = c) (list_ascii_of_string s)).

(** What precedes and what follows the first occurrence of a character. *)
Fixpoint cut (c : ascii) (s : string) : option (string * string) :=
  match s with
  | EmptyString => None
  | String x s =>
      if bool_decide (x = c) then Some ("", s)
      else match cut c s with Some (a, b) => Some (String x a, b) | None => None end
  end.

(** What precedes and what follows the last occurrence. *)
Fixpoint cut_last (c : ascii) (s : string) : option (string * string) :=
  match s with
  | EmptyString => None
  | String x s =>
      match cut_last c s with
      | Some (a, b) => Some (String x a, b)
      | None => if bool_decide (x = c) then Some ("", s) else None
      end
  end.

Definition has_char (c : ascii) (s : string) : bool := bool_decide (is_Some (cut c s)).

(** ** [SplitHostPort] *)

Definition addr_error {A} (addr why : string) : go A :=
  Err (if bool_decide (addr = "") then why else "address " ++ addr ++ ": " ++ why)%string.

Definition missingPort : string := "missing port in address".
Definition tooManyColons : string := "too many colons in address".

(** What follows a first character. *)
Definition after_char (c : ascii) (s : string) : option string :=
  match s with String x t => if bool_decide (x = c) then Some t else None | EmptyString => None end.

Definition SplitHostPort (hostport : string) : go (string * string) :=
  match cut_last ":" hostport with
  | None => addr_error hostport missingPort
  | Some (before, port) =>
      match after_char "[" hostport with
      | Some rest =>
          match cut "]" rest with
          | None => addr_error hostport "missing ']' in address"
          | Some (host, tail) =>
              if bool_decide (tail = "") then addr_error hostport missingPort
              else if bool_decide (tail = String ":" port) then
                if has_char "[" rest then addr_error hostport "unexpected '[' in address"
                else if has_char "]" tail then addr_error hostport "unexpected ']' in address"
                else Ok (host, port)
              else if bool_decide (is_Some (after_char ":" tail)) then addr_error hostport tooManyColons
              else addr_error hostport missingPort
          end
      | None =>
          if has_char ":" before then addr_error hostport tooManyColons
          else if has_char "[" hostport then addr_error hostport "unexpected '[' in address"
          else if has_char "]" hostport then addr_error hostport "unexpected ']' in address"
          else Ok (before, port)
      end
  end.

Example split_samples :
  SplitHostPort "192.0.2.1:51820" = Ok ("192.0.2.1", "51820") ∧
  SplitHostPort "[2001:db8::1]:51820" = Ok ("2001:db8::1", "51820") ∧
  SplitHostPort "2001:db8::1:51820" = Err "address 2001:db8::1:51820: too many colons in address" ∧
  SplitHostPort "host" = Err "address host: missing port in address" ∧ SplitHostPort ":7" = Ok ("", "7").
Proof. vm_compute. repeat split. Qed.

(** The resolver: the textual form of the address a host and a port stand for. *)
Class Resolver := lookup_addr : string → string → go string.
Class ResolverLaws `{Resolver} := { lookup_no_panic h p : lookup_addr h p ≠ Panic }.

(** [ResolveUDPAddr("udp", a)]; the empty address is not looked up. *)
Definition ResolveUDPAddr `{Resolver} (a : string) : go string :=
  if bool_decide (a = "") then Ok ":0" else '(host, port) ← SplitHostPort a; lookup_addr host port.

(** ** Addresses *)

(** An address of 32 or 128 bits. *)
Record addr := mkAddr { addr6 : bool; addr_val : Z }.

Definition bit_len (a : addr) : Z := if addr6 a then 128 else 32.

(** A field of a dotted address: one to three digits, no leading zero, at most
    255. *)
Definition octet (l : list ascii) : option Z :=
  match l with
  | [] => None
  | c :: t =>
      if forallb is_digit l && (bool_decide (c ≠ "0"%char) || bool_decide (t = [])) &&
         bool_decide (digits_value l <= 255)
      then Some (digits_value l) else None
  end.

(** The fields between dots. *)
Fixpoint split_on (c : ascii) (l : list ascii) : list (list ascii) :=
  match l with
  | [] => [[]]
  | x :: t =>
      if bool_decide (x = c) then [] :: split_on c t
      else match split_on c t with [] => [[x]] | h :: r => (x :: h) :: r end
  end.

Definition parse_ipv4 (l : list ascii) : option Z :=
  match split_on "." l with
  | [a; b; c; d] =>
      a ← octet a; b ← octet b; c ← octet c; d ← octet d;
      Some (((a * 256 + b) * 256 + c) * 256 + d)
  | _ => None
  end.

Definition hex_group (ds : list ascii) : Z := foldl (λ v c, 16 * v + Z.of_N (hex_val c)) 0 ds.

(** The loop of [parseIPv6] with [n] groups of 16 bits left: the groups read, and
    how many of them precede the ellipsis, when there is one. *)
Fixpoint ipv6_groups (n : nat) (ell : option nat) (gs : list Z) (l : list ascii) : option (list Z * option nat) :=
  match n with
  | O => if bool_decide (l = []) then Some (gs, ell) else None
  | S n =>
      let '(ds, k) := span is_hex l in
      if bool_decide (ds = []) || bool_decide (4 < length ds)%nat then None else
      match eat "." k with
      | Some _ =>
          if bool_decide (ell = None) && negb (bool_decide (n = 1%nat)) then None
          else if bool_decide (n = 0%nat) then None
          else v ← parse_ipv4 l; Some (gs ++ [v / 65536; v mod 65536], ell)
      | None =>
          let gs := gs ++ [hex_group ds] in
          if bool_decide (k = []) then Some (gs, ell) else
          k1 ← eat ":" k;
          match eat ":" k1 with
          | Some k' =>
              if bool_decide (is_Some ell) then None
              else if bool_decide (k' = []) then Some (gs, Some (length gs))
              else ipv6_groups n (Some (length gs)) gs k'
          | None => if bool_decide (k1 = []) then None else ipv6_groups n ell gs k1
          end
      end
  end.

Definition groups_val (gs : list Z) : Z := foldl (λ v g, v * 65536 + g) 0 gs.

(** An address without zone: the groups with the ellipsis filled up; an ellipsis
    stands for one group at least. *)
Definition parse_ipv6 (l : list ascii) : option Z :=
  r ← (match eat_all [":"; ":"]%char l with
       | Some [] => Some ([], Some 0%nat)
       | Some k => ipv6_groups 8 (Some 0%nat) [] k
       | None => ipv6_groups 8 None [] l
       end);
  let '(gs, ell) := r in
  match ell with
  | None => if bool_decide (length gs = 8%nat) then Some (groups_val gs) else None
  | Some e =>
      if bool_decide (length gs < 8)%nat
      then Some (groups_val (take e gs ++ replicate (8 - length gs) 0 ++ drop e gs)) else None
  end.

(** [netip.ParseAddr] for an address that must not have a zone: the first dot,
    colon or percent sign decides the family. *)
Fixpoint family (l : list ascii) : option bool :=
  match l with
  | [] => None
  | c :: t =>
      if bool_decide (c = "."%char) then Some false
      else if bool_decide (c = ":"%char) then Some true
      else if bool_decide (c = "%"%char) then None else family t
  end.

Definition ParseAddr (s : string) : option addr :=
  let l := list_ascii_of_string s in
  f ← family l;
  mkAddr f <$> (if f then parse_ipv6 l else parse_ipv4 l).

(** ** Prefixes *)

Record IPNet := mkIPNet { net_addr : addr; net_ones : Z }.

(** [IP.Mask(CIDRMask(n, bits))] *)
Definition mask (a : addr) (n : Z) : addr :=
  mkAddr (addr6 a) (addr_val a / 2 ^ (bit_len a - n) * 2 ^ (bit_len a - n)).

(** [dtoi] on the whole text: at least one digit, below 0xFFFFFF. *)
Definition dtoi (s : string) : option Z :=
  let l := list_ascii_of_string s in
  if bool_decide (l ≠ []) && forallb is_digit l && bool_decide (digits_value l < 16777215)
  then Some (digits_value l) else None.

Definition ParseCIDR (s : string) : go IPNet :=
  match ('(h, m) ← cut "/" s; a ← ParseAddr h; n ← dtoi m;
         if bool_decide (n <= bit_len a) then Some (mkIPNet (mask a n) n) else None) with
  | Some net => Ok net
  | None => Err ("invalid CIDR address: " ++ s)%string
  end.

Definition dotted (v : Z) : string :=
  (pretty (v / 16777216) ++ "." ++ pretty ((v / 65536) mod 256) ++ "." ++ pretty ((v / 256) mod 256) ++ "." ++
   pretty (v mod 256))%string.

Definition group (v : Z) (i : Z) : Z := (v / 65536 ^ (7 - i)) mod 65536.

Definition hex_text_digit (d : Z) : ascii := hex_lower (Z.to_nat d).
(** [appendHex]: without leading zeros. *)
Definition hex_text (g : Z) : string :=
  string_of_list_ascii
    (if 4096 <=? g then hex_text_digit <$> [g / 4096; (g / 256) mod 16; (g / 16) mod 16; g mod 16]
     else if 256 <=? g then hex_text_digit <$> [g / 256; (g / 16) mod 16; g mod 16]
     else if 16 <=? g then hex_text_digit <$> [g / 16; g mod 16] else [hex_text_digit g]).

(** The length of the run of zero groups from group [i]. *)
Fixpoint zero_run (gs : list Z) : nat :=
  match gs with g :: gs => if bool_decide (g = 0) then S (zero_run gs) else O | [] => O end.

(** The first longest run of at least two zero groups: start and length. *)
Fixpoint longest_run (i : nat) (gs : list Z) (best : nat * nat) : nat * nat :=
  match gs with
  | [] => best
  | _ :: t =>
      let n := zero_run gs in
      longest_run (S i) t (if bool_decide (2 ≤ n ∧ best.2 < n)%nat then (i, n) else best)
  end.

Fixpoint join_groups (sep : bool) (gs : list Z) : string :=
  match gs with
  | [] => ""
  | g :: gs => ((if sep then ":" else "") ++ hex_text g ++ join_groups true gs)%string
  end.

Definition ipv6_text (v : Z) : string :=
  let gs := group v <$> [0; 1; 2; 3; 4; 5; 6; 7] in
  let '(i, n) := longest_run 0 gs (0, 0)%nat in
  if bool_decide (n = 0%nat) then join_groups false gs
  else (join_groups false (take i gs) ++ "::" ++ join_groups false (drop (i + n) gs))%string.

(** [IPNet.String]: an address that carries an IPv4 address prints as one. *)
Definition IPNet_String (n : IPNet) : string :=
  let a := net_addr n in
  if addr6 a && negb (bool_decide (addr_val a / 2 ^ 32 = 65535))
  then (ipv6_text (addr_val a) ++ "/" ++ pretty (net_ones n))%string
  else (dotted (addr_val a mod 2 ^ 32) ++ "/" ++ pretty (if addr6 a then net_ones n - 96 else net_ones n)%Z)%string.

Definition show_cidr (s : string) : go string := IPNet_String <$> ParseCIDR s.

Example cidr_samples :
  show_cidr "192.0.2.77/24" = Ok "192.0.2.0/24" ∧ show_cidr "10.0.0.1/32" = Ok "10.0.0.1/32" ∧
  show_cidr "2001:DB8::1:0/112" = Ok "2001:db8::1:0/112" ∧ show_cidr "::/0" = Ok "::/0" ∧
  show_cidr "1:0:0:2::3/128" = Ok "1:0:0:2::3/128" ∧ show_cidr "1:2:3:4:5:6:7:8/64" = Ok "1:2:3:4::/64" ∧
  show_cidr "::ffff:1.2.3.4/120" = Ok "1.2.3.0/24" ∧ show_cidr "64:ff9b::1.2.3.4/96" = Ok "64:ff9b::/96" ∧
  show_cidr "192.0.2.1:51820/32" = Err "invalid CIDR address: 192.0.2.1:51820/32" ∧
  show_cidr "10.0.0.01/8" = Err "invalid CIDR address: 10.0.0.01/8" ∧
  show_cidr "10.0.0.1/33" = Err "invalid CIDR address: 10.0.0.1/33" ∧
  show_cidr "fe80::1%eth0/64" = Err "invalid CIDR address: fe80::1%eth0/64" ∧
  show_cidr "1::2::3/8" = Err "invalid CIDR address: 1::2::3/8".
Proof. vm_compute. repeat split. Qed.

(** ** Shapes of addresses *)

Definition occ (c : ascii) (l : list ascii) : nat := length (filter (λ x, x = c) l).

Lemma occ_app c l1 l2 : occ c (l1 ++ l2) = (occ c l1 + occ c l2)%nat.
Proof. unfold occ. by rewrite filter_app, length_app. Qed.
Lemma occ_cons c x l : occ c (x :: l) = ((if decide (x = c) then 1 else 0) + occ c l)%nat.
Proof. unfold occ. rewrite filter_cons. by case_decide. Qed.
Lemma occ_none c (P : ascii → Prop) l : ¬ P c → Forall P l → occ c l = 0%nat.
Proof.
  intros Hc. induction 1 as [|x l Hx _ IH]; [done|]. rewrite occ_cons, IH. case_decide; [by subst|done].
Qed.

Lemma count_char_occ c s : count_char c s = occ c (list_ascii_of_string s).
Proof. done. Qed.

Lemma cut_Some c s a b : cut c s = Some (a, b) → s = (a ++ String c b)%string ∧ count_char c a = 0%nat.
Proof.
  revert a. induction s as [|x s IH]; intros a; cbn [cut]; [done|]. case_bool_decide as Hx.
  - intros [= <- <-]. by subst.
  - destruct (cut c s) as [[a' b']|]; [|done]. intros [= <- <-]. destruct (IH a' eq_refl) as [-> Ha]. split; [done|].
    rewrite count_char_occ in *. cbn [list_ascii_of_string]. rewrite occ_cons, Ha. by rewrite decide_False.
Qed.

Lemma cut_None c s : cut c s = None → count_char c s = 0%nat.
Proof.
  induction s as [|x s IH]; cbn [cut]; [done|]. case_bool_decide as Hx; [done|].
  destruct (cut c s) as [[]|]; [done|]. intros _. rewrite count_char_occ in *. cbn [list_ascii_of_string].
  by rewrite occ_cons, IH, decide_False.
Qed.

Lemma has_char_false c s : has_char c s = false → count_char c s = 0%nat.
Proof. unfold has_char. intros H%bool_decide_eq_false. apply cut_None. destruct (cut c s); [|done]. by destruct H. Qed.

Lemma cut_last_Some c s a b : cut_last c s = Some (a, b) → s = (a ++ String c b)%string ∧ count_char c b = 0%nat.
Proof.
  assert (∀ s, cut_last c s = None → count_char c s = 0%nat) as Hnone.
  { intros s'. induction s' as [|x s' IH]; cbn [cut_last]; [done|]. destruct (cut_last c s') as [[]|]; [done|].
    case_bool_decide as Hx; [done|]. intros _. rewrite count_char_occ in *. cbn [list_ascii_of_string].
    by rewrite occ_cons, IH, decide_False. }
  revert a. induction s as [|x s IH]; intros a; cbn [cut_last]; [done|].
  destruct (cut_last c s) as [[a' b']|] eqn:E.
  - intros [= <- <-]. destruct (IH a' eq_refl) as [-> ?]. done.
  - case_bool_decide; [|done]. intros [= <- <-]. subst. split; [done|]. by apply Hnone.
Qed.

(** A host and a port come from a bracketed address or from one with a single
    colon. *)
Lemma SplitHostPort_form a hp : SplitHostPort a = Ok hp → (0 < count_char "[" a)%nat ∨ count_char ":" a = 1%nat.
Proof.
  unfold SplitHostPort. destruct (cut_last ":" a) as [[before port]|] eqn:E; [|done].
  destruct (after_char "[" a) as [rest|] eqn:Ea.
  - intros _. left. destruct a as [|x a]; [done|]. cbn in Ea. case_bool_decide; [|done]. subst.
    rewrite count_char_occ. cbn [list_ascii_of_string]. rewrite occ_cons, decide_True by done. lia.
  - destruct (has_char ":" before) eqn:Hb; [done|]. intros _. right.
    apply cut_last_Some in E as [-> Hp]. apply has_char_false in Hb. rewrite count_char_occ in *.
    rewrite list_ascii_of_string_app, occ_app, Hb. cbn [list_ascii_of_string].
    rewrite occ_cons, Hp, decide_True by done. done.
Qed.

Lemma SplitHostPort_no_panic a : SplitHostPort a ≠ Panic.
Proof. unfold SplitHostPort, addr_error. repeat case_match; done. Qed.

Lemma resolve_form `{Resolver} a r :
  a ≠ "" → ResolveUDPAddr a = Ok r → (0 < count_char "[" a)%nat ∨ count_char ":" a = 1%nat.
Proof.
  intros Ha. unfold ResolveUDPAddr. rewrite bool_decide_false by done.
  destruct (SplitHostPort a) as [hp|e|] eqn:E; [|done..]. intros _. by eapply SplitHostPort_form.
Qed.

Lemma resolve_no_panic `{ResolverLaws} a : ResolveUDPAddr a ≠ Panic.
Proof.
  unfold ResolveUDPAddr. case_bool_decide; [done|]. pose proof (SplitHostPort_no_panic a).
  destruct (SplitHostPort a) as [[h p]|e|]; [|done..]. apply lookup_no_panic.
Qed.

(** The characters of an address. *)
Definition addr_char (c : ascii) : Prop := is_hex c = true ∨ c = "."%char ∨ c = ":"%char.

Lemma digit_hex c : is_digit c = true → is_hex c = true.
Proof. unfold is_hex. by intros ->. Qed.

Lemma split_on_Forall (P : ascii → Prop) c l : Forall (Forall P) (split_on c l) → Forall (λ x, P x ∨ x = c) l.
Proof.
  induction l as [|x l IH]; cbn [split_on]; [constructor|]. case_bool_decide as Hx.
  - intros [_ Hl]%Forall_cons. constructor; [by right|by apply IH].
  - destruct (split_on c l) as [|h r]; intros [Hh Hr]%Forall_cons; apply Forall_cons in Hh as [Hx' Hh];
      (constructor; [by left|]); apply IH; by constructor.
Qed.

Lemma octet_digits l v : octet l = Some v → Forall (λ c, is_digit c = true) l.
Proof.
  unfold octet. destruct l as [|c l]; [done|]. destruct (forallb is_digit (c :: l)) eqn:E; [|done]. intros _.
  apply Forall_forall. intros x Hx. rewrite forallb_forall in E. by apply E, list_elem_of_In.
Qed.

Lemma parse_ipv4_chars l v : parse_ipv4 l = Some v → Forall (λ c, is_digit c = true ∨ c = "."%char) l.
Proof.
  unfold parse_ipv4. intros E. apply split_on_Forall. revert E.
  destruct (split_on "." l) as [|a [|b [|c [|d [|]]]]]; try done.
  destruct (octet a) eqn:Ea; [|done]. destruct (octet b) eqn:Eb; [|done]. destruct (octet c) eqn:Ec; [|done].
  destruct (octet d) eqn:Ed; [|done]. intros _. repeat constructor; by eapply octet_digits.
Qed.

Lemma ipv4_addr_char c : is_digit c = true ∨ c = "."%char → addr_char c ∧ c ≠ ":"%char.
Proof.
  intros [Hc| ->]; [|by split; [right; left|]]. split; [left; by apply digit_hex|by intros ->].
Qed.

Lemma hex_not_colon : is_hex ":"%char = false. Proof. done. Qed.

(** What the loop of the IPv6 parser consumed: only address characters, two
    colons for an ellipsis, and a colon between groups otherwise. *)
Lemma ipv6_groups_shape n ell gs l gs' ell' :
  ipv6_groups n ell gs l = Some (gs', ell') → (length gs + n = 8)%nat →
  Forall addr_char l ∧ (ell = None → is_Some ell' → 2 ≤ occ ":" l)%nat ∧
  (is_Some ell → is_Some ell') ∧ (ell' = None → length gs' = 8 → n ≤ occ ":" l + 2)%nat.
Proof.
  revert ell gs l. induction n as [|n IH]; intros ell gs l; cbn [ipv6_groups].
  { case_bool_decide; [|done]. intros [= <- <-] Hl. subst. split_and!; [constructor|by intros -> [? ?]|done|lia]. }
  pose proof (span_spec is_hex l) as [El Hds]. destruct (span is_hex l) as [ds k]. cbn [fst snd] in El, Hds.
  assert (Forall addr_char ds) as Hds' by (rewrite Forall_forall in Hds; apply Forall_forall; intros c Hc; left; by apply Hds).
  assert (occ ":" ds = 0%nat) as Hocc by (by apply (occ_none ":" (λ c, is_hex c = true))).
  destruct (bool_decide (ds = []) || _); [done|]. destruct (eat "." k) as [k0|] eqn:Ek.
  { destruct (bool_decide (ell = None) && _) eqn:E1; [done|].
    destruct (bool_decide (n = 0%nat)) eqn:E2; [done|]. apply bool_decide_eq_false in E2.
    destruct (parse_ipv4 l) as [v|] eqn:Ev; [|done]. cbn [mbind option_bind]. intros [= <- <-] Hl.
    apply parse_ipv4_chars in Ev. split_and!.
    - rewrite Forall_forall in Ev. apply Forall_forall. intros c Hc. by apply ipv4_addr_char, Ev.
    - intros -> [? ?]; done.
    - done.
    - intros -> Hg. rewrite (bool_decide_true (None = None)) in E1 by done. apply negb_false_iff, bool_decide_eq_true in E1. lia. }
  case_bool_decide as Hk.
  { intros [= <- <-] Hl. subst k. rewrite app_nil_r in El. subst l. split_and!; [done|by intros -> [? ?]|done|].
    intros -> Hg. rewrite length_app in Hg. cbn in Hg. lia. }
  destruct (eat ":" k) as [k1|] eqn:Ek1; [|done]. apply eat_Some in Ek1 as ->. cbn [mbind option_bind].
  assert (addr_char ":"%char) as Hcol by (right; by right).
  assert (occ ":" (ds ++ ":"%char :: k1) = S (occ ":" k1)) as Hl1 by (rewrite occ_app, occ_cons, decide_True by done; lia).
  destruct (eat ":" k1) as [k'|] eqn:Ek2.
  - apply eat_Some in Ek2 as ->. case_bool_decide as He; [done|].
    assert (ell = None) as -> by (by destruct ell; [destruct He|]).
    rewrite occ_cons, decide_True in Hl1 by done.
    case_bool_decide as Hk'.
    + intros [= <- <-] Hl. subst k' l. split_and!; [|lia|done|done].
      apply Forall_app. split; [done|]. by repeat constructor.
    + intros E Hl. apply IH in E as (Hc & _ & Hs & _); [|rewrite length_app; cbn; lia]. subst l. split_and!; [|lia|by intros []|].
      * apply Forall_app. split; [done|]. by repeat constructor.
      * intros -> _. destruct Hs as [? ?]; [eauto|done].
  - case_bool_decide; [done|]. intros E Hl. apply IH in E as (Hc & H1 & Hs & H2); [|rewrite length_app; cbn; lia].
    subst l. rewrite Hl1. split_and!; [| |done|].
    + apply Forall_app. split; [done|]. by constructor.
    + intros He Hs'. specialize (H1 He Hs'). lia.
    + intros He Hg. specialize (H2 He Hg). lia.
Qed.

Lemma parse_ipv6_shape l v : parse_ipv6 l = Some v → Forall addr_char l ∧ (2 ≤ occ ":" l)%nat.
Proof.
  unfold parse_ipv6. assert (addr_char ":"%char) as Hcol by (right; by right).
  destruct (eat_all [":"; ":"]%char l) as [k|] eqn:E.
  - apply eat_all_Some in E as ->. cbn [app]. rewrite !occ_cons, !decide_True by done. destruct k as [|c k].
    + intros _. split; [by repeat constructor|lia].
    + destruct (ipv6_groups _ _ _ _) as [[gs ell]|] eqn:E; [|done]. intros _.
      apply ipv6_groups_shape in E as (Hc & _); [|done]. split; [by repeat (constructor; [done|])|lia].
  - destruct (ipv6_groups _ _ _ _) as [[gs ell]|] eqn:E'; [|done]. cbn [mbind option_bind].
    apply ipv6_groups_shape in E' as (Hc & H1 & _ & H2); [|done]. intros Hv. split; [done|]. destruct ell as [e|].
    + apply H1; eauto.
    + case_bool_decide as Hg; [|done]. specialize (H2 eq_refl Hg). lia.
Qed.

Lemma ParseAddr_shape s a :
  ParseAddr s = Some a → Forall addr_char (list_ascii_of_string s) ∧ count_char ":" s ≠ 1%nat ∧ s ≠ "".
Proof.
  unfold ParseAddr. rewrite count_char_occ. set (l := list_ascii_of_string s).
  destruct (family l) as [f|] eqn:Ef; [|done]. cbn [mbind option_bind].
  assert (s ≠ "") as Hs by (by intros ->).
  destruct f; intros (v & Hv & _)%fmap_Some.
  - apply parse_ipv6_shape in Hv as [Hc Ho]. split_and!; [done|lia|done].
  - apply parse_ipv4_chars in Hv. split_and!; [| |done].
    + rewrite Forall_forall in Hv. apply Forall_forall. intros c Hc. by apply ipv4_addr_char, Hv.
    + rewrite (occ_none ":" (λ c, is_digit c = true ∨ c = "."%char)); [lia| |done]. by intros [?|?].
Qed.

Lemma ParseCIDR_Ok s n :
  ParseCIDR s = Ok n → ∃ h m a k, s = (h ++ "/" ++ m)%string ∧ count_char "/" h = 0%nat ∧ ParseAddr h = Some a ∧
    dtoi m = Some k ∧ k <= bit_len a ∧ n = mkIPNet (mask a k) k.
Proof.
  unfold ParseCIDR. destruct (cut "/" s) as [[h m]|] eqn:E; [|done]. cbn [mbind option_bind].
  destruct (ParseAddr h) as [a|] eqn:Ea; [|done]. cbn [mbind option_bind].
  destruct (dtoi m) as [k|] eqn:Em; [|done]. cbn [mbind option_bind]. case_bool_decide as Hk; [|done].
  intros [= <-]. apply cut_Some in E as [-> Hh]. by exists h, m, a, k.
Qed.

(** A CIDR address is an address without brackets, with no colon or several, a
    slash and digits. *)
Lemma cidr_form s r : ParseCIDR s = Ok r →
  ∃ h m, s = (h ++ "/" ++ m)%string ∧ h ≠ "" ∧ count_char "/" h = 0%nat ∧ count_char "[" h = 0%nat ∧
         count_char ":" h ≠ 1%nat ∧ Forall (λ c, is_digit c = true) (list_ascii_of_string m).
Proof.
  intros (h & m & a & k & -> & Hs & Ha & Hm & _)%ParseCIDR_Ok. apply ParseAddr_shape in Ha as (Hc & Ho & Hne).
  exists h, m. split_and!; try done.
  - rewrite count_char_occ. apply (occ_none "[" addr_char); [|done]. by intros [?|[?|?]].
  - unfold dtoi in Hm. destruct (forallb is_digit _) eqn:E; [|by rewrite andb_false_r in Hm].
    apply Forall_forall. intros x Hx. rewrite forallb_forall in E. by apply E, list_elem_of_In.
Qed.

Lemma cidr_no_panic s : ParseCIDR s ≠ Panic.
Proof. unfold ParseCIDR. by case_match. Qed.
