(* ===== verification/SimPool.v ===== *)
(** * The SIM pool (camo-simpool/sim.go, camo-simpool/pool.go)

    The data of a SIM card, the pool with its two maps, and every operation on
    them.  The pool owns each [*SIM] through exactly one map key, so a pointer
    is represented by the key it is stored under, and writing through the
    pointer is updating the map at that key. *)

From stdpp Require Import base option list gmap strings fin_maps.
From Stdlib Require Import ZArith Lia.
From S2P Require Import Prelude.

(** ** Data *)

Inductive SIMState := SIMActive | SIMDormant | SIMUnavailable.

#[export] Instance SIMState_eq_dec : EqDecision SIMState.
Proof. solve_decision. Defined.

Definition SIMState_String (s : SIMState) : string :=
  match s with
  | SIMActive => "active"
  | SIMDormant => "dormant"
  | SIMUnavailable => "unavailable"
  end.

Record SIM := mkSIM {
  IMSI : string;
  Carrier : string;
  Jurisdiction : string;
  APN : string;
  State : SIMState;
  LastHealthCheck : Z;
  LastActive : Z;
  FailCount : Z;
  CurrentSession : string
}.

#[export] Instance SIM_eq_dec : EqDecision SIM.
Proof. solve_decision. Defined.

Definition set_State (st : SIMState) (s : SIM) : SIM :=
  mkSIM (IMSI s) (Carrier s) (Jurisdiction s) (APN s) st
    (LastHealthCheck s) (LastActive s) (FailCount s) (CurrentSession s).
Definition set_LastHealthCheck (t : Z) (s : SIM) : SIM :=
  mkSIM (IMSI s) (Carrier s) (Jurisdiction s) (APN s) (State s)
    t (LastActive s) (FailCount s) (CurrentSession s).
Definition set_LastActive (t : Z) (s : SIM) : SIM :=
  mkSIM (IMSI s) (Carrier s) (Jurisdiction s) (APN s) (State s)
    (LastHealthCheck s) t (FailCount s) (CurrentSession s).
Definition set_FailCount (n : Z) (s : SIM) : SIM :=
  mkSIM (IMSI s) (Carrier s) (Jurisdiction s) (APN s) (State s)
    (LastHealthCheck s) (LastActive s) n (CurrentSession s).
Definition set_CurrentSession (tok : string) (s : SIM) : SIM :=
  mkSIM (IMSI s) (Carrier s) (Jurisdiction s) (APN s) (State s)
    (LastHealthCheck s) (LastActive s) (FailCount s) tok.

Definition is_state (st : SIMState) (s : SIM) : bool := bool_decide (State s = st).

Definition isAvailable (s : SIM) : bool :=
  bool_decide (State s = SIMActive) && bool_decide (CurrentSession s = "").

Definition isDormantCandidate (s : SIM) : bool := bool_decide (State s = SIMDormant).

Definition isRetirementCandidate (lastRotationTime : Z) (s : SIM) : bool :=
  if negb (bool_decide (State s = SIMActive)) then false
  else if negb (bool_decide (CurrentSession s = "")) then false
  else if time_After (LastActive s) lastRotationTime then false
  else true.

Record pool := mkPool {
  sims : gmap string SIM;
  lastRotation : Z;
  sessions : gmap string string
}.

Definition set_sims (m : gmap string SIM) (p : pool) : pool :=
  mkPool m (lastRotation p) (sessions p).

(** ** Operations *)

Definition newPool (now : Z) : pool := mkPool ∅ now ∅.

Definition add (sim : SIM) (p : pool) : pool :=
  set_sims (<[IMSI sim := set_State SIMDormant sim]> (sims p)) p.

Definition errNoAvailableSIM : string := "no available SIM in active subset".
Definition errSessionNotFound : string := "session not found".
Definition errSIMNotFound : string := "SIM not found".

(** [draw] is [rand.Int(rand.Reader, max)]: a number below [max] or an error. *)
Definition randomInt (draw : Z → go Z) (n : Z) : go Z :=
  if bool_decide (n ≤ 0)%Z then Err "n must be positive" else draw n.

Definition allocate (it : list string) (draw : Z → go Z) (now : Z) (tok : string) (p : pool)
    : go string * pool :=
  let candidates := select_keys isAvailable (sims p) it in
  if bool_decide (length candidates = 0) then (Err errNoAvailableSIM, p)
  else match randomInt draw (Z.of_nat (length candidates)) with
  | Err e => (Err e, p)
  | Panic => (Panic, p)
  | Ok idx =>
      match (if bool_decide (0 ≤ idx)%Z then candidates !! Z.to_nat idx else None) with
      | None => (Panic, p)
      | Some k =>
          match sims p !! k with
          | None => (Panic, p)
          | Some chosen =>
              (Ok (IMSI chosen),
               mkPool (<[k := set_LastActive now (set_CurrentSession tok chosen)]> (sims p))
                 (lastRotation p)
                 (<[tok := IMSI chosen]> (sessions p)))
          end
      end
  end.

Definition release (tok : string) (p : pool) : go unit * pool :=
  match sessions p !! tok with
  | None => (Err errSessionNotFound, p)
  | Some imsi =>
      let p' := mkPool (sims p) (lastRotation p) (delete tok (sessions p)) in
      match sims p' !! imsi with
      | None => (Err errSIMNotFound, p')
      | Some sim => (Ok (), set_sims (<[imsi := set_CurrentSession "" sim]> (sims p')) p')
      end
  end.

(** The body of the loop of [stats] on the three named results. *)
Definition stats_step (acc : nat * nat * nat) (sim : SIM) : nat * nat * nat :=
  let '(total, active, available) := acc in
  if bool_decide (State sim = SIMActive) then
    if bool_decide (CurrentSession sim = "") then (S total, S active, S available)
    else (S total, S active, available)
  else (S total, active, available).

Definition stats (it : list string) (p : pool) : nat * nat * nat :=
  foldl stats_step (0, 0, 0) (range_values (sims p) it).

Definition markUnavailable (imsi : string) (p : pool) : pool :=
  match sims p !! imsi with
  | Some sim =>
      set_sims (<[imsi := set_FailCount (wrap64 (FailCount sim + 1))
                            (set_State SIMUnavailable sim)]> (sims p)) p
  | None => p
  end.

Definition markDormant (imsi : string) (p : pool) : pool :=
  match sims p !! imsi with
  | Some sim => set_sims (<[imsi := set_FailCount 0 (set_State SIMDormant sim)]> (sims p)) p
  | None => p
  end.

Definition activeSIMs (it : list string) (p : pool) : list string :=
  select_keys (is_state SIMActive) (sims p) it.

(** The pointers of all SIMs, each as its key. *)
Definition allSIMs (it : list string) (p : pool) : list string :=
  select_keys (λ _, true) (sims p) it.

(** ** Well-formed pools *)

(** Each SIM is stored under its own IMSI. *)
Definition keyed (p : pool) : Prop := ∀ k s, sims p !! k = Some s → IMSI s = k.

(** Sessions and busy SIMs name each other. *)
Definition linked (p : pool) : Prop :=
  (∀ tok imsi, sessions p !! tok = Some imsi →
     tok ≠ "" ∧ ∃ s, sims p !! imsi = Some s ∧ CurrentSession s = tok) ∧
  (∀ k s, sims p !! k = Some s → CurrentSession s ≠ "" →
     sessions p !! CurrentSession s = Some k).

Definition wf (p : pool) : Prop := keyed p ∧ linked p.

(** What [rand.Int] documents: a value in the half-open range. *)
Definition draw_ok (draw : Z → go Z) : Prop :=
  ∀ n, (0 < n)%Z → draw n ≠ Panic ∧ ∀ v, draw n = Ok v → (0 ≤ v < n)%Z.

(** ** Lemmas *)

(** What the links between sessions and SIMs can see of a SIM. *)
Definition ident (s : SIM) : string * string := (IMSI s, CurrentSession s).

Lemma ident_lookup (m m' : gmap string SIM) k s :
  ident <$> m = ident <$> m' → m' !! k = Some s →
  ∃ s0, m !! k = Some s0 ∧ IMSI s0 = IMSI s ∧ CurrentSession s0 = CurrentSession s.
Proof.
  intros Hm Hk. assert ((ident <$> m) !! k = Some (ident s)) as Hi.
  { by rewrite Hm, lookup_fmap, Hk. }
  rewrite lookup_fmap in Hi. destruct (m !! k) as [s0|]; [|done].
  exists s0. unfold ident in Hi. by simplify_eq/=.
Qed.

(** Well-formedness depends only on who is in the pool and who is busy. *)
Lemma wf_ident p p' :
  ident <$> sims p = ident <$> sims p' → sessions p' = sessions p → wf p → wf p'.
Proof.
  intros Hi Hs [Hk [Hl1 Hl2]]. split; [|split]; rewrite ?Hs.
  - intros k s Hks. destruct (ident_lookup _ _ _ _ Hi Hks) as (s0 & H0 & <- & _). eauto.
  - intros tok imsi Ht. destruct (Hl1 _ _ Ht) as [Hne (s0 & Hs0 & Hc)]. split; [done|].
    destruct (ident_lookup _ _ _ _ (eq_sym Hi) Hs0) as (s & H0 & _ & Hc'). exists s. by rewrite Hc'.
  - intros k s Hks Hne. destruct (ident_lookup _ _ _ _ Hi Hks) as (s0 & H0 & _ & Hc).
    rewrite <-Hc in *. eauto.
Qed.

Lemma ident_insert (m : gmap string SIM) k s s' :
  m !! k = Some s → ident s' = ident s → ident <$> m = ident <$> <[k:=s']> m.
Proof.
  intros Hk Hi. rewrite fmap_insert, Hi. symmetry. apply insert_id.
  by rewrite lookup_fmap, Hk.
Qed.

Lemma isAvailable_true s : isAvailable s = true ↔ State s = SIMActive ∧ CurrentSession s = "".
Proof. unfold isAvailable. by rewrite andb_true_iff, !bool_decide_eq_true. Qed.

Lemma isRetirementCandidate_true t s :
  isRetirementCandidate t s = true ↔
    State s = SIMActive ∧ CurrentSession s = "" ∧ (LastActive s ≤ t)%Z.
Proof.
  unfold isRetirementCandidate, time_After.
  repeat case_bool_decide; simpl; split; intuition (try discriminate; try lia).
Qed.

(** The only successful path of [allocate]. *)
Lemma allocate_Ok it draw now tok p imsi p' :
  allocate it draw now tok p = (Ok imsi, p') →
  ∃ k s, k ∈ it ∧ sims p !! k = Some s ∧ isAvailable s = true ∧ imsi = IMSI s ∧
    p' = mkPool (<[k := set_LastActive now (set_CurrentSession tok s)]> (sims p))
           (lastRotation p) (<[tok := IMSI s]> (sessions p)).
Proof.
  unfold allocate. intros H. case_bool_decide; [by simplify_eq|].
  destruct (randomInt _ _) as [idx| |]; [|by simplify_eq..].
  destruct (if bool_decide _ then _ else None) as [k|] eqn:Ek; [|by simplify_eq].
  case_bool_decide; [|done]. apply list_elem_of_lookup_2, elem_of_select_keys in Ek.
  destruct Ek as (Hk & s & Hs & Ha). rewrite Hs in H. simplify_eq. eauto 10.
Qed.

(** With a SIM available and a working random source, [allocate] returns. *)
Lemma allocate_total it draw now tok p :
  range_of (sims p) it → draw_ok draw → (∀ n, (0 < n)%Z → ∃ v, draw n = Ok v) →
  count_values isAvailable (sims p) ≠ 0 → ∃ imsi p', allocate it draw now tok p = (Ok imsi, p').
Proof.
  intros Hit Hd Hv Hc. unfold allocate.
  rewrite <-(length_select_keys _ _ it Hit) in Hc.
  set (cs := select_keys isAvailable (sims p) it) in *.
  rewrite bool_decide_eq_false_2 by done.
  unfold randomInt. rewrite bool_decide_eq_false_2 by lia.
  destruct (Hv (Z.of_nat (length cs))) as [v Ev]; [lia|]. rewrite Ev.
  destruct (Hd (Z.of_nat (length cs))) as [_ Hr]; [lia|]. specialize (Hr _ Ev).
  rewrite bool_decide_eq_true_2 by lia.
  destruct (lookup_lt_is_Some_2 cs (Z.to_nat v)) as [k Ek]; [lia|]. rewrite Ek.
  apply list_elem_of_lookup_2, elem_of_select_keys in Ek as (_ & s & -> & _). eauto.
Qed.

Lemma allocate_wf it draw now tok p imsi p' :
  wf p → tok ≠ "" → sessions p !! tok = None →
  allocate it draw now tok p = (Ok imsi, p') → wf p'.
Proof.
  intros [Hk [Hl1 Hl2]] Hne Hfresh H.
  apply allocate_Ok in H as (k & s & _ & Hs & Ha & -> & ->).
  apply isAvailable_true in Ha as [_ Hidle]. rewrite (Hk _ _ Hs).
  split; [|split]; simpl.
  - intros k' s'. simpl. rewrite lookup_insert. case_decide; [|apply Hk].
    intros [= <-]. subst. exact (Hk _ _ Hs).
  - intros tok' imsi'. simpl. rewrite lookup_insert. case_decide.
    + intros [= <-]. subst. split; [done|]. eexists. by split; [apply lookup_insert_eq|].
    + intros Ht. destruct (Hl1 _ _ Ht) as [? (s0 & Hs0 & Hc)]. split; [done|].
      exists s0. rewrite lookup_insert_ne; [done|]. intros ->. by simplify_eq.
  - intros k' s'. simpl. rewrite lookup_insert. case_decide.
    + intros [= <-] _. subst. simpl. by rewrite lookup_insert_eq.
    + intros Hs' Hne'. pose proof (Hl2 _ _ Hs' Hne').
      rewrite lookup_insert_ne; [done|]. intros ->. by simplify_eq.
Qed.

Lemma release_wf tok p r p' : wf p → release tok p = (r, p') → wf p'.
Proof.
  intros [Hk [Hl1 Hl2]]. unfold release. destruct (sessions p !! tok) as [imsi|] eqn:Et; simpl.
  2:{ intros [= <- <-]. exact (conj Hk (conj Hl1 Hl2)). }
  destruct (Hl1 _ _ Et) as [Hne (s & Hs & Hc)]. rewrite Hs. intros [= <- <-].
  split; [|split]; simpl.
  - intros k' s'. simpl. rewrite lookup_insert. case_decide; [|apply Hk]. intros [= <-]. subst. exact (Hk _ _ Hs).
  - intros tok' imsi'. simpl. intros [Htt Ht]%lookup_delete_Some. destruct (Hl1 _ _ Ht) as [? (s0 & Hs0 & Hc0)].
    split; [done|]. exists s0. rewrite lookup_insert_ne; [done|]. intros ->. by simplify_eq.
  - intros k' s'. simpl. rewrite lookup_insert. case_decide; [by intros [= <-]|].
    intros Hs' Hne'. pose proof (Hl2 _ _ Hs' Hne').
    rewrite lookup_delete_ne; [done|]. intros ->. congruence.
Qed.

Lemma markUnavailable_ident imsi p :
  ident <$> sims p = ident <$> sims (markUnavailable imsi p) ∧
  sessions (markUnavailable imsi p) = sessions p.
Proof. unfold markUnavailable. case_match; [|done]. split; [|done]. by eapply ident_insert. Qed.

Lemma markDormant_ident imsi p :
  ident <$> sims p = ident <$> sims (markDormant imsi p) ∧
  sessions (markDormant imsi p) = sessions p.
Proof. unfold markDormant. case_match; [|done]. split; [|done]. by eapply ident_insert. Qed.

Lemma release_Some tok p imsi s :
  sessions p !! tok = Some imsi → sims p !! imsi = Some s →
  release tok p = (Ok (), mkPool (<[imsi := set_CurrentSession "" s]> (sims p))
                            (lastRotation p) (delete tok (sessions p))).
Proof. intros Ht Hs. unfold release. rewrite Ht. simpl. by rewrite Hs. Qed.

(** ** Statistics *)

Lemma stats_step_eq t a v s :
  stats_step (t, a, v) s =
  (S t, a + Nat.b2n (is_state SIMActive s), v + Nat.b2n (isAvailable s)).
Proof.
  unfold stats_step, is_state, isAvailable. repeat case_bool_decide; simpl;
    (apply (f_equal2 pair); [apply (f_equal2 pair); lia|lia]).
Qed.

Lemma stats_foldl l t a v :
  foldl stats_step (t, a, v) l =
  (t + length l, a + length (filter (λ s, is_state SIMActive s = true) l),
   v + length (filter (λ s, isAvailable s = true) l)).
Proof.
  revert t a v. induction l as [|s l IH]; intros t a v; cbn [foldl].
  { simpl. by rewrite !Nat.add_0_r. }
  rewrite stats_step_eq, IH, !filter_cons.
  destruct (is_state SIMActive s), (isAvailable s); simpl;
    (apply (f_equal2 pair); [apply (f_equal2 pair); lia|lia]).
Qed.

Lemma stats_counts it p :
  range_of (sims p) it →
  stats it p = (size (sims p), count_values (is_state SIMActive) (sims p),
                count_values isAvailable (sims p)).
Proof.
  intros Hit. unfold stats, count_values. rewrite stats_foldl. simpl.
  rewrite (range_values_perm _ _ Hit), length_fmap, length_map_to_list. done.
Qed.

(** ** Properties of the pool *)

(** A small pool for the witnesses: two idle active SIMs and a dormant one. *)
Definition demo_sim (imsi : string) (st : SIMState) : SIM :=
  mkSIM imsi "carrier" "NL" "apn" st 0 0 0 "".
Definition demo_pool : pool :=
  mkPool (<["a" := demo_sim "a" SIMActive]> (<["b" := demo_sim "b" SIMActive]>
         (<["c" := demo_sim "c" SIMDormant]> ∅))) 0 ∅.
Definition demo_draw (n : Z) : go Z := Ok 0%Z.

Lemma demo_draw_ok : draw_ok demo_draw.
Proof. intros n Hn. split; [done|]. intros v [= <-]. lia. Qed.

Lemma demo_pool_keyed : keyed demo_pool.
Proof.
  intros k s. unfold demo_pool. simpl.
  intros [[<- <-]|[_ [[<- <-]|[_ [[<- <-]|[_ H]]%lookup_insert_Some]]%lookup_insert_Some]]%lookup_insert_Some;
    [done..|by rewrite lookup_empty in H].
Qed.

Lemma demo_pool_idle k s : sims demo_pool !! k = Some s → CurrentSession s = "".
Proof.
  unfold demo_pool. simpl.
  intros [[<- <-]|[_ [[<- <-]|[_ [[<- <-]|[_ H]]%lookup_insert_Some]]%lookup_insert_Some]]%lookup_insert_Some;
    [done..|by rewrite lookup_empty in H].
Qed.

Lemma demo_pool_wf : wf demo_pool.
Proof.
  split; [apply demo_pool_keyed|split].
  - intros tok imsi. simpl. by rewrite lookup_empty.
  - intros k s Hk Hne. by apply demo_pool_idle in Hk.
Qed.

(** C32: a successful [allocate] hands out a SIM that was active and idle, marks
    it busy with the given token at the given time, records the session, and
    changes nothing else. *)
Theorem allocate_sound it draw now tok p imsi p' :
  keyed p → allocate it draw now tok p = (Ok imsi, p') →
  ∃ s, sims p !! imsi = Some s ∧ State s = SIMActive ∧ CurrentSession s = "" ∧
    sims p' = <[imsi := set_LastActive now (set_CurrentSession tok s)]> (sims p) ∧
    sessions p' = <[tok := imsi]> (sessions p) ∧ lastRotation p' = lastRotation p.
Proof.
  intros Hk H. apply allocate_Ok in H as (k & s & _ & Hs & Ha & -> & ->).
  apply isAvailable_true in Ha as [Ha Hi]. rewrite (Hk _ _ Hs). by exists s.
Qed.

Lemma allocate_sound_witness :
  ∃ s, sims demo_pool !! "a" = Some s ∧ State s = SIMActive ∧ CurrentSession s = "" ∧
    sims (allocate ["a"; "c"; "b"] demo_draw 7 "tok" demo_pool).2
      = <["a" := set_LastActive 7 (set_CurrentSession "tok" s)]> (sims demo_pool) ∧
    sessions (allocate ["a"; "c"; "b"] demo_draw 7 "tok" demo_pool).2 = <["tok" := "a"]> ∅ ∧
    lastRotation (allocate ["a"; "c"; "b"] demo_draw 7 "tok" demo_pool).2 = 0%Z.
Proof.
  apply (allocate_sound ["a"; "c"; "b"] demo_draw 7 "tok" demo_pool "a"
           (allocate ["a"; "c"; "b"] demo_draw 7 "tok" demo_pool).2 demo_pool_keyed).
  vm_compute. reflexivity.
Defined.

(** [allocate] succeeds exactly when [stats] reports an available SIM, for
    every order in which the two loops visit the pool. *)
Theorem allocate_iff_available it it' draw now tok p :
  range_of (sims p) it → range_of (sims p) it' →
  draw_ok draw → (∀ n, (0 < n)%Z → ∃ v, draw n = Ok v) →
  is_ok (allocate it draw now tok p).1 = true ↔ 0 < (stats it' p).2.
Proof.
  intros Hit Hit' Hd Hv. rewrite (stats_counts _ _ Hit'). simpl.
  destruct (decide (count_values isAvailable (sims p) = 0)) as [H0|H0].
  - rewrite H0. unfold allocate. rewrite (length_select_keys _ _ _ Hit), H0. simpl. split; [done|lia].
  - destruct (allocate_total it draw now tok p) as (imsi & p' & E); [done..|].
    rewrite E. simpl. split; [lia|done].
Qed.

Lemma allocate_iff_available_witness :
  is_ok (allocate (keys (sims demo_pool)) demo_draw 7 "tok" demo_pool).1 = true ↔
  0 < (stats (keys (sims demo_pool)) demo_pool).2.
Proof.
  apply (allocate_iff_available _ _ demo_draw 7 "tok" demo_pool
           (range_of_keys _) (range_of_keys _) demo_draw_ok).
  intros n Hn. by exists 0%Z.
Defined.

(** [stats] counts the pool: the total is the number of SIMs, the active
    ones are among them and the available ones among the active, whatever the
    order of the loop. *)
Theorem stats_exact it p :
  range_of (sims p) it →
  stats it p = (size (sims p), count_values (is_state SIMActive) (sims p),
                count_values isAvailable (sims p)) ∧
  (stats it p).2 ≤ (stats it p).1.2 ≤ (stats it p).1.1.
Proof.
  intros Hit. rewrite (stats_counts _ _ Hit). simpl. split; [done|split].
  - apply count_values_mono. intros s [Ha _]%isAvailable_true.
    unfold is_state. by apply bool_decide_eq_true.
  - rewrite <-count_values_true. by apply count_values_mono.
Qed.

Lemma stats_exact_witness : stats (keys (sims demo_pool)) demo_pool = (3, 2, 2).
Proof.
  destruct (stats_exact (keys (sims demo_pool)) demo_pool (range_of_keys _)) as [H _].
  rewrite H. vm_compute. reflexivity.
Defined.

(** Releasing the session that was just allocated gives the SIM back: the
    sessions are as before, and the SIMs differ only in the time of last use of
    the SIM that served the session. *)
Theorem allocate_release it draw now tok p imsi p' :
  wf p → sessions p !! tok = None → allocate it draw now tok p = (Ok imsi, p') →
  release tok p' =
    (Ok (), mkPool (alter (set_LastActive now) imsi (sims p)) (lastRotation p) (sessions p)).
Proof.
  intros [Hk _] Hfresh H. apply allocate_Ok in H as (k & s & _ & Hs & Ha & -> & ->).
  apply isAvailable_true in Ha as [_ Hi]. rewrite (Hk _ _ Hs).
  erewrite release_Some; simpl; [|apply lookup_insert_eq..].
  rewrite delete_insert_id by done. rewrite insert_insert_eq.
  do 2 f_equal. apply map_eq. intros j. rewrite lookup_insert, lookup_alter.
  case_decide; [|done]. subst. rewrite Hs. simpl. f_equal.
  destruct s; simpl in *. by rewrite Hi.
Qed.

Lemma allocate_release_witness :
  release "tok" (allocate ["b"; "a"; "c"] demo_draw 7 "tok" demo_pool).2 =
    (Ok (), mkPool (alter (set_LastActive 7) "b" (sims demo_pool)) 0 ∅).
Proof.
  apply (allocate_release ["b"; "a"; "c"] demo_draw 7 "tok" demo_pool "b" _ demo_pool_wf);
    vm_compute; reflexivity.
Defined.

(** Allocating twice with one token leaks a SIM: after the session is
    released, the SIM of the first allocation still carries the token, the
    token is no longer a session, and releasing it again fails without freeing
    the SIM. *)
Theorem allocate_twice_leaks it it' draw draw' now now' tok p imsi p1 imsi' p2 :
  keyed p → tok ≠ "" →
  allocate it draw now tok p = (Ok imsi, p1) →
  allocate it' draw' now' tok p1 = (Ok imsi', p2) →
  imsi ≠ imsi' ∧ (release tok p2).1 = Ok () ∧
  CurrentSession <$> sims (release tok p2).2 !! imsi = Some tok ∧
  release tok (release tok p2).2 = (Err errSessionNotFound, (release tok p2).2).
Proof.
  intros Hk Hne H1 H2. apply allocate_Ok in H1 as (k & s & _ & Hs & Ha & -> & ->).
  apply allocate_Ok in H2 as (k' & s' & _ & Hs' & Ha' & -> & ->). simpl in *.
  apply isAvailable_true in Ha' as [_ Hi']. rewrite (Hk _ _ Hs) in *.
  assert (k ≠ k') as Hkk. { intros <-. rewrite lookup_insert_eq in Hs'. by simplify_eq/=. }
  rewrite lookup_insert_ne in Hs' by done. rewrite (Hk _ _ Hs') in *.
  erewrite release_Some; simpl; [|apply lookup_insert_eq..].
  split_and!; [done|done| |].
  - rewrite !lookup_insert_ne, lookup_insert_eq by done. done.
  - unfold release. simpl. by rewrite lookup_delete_eq.
Qed.

Definition demo_once := (allocate ["a"; "b"; "c"] demo_draw 7 "tok" demo_pool).2.
Definition demo_twice := (allocate ["a"; "b"; "c"] demo_draw 8 "tok" demo_once).2.

Lemma allocate_twice_leaks_witness :
  "a" ≠ "b" ∧ (release "tok" demo_twice).1 = Ok () ∧
  CurrentSession <$> sims (release "tok" demo_twice).2 !! "a" = Some "tok" ∧
  release "tok" (release "tok" demo_twice).2 = (Err errSessionNotFound, (release "tok" demo_twice).2).
Proof.
  apply (allocate_twice_leaks ["a"; "b"; "c"] ["a"; "b"; "c"] demo_draw demo_draw 7 8 "tok"
           demo_pool "a" demo_once "b" demo_twice demo_pool_keyed); [done|vm_compute; reflexivity..].
Defined.

(** The empty token does not reserve the SIM it is given: the SIM stays
    available, so the next allocation may hand it to another session. *)
Theorem allocate_empty_token it draw now p imsi p' :
  keyed p → allocate it draw now "" p = (Ok imsi, p') →
  ∃ s, sims p' !! imsi = Some s ∧ isAvailable s = true ∧ sessions p' !! "" = Some imsi.
Proof.
  intros Hk H. apply allocate_Ok in H as (k & s & _ & Hs & Ha & -> & ->).
  apply isAvailable_true in Ha as [Ha _]. rewrite (Hk _ _ Hs). simpl.
  eexists. split; [apply lookup_insert_eq|]. split; [|apply lookup_insert_eq].
  apply isAvailable_true. done.
Qed.

Lemma allocate_empty_token_witness :
  ∃ s, sims (allocate ["a"; "b"; "c"] demo_draw 7 "" demo_pool).2 !! "a" = Some s ∧
    isAvailable s = true ∧
    sessions (allocate ["a"; "b"; "c"] demo_draw 7 "" demo_pool).2 !! "" = Some "a".
Proof.
  apply (allocate_empty_token ["a"; "b"; "c"] demo_draw 7 demo_pool "a" _ demo_pool_keyed).
  vm_compute. reflexivity.
Defined.
