(* ===== verification/SimRotation.v ===== *)
(** * Active subset rotation (camo-simpool/rotation.go)

    The rotator chooses how many dormant SIMs to promote, which active SIMs to
    retire after the drain window, and tops the active subset up to its target.
    Each of its five loops over the pool takes its own visiting order. *)

From stdpp Require Import base option list gmap strings fin_maps.
From Stdlib Require Import ZArith Lia Floats.SpecFloat.
From S2P Require Import Prelude GoFloat SimPool.

Local Open Scope Z_scope.

(** ** Definitions *)

Definition simRotationInterval : Z := 480 * Second.
Definition minActiveCount : Z := 4.
Definition drainWindow : Z := 30 * Second.
Definition targetActiveRatio : float64 := float64_0_35.

(** [newRotator]: the interval its ticker runs at. [time.NewTicker] panics on an
    interval that is not positive. *)
Definition newRotator (cfg_SIMRotationInterval : Z) : go Z :=
  let interval :=
    if bool_decide (0 < cfg_SIMRotationInterval)
    then wrap64 (cfg_SIMRotationInterval * Second)
    else simRotationInterval in
  if bool_decide (interval ≤ 0) then Panic else Ok interval.

Definition target_of (total : nat) : Z :=
  let target := int_of_float64 (fmul (float64_of_int (Z.of_nat total)) targetActiveRatio) in
  if bool_decide (target < minActiveCount) then minActiveCount else target.

Definition targetCount (p : pool) : Z := target_of (size (sims p)).

(** The loop that promotes dormant SIMs until the counter reaches the target. *)
Fixpoint promote_until (target : Z) (it : list string) (n : Z) (m : gmap string SIM)
    : Z * gmap string SIM :=
  match it with
  | [] => (n, m)
  | k :: it' =>
      if bool_decide (target ≤ n) then (n, m)
      else match m !! k with
      | Some sim =>
          if bool_decide (State sim = SIMDormant)
          then promote_until target it' (n + 1) (<[k := set_State SIMActive sim]> m)
          else promote_until target it' n m
      | None => promote_until target it' n m
      end
  end.

Definition initActiveSubset (it : list string) (p : pool) : pool :=
  set_sims (promote_until (targetCount p) it 0 (sims p)).2 p.

(** The number of SIMs to replace, from the number of active ones. *)
Definition replaceCount (draw : Z → go Z) (activeCount : Z) : Z :=
  let maxReplace := activeCount `quot` 2 in
  let maxReplace := if bool_decide (maxReplace < 1) then 1 else maxReplace in
  match randomInt draw maxReplace with
  | Ok v => if bool_decide (v = 0) then 1 else v
  | _ => 1
  end.

(** The loop that collects keys satisfying [P] and stops at the limit. *)
Fixpoint select_upto (P : SIM → bool) (m : gmap string SIM) (limit : Z)
    (it acc : list string) : list string :=
  match it with
  | [] => acc
  | k :: it' =>
      if bool_decide (limit ≤ Z.of_nat (length acc)) then acc
      else if sat P (m !! k) then select_upto P m limit it' (acc ++ [k])
      else select_upto P m limit it' acc
  end.

Definition set_active (m : gmap string SIM) (k : string) : gmap string SIM :=
  match m !! k with
  | Some sim => <[k := set_State SIMActive sim]> m
  | None => m
  end.

(** The visiting orders of the five loops of [rotate]. *)
Record orders := mkOrders {
  itCount : list string;
  itPromote : list string;
  itRetire : list string;
  itAfter : list string;
  itTopUp : list string
}.

(** [rotate] up to the release of the lock: the pool, the promoted keys and the
    keys to retire after the drain window. *)
Definition rotate (its : orders) (draw : Z → go Z) (now : Z) (p : pool)
    : pool * list string * list string :=
  let target := targetCount p in
  let activeCount := Z.of_nat (length (select_keys (is_state SIMActive) (sims p) (itCount its))) in
  let rc := replaceCount draw activeCount in
  let toPromote := select_upto isDormantCandidate (sims p) rc (itPromote its) [] in
  let toRetire := select_upto (isRetirementCandidate (lastRotation p)) (sims p)
                    (Z.of_nat (length toPromote)) (itRetire its) [] in
  let m1 := foldl set_active (sims p) toPromote in
  let activeAfter := Z.of_nat (length (select_keys (is_state SIMActive) m1 (itAfter its))) in
  let m2 := if bool_decide (activeAfter < target)
            then (promote_until target (itTopUp its) activeAfter m1).2 else m1 in
  (mkPool m2 now (sessions p), toPromote, toRetire).

(** The goroutine [rotate] starts: what it does when the drain window is over. *)
Definition retire_one (m : gmap string SIM) (k : string) : gmap string SIM :=
  match m !! k with
  | Some sim =>
      if bool_decide (CurrentSession sim = "") then <[k := set_State SIMDormant sim]> m else m
  | None => m
  end.

Definition retire (toRetire : list string) (p : pool) : pool :=
  set_sims (foldl retire_one (sims p) toRetire) p.

(** The orders the run time may use on a pool: every loop ranges over the keys
    of the map, which no loop changes. *)
Definition orders_ok (its : orders) (p : pool) : Prop :=
  range_of (sims p) (itCount its) ∧ range_of (sims p) (itPromote its) ∧
  range_of (sims p) (itRetire its) ∧ range_of (sims p) (itAfter its) ∧
  range_of (sims p) (itTopUp its).

Definition same_orders (it : list string) : orders := mkOrders it it it it it.

(** ** Promotion *)

Abbreviation active m := (count_values (is_state SIMActive) m).
Abbreviation dormant m := (count_values (is_state SIMDormant) m).

(** Some dormant SIMs became active and nothing else changed. *)
Definition promoted (m m' : gmap string SIM) : Prop :=
  ∀ k, m' !! k = m !! k ∨
    ∃ s, m !! k = Some s ∧ State s = SIMDormant ∧ m' !! k = Some (set_State SIMActive s).

Lemma promoted_refl m : promoted m m.
Proof. intros k. by left. Qed.

Lemma promoted_trans m1 m2 m3 : promoted m1 m2 → promoted m2 m3 → promoted m1 m3.
Proof.
  intros H12 H23 k. destruct (H23 k) as [E|(s & Hs & Hd & Hs')]; [rewrite E; apply H12|].
  right. destruct (H12 k) as [E|(s0 & _ & _ & E)]; [exists s; by rewrite <-E|].
  rewrite Hs in E. by simplify_eq.
Qed.

Lemma promoted_insert m k s :
  m !! k = Some s → State s = SIMDormant → promoted m (<[k := set_State SIMActive s]> m).
Proof.
  intros Hk Hs j. rewrite lookup_insert. case_decide; [subst; right; eauto|by left].
Qed.
#[export] Hint Resolve promoted_refl promoted_insert : camo.

Lemma promoted_ident m m' : promoted m m' → ident <$> m = ident <$> m'.
Proof.
  intros H. apply map_eq. intros k. rewrite !lookup_fmap.
  destruct (H k) as [->|(s & -> & _ & ->)]; done.
Qed.

(** A SIM that is not dormant is untouched. *)
Lemma promoted_lookup m m' k s :
  promoted m m' → m !! k = Some s → State s ≠ SIMDormant → m' !! k = Some s.
Proof. intros H Hk Hs. destruct (H k) as [->|(s' & Hs' & ? & _)]; by simplify_eq. Qed.

Lemma promote_counts m k s :
  m !! k = Some s → State s = SIMDormant →
  active (<[k := set_State SIMActive s]> m) = S (active m) ∧
  S (dormant (<[k := set_State SIMActive s]> m)) = dormant m.
Proof.
  intros Hk Hs.
  pose proof (count_values_insert (is_state SIMActive) m k s (set_State SIMActive s) Hk).
  pose proof (count_values_insert (is_state SIMDormant) m k s (set_State SIMActive s) Hk).
  unfold is_state in *. simpl in *. rewrite Hs in *. simpl in *. lia.
Qed.

Lemma select_keys_insert_ne {A} (P : A → bool) (m : gmap string A) k v it :
  k ∉ it → select_keys P (<[k:=v]> m) it = select_keys P m it.
Proof.
  intros Hk. unfold select_keys. induction it as [|j it IH]; [done|].
  apply not_elem_of_cons in Hk as [Hne Hk]. rewrite !filter_cons, IH by done.
  by rewrite lookup_insert_ne.
Qed.

Lemma select_keys_cons {A} (P : A → bool) (m : gmap string A) k it :
  select_keys P m (k :: it) =
  if sat P (m !! k) then k :: select_keys P m it else select_keys P m it.
Proof. unfold select_keys. rewrite filter_cons. by destruct (sat P (m !! k)). Qed.

(** The counter, the counts and the SIMs after the promotion loop. *)
Lemma promote_until_spec target it n m n' m' :
  NoDup it → promote_until target it n m = (n', m') →
  promoted m m' ∧
  n' = (if bool_decide (target ≤ n) then n
        else Z.min target (n + Z.of_nat (length (select_keys isDormantCandidate m it)))) ∧
  Z.of_nat (active m') = Z.of_nat (active m) + (n' - n) ∧
  Z.of_nat (dormant m') = Z.of_nat (dormant m) - (n' - n).
Proof.
  revert n m. induction it as [|k it IH]; intros n m Hnd H.
  - simpl in H. simplify_eq. split; [apply promoted_refl|].
    case_bool_decide; unfold select_keys; simpl; lia.
  - apply NoDup_cons in Hnd as [Hk Hnd]. cbn [promote_until] in H.
    case_bool_decide as Ht.
    { simplify_eq. split; [apply promoted_refl|]. lia. }
    rewrite select_keys_cons. destruct (m !! k) as [s|] eqn:Ek; simpl.
    + unfold isDormantCandidate at 1. case_bool_decide as Hs.
      * destruct (promote_counts m k s Ek Hs) as [Ha Hd].
        apply IH in H as (Hp & Hn & Ha' & Hd'); [|done].
        rewrite select_keys_insert_ne in Hn by done.
        split; [eauto using promoted_trans, promoted_insert|].
        simpl. case_bool_decide; lia.
      * apply IH in H as (Hp & Hn & Ha' & Hd'); [|done]. rewrite bool_decide_eq_false_2 in Hn by lia. done.
    + apply IH in H as (Hp & Hn & Ha' & Hd'); [|done]. rewrite bool_decide_eq_false_2 in Hn by lia. done.
Qed.

(** The bounded selection is a prefix of the full selection. *)
Lemma select_upto_take P m limit it acc :
  select_upto P m limit it acc =
  acc ++ take (Z.to_nat (limit - Z.of_nat (length acc))) (select_keys P m it).
Proof.
  revert acc. induction it as [|k it IH]; intros acc; cbn [select_upto].
  - change (select_keys P m []) with (@nil string). by rewrite take_nil, app_nil_r.
  - rewrite select_keys_cons. case_bool_decide as Hl.
    + replace (Z.to_nat (limit - Z.of_nat (length acc))) with 0%nat by lia.
      by rewrite take_0, app_nil_r.
    + destruct (sat P (m !! k)); [|apply IH].
      rewrite IH, length_app. simpl.
      replace (Z.to_nat (limit - Z.of_nat (length acc)))
        with (S (Z.to_nat (limit - Z.of_nat (length acc + 1)))) by lia.
      simpl. by rewrite <-app_assoc.
Qed.

Lemma foldl_set_active_spec ks m :
  NoDup ks → (∀ k, k ∈ ks → sat isDormantCandidate (m !! k) = true) →
  promoted m (foldl set_active m ks) ∧
  active (foldl set_active m ks) = (active m + length ks)%nat ∧
  (dormant (foldl set_active m ks) + length ks)%nat = dormant m.
Proof.
  revert m. induction ks as [|k ks IH]; intros m Hnd Hks; simpl.
  - split; [apply promoted_refl|]. lia.
  - apply NoDup_cons in Hnd as [Hk Hnd].
    assert (sat isDormantCandidate (m !! k) = true) as Hd by (apply Hks; left).
    apply sat_true in Hd as (s & Es & Hs). unfold isDormantCandidate in Hs.
    apply bool_decide_eq_true in Hs. unfold set_active at 2 4 6. rewrite Es.
    destruct (promote_counts m k s Es Hs) as [Ha Hd].
    destruct (IH (<[k := set_State SIMActive s]> m)) as (Hp & Ha' & Hd'); [done| |].
    { intros j Hj. rewrite lookup_insert_ne by (by intros ->). apply Hks. by right. }
    split; [eauto using promoted_trans, promoted_insert|]. lia.
Qed.

(** ** The rotation step *)

Lemma replaceCount_range draw a :
  draw_ok draw → 0 ≤ a → 1 ≤ replaceCount draw a ≤ Z.max 1 (a / 2 - 1).
Proof.
  intros Hd Ha. unfold replaceCount, randomInt.
  rewrite Z.quot_div_nonneg by lia.
  set (mr := if bool_decide (a / 2 < 1) then 1 else a / 2).
  assert (mr = Z.max 1 (a / 2)) as Hm by (subst mr; case_bool_decide; lia).
  rewrite (bool_decide_eq_false_2 (mr ≤ 0)) by lia.
  destruct (draw mr) as [v| |] eqn:E; [|lia..].
  apply (proj2 (Hd mr ltac:(lia))) in E. case_bool_decide; lia.
Qed.

Lemma promoted_range {A} (m m' : gmap string A) it :
  dom m = dom m' → range_of m it → range_of m' it.
Proof.
  intros Hd Hit. unfold range_of in *. rewrite Hit.
  apply NoDup_Permutation; [apply NoDup_fst_map_to_list..|]. intros k.
  rewrite (range_of_elem m (keys m)), (range_of_elem m' (keys m')) by apply range_of_keys.
  by rewrite <-!elem_of_dom, Hd.
Qed.

Lemma promoted_dom m m' : promoted m m' → dom m = dom m'.
Proof.
  intros H. rewrite <-(dom_fmap_L ident m), <-(dom_fmap_L ident m').
  by rewrite (promoted_ident m m' H).
Qed.

(** The keys chosen for promotion. *)
Lemma toPromote_spec it rc p :
  range_of (sims p) it → 0 ≤ rc →
  let tp := select_upto isDormantCandidate (sims p) rc it [] in
  NoDup tp ∧ (∀ k, k ∈ tp → sat isDormantCandidate (sims p !! k) = true) ∧
  Z.of_nat (length tp) = Z.min rc (Z.of_nat (dormant (sims p))).
Proof.
  intros Hit Hrc tp. subst tp. rewrite select_upto_take. simpl. rewrite Z.sub_0_r. split_and!.
  - eapply sublist_NoDup; [|apply sublist_take].
    apply select_keys_NoDup, (range_of_NoDup (sims p) it Hit).
  - intros k Hk. apply (sublist_subseteq _ _ (sublist_take _ _)), elem_of_select_keys in Hk
      as (_ & s & -> & Hs). done.
  - rewrite length_take, (length_select_keys _ _ _ Hit).
    change (count_values isDormantCandidate (sims p)) with (dormant (sims p)). lia.
Qed.

(** Everything [rotate] does to the SIMs, for every choice of orders. *)
Lemma rotate_spec its draw now p p' tp tr :
  orders_ok its p → draw_ok draw → rotate its draw now p = (p', tp, tr) →
  let rc := replaceCount draw (Z.of_nat (active (sims p))) in
  let a1 := Z.of_nat (active (sims p)) + Z.min rc (Z.of_nat (dormant (sims p))) in
  let d1 := Z.of_nat (dormant (sims p)) - Z.min rc (Z.of_nat (dormant (sims p))) in
  promoted (sims p) (sims p') ∧ sessions p' = sessions p ∧ lastRotation p' = now ∧
  Z.of_nat (length tp) = Z.min rc (Z.of_nat (dormant (sims p))) ∧
  (∀ k, k ∈ tp → sat isDormantCandidate (sims p !! k) = true) ∧
  Z.of_nat (active (sims p')) =
    (if bool_decide (a1 < targetCount p) then Z.min (targetCount p) (a1 + d1) else a1) ∧
  tr = take (length tp) (select_keys (isRetirementCandidate (lastRotation p)) (sims p) (itRetire its)).
Proof.
  intros (H1 & H2 & H3 & H4 & H5) Hd H rc a1 d1. unfold rotate in H.
  rewrite (length_select_keys _ _ _ H1) in H. fold rc in H.
  assert (0 ≤ rc) as Hrc by (pose proof (replaceCount_range draw (Z.of_nat (active (sims p))) Hd); lia).
  destruct (toPromote_spec (itPromote its) rc p H2 Hrc) as (Hnd & Hdorm & Hlen).
  set (ks := select_upto isDormantCandidate (sims p) rc (itPromote its) []) in *.
  destruct (foldl_set_active_spec ks (sims p) Hnd Hdorm) as (Hp1 & Ha1 & Hd1).
  set (m1 := foldl set_active (sims p) ks) in *.
  pose proof (promoted_dom _ _ Hp1) as Hdom.
  rewrite (length_select_keys _ m1 _ (promoted_range _ _ _ Hdom H4)) in H.
  rewrite (select_upto_take (isRetirementCandidate _)) in H. simpl in H.
  rewrite Z.sub_0_r, Nat2Z.id in H.
  injection H as <- <- <-. simpl.
  destruct (promote_until (targetCount p) (itTopUp its) (Z.of_nat (active m1)) m1) as [n' m'] eqn:E.
  pose proof (promoted_range _ m1 _ Hdom H5) as H5'.
  apply promote_until_spec in E as (Hp2 & Hn & Ha2 & Hd2); [|by apply (range_of_NoDup m1)].
  rewrite (length_select_keys _ _ _ H5') in Hn.
  change (count_values isDormantCandidate m1) with (dormant m1) in Hn.
  split_and!; try done.
  - destruct (bool_decide (Z.of_nat (active m1) < targetCount p)); simpl; eauto using promoted_trans.
  - subst a1 d1. repeat case_bool_decide; simpl; lia.
Qed.

Lemma foldl_retire_one_lookup ks m k :
  foldl retire_one m ks !! k =
  match m !! k with
  | Some s => if bool_decide (k ∈ ks) && bool_decide (CurrentSession s = "")
              then Some (set_State SIMDormant s) else Some s
  | None => None
  end.
Proof.
  revert m. induction ks as [|j ks IH]; intros m; simpl.
  - by case_match.
  - rewrite IH. unfold retire_one. clear IH.
    destruct (decide (j = k)) as [->|Hjk].
    + destruct (m !! k) as [s|] eqn:Ek; [|by rewrite Ek].
      rewrite (bool_decide_eq_true_2 (k ∈ k :: ks)) by left. simpl. case_bool_decide as Hc.
      * rewrite lookup_insert_eq. simpl. rewrite (bool_decide_eq_true_2 _ Hc). by case_bool_decide.
      * rewrite Ek, (bool_decide_eq_false_2 _ Hc). by rewrite andb_false_r.
    + assert (match m !! j with
              | Some sim => if bool_decide (CurrentSession sim = "")
                            then <[j:=set_State SIMDormant sim]> m else m
              | None => m end !! k = m !! k) as ->.
      { case_match; [|done]. case_bool_decide; [|done]. by rewrite lookup_insert_ne. }
      destruct (m !! k) as [s|]; [|done].
      assert (bool_decide (k ∈ j :: ks) = bool_decide (k ∈ ks)) as ->; [|done].
      apply bool_decide_ext. rewrite elem_of_cons. intuition congruence.
Qed.

Lemma retire_lookup ks p k :
  sims (retire ks p) !! k =
  match sims p !! k with
  | Some s => if bool_decide (k ∈ ks) && bool_decide (CurrentSession s = "")
              then Some (set_State SIMDormant s) else Some s
  | None => None
  end.
Proof. apply foldl_retire_one_lookup. Qed.

Lemma retire_ident ks p :
  ident <$> sims p = ident <$> sims (retire ks p) ∧ sessions (retire ks p) = sessions p.
Proof.
  split; [|done]. apply map_eq. intros k. rewrite !lookup_fmap, retire_lookup.
  destruct (sims p !! k); [|done]. by case_match.
Qed.

Lemma toRetire_elem its draw now p p' tp tr k :
  orders_ok its p → draw_ok draw → rotate its draw now p = (p', tp, tr) → k ∈ tr →
  ∃ s, sims p !! k = Some s ∧ isRetirementCandidate (lastRotation p) s = true.
Proof.
  intros Ho Hd H Hk. apply rotate_spec in H as (_ & _ & _ & _ & _ & _ & ->); [|done..].
  apply (sublist_subseteq _ _ (sublist_take _ _)), elem_of_select_keys in Hk as (_ & s & ? & ?).
  eauto.
Qed.

(** ** Properties of the rotation *)

(** C15: the number of active SIMs after a rotation is a function of the counts
    before it, the drawn replacement count and the target: no visiting order of
    the five loops changes it, and the target is reached whenever active and
    dormant SIMs together suffice. *)
Theorem rotate_active_count its draw now p p' tp tr :
  orders_ok its p → draw_ok draw → rotate its draw now p = (p', tp, tr) →
  let a := Z.of_nat (active (sims p)) in
  let d := Z.of_nat (dormant (sims p)) in
  let a1 := a + Z.min (replaceCount draw a) d in
  Z.of_nat (active (sims p')) = Z.max a1 (Z.min (targetCount p) (a + d)) ∧
  Z.min (targetCount p) (a + d) ≤ Z.of_nat (active (sims p')).
Proof.
  intros Ho Hd H a d a1. pose proof (replaceCount_range draw a Hd).
  apply rotate_spec in H as (_ & _ & _ & _ & _ & -> & _); [|done..].
  fold a d. fold a1. case_bool_decide; subst a1; lia.
Qed.

(** Eight SIMs, one of them active and idle since before the last rotation. *)
Definition demo_rot_pool : pool :=
  foldl (λ p k, add (demo_sim k SIMDormant) p)
    (mkPool ∅ 100 ∅) ["s1"; "s2"; "s3"; "s4"; "s5"; "s6"; "s7"; "s8"].
Definition demo_rot_pool1 : pool :=
  set_sims (<["s1" := demo_sim "s1" SIMActive]> (sims demo_rot_pool)) demo_rot_pool.
Definition demo_orders : orders := same_orders (keys (sims demo_rot_pool1)).

Lemma demo_orders_ok : orders_ok demo_orders demo_rot_pool1.
Proof. repeat split; apply range_of_keys. Qed.

Definition demo_rotated := rotate demo_orders demo_draw 200 demo_rot_pool1.

Lemma demo_rotated_eq :
  rotate demo_orders demo_draw 200 demo_rot_pool1 = (demo_rotated.1.1, demo_rotated.1.2, demo_rotated.2).
Proof. unfold demo_rotated. by destruct (rotate _ _ _ _) as [[??]?]. Qed.

Lemma rotate_active_count_witness : Z.of_nat (active (sims demo_rotated.1.1)) = 4.
Proof.
  destruct (rotate_active_count _ _ _ _ _ _ _ demo_orders_ok demo_draw_ok demo_rotated_eq) as [H _].
  rewrite H. vm_compute. reflexivity.
Defined.

(** C31: a rotation touches no SIM that is active or unavailable, so no SIM in a
    session changes; it keeps the sessions; the SIMs it schedules for
    retirement are active, idle and unused since the previous rotation, are not
    among the promoted ones, and are at most as many. *)
Theorem rotate_selection its draw now p p' tp tr :
  orders_ok its p → draw_ok draw → rotate its draw now p = (p', tp, tr) →
  (∀ k s, sims p !! k = Some s → State s ≠ SIMDormant → sims p' !! k = Some s) ∧
  sessions p' = sessions p ∧
  (∀ k, k ∈ tr → (k ∉ tp) ∧ (∃ s, sims p !! k = Some s ∧ State s = SIMActive ∧
     CurrentSession s = "" ∧ LastActive s ≤ lastRotation p)) ∧
  (length tr ≤ length tp)%nat.
Proof.
  intros Ho Hd H. pose proof (toRetire_elem its draw now p p' tp tr) as Hr.
  apply rotate_spec in H as Hs; [|done..].
  destruct Hs as (Hp & Hss & _ & _ & Htp & _ & Htr). split_and!.
  - intros k s. by apply promoted_lookup.
  - done.
  - intros k Hk. destruct (Hr k Ho Hd H Hk) as (s & Hs & Hc).
    apply isRetirementCandidate_true in Hc as (Ha & Hi & Hl). split; [|eauto].
    intros Hin. apply Htp in Hin. rewrite Hs in Hin. unfold isDormantCandidate in Hin. simpl in Hin.
    apply bool_decide_eq_true in Hin. congruence.
  - rewrite Htr, length_take. lia.
Qed.

Lemma rotate_selection_witness :
  sims demo_rotated.1.1 !! "s1" = Some (demo_sim "s1" SIMActive) ∧
  sessions demo_rotated.1.1 = ∅ ∧ (length demo_rotated.2 ≤ length demo_rotated.1.2)%nat.
Proof.
  destruct (rotate_selection _ _ _ _ _ _ _ demo_orders_ok demo_draw_ok demo_rotated_eq)
    as (H1 & H2 & _ & H4).
  split; [|split; [exact H2|exact H4]].
  apply H1; [vm_compute; reflexivity|done].
Defined.

(** The drawn replacement count is at least 1 and below half of the active
    count once that half exceeds 1: the upper end [active/2] that the comment
    allows is never drawn. *)
Theorem replaceCount_bounds draw a :
  draw_ok draw → 4 ≤ a → 1 ≤ replaceCount draw a < a / 2.
Proof.
  intros Hd Ha. pose proof (replaceCount_range draw a Hd).
  assert (2 ≤ a / 2) by (apply Z.div_le_lower_bound; lia). lia.
Qed.

Lemma replaceCount_bounds_witness : 1 ≤ replaceCount (λ n, Ok (n - 1)) 8 < 8 / 2.
Proof.
  apply (replaceCount_bounds (λ n, Ok (n - 1)) 8); [|lia].
  intros n Hn. split; [done|]. intros v [= <-]. lia.
Defined.

(** Retiring a SIM after the drain window leaves every SIM that has a
    session, and every SIM not scheduled, exactly as it is. *)
Theorem retire_respects_sessions ks p k s :
  sims p !! k = Some s → CurrentSession s ≠ "" ∨ k ∉ ks →
  sims (retire ks p) !! k = Some s ∧ sessions (retire ks p) = sessions p.
Proof.
  intros Hk Hc. split; [|done]. rewrite retire_lookup, Hk.
  destruct Hc as [Hc|Hc]; rewrite (bool_decide_eq_false_2 _ Hc); [by rewrite andb_false_r|done].
Qed.

Lemma retire_respects_sessions_witness :
  sims (retire ["s1"; "s2"] (allocate ["s1"] demo_draw 150 "tok" demo_rot_pool1).2) !! "s1" =
    Some (set_LastActive 150 (set_CurrentSession "tok" (demo_sim "s1" SIMActive))) ∧
  sessions (retire ["s1"; "s2"] (allocate ["s1"] demo_draw 150 "tok" demo_rot_pool1).2) =
    {["tok" := "s1"]}.
Proof.
  apply (retire_respects_sessions ["s1"; "s2"] (allocate ["s1"] demo_draw 150 "tok" demo_rot_pool1).2
           "s1"); [vm_compute; reflexivity|by left].
Defined.

(** A SIM that fails its liveness check during the drain window is brought
    back as dormant when the window ends: the retirement overwrites the
    unavailable state, and the failure count stays. *)
Theorem retire_revives_unavailable its draw now p p' tp tr k :
  orders_ok its p → draw_ok draw → rotate its draw now p = (p', tp, tr) → k ∈ tr →
  ∃ s, sims (markUnavailable k p') !! k = Some s ∧ State s = SIMUnavailable ∧
       sims (retire tr (markUnavailable k p')) !! k = Some (set_State SIMDormant s).
Proof.
  intros Ho Hd H Hk. destruct (toRetire_elem _ _ _ _ _ _ _ _ Ho Hd H Hk) as (s & Hs & Hc).
  apply isRetirementCandidate_true in Hc as (Ha & Hi & _).
  apply rotate_spec in H as (Hp & _); [|done..].
  assert (sims p' !! k = Some s) as Hs' by (eapply promoted_lookup; [done..|congruence]).
  rewrite retire_lookup. unfold markUnavailable. rewrite Hs'. simpl.
  rewrite lookup_insert_eq. eexists. split; [done|]. split; [done|]. simpl.
  by rewrite (bool_decide_eq_true_2 _ Hk), (bool_decide_eq_true_2 _ Hi).
Qed.

Lemma retire_revives_unavailable_witness :
  ∃ s, sims (markUnavailable "s1" demo_rotated.1.1) !! "s1" = Some s ∧ State s = SIMUnavailable ∧
       sims (retire demo_rotated.2 (markUnavailable "s1" demo_rotated.1.1)) !! "s1"
         = Some (set_State SIMDormant s).
Proof.
  apply (retire_revives_unavailable _ _ _ _ _ _ _ "s1" demo_orders_ok demo_draw_ok demo_rotated_eq).
  assert (demo_rotated.2 = ["s1"]) as -> by (vm_compute; reflexivity). left.
Defined.

Definition target_in_range (n : nat) : bool :=
  let t := target_of n in
  (minActiveCount <=? t) && (t <=? Z.max 4 (35 * Z.of_nat n / 100)) &&
  (Z.max 4 (35 * Z.of_nat n / 100 - 1) <=? t) &&
  ((Z.of_nat n <? 20) || ((30 * Z.of_nat n <=? 100 * t) && (100 * t <=? 40 * Z.of_nat n))).

Lemma target_in_range_all : forallb target_in_range (seq 0 1025) = true.
Proof. vm_compute. reflexivity. Qed.

(** For pools of up to 1024 SIMs the target computed in floating point is
    the larger of 4 and 35% of the pool rounded down, or one less than that
    percentage; from 20 SIMs on it lies within 30% to 40% of the pool. *)
Theorem targetCount_bounds p :
  (size (sims p) ≤ 1024)%nat →
  let n := Z.of_nat (size (sims p)) in
  4 ≤ targetCount p ∧
  Z.max 4 (35 * n / 100 - 1) ≤ targetCount p ≤ Z.max 4 (35 * n / 100) ∧
  (20 ≤ n → 30 * n ≤ 100 * targetCount p ≤ 40 * n).
Proof.
  intros Hn n. pose proof target_in_range_all as H. rewrite List.forallb_forall in H.
  specialize (H (size (sims p))). unfold target_in_range in H.
  rewrite !andb_true_iff, orb_true_iff, andb_true_iff in H.
  fold (targetCount p) in H. fold n in H.
  destruct (H ltac:(apply List.in_seq; lia)) as [[[H1 H2] H3] H4].
  unfold minActiveCount in *. lia.
Qed.

Lemma targetCount_bounds_witness : 4 ≤ targetCount demo_rot_pool.
Proof. apply (targetCount_bounds demo_rot_pool). vm_compute. lia. Defined.

(** The truncation shows for a pool of 180: the product of 180 and the binary64
    value of 0.35 is just below 63. *)
Example target_180 : target_of 180 = 62.
Proof. vm_compute. reflexivity. Qed.
