(* ===== verification/SimLiveness.v ===== *)
(** * SIM liveness monitoring (camo-simpool/liveness.go)

    The checker is an interface of the program; [Check k] is what it answers for
    SIM [k] in the pass at hand.  The two check loops are modelled over the list of
    pointers [allSIMs] returned, reading each SIM as it is when its turn comes:
    [since k] and [now k] are the clock at its two reads there.  An iteration
    first looks at the SIM and then makes up to two writes, which the process of
    SimService interleaves with everything else. *)

From stdpp Require Import base option list gmap strings fin_maps.
From Stdlib Require Import ZArith Lia.
From S2P Require Import Prelude SimPool.

Local Open Scope Z_scope.

(** ** Definitions *)

Definition activeLivenessInterval : Z := 60 * Second.
Definition dormantLivenessInterval : Z := 3600 * Second.
Definition maxBackoffInterval : Z := 4 * Hour.

(** [SIMChecker]: whether the SIM is reachable; the error is only logged. *)
Class SIMChecker := Check : string → bool.

Definition noopChecker : SIMChecker := λ _, true.

(** The loop of [backoffDuration], [n] iterations to go. *)
Fixpoint backoff_loop (n : nat) (d : Z) : Z :=
  match n with
  | O => d
  | S n' =>
      let d := wrap64 (d * 2) in
      if bool_decide (maxBackoffInterval < d) then maxBackoffInterval else backoff_loop n' d
  end.

Definition backoffDuration (failCount : Z) : Z :=
  if bool_decide (failCount ≤ 0) then dormantLivenessInterval
  else backoff_loop (Z.to_nat failCount) dormantLivenessInterval.

(** [sim.LastHealthCheck = t] through the pointer stored under [k]. *)
Definition touch (k : string) (t : Z) (p : pool) : pool :=
  set_sims (alter (set_LastHealthCheck t) k (sims p)) p.

(** The writes of the liveness goroutine: one through the pointer, two under the
    lock of the pool. *)
Inductive write :=
| WTouch (k : string) (t : Z)
| WUnavailable (imsi : string)
| WDormant (imsi : string).

Definition apply_write (p : pool) (w : write) : pool :=
  match w with
  | WTouch k t => touch k t p
  | WUnavailable imsi => markUnavailable imsi p
  | WDormant imsi => markDormant imsi p
  end.

Section liveness.
Context {checker : SIMChecker} (since now : string → Z).

(** What an iteration of [checkActive] decides to write. *)
Definition active_writes (p : pool) (k : string) : list write :=
  match sims p !! k with
  | None => []
  | Some sim =>
      if negb (bool_decide (State sim = SIMActive)) then []
      else if Check (IMSI sim) then [WTouch k (now k)] else [WUnavailable (IMSI sim)]
  end.

Definition checkActive_one (p : pool) (k : string) : pool := foldl apply_write p (active_writes p k).

Definition checkActive (it : list string) (p : pool) : pool :=
  foldl checkActive_one p (allSIMs it p).

(** What an iteration of [checkDormant] decides to write. *)
Definition dormant_writes (p : pool) (k : string) : list write :=
  match sims p !! k with
  | None => []
  | Some sim =>
      match State sim with
      | SIMDormant => if Check (IMSI sim) then [WTouch k (now k)] else [WUnavailable (IMSI sim)]
      | SIMUnavailable =>
          let backoff := backoffDuration (FailCount sim) in
          if bool_decide (time_Sub (since k) (LastHealthCheck sim) < backoff) then []
          else if Check (IMSI sim) then [WDormant (IMSI sim)]
          else [WTouch k (now k); WUnavailable (IMSI sim)]
      | SIMActive => []
      end
  end.

Definition checkDormant_one (p : pool) (k : string) : pool := foldl apply_write p (dormant_writes p k).

Definition checkDormant (it : list string) (p : pool) : pool :=
  foldl checkDormant_one p (allSIMs it p).

(** What a pass makes of one SIM. *)
Definition failed (s : SIM) : SIM := set_FailCount (wrap64 (FailCount s + 1)) (set_State SIMUnavailable s).

Definition active_after (k : string) (s : SIM) : SIM :=
  if bool_decide (State s = SIMActive) then
    if Check k then set_LastHealthCheck (now k) s else failed s
  else s.

Definition dormant_after (k : string) (s : SIM) : SIM :=
  match State s with
  | SIMActive => s
  | SIMDormant => if Check k then set_LastHealthCheck (now k) s else failed s
  | SIMUnavailable =>
      if bool_decide (time_Sub (since k) (LastHealthCheck s) < backoffDuration (FailCount s)) then s
      else if Check k then set_FailCount 0 (set_State SIMDormant s)
      else failed (set_LastHealthCheck (now k) s)
  end.

(** ** Lemmas *)

Lemma set_sims_id p : set_sims (sims p) p = p.
Proof. by destruct p. Qed.

Lemma alter_id_Some {A} (f : A → A) (m : gmap string A) k v :
  m !! k = Some v → f v = v → alter f k m = m.
Proof.
  intros Hk Hf. apply map_eq. intros j. rewrite lookup_alter. case_decide; [|done].
  subst. by rewrite Hk; simpl; rewrite Hf.
Qed.

Lemma alter_insert_Some {A} (f : A → A) (m : gmap string A) k v :
  m !! k = Some v → alter f k m = <[k := f v]> m.
Proof.
  intros Hk. apply map_eq. intros j. rewrite lookup_alter, lookup_insert.
  case_decide; [|done]. subst. by rewrite Hk.
Qed.

Lemma alter_None {A} (f : A → A) (m : gmap string A) k : m !! k = None → alter f k m = m.
Proof.
  intros Hk. apply map_eq. intros j. rewrite lookup_alter. case_decide; [|done].
  subst. by rewrite Hk.
Qed.

Lemma markUnavailable_alter k p : markUnavailable k p = set_sims (alter failed k (sims p)) p.
Proof.
  unfold markUnavailable. destruct (sims p !! k) as [s|] eqn:E.
  - by rewrite (alter_insert_Some _ _ _ _ E).
  - by rewrite alter_None, set_sims_id.
Qed.

Lemma markDormant_alter k p :
  markDormant k p = set_sims (alter (set_FailCount 0 ∘ set_State SIMDormant) k (sims p)) p.
Proof.
  unfold markDormant. destruct (sims p !! k) as [s|] eqn:E.
  - by rewrite (alter_insert_Some _ _ _ _ E).
  - by rewrite alter_None, set_sims_id.
Qed.

Lemma checkActive_one_alter p k :
  keyed p → checkActive_one p k = set_sims (alter (active_after k) k (sims p)) p.
Proof.
  intros Hk. unfold checkActive_one, active_writes. destruct (sims p !! k) as [s|] eqn:E.
  2: by rewrite alter_None, set_sims_id.
  rewrite (alter_insert_Some _ _ _ _ E), (Hk _ _ E). unfold active_after.
  case_bool_decide; simpl; [|by rewrite insert_id, set_sims_id].
  destruct (Check k); simpl; rewrite ?markUnavailable_alter; unfold touch; by rewrite !(alter_insert_Some _ _ _ _ E).
Qed.

Lemma checkDormant_one_alter p k :
  keyed p → checkDormant_one p k = set_sims (alter (dormant_after k) k (sims p)) p.
Proof.
  intros Hk. unfold checkDormant_one, dormant_writes. destruct (sims p !! k) as [s|] eqn:E.
  2: by rewrite alter_None, set_sims_id.
  rewrite (alter_insert_Some _ _ _ _ E), (Hk _ _ E). unfold dormant_after.
  destruct (State s) eqn:Es; [by rewrite insert_id, set_sims_id| |].
  - destruct (Check k); simpl; rewrite ?markUnavailable_alter; unfold touch; by rewrite !(alter_insert_Some _ _ _ _ E).
  - case_bool_decide; [by rewrite insert_id, set_sims_id|]. destruct (Check k); simpl.
    + by rewrite markDormant_alter, (alter_insert_Some _ _ _ _ E).
    + rewrite markUnavailable_alter. unfold touch. simpl. rewrite (alter_insert_Some _ _ _ _ E).
      by rewrite (alter_insert_Some failed _ k (set_LastHealthCheck (now k) s)), insert_insert_eq by apply lookup_insert_eq.
Qed.

(** A pass of iterations that each rewrite their own SIM, keeping its IMSI. *)
Lemma foldl_pass (one : pool → string → pool) (g : string → SIM → SIM) ks p :
  (∀ k s, IMSI (g k s) = IMSI s) →
  (∀ p k, keyed p → one p k = set_sims (alter (g k) k (sims p)) p) →
  keyed p → NoDup ks →
  foldl one p ks = set_sims (foldl (λ m k, alter (g k) k m) (sims p) ks) p.
Proof.
  intros Hg Hone. revert p. induction ks as [|k ks IH]; intros p Hp Hnd; simpl.
  { by rewrite set_sims_id. }
  apply NoDup_cons in Hnd as [_ Hnd]. rewrite Hone by done. rewrite IH; [done| |done].
  intros j s. simpl. rewrite lookup_alter. case_decide; [|apply Hp].
  subst. intros (s0 & Hs0 & ->)%fmap_Some. rewrite Hg. eauto.
Qed.

Lemma pass_lookup (one : pool → string → pool) (g : string → SIM → SIM) it p :
  (∀ k s, IMSI (g k s) = IMSI s) →
  (∀ p k, keyed p → one p k = set_sims (alter (g k) k (sims p)) p) →
  keyed p → range_of (sims p) it →
  ∀ k, sims (foldl one p (allSIMs it p)) !! k = g k <$> sims p !! k.
Proof.
  intros Hg Hone Hp Hit k.
  assert (NoDup (allSIMs it p)) by (by apply select_keys_NoDup, (range_of_NoDup (sims p))).
  rewrite (foldl_pass one g) by done. simpl. rewrite foldl_alter_lookup by done.
  case_decide as Hk; [done|]. destruct (sims p !! k) as [s|] eqn:E; [|done].
  destruct Hk. apply elem_of_select_keys. rewrite (range_of_elem (sims p)) by done. eauto.
Qed.

Lemma active_after_IMSI k s : IMSI (active_after k s) = IMSI s.
Proof. unfold active_after. by repeat case_match. Qed.

Lemma dormant_after_IMSI k s : IMSI (dormant_after k s) = IMSI s.
Proof. unfold dormant_after. by repeat case_match. Qed.

(** No write changes which SIM serves which session. *)
Lemma apply_write_ident p w :
  ident <$> sims p = ident <$> sims (apply_write p w) ∧ sessions (apply_write p w) = sessions p.
Proof.
  assert (∀ (f : SIM → SIM) k, (∀ s, ident (f s) = ident s) → ident <$> sims p = ident <$> alter f k (sims p)) as Ha.
  { intros f k Hf. apply map_eq. intros j. rewrite !lookup_fmap, lookup_alter. case_decide; [|done]. subst.
    destruct (sims p !! j) as [s|]; [|done]. simpl. by rewrite Hf. }
  destruct w as [k t|imsi|imsi]; cbn [apply_write]; rewrite ?markUnavailable_alter, ?markDormant_alter; unfold touch;
    (split; [|done]); by apply Ha.
Qed.

(** A pass of [checkActive] treats each SIM by its own state and its own
    check, independently of the visiting order: active SIMs that answer get a
    fresh health check time, active SIMs that do not become unavailable with one
    more failure, all others are untouched; hence every SIM still active
    afterwards answered its check. *)
Theorem checkActive_exact it p :
  keyed p → range_of (sims p) it →
  (∀ k, sims (checkActive it p) !! k = active_after k <$> sims p !! k) ∧
  (∀ k s, sims (checkActive it p) !! k = Some s → State s = SIMActive → Check k = true).
Proof.
  intros Hp Hit.
  assert (∀ k, sims (checkActive it p) !! k = active_after k <$> sims p !! k) as H.
  { apply pass_lookup; auto using active_after_IMSI, checkActive_one_alter. }
  split; [done|]. intros k s. rewrite H. intros (s0 & _ & ->)%fmap_Some.
  unfold active_after. case_bool_decide; [|done]. by case_match.
Qed.

End liveness.

(** ** Backoff *)

Lemma backoff_loop_S n d :
  backoff_loop (S n) d =
  if bool_decide (maxBackoffInterval < wrap64 (d * 2)) then maxBackoffInterval
  else backoff_loop n (wrap64 (d * 2)).
Proof. reflexivity. Qed.

Lemma backoff_loop_cap n : (2 ≤ n)%nat → backoff_loop n dormantLivenessInterval = maxBackoffInterval.
Proof.
  intros Hn. destruct n as [|[|n]]; [lia..|]. rewrite !backoff_loop_S.
  assert (wrap64 (dormantLivenessInterval * 2) = 2 * Hour) as -> by (vm_compute; reflexivity).
  assert (wrap64 (2 * Hour * 2) = maxBackoffInterval) as -> by (vm_compute; reflexivity).
  rewrite !bool_decide_eq_false_2 by (vm_compute; done).
  destruct n; [done|]. rewrite backoff_loop_S. by rewrite bool_decide_eq_true_2.
Qed.

(** The retry delay is one hour doubled once per failure and capped at four
    hours, for every failure count; it never overflows and never decreases as
    failures accumulate. *)
Theorem backoff_closed_form failCount :
  backoffDuration failCount = Z.min maxBackoffInterval (dormantLivenessInterval * 2 ^ Z.max 0 failCount) ∧
  backoffDuration failCount ≤ backoffDuration (failCount + 1).
Proof.
  assert (∀ n, backoffDuration n = Z.min maxBackoffInterval (dormantLivenessInterval * 2 ^ Z.max 0 n)) as H.
  { intros n. unfold backoffDuration. case_bool_decide as Hn.
    - rewrite Z.max_l by lia. vm_compute. reflexivity.
    - rewrite Z.max_r by lia. destruct (decide (n = 1)) as [->|].
      + vm_compute. reflexivity.
      + rewrite backoff_loop_cap by lia.
        assert (2 ^ 2 ≤ 2 ^ n) by (apply Z.pow_le_mono_r; lia).
        unfold maxBackoffInterval, dormantLivenessInterval, Hour, Second in *. lia. }
  split; [apply H|]. rewrite !H.
  assert (2 ^ Z.max 0 failCount ≤ 2 ^ Z.max 0 (failCount + 1)) by (apply Z.pow_le_mono_r; lia).
  unfold maxBackoffInterval, dormantLivenessInterval, Hour, Second in *. lia.
Qed.

(** ** Dormant checks *)

(** The wait before an unavailable SIM is tried again, in nanoseconds: an hour
    doubled once per failure, four hours at most. *)
Definition retry_delay (failures : Z) : Z :=
  Z.min (4 * 3600 * 1000000000) (3600 * 1000000000 * 2 ^ Z.max 0 failures).

Lemma backoff_retry_delay n : backoffDuration n = retry_delay n.
Proof.
  rewrite (proj1 (backoff_closed_form n)). unfold retry_delay, maxBackoffInterval, dormantLivenessInterval, Hour, Second. lia.
Qed.

(** A duration compares with a delay as the difference of the times does. *)
Lemma time_Sub_lt t u n : time_Sub t u < retry_delay n ↔ t - u < retry_delay n.
Proof.
  assert (0 < retry_delay n ≤ 4 * 3600 * 1000000000).
  { unfold retry_delay. assert (0 < 2 ^ Z.max 0 n) by (apply Z.pow_pos_nonneg; lia). lia. }
  unfold time_Sub, min_int64, max_int64. lia.
Qed.

(** C35: a pass of [checkDormant] leaves the sessions alone and treats each SIM by
    its own state, in any visiting order: an active SIM is untouched; a dormant
    one that answers gets the time of the check, and one that does not becomes
    unavailable with one more failure; an unavailable one is untouched until an
    hour doubled per failure, four hours at most, has passed since its last
    check; then it becomes dormant with no failures if it answers, and otherwise
    gets the time of the attempt and one more failure. *)
Theorem checkDormant_exact `{SIMChecker} since now it p :
  keyed p → range_of (sims p) it →
  let p' := checkDormant since now it p in
  sessions p' = sessions p ∧ lastRotation p' = lastRotation p ∧
  ∀ k, match sims p !! k with
    | None => sims p' !! k = None
    | Some (mkSIM imsi carrier jur apn st health act fails sess) =>
        sims p' !! k =
          match st with
          | SIMActive => sims p !! k
          | SIMDormant =>
              if Check k then Some (mkSIM imsi carrier jur apn SIMDormant (now k) act fails sess)
              else Some (mkSIM imsi carrier jur apn SIMUnavailable health act (wrap64 (fails + 1)) sess)
          | SIMUnavailable =>
              if bool_decide (since k - health < retry_delay fails) then sims p !! k
              else if Check k then Some (mkSIM imsi carrier jur apn SIMDormant health act 0 sess)
              else Some (mkSIM imsi carrier jur apn SIMUnavailable (now k) act (wrap64 (fails + 1)) sess)
          end
    end.
Proof.
  intros Hp Hit p'.
  assert (∀ k, sims p' !! k = dormant_after since now k <$> sims p !! k) as Hl.
  { apply pass_lookup; auto using dormant_after_IMSI, checkDormant_one_alter. }
  assert (sessions p' = sessions p ∧ lastRotation p' = lastRotation p) as [Hs Hr].
  { unfold p', checkDormant. rewrite (foldl_pass _ (dormant_after since now)); [done| | |done|].
    - apply dormant_after_IMSI.
    - apply checkDormant_one_alter.
    - by apply select_keys_NoDup, (range_of_NoDup (sims p)). }
  split_and!; [done..|]. intros k. rewrite Hl.
  destruct (sims p !! k) as [[imsi carrier jur apn st health act fails sess]|]; [|done]. cbn [fmap option_fmap option_map].
  unfold dormant_after, failed. cbn [State LastHealthCheck FailCount]. destruct st; [done|by destruct (Check k)|].
  rewrite backoff_retry_delay, (bool_decide_ext _ _ (time_Sub_lt _ _ _)). case_bool_decide; [done|]. by destruct (Check k).
Qed.

(** A checker that only the SIM "b" fails. *)
Definition demo_checker : SIMChecker := λ k, negb (bool_decide (k = "b")).

Lemma checkActive_exact_witness :
  (∀ k, sims (checkActive (checker := demo_checker) (λ _, 9) (keys (sims demo_pool)) demo_pool) !! k
        = active_after (checker := demo_checker) (λ _, 9) k <$> sims demo_pool !! k) ∧
  State <$> sims (checkActive (checker := demo_checker) (λ _, 9) (keys (sims demo_pool)) demo_pool) !! "b"
    = Some SIMUnavailable.
Proof.
  destruct (checkActive_exact (checker := demo_checker) (λ _, 9) (keys (sims demo_pool)) demo_pool
              demo_pool_keyed (range_of_keys _)) as [H _].
  split; [exact H|]. rewrite H. vm_compute. reflexivity.
Defined.

(** SIM "d" failed twice and is tried again after four hours, SIM "b" is dormant
    and does not answer. *)
Definition waiting_pool : pool :=
  mkPool (<["b" := demo_sim "b" SIMDormant]> {["d" := set_FailCount 2 (demo_sim "d" SIMUnavailable)]}) 0 ∅.

Lemma checkDormant_exact_witness :
  let p' := checkDormant (checker := demo_checker) (λ _, 4 * Hour) (λ _, 4 * Hour + 7) ["d"; "b"] waiting_pool in
  sims p' !! "d" = Some (demo_sim "d" SIMDormant) ∧
  sims p' !! "b" = Some (set_FailCount 1 (demo_sim "b" SIMUnavailable)).
Proof.
  assert (keyed waiting_pool) as Hk.
  { intros k s. unfold waiting_pool. cbn [sims]. rewrite lookup_insert. case_decide; [intros [= <-]; by subst|].
    rewrite lookup_singleton. case_decide; [intros [= <-]; by subst|done]. }
  destruct (checkDormant_exact (H := demo_checker) (λ _, 4 * Hour) (λ _, 4 * Hour + 7) ["d"; "b"] waiting_pool Hk) as (_ & _ & Hx).
  { unfold range_of. vm_compute. apply perm_swap || apply Permutation_refl. }
  split; [specialize (Hx "d")|specialize (Hx "b")]; vm_compute in Hx |- *; exact Hx.
Defined.
