(* ===== verification/SimService.v ===== *)
(** * The camo-simpool process (camo-simpool/api.go, camo-simpool/main.go)

    The socket API, the start-up of the process, and the process as a step
    relation: requests, rotations, the goroutines that wait out the drain
    window, and the single looks and writes of the liveness loops interleave in
    any order.  Every step has its own random draw, clock and checker answer.  The invariant says that sessions and busy SIMs stay linked. *)

From stdpp Require Import base option list gmap strings fin_maps.
From Stdlib Require Import ZArith Lia.
From S2P Require Import Prelude GoFloat SimPool SimRotation SimLiveness.

Local Open Scope Z_scope.

(** ** The API *)

Record simAPIRequest := mkSimReq { Command : string; SessionToken : string }.

Record simAPIResponse := mkSimResp {
  Status : string;
  RespCommand : string;
  RespIMSI : string;
  Total : nat;
  Active : nat;
  Available : nat;
  Message : string
}.

Definition simCmdAllocate : string := "allocate".
Definition simCmdRelease : string := "release".
Definition simCmdStats : string := "stats".

Definition sim_error (cmd msg : string) : simAPIResponse := mkSimResp "error" cmd "" 0 0 0 msg.

(** One line of a connection: [None] is a line [json.Unmarshal] refuses. *)
Definition handleRequest (it : list string) (draw : Z → go Z) (now : Z)
    (req : option simAPIRequest) (p : pool) : go simAPIResponse * pool :=
  match req with
  | None => (Ok (sim_error "" "invalid request"), p)
  | Some r =>
      if bool_decide (Command r = simCmdAllocate) then
        match allocate it draw now (SessionToken r) p with
        | (Ok imsi, p') => (Ok (mkSimResp "ok" (Command r) imsi 0 0 0 ""), p')
        | (Err e, p') => (Ok (sim_error (Command r) e), p')
        | (Panic, p') => (Panic, p')
        end
      else if bool_decide (Command r = simCmdRelease) then
        match release (SessionToken r) p with
        | (Ok _, p') => (Ok (mkSimResp "ok" (Command r) "" 0 0 0 ""), p')
        | (Err e, p') => (Ok (sim_error (Command r) e), p')
        | (Panic, p') => (Panic, p')
        end
      else if bool_decide (Command r = simCmdStats) then
        let '(total, active, available) := stats it p in
        (Ok (mkSimResp "ok" (Command r) "" total active available ""), p)
      else (Ok (sim_error "" "unknown command"), p)
  end.

(** What a request meets: what other goroutines have done to the pool since the
    previous line, the order in which the pool's map is visited, the random draw,
    and the time. *)
Record surroundings := mkSurroundings {
  su_others : pool → pool;
  su_order : pool → list string;
  su_draw : Z → go Z;
  su_now : Z
}.

(** The loop of [handleConn]: the responses it writes, up to a panic; line [i]
    meets [su i]. *)
Fixpoint handleConn (su : nat → surroundings) (lines : list (option simAPIRequest)) (p : pool)
    : list (go simAPIResponse) * pool :=
  match lines with
  | [] => ([], p)
  | l :: ls =>
      let p := su_others (su 0%nat) p in
      match handleRequest (su_order (su 0%nat) p) (su_draw (su 0%nat)) (su_now (su 0%nat)) l p with
      | (Panic, p') => ([Panic], p')
      | (r, p') => let '(rs, p'') := handleConn (λ i, su (S i)) ls p' in (r :: rs, p'')
      end
  end.

(** ** Start-up *)

Record config := mkConfig {
  SIMRotationInterval : Z;
  SIMs : list SIM;
  UseMockChecker : bool
}.

(** The pool [main] builds from the inventory. *)
Definition load_pool (now : Z) (cfg : config) : pool :=
  foldl (λ p sim, add sim p) (newPool now) (SIMs cfg).

(** The checker [main] selects. *)
Definition select_checker (cfg : config) : SIMChecker :=
  if UseMockChecker cfg then noopChecker else noopChecker.

(** ** The process *)

Record proc := mkProc {
  the_pool : pool;
  draining : list (list string);  (* goroutines sleeping in the drain window *)
  monitor : list write            (* writes the liveness goroutine has decided on *)
}.

Inductive label :=
| LRequest (req : option simAPIRequest)
| LInit
| LRotate
| LDrained (i : nat)
| LCheckActive (k : string)
| LCheckDormant (k : string)
| LWrite.

Inductive step : proc → label → proc → Prop :=
| step_request p d m req it draw now r p' :
    range_of (sims p) it → draw_ok draw →
    handleRequest it draw now req p = (Ok r, p') →
    step (mkProc p d m) (LRequest req) (mkProc p' d m)
| step_init p d m it :
    range_of (sims p) it →
    step (mkProc p d m) LInit (mkProc (initActiveSubset it p) d m)
| step_rotate p d m its draw now p' tp tr :
    orders_ok its p → draw_ok draw →
    rotate its draw now p = (p', tp, tr) →
    step (mkProc p d m) LRotate (mkProc p' (if bool_decide (tr = []) then d else d ++ [tr]) m)
| step_drained p d m i tr :
    d !! i = Some tr →
    step (mkProc p d m) (LDrained i) (mkProc (retire tr p) (delete i d) m)
| step_check_active p d (checker : SIMChecker) now k :
    step (mkProc p d []) (LCheckActive k) (mkProc p d (active_writes now p k))
| step_check_dormant p d (checker : SIMChecker) since now k :
    step (mkProc p d []) (LCheckDormant k) (mkProc p d (dormant_writes since now p k))
| step_write p d w m :
    step (mkProc p d (w :: m)) LWrite (mkProc (apply_write p w) d m).

(** A request whose allocation token is not empty and not in use. *)
Definition fresh_token (s : proc) (l : label) : Prop :=
  match l with
  | LRequest (Some r) =>
      Command r = simCmdAllocate →
      SessionToken r ≠ "" ∧ sessions (the_pool s) !! SessionToken r = None
  | _ => True
  end.

(** States reachable from a start state by steps whose tokens are fresh. *)
Inductive reachable (s0 : proc) : proc → Prop :=
| reach_start : reachable s0 s0
| reach_step s l s' : reachable s0 s → fresh_token s l → step s l s' → reachable s0 s'.

(** ** Lemmas *)

Lemma handleRequest_wf it draw now req p r p' d m :
  wf p → fresh_token (mkProc p d m) (LRequest req) →
  handleRequest it draw now req p = (Ok r, p') → wf p'.
Proof.
  intros Hw Hf H. unfold handleRequest in H. destruct req as [q|]; [|by simplify_eq].
  simpl in Hf. case_bool_decide as Hc.
  { destruct (Hf Hc) as [Hne Hfr]. clear Hf.
    destruct (allocate _ _ _ _ _) as [[imsi|e|] p1] eqn:E; simplify_eq.
    - by eapply allocate_wf.
    - unfold allocate in E. by repeat case_match; simplify_eq. }
  case_bool_decide.
  { destruct (release _ _) as [[]] eqn:E; simplify_eq; by eapply release_wf. }
  case_bool_decide; [|by simplify_eq].
  destruct (stats it p) as [[??]?]. by simplify_eq.
Qed.

Lemma initActiveSubset_ident it p :
  range_of (sims p) it →
  ident <$> sims p = ident <$> sims (initActiveSubset it p) ∧
  sessions (initActiveSubset it p) = sessions p.
Proof.
  intros Hit. split; [|done]. unfold initActiveSubset. simpl.
  destruct (promote_until _ _ _ _) as [n m] eqn:E.
  apply promote_until_spec in E as (Hp & _); [|by apply (range_of_NoDup (sims p))].
  by apply promoted_ident.
Qed.

Lemma step_wf s l s' : wf (the_pool s) → fresh_token s l → step s l s' → wf (the_pool s').
Proof.
  intros Hw Hf Hs. destruct Hs as [p d m req it draw now r p' _ _ H|p d m it Hit|p d m its draw now p' tp tr Ho Hd H|
    p d m i tr _|p d checker now k|p d checker since now k|p d w m]; simpl in *; try done.
  - by eapply (handleRequest_wf it draw now req p r p' d m).
  - destruct (initActiveSubset_ident it p Hit). by eapply wf_ident.
  - apply rotate_spec in H as (Hp & Hss & _); [|done..].
    eapply wf_ident; [by apply promoted_ident|done|done].
  - destruct (retire_ident tr p). by eapply wf_ident.
  - destruct (apply_write_ident p w) as [??]. by eapply wf_ident.
Qed.

Lemma reachable_wf s0 s : wf (the_pool s0) → reachable s0 s → wf (the_pool s).
Proof. intros H0 H. induction H; eauto using step_wf. Qed.

(** C5: in every state the process reaches from a consistent pool, under every
    interleaving of requests with fresh tokens, rotations, retirements and the
    single looks and writes of the liveness checks, whatever is drawn and whatever
    the checker answers at each of them, no SIM serves two sessions, every session
    names a SIM that is busy with it, and every busy SIM has its session. *)
Theorem sessions_isolated s0 s :
  wf (the_pool s0) → reachable s0 s →
  (∀ t1 t2 imsi, sessions (the_pool s) !! t1 = Some imsi →
     sessions (the_pool s) !! t2 = Some imsi → t1 = t2) ∧
  (∀ t imsi, sessions (the_pool s) !! t = Some imsi ↔
     t ≠ "" ∧ ∃ c, sims (the_pool s) !! imsi = Some c ∧ CurrentSession c = t).
Proof.
  intros H0 Hr. apply reachable_wf in Hr as [_ [Hl1 Hl2]]; [|done]. split.
  - intros t1 t2 imsi H1 H2. destruct (Hl1 _ _ H1) as [_ (s1 & Hs1 & <-)].
    destruct (Hl1 _ _ H2) as [_ (s2 & Hs2 & <-)]. by simplify_eq.
  - intros t imsi. split; [apply Hl1|]. intros [Hne (c & Hc & <-)]. by apply Hl2.
Qed.

(** ** A SIM that is busy with no session *)

(** The SIM under [imsi] carries the token [t], and no session names the SIM. *)
Record stuck (imsi t : string) (p : pool) : Prop := {
  stuck_keyed : keyed p;
  stuck_sim : ∃ c, sims p !! imsi = Some c ∧ CurrentSession c = t;
  stuck_token : t ≠ "";
  stuck_session : ∀ tok, sessions p !! tok ≠ Some imsi
}.

Lemma stuck_ident imsi t p p' :
  ident <$> sims p = ident <$> sims p' → sessions p' = sessions p → stuck imsi t p → stuck imsi t p'.
Proof.
  intros Hi Hs [Hk (c & Hc & Ht) Hne Hn]. split; [| |done|by rewrite Hs].
  - intros k s Hks. destruct (ident_lookup _ _ _ _ Hi Hks) as (s0 & H0 & <- & _). eauto.
  - destruct (ident_lookup _ _ _ _ (eq_sym Hi) Hc) as (c' & Hc' & _ & E). exists c'. split; [done|congruence].
Qed.

Lemma stuck_request imsi t it draw now req p r p' :
  stuck imsi t p → handleRequest it draw now req p = (Ok r, p') → stuck imsi t p'.
Proof.
  intros Hst H. pose proof Hst as [Hk (c & Hc & Ht) Hne Hn]. unfold handleRequest in H.
  destruct req as [q|]; [|by simplify_eq]. case_bool_decide.
  { destruct (allocate _ _ _ _ _) as [[i|e|] p1] eqn:E; simplify_eq.
    - apply allocate_Ok in E as (k & s & _ & Hs & Ha & -> & ->). apply isAvailable_true in Ha as [_ Hi].
      assert (k ≠ imsi) as Hki by (intros ->; congruence). split; cbn [sims sessions]; [| |done|].
      + intros k' s'. cbn [sims]. rewrite lookup_insert. case_decide; [|apply Hk]. intros [= <-]. subst. exact (Hk _ _ Hs).
      + exists c. by rewrite lookup_insert_ne.
      + intros tok. rewrite lookup_insert. case_decide; [|apply Hn]. rewrite (Hk _ _ Hs). congruence.
    - unfold allocate in E. by repeat case_match; simplify_eq. }
  case_bool_decide; [|case_bool_decide; [destruct (stats it p) as [[??]?]|]; by simplify_eq].
  assert (∃ res, release (SessionToken q) p = (res, p')) as [res E].
  { destruct (release _ _) as [[[]|e|] p1]; simplify_eq; eauto. }
  clear H. unfold release in E. destruct (sessions p !! SessionToken q) as [i|] eqn:Es; [|by simplify_eq].
  assert (i ≠ imsi) as Hi by (intros ->; by apply (Hn (SessionToken q))).
  cbn [sims] in E. destruct (sims p !! i) as [s|] eqn:Ei; simplify_eq; split; cbn [sims sessions set_sims]; try done; try (by exists c).
  - intros k' s'. cbn [sims set_sims]. rewrite lookup_insert. case_decide; [|apply Hk]. intros [= <-]. subst. exact (Hk _ _ Ei).
  - exists c. by rewrite lookup_insert_ne.
  - intros tok. rewrite lookup_delete. case_decide; [done|apply Hn].
  - intros tok. rewrite lookup_delete. case_decide; [done|apply Hn].
Qed.

Lemma stuck_step imsi t s l s' : step s l s' → stuck imsi t (the_pool s) → stuck imsi t (the_pool s').
Proof.
  intros Hs Hst. destruct Hs as [p d m req it draw now r p' _ _ H|p d m it Hit|p d m its draw now p' tp tr Ho Hd H|
    p d m i tr _|p d checker now k|p d checker since now k|p d w m]; simpl in *; try done.
  - by eapply stuck_request.
  - destruct (initActiveSubset_ident it p Hit). by eapply stuck_ident.
  - apply rotate_spec in H as (Hp & Hss & _); [|done..]. eapply stuck_ident; [by apply promoted_ident|done|done].
  - destruct (retire_ident tr p). by eapply stuck_ident.
  - destruct (apply_write_ident p w) as [??]. by eapply stuck_ident.
Qed.

(** ** Start state *)

Lemma foldl_add_wf l p :
  (∀ s, s ∈ l → CurrentSession s = "") → sessions p = ∅ → keyed p →
  (∀ k s, sims p !! k = Some s → CurrentSession s = "") →
  wf (foldl (λ p sim, add sim p) p l).
Proof.
  revert p. induction l as [|x l IH]; intros p Hl Hs Hk Hi; simpl.
  - split; [done|split].
    + intros tok imsi. by rewrite Hs, lookup_empty.
    + intros k s Hks Hne. by apply Hi in Hks.
  - apply IH; [intros s Hin; apply Hl; by right|done|..].
    + intros k s. simpl. rewrite lookup_insert. case_decide; [by intros [= <-]|apply Hk].
    + intros k s. simpl. rewrite lookup_insert. case_decide; [|apply Hi].
      intros [= <-]. exact (Hl x ltac:(left)).
Qed.

(** An inventory in which no SIM starts with a session gives a well-formed
    pool of dormant SIMs with no sessions. *)
Theorem load_pool_wf now cfg :
  (∀ s, s ∈ SIMs cfg → CurrentSession s = "") →
  wf (load_pool now cfg) ∧ sessions (load_pool now cfg) = ∅ ∧
  (∀ k s, sims (load_pool now cfg) !! k = Some s → State s = SIMDormant).
Proof.
  intros Hl. split; [|split].
  - apply foldl_add_wf; [done|done|..]; intros k s; simpl; by rewrite lookup_empty.
  - unfold load_pool. clear Hl. change (∅ : gmap string string) with (sessions (newPool now)).
    generalize (newPool now). induction (SIMs cfg) as [|x l IH]; intros p; simpl; [done|].
    by rewrite IH.
  - unfold load_pool.
    assert (∀ k s, sims (newPool now) !! k = Some s → State s = SIMDormant) as H.
    { intros k s. simpl. by rewrite lookup_empty. }
    revert H. generalize (newPool now). clear Hl.
    induction (SIMs cfg) as [|x l IH]; intros p Hp; simpl; [done|].
    apply IH. intros k s. simpl. rewrite lookup_insert. case_decide; [by intros [= <-]|apply Hp].
Qed.

Definition demo_config : config :=
  mkConfig 480 [demo_sim "a" SIMActive; demo_sim "b" SIMUnavailable; demo_sim "c" SIMDormant] false.

Lemma demo_config_idle s : s ∈ SIMs demo_config → CurrentSession s = "".
Proof. simpl. rewrite !elem_of_cons, elem_of_nil. intros [->|[->|[->|[]]]]; done. Qed.

Lemma load_pool_wf_witness :
  wf (load_pool 5 demo_config) ∧ sessions (load_pool 5 demo_config) = ∅ ∧
  (∀ k s, sims (load_pool 5 demo_config) !! k = Some s → State s = SIMDormant).
Proof. apply (load_pool_wf 5 demo_config demo_config_idle). Defined.

(** A start state that has been initialised: a session gets a SIM, the SIM fails
    its check, is marked unavailable, and recovers hours later. *)
Definition demo_start : proc := mkProc demo_pool [] [].
Definition demo_req : option simAPIRequest := Some (mkSimReq "allocate" "tok").
Definition demo_served : pool := (handleRequest (keys (sims demo_pool)) demo_draw 7 demo_req demo_pool).2.
Definition demo_imsi : string := default "" (sessions demo_served !! "tok").
Definition demo_next : proc := mkProc (markDormant demo_imsi (markUnavailable demo_imsi demo_served)) [] [].

Lemma demo_reachable : reachable demo_start demo_next.
Proof.
  eapply (reach_step _ (mkProc (markUnavailable demo_imsi demo_served) [] [WDormant demo_imsi]) LWrite); [|done|apply step_write].
  eapply (reach_step _ (mkProc (markUnavailable demo_imsi demo_served) [] []) (LCheckDormant demo_imsi)); [|done|].
  2: exact (step_check_dormant (markUnavailable demo_imsi demo_served) [] noopChecker (λ _, 5 * Hour) (λ _, 5 * Hour) demo_imsi).
  eapply (reach_step _ (mkProc demo_served [] [WUnavailable demo_imsi]) LWrite); [|done|apply step_write].
  eapply (reach_step _ (mkProc demo_served [] []) (LCheckActive demo_imsi)); [|done|].
  2: exact (step_check_active demo_served [] (λ _, false) (λ _, 8) demo_imsi).
  eapply (reach_step _ demo_start (LRequest demo_req)); [apply reach_start|by intros _|].
  eapply (step_request demo_pool [] [] demo_req (keys (sims demo_pool)) demo_draw 7);
    [apply range_of_keys|exact demo_draw_ok|vm_compute; reflexivity].
Qed.

Lemma sessions_isolated_witness :
  demo_imsi ≠ "" ∧ ∃ c, sims (the_pool demo_next) !! demo_imsi = Some c ∧ CurrentSession c = "tok".
Proof.
  split; [vm_compute; discriminate|].
  destruct (sessions_isolated demo_start demo_next demo_pool_wf demo_reachable) as [_ H].
  apply (H "tok" demo_imsi). vm_compute. reflexivity.
Defined.

(** ** The API and the checker *)

(** The API never panics and answers by command: an allocation succeeds
    exactly when a SIM is available and otherwise reports the pool's error,
    releasing an unknown session reports that error, unknown commands and
    malformed lines are refused, and neither these nor [stats] change the
    pool. *)
Theorem handleRequest_total it draw now req p :
  range_of (sims p) it → draw_ok draw → (∀ n, 0 < n → ∃ v, draw n = Ok v) →
  ∃ r, (handleRequest it draw now req p).1 = Ok r ∧
    (∀ q, req = Some q → Command q = simCmdAllocate →
       Status r = (if bool_decide (count_values isAvailable (sims p) = 0%nat) then "error" else "ok") ∧
       (count_values isAvailable (sims p) = 0%nat → Message r = errNoAvailableSIM)) ∧
    (∀ q, req = Some q → Command q = simCmdRelease → sessions p !! SessionToken q = None →
       r = sim_error simCmdRelease errSessionNotFound) ∧
    (req = None ∨ (∃ q, req = Some q ∧ Command q ≠ simCmdAllocate ∧ Command q ≠ simCmdRelease) →
       (handleRequest it draw now req p).2 = p).
Proof.
  intros Hit Hd Hv. unfold handleRequest. destruct req as [q|].
  2:{ eexists. split; [done|]. split_and!; by intros. }
  case_bool_decide as Hc.
  { destruct (decide (count_values isAvailable (sims p) = 0%nat)) as [H0|H0].
    - unfold allocate. rewrite (length_select_keys _ _ _ Hit), H0. simpl.
      eexists. split; [done|]. split_and!.
      + intros q' [= <-] _. done.
      + intros q' [= <-] Hq. rewrite Hc in Hq. discriminate Hq.
      + done.
    - destruct (allocate_total it draw now (SessionToken q) p) as (imsi & p' & ->); [done..|]. simpl.
      eexists. split; [done|]. split_and!.
      + intros q' [= <-] _. by rewrite bool_decide_eq_false_2.
      + intros q' [= <-] Hq. rewrite Hc in Hq. discriminate Hq.
      + intros [?|(q' & [= <-] & ? & _)]; done. }
  case_bool_decide as Hr.
  { unfold release. destruct (sessions p !! SessionToken q) as [imsi|] eqn:Es; simpl.
    - destruct (sims p !! imsi); simpl; eexists; (split; [done|]); split_and!;
        [by intros ? [= <-]|intros ? [= <-]; congruence|by intros [?|(? & [= <-] & _ & ?)]|
         by intros ? [= <-]|intros ? [= <-]; congruence|by intros [?|(? & [= <-] & _ & ?)]].
    - eexists. split; [done|]. rewrite Hr. split_and!; [by intros ? [= <-]|by intros ? [= <-]|done]. }
  case_bool_decide as Hs.
  - destruct (stats it p) as [[??]?]. simpl. eexists. split; [done|].
    split_and!; [by intros ? [= <-]|by intros ? [= <-]|done].
  - simpl. eexists. split; [done|]. split_and!; [by intros ? [= <-]|by intros ? [= <-]|done].
Qed.

Lemma handleRequest_total_witness :
  ∃ r, (handleRequest (keys (sims demo_pool)) demo_draw 7 demo_req demo_pool).1 = Ok r ∧ Status r = "ok".
Proof.
  destruct (handleRequest_total (keys (sims demo_pool)) demo_draw 7 demo_req demo_pool
              (range_of_keys _) demo_draw_ok ltac:(intros n Hn; by exists 0)) as (r & Hr & Ha & _).
  exists r. split; [exact Hr|]. destruct (Ha _ eq_refl eq_refl) as [-> _]. vm_compute. reflexivity.
Defined.
