(* ===== verification/SimMain.v ===== *)
(** * The camo-simpool program (camo-simpool/main.go, api.go)

    The socket protocol in bytes, the inventory file, and start-up. *)

From Stdlib Require Import ZArith Lia Ascii String.
From stdpp Require Import base option list gmap strings pretty fin_maps relations.
From S2P Require Import Prelude GoFloat GoText GoUtf8 GoTime GoJson GoJsonRead GoNumber GoTimeParse.
From S2P Require Import GoJsonDecode GoLines GoService SimPool SimRotation SimLiveness SimService.

(** ** The socket *)

Definition dec_sim_request : decoder simAPIRequest :=
  struct [field "command" dec_string; field "session_token" dec_string] (λ r vs,
    mkSimReq (get_field "command" dec_string (Command r) vs) (get_field "session_token" dec_string (SessionToken r) vs)).

Definition sim_response_json (r : simAPIResponse) : jval :=
  JObj ([("status", JStr (Status r)); ("command", JStr (RespCommand r))] ++ omitempty "imsi" (RespIMSI r) ++
        omit_zero "total" (Z.of_nat (Total r)) ++ omit_zero "active" (Z.of_nat (Active r)) ++
        omit_zero "available" (Z.of_nat (Available r)) ++ omitempty "message" (Message r)).

Definition sim_line (r : go simAPIResponse) : list ascii :=
  match r with Ok r => encode_line (sim_response_json r) | _ => [] end.

(** [handleConn] on the bytes of a connection. *)
Definition serve_sim (su : nat → surroundings) (bytes : list ascii) (p : pool) : list ascii * pool :=
  let '(rs, p') := handleConn su (requests dec_sim_request (mkSimReq "" "") bytes) p in (rs ≫= sim_line, p').

(** ** The inventory file *)

Definition zero_sim : SIM := mkSIM "" "" "" "" SIMActive (unix_ns zero_time) (unix_ns zero_time) 0 "".

(** A state in the file must be an integer; which one does not matter, [add]
    overwrites it. *)
Definition dec_sim : decoder SIM :=
  struct [field "imsi" dec_string; field "carrier" dec_string; field "jurisdiction" dec_string; field "apn" dec_string;
          field "state" dec_int; field "last_health_check" dec_time; field "last_active" dec_time;
          field "fail_count" dec_int; field "current_session" dec_string] (λ s vs,
    mkSIM (get_field "imsi" dec_string (IMSI s) vs) (get_field "carrier" dec_string (Carrier s) vs)
      (get_field "jurisdiction" dec_string (Jurisdiction s) vs) (get_field "apn" dec_string (APN s) vs) (State s)
      (unix_ns (get_field "last_health_check" dec_time (mkTime (LastHealthCheck s) 0) vs))
      (unix_ns (get_field "last_active" dec_time (mkTime (LastActive s) 0) vs))
      (get_field "fail_count" dec_int (FailCount s) vs)
      (get_field "current_session" dec_string (CurrentSession s) vs)).

Definition default_sim_config : config := mkConfig 480 [] false.

Definition dec_sim_config : decoder config :=
  struct [field "sim_rotation_interval" dec_int; field "sims" (dec_structs zero_sim dec_sim);
          field "use_mock_checker" dec_bool] (λ c vs,
    mkConfig (get_field "sim_rotation_interval" dec_int (SIMRotationInterval c) vs)
      (default [] (get_field "sims" (dec_structs zero_sim dec_sim) None vs))
      (get_field "use_mock_checker" dec_bool (UseMockChecker c) vs)).

Definition loadSimpoolConfig (file : read_result) : go config := load_required dec_sim_config default_sim_config file.

(** ** Start-up *)

Record sim_env := mkSimEnv {
  se_config : read_result;     (* /etc/camo/simpool.json *)
  se_now : Z;
  se_remove : go unit;         (* the stale socket *)
  se_mkdir : go unit;
  se_bind : go unit
}.

Definition sim_listen (env : sim_env) : go unit := open_socket (se_remove env) (se_mkdir env) (se_bind env).

(** The program runs with its rotation interval, its checker and its pool. *)
Definition sim_main (env : sim_env) : status (Z * SIMChecker * pool) :=
  or_exit (loadSimpoolConfig (se_config env)) (λ cfg,
  or_exit (newRotator (SIMRotationInterval cfg)) (λ interval,
  or_exit (sim_listen env) (λ _, Running (interval, select_checker cfg, load_pool (se_now env) cfg)))).

(** ** Lemmas *)

Lemma allocate_calm it draw now tok p :
  range_of (sims p) it → draw_ok draw → (allocate it draw now tok p).1 ≠ Panic.
Proof.
  intros Hit Hd. unfold allocate. set (cs := select_keys isAvailable (sims p) it). case_bool_decide as Hc; [done|].
  unfold randomInt. rewrite bool_decide_eq_false_2 by lia.
  destruct (Hd (Z.of_nat (length cs)) ltac:(lia)) as [Hp Hr].
  destruct (draw (Z.of_nat (length cs))) as [v|e|] eqn:Ev; [|done..]. specialize (Hr v eq_refl).
  rewrite bool_decide_eq_true_2 by lia.
  destruct (lookup_lt_is_Some_2 cs (Z.to_nat v)) as [k Ek]; [lia|]. rewrite Ek.
  by apply list_elem_of_lookup_2, elem_of_select_keys in Ek as (_ & s & -> & _).
Qed.

Lemma handleRequest_answers it draw now req p :
  range_of (sims p) it → draw_ok draw → ∃ r, (handleRequest it draw now req p).1 = Ok r.
Proof.
  intros Hit Hd. unfold handleRequest. destruct req as [q|]; [|by eexists]. repeat case_bool_decide; [| | |by eexists].
  - pose proof (allocate_calm it draw now (SessionToken q) p Hit Hd) as Ha.
    destruct (allocate _ _ _ _ _) as [[imsi|e|] p']; [by eexists..|done].
  - destruct (release _ _) as [[[]|e|] p'] eqn:E; [by eexists..|]. unfold release in E. by repeat case_match.
  - destruct (stats it p) as [[??]?]. by eexists.
Qed.

Lemma sim_response_fits r : fits max_depth (sim_response_json r).
Proof.
  apply fits_obj. split; [done|]. rewrite !Forall_app.
  split_and!; [by repeat constructor|apply omitempty_fits|apply omit_zero_fits..|apply omitempty_fits].
Qed.

(** Every pool the API can be asked about is visited in an order of its map, and
    the random source draws below its bound or fails. *)
Definition surroundings_ok (su : nat → surroundings) : Prop :=
  ∀ i, (∀ p, range_of (sims p) (su_order (su i) p)) ∧ draw_ok (su_draw (su i)).

(** [ps] are the pools before the first line, after it, and so on. *)
Definition answered (su : nat → surroundings) (lines : list (option simAPIRequest)) (rs : list simAPIResponse) (ps : list pool)
    : Prop :=
  length rs = length lines ∧ length ps = S (length lines) ∧
  ∀ i req, lines !! i = Some req →
    ∃ r q q', rs !! i = Some r ∧ ps !! i = Some q ∧ ps !! S i = Some q' ∧
      let q1 := su_others (su i) q in
      handleRequest (su_order (su i) q1) (su_draw (su i)) (su_now (su i)) req q1 = (Ok r, q').

Lemma handleConn_answers su lines p :
  surroundings_ok su →
  ∃ rs ps p', handleConn su lines p = (Ok <$> rs, p') ∧ answered su lines rs ps ∧ ps !! 0 = Some p ∧ ps !! length lines = Some p'.
Proof.
  revert su p. induction lines as [|l ls IH]; intros su p Hsu; [by exists [], [p], p|]. cbn [handleConn]. cbv zeta.
  destruct (Hsu 0%nat) as [Ho Hd]. set (p0 := su_others (su 0%nat) p).
  destruct (handleRequest_answers _ _ (su_now (su 0%nat)) l p0 (Ho p0) Hd) as [r Hr].
  destruct (handleRequest _ _ _ l p0) as [res p1] eqn:E. cbn [fst] in Hr. subst res.
  destruct (IH (λ i, su (S i)) p1) as (rs & ps & p' & -> & (Hl & Hl' & Ha) & H0 & Hlast); [by intros i; apply Hsu|].
  exists (r :: rs), (p :: ps), p'. split_and!; [done| |done|exact Hlast].
  split_and!; [by cbn; f_equal|by cbn; f_equal|]. intros [|i] req Hi; [|by apply Ha].
  injection Hi as <-. by exists r, p, p1.
Qed.

(** C33: the pool's socket answers every line in order: whatever bytes a client
    sends, and whatever other goroutines do to the pool between its lines, the
    bytes written back are one line of JSON per line received, and the answer to
    line [i] is the response [handleRequest] gives to the request decoded from
    line [i] in the pool that line finds; no request can take the process down. *)
Theorem sim_answers_every_line su bytes p :
  surroundings_ok su →
  ∃ rs ps, pieces (serve_sim su bytes p).1 = marshal <$> (sim_response_json <$> rs) ∧
    length rs = length (scan_lines bytes) ∧ answered su (requests dec_sim_request (mkSimReq "" "") bytes) rs ps ∧
    ps !! 0 = Some p ∧ ps !! length (scan_lines bytes) = Some (serve_sim su bytes p).2.
Proof.
  intros Hsu. destruct (handleConn_answers su (requests dec_sim_request (mkSimReq "" "") bytes) p Hsu)
    as (rs & ps & p' & E & Ha & H0 & Hlast).
  assert (length (requests dec_sim_request (mkSimReq "" "") bytes) = length (scan_lines bytes)) as Hlen
    by (unfold requests; by rewrite length_fmap).
  exists rs, ps. unfold serve_sim. rewrite E. cbn [fst snd]. rewrite Hlen in Hlast. split_and!; try done; [|by destruct Ha as [-> _]].
  assert ((Ok <$> rs) ≫= sim_line = (sim_response_json <$> rs) ≫= encode_line) as ->.
  { clear. induction rs as [|r rs IH]; [done|]. rewrite !fmap_cons, !bind_cons, IH. done. }
  apply pieces_encoded, Forall_fmap, Forall_true. intros r. eapply fits_wf, sim_response_fits.
Qed.

(** The pool after loading an inventory: the last SIM with an IMSI stays. *)
Lemma load_pool_lookup now cfg imsi :
  sims (load_pool now cfg) !! imsi = set_State SIMDormant <$> last (filter (λ s, IMSI s = imsi) (SIMs cfg)).
Proof.
  unfold load_pool. induction (SIMs cfg) as [|s l IH] using rev_ind; [done|].
  rewrite foldl_snoc, filter_app, filter_cons, filter_nil. unfold add at 1. cbn [sims set_sims]. rewrite lookup_insert.
  case_decide.
  - by rewrite last_snoc.
  - by rewrite app_nil_r.
Qed.

Lemma load_pool_sessions now cfg : sessions (load_pool now cfg) = ∅ ∧ lastRotation (load_pool now cfg) = now.
Proof. unfold load_pool. by induction (SIMs cfg) as [|s l [IH1 IH2]] using rev_ind; rewrite ?foldl_snoc. Qed.

(** C34: a running SIM pool has the inventory of its configuration file: under
    each IMSI exactly the last SIM the file lists with it, every field as in the
    file (a session token the file gives included) but the state, which is
    dormant; the map of sessions is empty and the rotation interval positive; a
    file that is missing or not a JSON object of the right types ends it with code
    1, an interval that overflows 64 bits to a negative one with code 2. *)
Theorem simpool_startup env :
  se_mkdir env ≠ Panic → se_bind env ≠ Panic →
  match sim_main env with
  | Running (interval, checker, p) =>
      ∃ data v cfg, se_config env = ReadOk data ∧ json_text v data ∧ dec_err dec_sim_config v = false ∧
        cfg = dec_into dec_sim_config default_sim_config [v] ∧ (0 < interval)%Z ∧
        (∀ imsi, sims p !! imsi = set_State SIMDormant <$> last (filter (λ s, IMSI s = imsi) (SIMs cfg))) ∧
        sessions p = ∅ ∧ lastRotation p = se_now env
  | Exited c =>
      (c = 1%Z ∧ ((∀ cfg, loadSimpoolConfig (se_config env) ≠ Ok cfg) ∨ ∃ e, sim_listen env = Err e)) ∨
      (c = 2%Z ∧ ∃ cfg, loadSimpoolConfig (se_config env) = Ok cfg ∧
         (0 < SIMRotationInterval cfg)%Z ∧ (wrap64 (SIMRotationInterval cfg * Second) ≤ 0)%Z)
  end.
Proof.
  intros Hm Hb. unfold sim_main, loadSimpoolConfig. destruct (load_required _ _ _) as [cfg|e|] eqn:El; cbn [or_exit]; [|left; by eauto|].
  2: { exfalso. unfold load_required, decode_config in El. destruct (se_config env); [|done..]. by destruct (Unmarshal _ _ _) as [? []]. }
  unfold newRotator. cbv zeta. set (iv := if bool_decide (0 < _)%Z then _ else _). case_bool_decide as Hiv; cbn [or_exit].
  { right. split; [done|]. exists cfg. split; [done|]. unfold iv in Hiv. case_bool_decide; [done|].
    unfold simRotationInterval, Second in Hiv. lia. }
  destruct (sim_listen env) as [[]|e|] eqn:Es; cbn [or_exit]; [|left; by eauto|].
  2: { exfalso. unfold sim_listen, open_socket in Es. by destruct (se_mkdir env). }
  unfold load_required in El. destruct (se_config env) as [data| |e]; [|done..]. apply decode_config_Ok in El as (v & Hv & He & Hc).
  exists data, v, cfg. destruct (load_pool_sessions (se_now env) cfg). split_and!; try done; [lia|]. apply load_pool_lookup.
Qed.

(** C40: a SIM that the configuration file lists with a session token is lost to
    the pool: whatever requests, rotations and checks follow, with whatever
    tokens, it stays busy with that token, is never available, and no session ever
    names it, so that no release can free it. *)
Theorem listed_session_stuck env interval checker p0 imsi c s :
  sim_main env = Running (interval, checker, p0) → sims p0 !! imsi = Some c → CurrentSession c ≠ "" →
  rtc (λ s s', ∃ l, step s l s') (mkProc p0 [] []) s →
  ∃ c', sims (the_pool s) !! imsi = Some c' ∧ CurrentSession c' = CurrentSession c ∧ isAvailable c' = false ∧
    ∀ tok, sessions (the_pool s) !! tok ≠ Some imsi.
Proof.
  intros Hm Hc Hne Hr. assert (stuck imsi (CurrentSession c) p0) as Hst.
  { unfold sim_main in Hm. apply or_exit_Running in Hm as (cfg & _ & Hm). apply or_exit_Running in Hm as (iv & _ & Hm).
    apply or_exit_Running in Hm as ([] & _ & Hm). injection Hm as <- <- <-.
    split; [|eauto|done|].
    - intros k s0. rewrite load_pool_lookup. intros (s1 & Hl & ->)%fmap_Some. cbn. apply last_Some in Hl as (l' & Hl).
      assert (s1 ∈ filter (λ s, IMSI s = k) (SIMs cfg)) as Hin by (rewrite Hl; apply elem_of_app; right; by left).
      by apply list_elem_of_filter in Hin as [? _].
    - intros tok. destruct (load_pool_sessions (se_now env) cfg) as [-> _]. by rewrite lookup_empty. }
  clear Hm Hc. assert (stuck imsi (CurrentSession c) (the_pool s)) as [_ (c' & Hc' & Ht) _ Hn].
  { remember (mkProc p0 [] []) as s0 eqn:E0. replace p0 with (the_pool s0) in Hst by (by subst). clear E0.
    induction Hr as [|s0 s1 s2 [l Hs] _ IH]; [done|]. by eapply IH, stuck_step. }
  exists c'. split_and!; [done..| |done]. unfold isAvailable. rewrite Ht. rewrite (bool_decide_false (CurrentSession c = "")) by done.
  apply andb_false_r.
Qed.

(** ** Witnesses *)

Definition even_surroundings : nat → surroundings := λ i, mkSurroundings (λ p, p) (λ p, keys (sims p)) demo_draw (Z.of_nat i).

Lemma even_surroundings_ok : surroundings_ok even_surroundings.
Proof. intros i. split; [intros p; apply range_of_keys|exact demo_draw_ok]. Qed.

Definition sim_session : list ascii :=
  qt "{'command':'allocate','session_token':'tok'}" ++ [newline] ++ qt "{'command':7}" ++ [newline] ++ qt "{'command':'stats'}".

Lemma sim_answers_every_line_witness : length (pieces (serve_sim even_surroundings sim_session demo_pool).1) = 3%nat.
Proof.
  destruct (sim_answers_every_line even_surroundings sim_session demo_pool even_surroundings_ok) as (rs & ps & -> & Hl & _).
  rewrite !length_fmap, Hl. vm_compute. reflexivity.
Defined.

(** The inventory of deploy/config.example, with a third SIM that repeats an IMSI. *)
Definition sim_file : list ascii :=
  qt "{'sim_rotation_interval':480,'use_mock_checker':false,'sims':[{'imsi':'204080123456789','carrier':'1NCE','jurisdiction':'NL','apn':'iot.1nce.net'},{'imsi':'204080987654321','carrier':'1NCE','jurisdiction':'NL','apn':'iot.1nce.net','state':2},{'imsi':'204080987654321','carrier':'other'}]}".

Lemma simpool_startup_witness :
  ∃ interval checker p, sim_main (mkSimEnv (ReadOk sim_file) 5 (Ok ()) (Ok ()) (Ok ())) = Running (interval, checker, p) ∧
    size (sims p) = 2%nat ∧ sessions p = ∅ ∧ (0 < interval)%Z.
Proof.
  pose proof (simpool_startup (mkSimEnv (ReadOk sim_file) 5 (Ok ()) (Ok ()) (Ok ())) ltac:(discriminate) ltac:(discriminate)) as H.
  destruct (sim_main _) as [[[interval checker] p]|c] eqn:E.
  - exists interval, checker, p. split; [reflexivity|]. destruct H as (data & v & cfg & _ & _ & _ & _ & Hi & _ & Hs & _).
    split; [|split; [exact Hs|exact Hi]].
    apply (f_equal (λ s, match s with Running (_, _, p) => size (sims p) | _ => 0%nat end)) in E. rewrite <-E. vm_compute. reflexivity.
  - exfalso. apply (f_equal (λ s, match s with Running _ => true | _ => false end)) in E. vm_compute in E. discriminate E.
Defined.

(** A file that lists a SIM as busy. *)
Definition busy_file : list ascii := qt "{'sims':[{'imsi':'204080123456789','current_session':'tok'}]}".

Definition busy_sim : SIM :=
  mkSIM "204080123456789" "" "" "" SIMDormant (unix_ns zero_time) (unix_ns zero_time) 0 "tok".

Lemma listed_session_stuck_witness :
  ∃ iv ck p0 c', sim_main (mkSimEnv (ReadOk busy_file) 5 (Ok ()) (Ok ()) (Ok ())) = Running (iv, ck, p0) ∧
    sims (initActiveSubset ["204080123456789"] p0) !! "204080123456789" = Some c' ∧ isAvailable c' = false.
Proof.
  destruct (sim_main (mkSimEnv (ReadOk busy_file) 5 (Ok ()) (Ok ()) (Ok ()))) as [[[iv ck] p0]|x] eqn:E.
  2: { exfalso. apply (f_equal (λ s, match s with Running _ => true | _ => false end)) in E. vm_compute in E. discriminate E. }
  assert (p0 = mkPool {["204080123456789" := busy_sim]} 5 ∅) as Hp.
  { apply (f_equal (λ s, match s with Running (_, _, p) => p | _ => newPool 0 end)) in E. rewrite <-E. vm_compute. reflexivity. }
  destruct (listed_session_stuck _ iv ck p0 "204080123456789" busy_sim
    (mkProc (initActiveSubset ["204080123456789"] p0) [] []) E) as (c' & Hc & _ & Ha & _).
  - rewrite Hp. vm_compute. reflexivity.
  - vm_compute. discriminate.
  - apply rtc_once. exists LInit. apply step_init. rewrite Hp. unfold range_of. vm_compute. apply Permutation_refl.
  - exists iv, ck, p0, c'. split; [reflexivity|split; [exact Hc|exact Ha]].
Defined.
