(* ===== verification/CircuitStore.v ===== *)
(** * Circuits and the circuit store (camo-circuit/circuit.go)

    The records of a circuit, the store with its index by session token, and the
    generation of session tokens.  A stored [*Circuit] is never written through,
    so a pointer is represented by the record itself. *)

From Stdlib Require Import ZArith Lia Strings.Byte.
From stdpp Require Import base option list gmap strings fin_maps.
From S2P Require Import Prelude GoBase64.

(** ** Data *)

Definition chainRotationInterval : Z := 600 * Second.
Definition minHops : nat := 3.
Definition maxHops : nat := 5.
Definition sessionTokenLen : nat := 16.

Record Hop := mkHop {
  HopServerID : string;
  WireGuardAddress : string;
  WireGuardPubKey : string;
  HopJurisdiction : string;
  HopIndex : nat;
  IsExit : bool
}.

Record Circuit := mkCircuit {
  CircuitID : string;
  DeviceIMSI : string;
  SessionToken : string;
  Hops : list Hop;
  CreatedAt : Z;
  RotateAt : Z
}.

Record SessionTableEntry := mkSessionTableEntry {
  EntrySessionToken : string;
  ForwardPeer : string;
  ReturnPeer : string;
  EntryCreatedAt : Z;
  EntryIsExit : bool
}.

#[export] Instance Hop_eq_dec : EqDecision Hop.
Proof. solve_decision. Defined.
#[export] Instance Circuit_eq_dec : EqDecision Circuit.
Proof. solve_decision. Defined.

Record circuitStore := mkCircuitStore {
  circuits : gmap string Circuit;  (* keyed by IMSI *)
  byToken : gmap string Circuit    (* keyed by session token *)
}.

(** ** Operations *)

Definition newCircuitStore : circuitStore := mkCircuitStore ∅ ∅.

Definition put (c : Circuit) (s : circuitStore) : circuitStore :=
  let byToken1 :=
    match circuits s !! DeviceIMSI c with
    | Some old => delete (SessionToken old) (byToken s)
    | None => byToken s
    end in
  mkCircuitStore (<[DeviceIMSI c := c]> (circuits s)) (<[SessionToken c := c]> byToken1).

Definition getByIMSI (imsi : string) (s : circuitStore) : option Circuit := circuits s !! imsi.

Definition remove (imsi : string) (s : circuitStore) : circuitStore :=
  match circuits s !! imsi with
  | Some c => mkCircuitStore (delete imsi (circuits s)) (delete (SessionToken c) (byToken s))
  | None => s
  end.

(** [all] ranges over the map in the order [it]. *)
Definition all (it : list string) (s : circuitStore) : list Circuit := range_values (circuits s) it.

Definition count (s : circuitStore) : nat := size (circuits s).

(** [rand.Read] errors carry a message of the operating system; the model names it. *)
Definition rand_error : string := "rand: read error".

Definition newSessionToken : M string := λ ent,
  let '(b, ok, ent') := rand_Read sessionTokenLen ent in
  if ok then (Ok (EncodeToString StdEncoding b), ent') else (Err rand_error, ent').

(** A history of the store. *)
Inductive store_op := OpPut (c : Circuit) | OpRemove (imsi : string).

Definition apply_op (s : circuitStore) (o : store_op) : circuitStore :=
  match o with OpPut c => put c s | OpRemove imsi => remove imsi s end.

Definition put_tokens (ops : list store_op) : list string :=
  omap (λ o, match o with OpPut c => Some (SessionToken c) | OpRemove _ => None end) ops.

(** ** Invariants *)

Definition circuits_keyed (s : circuitStore) : Prop :=
  ∀ imsi c, circuits s !! imsi = Some c → DeviceIMSI c = imsi.

(** Every token leads to a live circuit that carries it. *)
Definition index_sound (s : circuitStore) : Prop :=
  ∀ tok c, byToken s !! tok = Some c → SessionToken c = tok ∧ circuits s !! DeviceIMSI c = Some c.

(** Every live circuit is found by its token. *)
Definition index_complete (s : circuitStore) : Prop :=
  ∀ imsi c, circuits s !! imsi = Some c → byToken s !! SessionToken c = Some c.

Lemma put_sound c s :
  circuits_keyed s → index_sound s → circuits_keyed (put c s) ∧ index_sound (put c s).
Proof.
  intros Hk Hs. split.
  - intros imsi c'. simpl. rewrite lookup_insert. case_decide; [by intros [= <-]|apply Hk].
  - intros tok c'. simpl. rewrite !lookup_insert. case_decide as Ht.
    { intros [= <-]. by rewrite decide_True. }
    intros H. destruct (circuits s !! DeviceIMSI c) as [old|] eqn:Eo.
    + apply lookup_delete_Some in H as [Hne H]. destruct (Hs _ _ H) as [<- Hc]. split; [done|].
      rewrite decide_False; [done|]. intros E. rewrite <-E, Eo in Hc. by simplify_eq.
    + destruct (Hs _ _ H) as [<- Hc]. split; [done|].
      rewrite decide_False; [done|]. intros E. by rewrite <-E, Eo in Hc.
Qed.

Lemma remove_sound imsi s :
  circuits_keyed s → index_sound s → circuits_keyed (remove imsi s) ∧ index_sound (remove imsi s).
Proof.
  intros Hk Hs. unfold remove. destruct (circuits s !! imsi) as [c|] eqn:E; [|done]. split.
  - intros k c'. simpl. intros [_ H]%lookup_delete_Some. by apply Hk.
  - intros tok c'. simpl. intros [Hne H]%lookup_delete_Some. destruct (Hs _ _ H) as [<- Hc].
    split; [done|]. rewrite lookup_delete_ne; [done|]. intros ->. rewrite E in Hc. by simplify_eq.
Qed.

Lemma apply_op_sound s o :
  circuits_keyed s → index_sound s → circuits_keyed (apply_op s o) ∧ index_sound (apply_op s o).
Proof. destruct o; [apply put_sound|apply remove_sound]. Qed.

Lemma foldl_sound ops s :
  circuits_keyed s → index_sound s →
  circuits_keyed (foldl apply_op s ops) ∧ index_sound (foldl apply_op s ops).
Proof.
  revert s. induction ops as [|o ops IH]; intros s Hk Hs; simpl; [done|].
  destruct (apply_op_sound s o Hk Hs). by apply IH.
Qed.

Lemma newCircuitStore_sound :
  circuits_keyed newCircuitStore ∧ index_sound newCircuitStore ∧ index_complete newCircuitStore.
Proof. split_and!; intros ??; simpl; by rewrite lookup_empty. Qed.

(** A token no live circuit carries keeps the index complete. *)
Lemma put_complete c s :
  circuits_keyed s → index_complete s →
  (∀ imsi c', circuits s !! imsi = Some c' → SessionToken c' ≠ SessionToken c) →
  (∀ i j ci cj, circuits s !! i = Some ci → circuits s !! j = Some cj →
     SessionToken ci = SessionToken cj → i = j) →
  index_complete (put c s).
Proof.
  intros Hk Hc Hf Hu imsi c'. simpl. rewrite !lookup_insert. case_decide.
  { intros [= <-]. by rewrite decide_True. }
  intros H'. rewrite decide_False by (by apply not_eq_sym, (Hf imsi)).
  pose proof (Hc _ _ H') as Ht. destruct (circuits s !! DeviceIMSI c) as [old|] eqn:Eo; [|done].
  rewrite lookup_delete_ne; [done|]. intros E. by rewrite (Hu _ _ _ _ Eo H' E) in *.
Qed.

Lemma remove_complete imsi s :
  index_complete s →
  (∀ i j ci cj, circuits s !! i = Some ci → circuits s !! j = Some cj →
     SessionToken ci = SessionToken cj → i = j) →
  index_complete (remove imsi s).
Proof.
  intros Hc Hu. unfold remove. destruct (circuits s !! imsi) as [c|] eqn:E; [|done].
  intros k c'. simpl. intros [Hne H]%lookup_delete_Some.
  rewrite lookup_delete_ne; [by apply (Hc k)|]. intros Et. by apply Hne, (Hu _ _ _ _ E H).
Qed.

(** Complete and sound indexes have distinct tokens. *)
Lemma tokens_distinct s i j ci cj :
  circuits_keyed s → index_complete s → circuits s !! i = Some ci → circuits s !! j = Some cj →
  SessionToken ci = SessionToken cj → i = j.
Proof.
  intros Hk Hc Hi Hj E. pose proof (Hc _ _ Hi) as H1. rewrite E, (Hc _ _ Hj) in H1.
  injection H1 as ->. by rewrite <-(Hk _ _ Hi), <-(Hk _ _ Hj).
Qed.

Lemma foldl_complete ops s :
  circuits_keyed s → index_sound s → index_complete s → NoDup (put_tokens ops) →
  (∀ imsi c, circuits s !! imsi = Some c → SessionToken c ∉ put_tokens ops) →
  index_complete (foldl apply_op s ops).
Proof.
  revert s. induction ops as [|o ops IH]; intros s Hk Hs Hc Hnd Hf; simpl; [done|].
  destruct (apply_op_sound s o Hk Hs) as [Hk' Hs'].
  destruct o as [c|imsi]; simpl in *.
  - apply NoDup_cons in Hnd as [Hni Hnd]. apply IH; [done|done| |done|].
    + apply put_complete; [done|done| |].
      * intros imsi c' H E. apply (Hf _ _ H). rewrite E. left.
      * intros. by eapply (tokens_distinct s).
    + intros imsi c'. simpl. rewrite lookup_insert. case_decide as Hd; [by intros [= <-]|].
      intros H Hin. apply (Hf _ _ H). by right.
  - apply IH; [done|done| |done|].
    + apply remove_complete; [done|]. intros. by eapply (tokens_distinct s).
    + intros k c'. unfold remove. destruct (circuits s !! imsi); simpl; [|apply Hf].
      intros [_ H]%lookup_delete_Some. by apply (Hf k).
Qed.

(** ** Properties *)

(** After any history of puts and removals, each circuit is stored under its
    own device, and the token index never leads to a circuit that was replaced
    or removed: what it returns carries the token and is the live circuit of its
    device. *)
Theorem token_index_sound ops :
  circuits_keyed (foldl apply_op newCircuitStore ops) ∧
  index_sound (foldl apply_op newCircuitStore ops).
Proof. apply foldl_sound; apply newCircuitStore_sound. Qed.

(** C14: when no token is used twice, the token index is exactly the inverse of
    the store: a token leads to a circuit if and only if that circuit is live
    and carries it. *)
Theorem token_index_exact ops tok c :
  NoDup (put_tokens ops) →
  byToken (foldl apply_op newCircuitStore ops) !! tok = Some c ↔
  circuits (foldl apply_op newCircuitStore ops) !! DeviceIMSI c = Some c ∧ SessionToken c = tok.
Proof.
  intros Hnd. destruct newCircuitStore_sound as (Hk & Hs & Hc).
  destruct (foldl_sound ops _ Hk Hs) as [_ Hs']. split.
  - intros [<- ?]%Hs'. done.
  - intros [H <-]. eapply foldl_complete; [done..| |done].
    intros imsi c'. simpl. by rewrite lookup_empty.
Qed.

Definition demo_circuit (imsi tok : string) : Circuit := mkCircuit "id" imsi tok [] 0 0.
Definition demo_ops : list store_op :=
  [OpPut (demo_circuit "i1" "t1"); OpPut (demo_circuit "i2" "t2"); OpPut (demo_circuit "i1" "t3");
   OpRemove "i2"].

Lemma token_index_exact_witness :
  byToken (foldl apply_op newCircuitStore demo_ops) !! "t3" = Some (demo_circuit "i1" "t3").
Proof.
  apply (token_index_exact demo_ops "t3" (demo_circuit "i1" "t3")).
  - refine (bool_decide_unpack _ _). vm_compute. exact I.
  - split; vm_compute; reflexivity.
Defined.

(** Each device has exactly one circuit: putting a circuit makes it the one
    of its device, leaves every other device alone, and the count grows only for
    a new device; removing undoes it. *)
Theorem put_get_remove c imsi s :
  getByIMSI imsi (put c s) = (if decide (DeviceIMSI c = imsi) then Some c else getByIMSI imsi s) ∧
  getByIMSI imsi (remove (DeviceIMSI c) (put c s)) =
    (if decide (DeviceIMSI c = imsi) then None else getByIMSI imsi s) ∧
  count (put c s) = (if getByIMSI (DeviceIMSI c) s is Some _ then count s else S (count s)).
Proof.
  unfold getByIMSI, count. split_and!.
  - simpl. by rewrite lookup_insert.
  - unfold remove. simpl. rewrite lookup_insert_eq. simpl.
    rewrite lookup_delete. case_decide; [done|]. by rewrite lookup_insert_ne.
  - simpl. destruct (circuits s !! DeviceIMSI c) eqn:E; simpl.
    + rewrite map_size_insert. by rewrite E.
    + rewrite map_size_insert. by rewrite E.
Qed.

(** A generated session token encodes exactly 16 random bytes, so distinct
    draws give distinct tokens, and generation fails exactly when fewer than 16
    bytes can be read. *)
Theorem newSessionToken_spec (ent : entropy) :
  (length ent < 16 → newSessionToken ent = (Err rand_error, [])) ∧
  (16 ≤ length ent → ∃ tok, newSessionToken ent = (Ok tok, drop 16 ent) ∧ tok ≠ "" ∧
     DecodeString StdEncoding tok = Some (take 16 ent)).
Proof.
  unfold newSessionToken, rand_Read, sessionTokenLen. split; intros Hl.
  - rewrite bool_decide_eq_false_2 by lia. by rewrite drop_ge by lia.
  - rewrite bool_decide_eq_true_2 by lia. replace (16 - length ent) with 0 by lia.
    simpl replicate. rewrite app_nil_r. eexists. split; [done|]. split.
    + apply EncodeToString_nonempty; [apply _|]. intros E.
      apply (f_equal length) in E. rewrite length_take in E. cbn [length] in E. lia.
    + apply Decode_Encode. apply _.
Qed.
