(* ===== verification/CircuitConstructor.v ===== *)
(** * Circuit construction (camo-circuit/constructor.go, [randomInt] of main.go)

    The construction draws all its randomness from one entropy source, so every
    definition that draws is a computation of the entropy monad.  The insertion
    sort works on the array by index, as the code does. *)

From Stdlib Require Import ZArith Lia Ascii String Strings.Byte.
From stdpp Require Import base option list gmap strings fin_maps sorting.
From S2P Require Import Prelude GoFloat GoBase64 CircuitStore.

(** ** Data *)

Definition minNetworkSize : nat := 3.
Definition minJurisdictions : nat := 3.

Record NodeCapabilities := mkNodeCapabilities {
  Jurisdictions : list string;
  Regions : list string;
  Uptime30d : float64;
  SIMPoolSize : Z;
  ExitNode : bool;
  MaxCircuits : Z
}.

Record NodeRecord := mkNodeRecord {
  ServerID : string;
  WireGuardKey : string;
  Endpoint_WireGuard : string;
  Capabilities : NodeCapabilities
}.

#[export] Instance float64_eq_dec : EqDecision float64.
Proof. unfold float64. solve_decision. Defined.
#[export] Instance NodeCapabilities_eq_dec : EqDecision NodeCapabilities.
Proof. solve_decision. Defined.
#[export] Instance NodeRecord_eq_dec : EqDecision NodeRecord.
Proof. solve_decision. Defined.

(** ** Helpers *)

(** The value [int(b[0])<<24 | int(b[1])<<16 | int(b[2])<<8 | int(b[3])] of an
    [int] of [w] bits, made non-negative as the code does, modulo [n]. *)
Definition draw_index (w : Z) (b : list byte) (n : Z) : Z :=
  let at_ i := byte_Z (default x00 (b !! i)) in
  let v := swrap w (Z.lor (Z.lor (Z.lor (Z.shiftl (at_ 0) 24) (Z.shiftl (at_ 1) 16))
                                 (Z.shiftl (at_ 2) 8)) (at_ 3)) in
  let v := if bool_decide (v < 0)%Z then swrap w (- v) else v in
  Z.rem v n.

(** [int] has 64 bits on the platforms the images are built for. *)
Definition int_bits : Z := 64.

Definition randomInt_w (w n : Z) : M Z := λ ent,
  if bool_decide (n ≤ 0)%Z then (Err "n must be positive", ent)
  else
    let '(b, ok, ent') := rand_Read 4 ent in
    if ok then (Ok (draw_index w b n), ent') else (Err rand_error, ent').

Definition randomInt (n : nat) : M Z := randomInt_w int_bits (Z.of_nat n).

(** [l[i]]: a panic when the index is out of range. *)
Definition index {A} (l : list A) (i : Z) : go A :=
  if bool_decide (i < 0)%Z then Panic
  else match l !! Z.to_nat i with Some x => Ok x | None => Panic end.

Definition primaryJurisdiction (n : NodeRecord) : string :=
  match Jurisdictions (Capabilities n) with j :: _ => j | [] => "" end.

Definition jurisdictionCount (nodes : list NodeRecord) : nat :=
  size (foldl (λ (seen : gmap string bool) n, <[primaryJurisdiction n := true]> seen) ∅ nodes).

Definition isIn (hops : list NodeRecord) (serverID : string) : bool :=
  existsb (λ h, bool_decide (ServerID h = serverID)) hops.

Definition score (n : NodeRecord) : float64 :=
  fadd (fmul (Uptime30d (Capabilities n)) (float64_of_int 100))
       (float64_of_int (SIMPoolSize (Capabilities n))).

(** ** The insertion sort *)

(** The body of the inner loop at index [j]. *)
Definition swap_step (out : list NodeRecord) (j : nat) : list NodeRecord :=
  match out !! j, out !! (j - 1) with
  | Some x, Some y => if fgt (score x) (score y) then <[j := y]> (<[j - 1 := x]> out) else out
  | _, _ => out
  end.

(** The inner loop: [for j := i; j > 0; j--]. *)
Fixpoint sink (j : nat) (out : list NodeRecord) : list NodeRecord :=
  match j with
  | O => out
  | S j' => sink j' (swap_step out j)
  end.

(** The outer loop: [for i := 1; i < len(out); i++]. *)
Definition scoreNodes (nodes : list NodeRecord) : list NodeRecord :=
  foldl (λ out i, sink i out) nodes (seq 1 (length nodes - 1)).

(** ** Hop selection *)

(** The loop of [selectMiddleHops] with [k] hops still to select. *)
Fixpoint select_loop (k : nat) (selected : list NodeRecord) (lastJurisdiction : string)
    (scored : list NodeRecord) : M (list NodeRecord) :=
  match k with
  | O => mret selected
  | S k' =>
      if bool_decide (scored = []) then mret selected
      else
        let poolSize := if bool_decide (length scored < 3) then length scored else 3 in
        let eligible := filter (λ n, primaryJurisdiction n ≠ lastJurisdiction) (take poolSize scored) in
        let eligible := if bool_decide (eligible = []) then take poolSize scored else eligible in
        idx ← randomInt (length eligible);
        chosen ← lift (index eligible idx);
        select_loop k' (selected ++ [chosen]) (primaryJurisdiction chosen)
          (filter (λ n, ServerID n ≠ ServerID chosen) scored)
  end.

Definition selectMiddleHops (candidates : list NodeRecord) (n : nat) : M (list NodeRecord) :=
  selected ← select_loop n [] "" (scoreNodes candidates);
  if bool_decide (length selected < n)
  then raise "insufficient nodes for circuit construction"
  else mret selected.

(** ** Identifiers *)

(** The sixteen bytes of a version 4 UUID. *)
Definition uuid_bytes (b : list byte) : list byte :=
  alter (λ x, Z_byte (Z.lor (Z.land (byte_Z x) 63) 128)) 8
    (alter (λ x, Z_byte (Z.lor (Z.land (byte_Z x) 15) 64)) 6 b).

Definition uuid_text (b : list byte) : list ascii :=
  hex_bytes (take 4 b) ++ ["-"%char] ++ hex_bytes (take 2 (drop 4 b)) ++ ["-"%char] ++
  hex_bytes (take 2 (drop 6 b)) ++ ["-"%char] ++ hex_bytes (take 2 (drop 8 b)) ++ ["-"%char] ++
  hex_bytes (take 6 (drop 10 b)).

(** The error of [rand.Read] is discarded. *)
Definition mustUUID : M string := λ ent,
  let '(b, _, ent') := rand_Read 16 ent in
  (Ok (string_of_list_ascii (uuid_text (uuid_bytes b))), ent').

(** ** Construction *)

Definition hop_of (i : nat) (exit : bool) (n : NodeRecord) : Hop :=
  mkHop (ServerID n) (Endpoint_WireGuard n) (WireGuardKey n) (primaryJurisdiction n) i exit.

Definition exit_eligible (middleHops : list NodeRecord) (lastJurisdiction : string)
    (n : NodeRecord) : bool :=
  if negb (ExitNode (Capabilities n)) then false
  else if isIn middleHops (ServerID n) then false
  else if bool_decide (primaryJurisdiction n = lastJurisdiction) then false
  else true.

Definition lastJurisdiction_of (middleHops : list NodeRecord) : string :=
  match last middleHops with Some n => primaryJurisdiction n | None => "" end.

Definition errTooSmall : string := "network below minimum viable size".
Definition errDiversity : string := "insufficient jurisdictional diversity in active nodes".
Definition errNoExit : string := "no eligible exit nodes available".

Definition build (ownServerID : string) (now : Z) (nodes : list NodeRecord) (deviceIMSI : string)
    : M Circuit :=
  let candidates := filter (λ n, ServerID n ≠ ownServerID) nodes in
  if bool_decide (length candidates < minNetworkSize) then raise errTooSmall
  else if bool_decide (jurisdictionCount candidates < minJurisdictions) then raise errDiversity
  else
    extra ← randomInt (maxHops - minHops + 1);
    let hopCount := minHops + Z.to_nat extra in
    middleHops ← selectMiddleHops candidates (hopCount - 1);
    let exitCandidates :=
      filter (λ n, exit_eligible middleHops (lastJurisdiction_of middleHops) n = true) candidates in
    if bool_decide (exitCandidates = []) then raise errNoExit
    else
      exitIdx ← randomInt (length exitCandidates);
      exitNode ← lift (index exitCandidates exitIdx);
      token ← newSessionToken;
      let hops := imap (λ i n, hop_of i false n) middleHops ++
                  [hop_of (length middleHops) true exitNode] in
      circuitID ← mustUUID;
      mret (mkCircuit circuitID deviceIMSI token hops now (now + chainRotationInterval)%Z).

(** ** Random indices *)

Definition draw_value (b : list byte) : Z :=
  let at_ i := byte_Z (default x00 (b !! i)) in
  Z.lor (Z.lor (Z.lor (Z.shiftl (at_ 0) 24) (Z.shiftl (at_ 1) 16)) (Z.shiftl (at_ 2) 8)) (at_ 3).

Lemma draw_value_range b : (0 ≤ draw_value b < 2 ^ 32)%Z.
Proof.
  unfold draw_value.
  pose proof (byte_Z_range (default x00 (b !! 0))). pose proof (byte_Z_range (default x00 (b !! 1))).
  pose proof (byte_Z_range (default x00 (b !! 2))). pose proof (byte_Z_range (default x00 (b !! 3))).
  rewrite !Z.shiftl_mul_pow2 by lia. repeat apply lor_bound; lia.
Qed.

Lemma draw_index_64 b n : (0 < n)%Z → draw_index 64 b n = (draw_value b `mod` n)%Z.
Proof.
  intros Hn. unfold draw_index. fold (draw_value b). pose proof (draw_value_range b).
  rewrite swrap_small by lia. rewrite bool_decide_eq_false_2 by lia.
  by rewrite Z.rem_mod_nonneg by lia.
Qed.

Lemma randomInt_Ok n ent v ent' :
  randomInt n ent = (Ok v, ent') →
  (0 ≤ v < Z.of_nat n)%Z ∧ v = (draw_value (take 4 ent) `mod` Z.of_nat n)%Z ∧ ent' = drop 4 ent.
Proof.
  unfold randomInt, randomInt_w, rand_Read. case_bool_decide; [done|]. case_bool_decide; [|done].
  intros [= <- <-]. replace (4 - length ent) with 0 by lia. simpl replicate. rewrite app_nil_r.
  unfold int_bits. rewrite draw_index_64 by lia.
  split; [apply Z.mod_pos_bound; lia|done].
Qed.

Lemma randomInt_run n ent :
  0 < n → 4 ≤ length ent →
  ∃ v, randomInt n ent = (Ok v, drop 4 ent) ∧ (0 ≤ v < Z.of_nat n)%Z.
Proof.
  intros Hn Hl.
  assert (∃ v, randomInt n ent = (Ok v, drop 4 ent)) as [v Hv].
  { unfold randomInt, randomInt_w, rand_Read. rewrite bool_decide_eq_false_2 by lia.
    rewrite bool_decide_eq_true_2 by lia. eauto. }
  exists v. split; [done|]. by apply randomInt_Ok in Hv as [? _].
Qed.

Lemma index_Ok {A} (l : list A) i x : index l i = Ok x → x ∈ l.
Proof.
  unfold index. case_bool_decide; [done|]. destruct (l !! _) eqn:E; [|done].
  intros [= <-]. by eapply list_elem_of_lookup_2.
Qed.

Lemma index_run {A} (l : list A) i : (0 ≤ i < Z.of_nat (length l))%Z → ∃ x, index l i = Ok x ∧ x ∈ l.
Proof.
  intros Hi. unfold index. rewrite bool_decide_eq_false_2 by lia.
  destruct (lookup_lt_is_Some_2 l (Z.to_nat i)) as [x E]; [lia|]. rewrite E.
  eauto using list_elem_of_lookup_2.
Qed.

(** A draw below the length of a list is an index into it. *)
Lemma pick_run {A} (l : list A) ent :
  l ≠ [] → 4 ≤ length ent →
  ∃ v x, randomInt (length l) ent = (Ok v, drop 4 ent) ∧ index l v = Ok x ∧ x ∈ l.
Proof.
  intros Hl He. destruct (randomInt_run (length l) ent) as (v & Hv & Hr); [by destruct l; simpl; [|lia]|done|].
  destruct (index_run l v Hr) as (x & Hx & Hin). eauto 10.
Qed.

(** ** The sort *)

(** No later node scores higher. *)
Definition not_higher (a b : NodeRecord) : Prop := fgt (score b) (score a) = false.

Definition numeric (n : NodeRecord) : Prop := is_nan (score n) = false.

Fixpoint insert_desc (x : NodeRecord) (l : list NodeRecord) : list NodeRecord :=
  match l with
  | [] => [x]
  | y :: l' => if fgt (score x) (score y) then x :: y :: l' else y :: insert_desc x l'
  end.

Lemma insert_desc_perm x l : insert_desc x l ≡ₚ x :: l.
Proof.
  induction l as [|y l IH]; simpl; [done|]. case_match; [done|]. rewrite IH. by constructor.
Qed.

Lemma insert_desc_snoc x l y :
  fgt (score x) (score y) = true → insert_desc x (l ++ [y]) = insert_desc x l ++ [y].
Proof.
  intros H. induction l as [|z l IH]; simpl; [by rewrite H|]. case_match; [done|]. by rewrite IH.
Qed.

Lemma insert_desc_end x l : Forall (λ z, not_higher z x) l → insert_desc x l = l ++ [x].
Proof. induction 1 as [|z l Hz _ IH]; simpl; [done|]. unfold not_higher in Hz. by rewrite Hz, IH. Qed.

Lemma swap_step_app l y x r :
  swap_step (l ++ y :: x :: r) (S (length l)) =
  if fgt (score x) (score y) then l ++ x :: y :: r else l ++ y :: x :: r.
Proof.
  unfold swap_step. replace (S (length l) - 1) with (length l) by lia.
  rewrite (list_lookup_middle l (x :: r) y (length l)) by done.
  replace ((l ++ y :: x :: r) !! S (length l)) with (Some x).
  2:{ rewrite lookup_app_r by lia. by replace (S (length l) - length l) with 1 by lia. }
  destruct (fgt (score x) (score y)); [|done].
  replace (length l) with (length l + 0) at 2 by lia. rewrite insert_app_r.
  replace (S (length l)) with (length l + 1) by lia. by rewrite insert_app_r.
Qed.

Lemma StronglySorted_snoc l y :
  StronglySorted not_higher (l ++ [y]) ↔ StronglySorted not_higher l ∧ Forall (λ z, not_higher z y) l.
Proof.
  induction l as [|z l IH]; simpl.
  - split; [by repeat constructor|by repeat constructor].
  - split.
    + intros [H1 H2]%StronglySorted_inv. apply IH in H1 as [H1 H3].
      apply Forall_app in H2 as [H2 H4]. apply Forall_cons in H4 as [H4 _]. by repeat constructor.
    + intros [[H1 H2]%StronglySorted_inv [H3 H4]%Forall_cons]. constructor; [by apply IH|].
      apply Forall_app. split; [done|]. by repeat constructor.
Qed.

(** Sinking the element after a sorted prefix inserts it into the prefix. *)
Lemma sink_insert l x r :
  Forall numeric (x :: l) → StronglySorted not_higher l →
  sink (length l) (l ++ x :: r) = insert_desc x l ++ r.
Proof.
  revert x r. induction l as [|y l IH] using rev_ind; intros x r Hn Hs; [done|].
  apply StronglySorted_snoc in Hs as [Hs Hy]. apply Forall_cons in Hn as [Hx Hn].
  apply Forall_app in Hn as [Hl Hny]. apply Forall_cons in Hny as [Hny _].
  rewrite length_app, Nat.add_comm. cbn [length Nat.add sink].
  rewrite <-app_assoc. cbn [app]. rewrite swap_step_app.
  destruct (fgt (score x) (score y)) eqn:E.
  - rewrite IH, insert_desc_snoc by (try constructor; done). by rewrite <-app_assoc.
  - rewrite IH by (try constructor; done).
    rewrite (insert_desc_end y l Hy), insert_desc_end; [by rewrite <-!app_assoc|].
    apply Forall_app. split; [|by repeat constructor].
    rewrite Forall_forall in Hy, Hl |- *. intros z Hz. unfold not_higher, numeric in *.
    exact (fgt_neg_trans _ _ _ (Hl _ Hz) Hny Hx (Hy _ Hz) E).
Qed.

Lemma insert_desc_sorted x l :
  Forall numeric (x :: l) → StronglySorted not_higher l → StronglySorted not_higher (insert_desc x l).
Proof.
  intros [Hx Hn]%Forall_cons Hs. induction l as [|y l IH]; simpl; [by repeat constructor|].
  apply Forall_cons in Hn as [Hy Hn]. apply StronglySorted_inv in Hs as [Hs Hf].
  destruct (fgt (score x) (score y)) eqn:E.
  - pose proof (fgt_asym _ _ E) as E'. repeat constructor; [done|done|done|].
    rewrite Forall_forall in Hf, Hn |- *. intros z Hz.
    exact (fgt_neg_trans _ _ _ Hx Hy (Hn _ Hz) E' (Hf _ Hz)).
  - constructor; [by apply IH|]. rewrite insert_desc_perm. by constructor.
Qed.

Lemma foldl_sink p r :
  Forall numeric (p ++ r) → StronglySorted not_higher p →
  foldl (λ out i, sink i out) (p ++ r) (seq (length p) (length r)) =
  foldl (λ acc x, insert_desc x acc) p r.
Proof.
  revert p. induction r as [|x r IH]; intros p Hn Hs; simpl; [by rewrite app_nil_r|].
  apply Forall_app in Hn as [Hp [Hx Hr]%Forall_cons].
  rewrite sink_insert by (try constructor; done).
  assert (length (insert_desc x p) = S (length p)) as Hl by (by rewrite insert_desc_perm).
  rewrite <-Hl. apply IH; [|apply insert_desc_sorted; [by constructor|done]].
  apply Forall_app. split; [|done]. rewrite insert_desc_perm. by constructor.
Qed.

Lemma scoreNodes_ref nodes :
  Forall numeric nodes → scoreNodes nodes = foldl (λ acc x, insert_desc x acc) [] nodes.
Proof.
  intros Hn. unfold scoreNodes. destruct nodes as [|x l]; [done|].
  replace (length (x :: l) - 1) with (length l) by (simpl; lia).
  apply (foldl_sink [x] l); [done|by repeat constructor].
Qed.

Lemma foldl_insert_desc l p :
  Forall numeric (p ++ l) → StronglySorted not_higher p →
  StronglySorted not_higher (foldl (λ acc x, insert_desc x acc) p l) ∧
  foldl (λ acc x, insert_desc x acc) p l ≡ₚ p ++ l.
Proof.
  revert p. induction l as [|x l IH]; intros p Hn Hs; simpl; [by rewrite app_nil_r|].
  apply Forall_app in Hn as [Hp [Hx Hl]%Forall_cons].
  destruct (IH (insert_desc x p)) as [H1 H2].
  - apply Forall_app. split; [|done]. rewrite insert_desc_perm. by constructor.
  - apply insert_desc_sorted; [by constructor|done].
  - split; [done|]. rewrite H2, insert_desc_perm. apply Permutation_middle.
Qed.

(** A permutation whatever the scores are. *)
Lemma swap_step_perm out j : swap_step out j ≡ₚ out.
Proof.
  destruct (out !! j) as [x|] eqn:Ex; [|unfold swap_step; by rewrite Ex].
  destruct j as [|j].
  { unfold swap_step. simpl. rewrite Ex. case_match; [|done].
    rewrite !list_insert_id; [done|done|]. by rewrite list_insert_id. }
  destruct (lookup_lt_is_Some_2 out j) as [y Ey]; [by apply lookup_lt_Some in Ex; lia|].
  assert (out = take j out ++ y :: x :: drop (S (S j)) out) as E.
  { rewrite <-(drop_S out x (S j)) by done. by rewrite take_drop_middle. }
  assert (length (take j out) = j) as Hl.
  { rewrite length_take. apply lookup_lt_Some in Ey. lia. }
  pose proof (swap_step_app (take j out) y x (drop (S (S j)) out)) as Hs.
  rewrite Hl, <-E in Hs. rewrite Hs. case_match; [|done].
  transitivity (take j out ++ y :: x :: drop (S (S j)) out); [|by rewrite <-E].
  apply Permutation_app_head. constructor.
Qed.

Lemma sink_perm j out : sink j out ≡ₚ out.
Proof.
  revert out. induction j as [|j IH]; intros out; simpl; [done|]. by rewrite IH, swap_step_perm.
Qed.

Lemma scoreNodes_perm nodes : scoreNodes nodes ≡ₚ nodes.
Proof.
  unfold scoreNodes. generalize (seq 1 (length nodes - 1)). intros l. generalize nodes.
  induction l as [|i l IH]; intros out; simpl; [done|]. by rewrite IH, sink_perm.
Qed.

Lemma score_numeric n :
  is_finite (Uptime30d (Capabilities n)) = true →
  (- 2 ^ 63 ≤ SIMPoolSize (Capabilities n) < 2 ^ 63)%Z → numeric n.
Proof.
  intros Hu Hs. unfold numeric, score. apply fadd_not_nan.
  - apply fmul_not_nan; [done|]. by apply float64_of_int_finite.
  - by apply float64_of_int_finite.
Qed.

(** ** Selection *)

Definition ids (l : list NodeRecord) : list string := ServerID <$> l.

Lemma eligible_pool (last : string) (scored : list NodeRecord) (ps : nat) n :
  n ∈ (if bool_decide (filter (λ n, primaryJurisdiction n ≠ last) (take ps scored) = [])
       then take ps scored else filter (λ n, primaryJurisdiction n ≠ last) (take ps scored)) →
  n ∈ scored.
Proof.
  assert (∀ x, x ∈ take ps scored → x ∈ scored) as Ht.
  { intros x Hx. apply elem_of_take in Hx as (i & Hi & _). by eapply list_elem_of_lookup_2. }
  case_bool_decide; [apply Ht|]. intros [_ H']%list_elem_of_filter. by apply Ht.
Qed.

Lemma select_loop_Ok k sel last scored ent res ent' :
  select_loop k sel last scored ent = (Ok res, ent') →
  ∃ mid, res = sel ++ mid ∧ length mid ≤ k ∧ (∀ n, n ∈ mid → n ∈ scored) ∧ NoDup (ids mid).
Proof.
  revert sel last scored ent. induction k as [|k IH]; intros sel last scored ent H; cbn [select_loop] in H.
  { injection H as <- <-. exists []. rewrite app_nil_r. split_and!; [done|simpl; lia|by intros ??%elem_of_nil|constructor]. }
  case_bool_decide.
  { injection H as <- <-. exists []. rewrite app_nil_r. split_and!; [done|simpl; lia|by intros ??%elem_of_nil|constructor]. }
  apply M_bind_Ok in H as (idx & ent1 & _ & H). apply M_bind_Ok in H as (ch & ent2 & Hc & H).
  injection Hc as Hc _. apply index_Ok, eligible_pool in Hc.
  apply IH in H as (mid & -> & Hl & Hin & Hnd). exists (ch :: mid). split_and!.
  - by rewrite <-app_assoc.
  - simpl. lia.
  - intros n [->|Hn]%elem_of_cons; [done|]. apply Hin, list_elem_of_filter in Hn. tauto.
  - simpl. constructor; [|done]. intros (n & E & Hn)%list_elem_of_fmap.
    apply Hin, list_elem_of_filter in Hn. by destruct Hn.
Qed.

Lemma selectMiddleHops_Ok cands n ent res ent' :
  selectMiddleHops cands n ent = (Ok res, ent') →
  length res = n ∧ (∀ x, x ∈ res → x ∈ cands) ∧ NoDup (ids res).
Proof.
  intros H. unfold selectMiddleHops in H. apply M_bind_Ok in H as (sel & ent1 & Hs & H).
  case_bool_decide; [done|]. injection H as -> ->.
  apply select_loop_Ok in Hs as (mid & -> & Hl & Hin & Hnd). simpl in *.
  split_and!; [lia| |done]. intros x Hx. rewrite <-(scoreNodes_perm cands). by apply Hin.
Qed.

(** With enough distinct nodes and entropy the loop selects all it was asked for. *)
Lemma select_loop_run k sel last scored ent (pool : list string) :
  NoDup pool → (∀ x, x ∈ pool → x ∈ ids scored) → k ≤ length pool → 4 * k ≤ length ent →
  ∃ mid, select_loop k sel last scored ent = (Ok (sel ++ mid), drop (4 * k) ent) ∧ length mid = k.
Proof.
  revert sel last scored ent pool.
  induction k as [|k IH]; intros sel last scored ent pool Hnd Hin Hk He; cbn [select_loop].
  { exists []. by rewrite app_nil_r. }
  assert (scored ≠ []) as Hne.
  { intros ->. destruct pool as [|x pool]; [simpl in Hk; lia|].
    by apply (not_elem_of_nil x), (Hin x); left. }
  rewrite bool_decide_eq_false_2 by done.
  set (ps := if bool_decide (length scored < 3) then length scored else 3).
  set (el := if bool_decide (filter _ (take ps scored) = []) then _ else _).
  assert (el ≠ []) as Hel.
  { subst el. case_bool_decide; [|done]. destruct scored; [done|].
    subst ps. case_bool_decide; by destruct scored. }
  destruct (pick_run el ent Hel) as (v & ch & Hv & Hc & Hch); [lia|].
  assert (lift (index el v) (drop 4 ent) = (Ok ch, drop 4 ent)) as Hc' by (unfold lift; by rewrite Hc).
  rewrite (M_bind_run _ _ _ _ _ Hv), (M_bind_run _ _ _ _ _ Hc').
  destruct (IH (sel ++ [ch]) (primaryJurisdiction ch)
    (filter (λ n, ServerID n ≠ ServerID ch) scored) (drop 4 ent)
    (filter (λ x, x ≠ ServerID ch) pool)) as (mid & Hm & Hl).
  - by apply NoDup_filter.
  - intros x [Hx Hp]%list_elem_of_filter. apply Hin, list_elem_of_fmap in Hp as (n & -> & Hn).
    apply list_elem_of_fmap. exists n. split; [done|]. by apply list_elem_of_filter.
  - assert (length pool ≤ length (ServerID ch :: filter (λ x, x ≠ ServerID ch) pool)); [|simpl in *; lia].
    apply NoDup_subset_length; [done|]. intros x Hx.
    destruct (decide (x = ServerID ch)) as [->|]; [left|right; by apply list_elem_of_filter].
  - rewrite length_drop. lia.
  - exists (ch :: mid). rewrite Hm. rewrite <-app_assoc, drop_drop. simpl.
    split; [|by rewrite Hl]. do 2 f_equal. lia.
Qed.

(** ** Construction *)

Definition candidates_of (own : string) (nodes : list NodeRecord) : list NodeRecord :=
  filter (λ n, ServerID n ≠ own) nodes.

(** The hop count a run of [build] draws from its first four bytes. *)
Definition drawn_hops (ent : entropy) : nat := 3 + Z.to_nat (draw_value (take 4 ent) `mod` 3).

Lemma drawn_hops_range ent : 3 ≤ drawn_hops ent ≤ 5.
Proof.
  unfold drawn_hops. pose proof (Z.mod_pos_bound (draw_value (take 4 ent)) 3 ltac:(lia)). lia.
Qed.

Lemma newSessionToken_Ok ent tok ent' :
  newSessionToken ent = (Ok tok, ent') → ∃ b, tok = EncodeToString StdEncoding b ∧ length b = 16.
Proof.
  unfold newSessionToken, rand_Read, sessionTokenLen. case_bool_decide; [|done].
  intros [= <- <-]. eexists. split; [done|]. rewrite length_app, length_take, length_replicate. lia.
Qed.

Lemma exit_eligible_true mid j n :
  exit_eligible mid j n = true ↔
  ExitNode (Capabilities n) = true ∧ (ServerID n ∉ ids mid) ∧ primaryJurisdiction n ≠ j.
Proof.
  unfold exit_eligible.
  assert (isIn mid (ServerID n) = true ↔ ServerID n ∈ ids mid) as Hin.
  { unfold isIn, ids. rewrite existsb_exists, list_elem_of_fmap. split.
    - intros (h & Hh & E%bool_decide_eq_true). exists h. by rewrite list_elem_of_In.
    - intros (h & E & Hh). exists h. rewrite <-list_elem_of_In. by rewrite bool_decide_eq_true. }
  destruct (ExitNode (Capabilities n)); simpl; [|split; [done|by intros [? _]]].
  destruct (isIn mid (ServerID n)) eqn:E; simpl.
  - split; [done|]. intros (_ & H & _). destruct H. by apply Hin.
  - case_bool_decide as Hj; split; try done; [by intros (_ & _ & ?)|].
    intros _. split_and!; [done| |done]. intros ?%Hin. congruence.
Qed.

(** Everything a successful construction went through. *)
Lemma build_Ok own now nodes imsi ent c ent' :
  build own now nodes imsi ent = (Ok c, ent') →
  ∃ mid ex b,
    S (length mid) = drawn_hops ent ∧ NoDup (ids (mid ++ [ex])) ∧
    (∀ n, n ∈ mid ++ [ex] → n ∈ candidates_of own nodes) ∧
    ExitNode (Capabilities ex) = true ∧ primaryJurisdiction ex ≠ lastJurisdiction_of mid ∧
    DeviceIMSI c = imsi ∧ SessionToken c = EncodeToString StdEncoding b ∧ length b = 16 ∧
    Hops c = imap (λ i n, hop_of i false n) mid ++ [hop_of (length mid) true ex] ∧
    CreatedAt c = now ∧ RotateAt c = (now + chainRotationInterval)%Z.
Proof.
  intros H. unfold build in H. fold (candidates_of own nodes) in H.
  case_bool_decide; [done|]. case_bool_decide; [done|].
  apply M_bind_Ok in H as (extra & ent1 & He & H).
  apply randomInt_Ok in He as (Hr & Hv & ->). change (Z.of_nat (maxHops - minHops + 1)) with 3%Z in *.
  apply M_bind_Ok in H as (mid & ent2 & Hm & H).
  apply selectMiddleHops_Ok in Hm as (Hl & Hin & Hnd).
  case_bool_decide; [done|].
  apply M_bind_Ok in H as (xi & ent3 & _ & H). apply M_bind_Ok in H as (ex & ent4 & Hx & H).
  injection Hx as Hx _. apply index_Ok, list_elem_of_filter in Hx as [Hx Hxin].
  apply exit_eligible_true in Hx as (Hxe & Hxn & Hxj).
  apply M_bind_Ok in H as (tok & ent5 & Ht & H). apply newSessionToken_Ok in Ht as (b & -> & Hb).
  apply M_bind_Ok in H as (uid & ent6 & _ & H). injection H as <- _.
  exists mid, ex, b. simpl. split_and!; try done.
  - unfold drawn_hops. rewrite <-Hv, Hl. unfold minHops. lia.
  - unfold ids in *. rewrite fmap_app. apply NoDup_app. split_and!; [done| |apply NoDup_singleton].
    intros x Hx1 Hx2. apply list_elem_of_singleton in Hx2. by subst.
  - intros n [Hn|Hn]%elem_of_app; [by apply Hin|]. apply list_elem_of_singleton in Hn. by subst.
Qed.

Lemma hops_ids mid ex :
  HopServerID <$> (imap (λ i n, hop_of i false n) mid ++ [hop_of (length mid) true ex]) = ids (mid ++ [ex]).
Proof.
  unfold ids. rewrite !fmap_app. f_equal. apply list_eq. intros i.
  rewrite !list_lookup_fmap, list_lookup_imap. by destruct (mid !! i).
Qed.

Lemma hops_lookup mid ex i h :
  (imap (λ i n, hop_of i false n) mid ++ [hop_of (length mid) true ex]) !! i = Some h →
  ∃ n, (mid ++ [ex]) !! i = Some n ∧ h = hop_of i (bool_decide (i = length mid)) n.
Proof.
  intros H. destruct (decide (i < length mid)) as [Hi|Hi].
  - rewrite lookup_app_l in H by (by rewrite length_imap). rewrite list_lookup_imap in H.
    apply fmap_Some in H as (n & Hn & ->). exists n. rewrite lookup_app_l by done.
    by rewrite bool_decide_eq_false_2 by lia.
  - rewrite lookup_app_r in H by (rewrite length_imap; lia). rewrite length_imap in H.
    destruct (i - length mid) as [|j] eqn:E; [|done]. injection H as <-.
    assert (i = length mid) as -> by lia. exists ex.
    rewrite lookup_app_r, Nat.sub_diag, bool_decide_eq_true_2 by lia. done.
Qed.
