(* ===== verification/CircuitProps.v ===== *)
(** * Properties of circuit construction

    What [build] guarantees about the circuits it returns, when it succeeds,
    when it refuses, and where it falls short of its comments. *)

From Stdlib Require Import ZArith Lia Ascii String Strings.Byte Floats.SpecFloat.
From stdpp Require Import base option list gmap strings fin_maps sorting.
From S2P Require Import Prelude GoFloat GoBase64 CircuitStore CircuitConstructor.

(** ** A small network *)

Definition demo_node (id j : string) (sims : Z) (exit : bool) : NodeRecord :=
  mkNodeRecord id ("key-" ++ id) (id ++ ":51820") (mkNodeCapabilities [j] [j] (float64_of_int 1) sims exit 100).

Definition demo_net : list NodeRecord :=
  [demo_node "self" "SE" 1 false; demo_node "n1" "NL" 10 true; demo_node "n2" "CH" 20 true;
   demo_node "n3" "IS" 30 false; demo_node "n4" "NO" 40 false].

(** Entropy that always draws index 0. *)
Definition zeros (n : nat) : entropy := replicate n x00.

(** ** The circuit *)

(** C7: a circuit [build] returns has three to five hops, as many as were drawn;
    their servers are distinct, none is the entry server, and each hop carries
    the data of a listed node; hop indices count from zero, exactly the last hop
    is the exit, it is exit-capable and lies in another jurisdiction than the
    hop before it; the circuit belongs to the device, carries a token of 16
    random bytes, and is due for rotation 600 seconds after its creation. *)
Theorem build_correct own now nodes imsi ent c ent' :
  build own now nodes imsi ent = (Ok c, ent') →
  length (Hops c) = drawn_hops ent ∧ 3 ≤ length (Hops c) ≤ 5 ∧
  NoDup (HopServerID <$> Hops c) ∧ (own ∉ HopServerID <$> Hops c) ∧
  (∀ i h, Hops c !! i = Some h →
     ∃ n, n ∈ nodes ∧ h = hop_of i (bool_decide (S i = length (Hops c))) n ∧
          (S i = length (Hops c) → ExitNode (Capabilities n) = true)) ∧
  (∀ i h1 h2, Hops c !! i = Some h1 → Hops c !! S i = Some h2 → S (S i) = length (Hops c) →
     HopJurisdiction h1 ≠ HopJurisdiction h2) ∧
  DeviceIMSI c = imsi ∧ (∃ b, length b = 16 ∧ DecodeString StdEncoding (SessionToken c) = Some b) ∧
  CreatedAt c = now ∧ RotateAt c = (now + 600 * Second)%Z.
Proof.
  intros H. apply build_Ok in H as (mid & ex & b & Hl & Hnd & Hin & Hx & Hj & Hi & Ht & Hb & Hh & Hc & Hr).
  pose proof (drawn_hops_range ent).
  assert (length (Hops c) = S (length mid)) as Hlen.
  { rewrite Hh, length_app, length_imap. simpl. lia. }
  rewrite Hlen. split_and!; try done; try lia.
  - by rewrite Hh, hops_ids.
  - rewrite Hh, hops_ids. intros (n & -> & Hn)%list_elem_of_fmap.
    apply Hin, list_elem_of_filter in Hn. by destruct Hn.
  - intros i h E. rewrite Hh in E. apply hops_lookup in E as (n & Hn & ->). exists n.
    pose proof (list_elem_of_lookup_2 _ _ _ Hn) as Hn'. apply Hin, list_elem_of_filter in Hn' as [_ ?].
    split; [done|]. split.
    + f_equal. apply bool_decide_ext. lia.
    + intros E. assert (i = length mid) as -> by lia.
      rewrite lookup_app_r, Nat.sub_diag in Hn by lia. by injection Hn as <-.
  - intros i h1 h2 E1 E2 Hs. rewrite Hh in E1, E2.
    apply hops_lookup in E1 as (n1 & Hn1 & ->). apply hops_lookup in E2 as (n2 & Hn2 & ->). simpl.
    rewrite lookup_app_r in Hn2 by lia. replace (S i - length mid) with 0 in Hn2 by lia.
    injection Hn2 as <-. rewrite lookup_app_l in Hn1 by lia.
    unfold lastJurisdiction_of in Hj. rewrite last_lookup in Hj.
    replace (pred (length mid)) with i in Hj by lia. rewrite Hn1 in Hj. by apply not_eq_sym.
  - exists b. split; [done|]. rewrite Ht. apply Decode_Encode, _.
Qed.

Definition demo_build := build "self" 1000 demo_net "imsi" (zeros 60).

Lemma build_correct_witness :
  ∃ c, demo_build.1 = Ok c ∧ length (Hops c) = 3 ∧ NoDup (HopServerID <$> Hops c).
Proof.
  destruct demo_build as [[c|e|] ent'] eqn:E; [|exfalso; vm_compute in E; discriminate E..].
  exists c. split; [done|].
  destruct (build_correct "self" 1000 demo_net "imsi" (zeros 60) c ent' E) as (H1 & _ & H3 & _).
  split; [|exact H3]. rewrite H1. vm_compute. reflexivity.
Defined.

(** Below the minimum viable network [build] refuses before drawing any
    entropy: fewer than three candidates, or fewer than three jurisdictions
    among them, give their error. *)
Theorem build_refuses own now nodes imsi ent :
  (length (candidates_of own nodes) < 3 →
     build own now nodes imsi ent = (Err errTooSmall, ent)) ∧
  (3 ≤ length (candidates_of own nodes) → jurisdictionCount (candidates_of own nodes) < 3 →
     build own now nodes imsi ent = (Err errDiversity, ent)).
Proof.
  unfold build. fold (candidates_of own nodes). unfold minNetworkSize, minJurisdictions. split.
  - intros H. by rewrite bool_decide_eq_true_2.
  - intros H1 H2. rewrite bool_decide_eq_false_2 by lia. by rewrite bool_decide_eq_true_2.
Qed.

(** On a network of exactly the minimum size, construction cannot succeed
    unless the drawn hop count is the smallest: three candidates cannot supply
    four or five distinct hops. *)
Theorem build_minimum_network own now nodes imsi ent c ent' :
  length (candidates_of own nodes) = 3 → build own now nodes imsi ent = (Ok c, ent') →
  drawn_hops ent = 3.
Proof.
  intros H3 H. apply build_Ok in H as (mid & ex & b & Hl & Hnd & Hin & _).
  pose proof (drawn_hops_range ent).
  assert (length (ids (mid ++ [ex])) ≤ length (ids (candidates_of own nodes))) as Hle.
  { apply NoDup_subset_length; [done|]. intros x (n & -> & Hn)%list_elem_of_fmap.
    apply list_elem_of_fmap. eauto. }
  unfold ids in Hle. rewrite !length_fmap, length_app in Hle. simpl in Hle. lia.
Qed.

Definition demo_min_net : list NodeRecord :=
  [demo_node "n1" "NL" 10 true; demo_node "n2" "CH" 20 false; demo_node "n3" "IS" 30 false].

Lemma build_minimum_network_witness :
  drawn_hops (zeros 60) = 3 ∧ is_ok (build "self" 0 demo_min_net "imsi" (zeros 60)).1 = true.
Proof.
  destruct (build "self" 0 demo_min_net "imsi" (zeros 60)) as [[c|e|] ent'] eqn:E;
    [|exfalso; vm_compute in E; discriminate E..].
  split; [|done].
  apply (build_minimum_network "self" 0 demo_min_net "imsi" (zeros 60) c ent'); [|exact E].
  vm_compute. reflexivity.
Defined.

(** ** Success *)

Lemma jurisdictions_dom nodes (seen : gmap string bool) :
  dom (foldl (λ (seen : gmap string bool) n, <[primaryJurisdiction n := true]> seen) seen nodes) =
  dom seen ∪ list_to_set (primaryJurisdiction <$> nodes).
Proof.
  revert seen. induction nodes as [|n l IH]; intros seen; simpl.
  { by rewrite union_empty_r_L. }
  rewrite IH, dom_insert_L, (union_comm_L {[_]} (dom seen)). by rewrite union_assoc_L.
Qed.

(** Distinct jurisdictions among the nodes are counted. *)
Lemma jurisdictionCount_ge nodes (js : list string) :
  NoDup js → (∀ j, j ∈ js → j ∈ primaryJurisdiction <$> nodes) → length js ≤ jurisdictionCount nodes.
Proof.
  intros Hnd Hin. unfold jurisdictionCount. rewrite <-size_dom, jurisdictions_dom.
  rewrite <-(size_list_to_set (C := gset string) js) by done. apply subseteq_size.
  intros j Hj%elem_of_list_to_set. apply elem_of_union_r, elem_of_list_to_set. auto.
Qed.

(** Six exit nodes in six jurisdictions leave an eligible one after any choice
    of at most four middle hops. *)
Lemma exit_remains (cands mid exits : list NodeRecord) j :
  (∀ n, n ∈ exits → n ∈ cands ∧ ExitNode (Capabilities n) = true) →
  NoDup (ids exits) → NoDup (primaryJurisdiction <$> exits) →
  S (S (length mid)) ≤ length exits →
  filter (λ n, exit_eligible mid j n = true) cands ≠ [].
Proof.
  intros Hin Hid Hj Hlen Hnil.
  set (rest := filter (λ n, ServerID n ∉ ids mid) exits).
  assert (2 ≤ length rest) as Hrest.
  { assert (length (ids exits) ≤ length (ids rest ++ ids mid)) as Hle.
    { apply NoDup_subset_length; [done|]. intros x (n & -> & Hn)%list_elem_of_fmap.
      apply elem_of_app. destruct (decide (ServerID n ∈ ids mid)); [by right|left].
      apply list_elem_of_fmap. exists n. split; [done|]. by apply list_elem_of_filter. }
    unfold ids in Hle. rewrite length_app, !length_fmap in Hle. lia. }
  assert (NoDup (primaryJurisdiction <$> rest)) as Hrj.
  { eapply sublist_NoDup; [done|]. apply fmap_sublist, sublist_filter. }
  assert (∀ n, n ∈ rest → primaryJurisdiction n = j) as Hall.
  { intros n Hn. apply list_elem_of_filter in Hn as [Hni Hn]. destruct (Hin n Hn) as [Hc He].
    destruct (decide (primaryJurisdiction n = j)); [done|]. exfalso.
    apply (not_elem_of_nil n). rewrite <-Hnil. apply list_elem_of_filter.
    split; [by apply exit_eligible_true|done]. }
  destruct rest as [|a [|b r]]; [simpl in *; lia..|].
  simpl in Hrj. apply NoDup_cons in Hrj as [Hab _]. apply Hab.
  rewrite (Hall a), <-(Hall b) by (repeat constructor). left.
Qed.

Lemma selectMiddleHops_run cands n ent (pool : list string) :
  NoDup pool → (∀ x, x ∈ pool → x ∈ ids cands) → n ≤ length pool → 4 * n ≤ length ent →
  ∃ mid, selectMiddleHops cands n ent = (Ok mid, drop (4 * n) ent) ∧ length mid = n.
Proof.
  intros Hnd Hin Hn He. unfold selectMiddleHops.
  destruct (select_loop_run n [] "" (scoreNodes cands) ent pool) as (mid & Hs & Hl); [done| |done..|].
  { intros x Hx. unfold ids. rewrite scoreNodes_perm. by apply Hin. }
  rewrite (M_bind_run _ _ _ _ _ Hs). simpl. exists mid.
  by rewrite bool_decide_eq_false_2 by lia.
Qed.

Lemma newSessionToken_run ent :
  16 ≤ length ent → ∃ tok, newSessionToken ent = (Ok tok, drop 16 ent).
Proof.
  intros H. unfold newSessionToken, rand_Read, sessionTokenLen.
  rewrite bool_decide_eq_true_2 by done. eauto.
Qed.

(** C19: [build] succeeds whatever is drawn, provided the network has six
    exit-capable candidates with distinct identities in distinct jurisdictions
    and 40 bytes of entropy can be read. *)
Theorem build_succeeds own now nodes imsi ent (exits : list NodeRecord) :
  (∀ n, n ∈ exits → n ∈ candidates_of own nodes ∧ ExitNode (Capabilities n) = true) →
  NoDup (ids exits) → NoDup (primaryJurisdiction <$> exits) → 6 ≤ length exits → 40 ≤ length ent →
  ∃ c ent', build own now nodes imsi ent = (Ok c, ent').
Proof.
  intros Hin Hid Hj Hlen He. unfold build. fold (candidates_of own nodes).
  assert (length exits ≤ length (candidates_of own nodes)) as Hc.
  { rewrite <-(length_fmap ServerID exits), <-(length_fmap ServerID (candidates_of own nodes)).
    apply NoDup_subset_length; [done|]. intros x (n & -> & Hn)%list_elem_of_fmap.
    apply list_elem_of_fmap. exists n. split; [done|]. by apply Hin. }
  assert (length exits ≤ jurisdictionCount (candidates_of own nodes)) as Hjc.
  { rewrite <-(length_fmap primaryJurisdiction exits). apply jurisdictionCount_ge; [done|].
    intros x (n & -> & Hn)%list_elem_of_fmap. apply list_elem_of_fmap. exists n.
    split; [done|]. by apply Hin. }
  unfold minNetworkSize, minJurisdictions. rewrite !bool_decide_eq_false_2 by lia.
  destruct (randomInt_run (maxHops - minHops + 1) ent) as (v & Hv & Hvr);
    [unfold maxHops, minHops; lia|lia|].
  rewrite (M_bind_run _ _ _ _ _ Hv). change (Z.of_nat (maxHops - minHops + 1)) with 3%Z in Hvr.
  destruct (selectMiddleHops_run (candidates_of own nodes) (minHops + Z.to_nat v - 1) (drop 4 ent)
              (ids exits)) as (mid & Hm & Hml); [done| |..].
  { intros x (n & -> & Hn)%list_elem_of_fmap. apply list_elem_of_fmap. exists n.
    split; [done|]. by apply Hin. }
  { unfold ids, minHops. rewrite length_fmap. lia. }
  { rewrite length_drop. unfold minHops. lia. }
  rewrite (M_bind_run _ _ _ _ _ Hm). unfold minHops in *. rewrite drop_drop.
  pose proof (exit_remains (candidates_of own nodes) mid exits (lastJurisdiction_of mid) Hin Hid Hj) as Hx.
  specialize (Hx ltac:(lia)). rewrite bool_decide_eq_false_2 by done.
  set (k := 4 + _). assert (k ≤ 20) by lia.
  destruct (pick_run _ (drop k ent) Hx) as (w & ex & Hw & Hex & _); [rewrite length_drop; lia|].
  rewrite (M_bind_run _ _ _ _ _ Hw). rewrite drop_drop.
  assert (lift (index (filter (λ n, exit_eligible mid (lastJurisdiction_of mid) n = true)
    (candidates_of own nodes)) w) (drop (k + 4) ent) = (Ok ex, drop (k + 4) ent)) as Hl
    by (unfold lift; by rewrite Hex).
  rewrite (M_bind_run _ _ _ _ _ Hl).
  destruct (newSessionToken_run (drop (k + 4) ent)) as (tok & Ht); [rewrite length_drop; lia|].
  rewrite (M_bind_run _ _ _ _ _ Ht). eexists _, _. reflexivity.
Qed.

Definition demo_exits : list NodeRecord :=
  [demo_node "e1" "NL" 1 true; demo_node "e2" "CH" 2 true; demo_node "e3" "IS" 3 true;
   demo_node "e4" "NO" 4 true; demo_node "e5" "SE" 5 true; demo_node "e6" "DE" 6 true].

Lemma build_succeeds_witness :
  ∃ c ent', build "self" 0 demo_exits "imsi" (zeros 40) = (Ok c, ent').
Proof.
  apply (build_succeeds "self" 0 demo_exits "imsi" (zeros 40) demo_exits).
  - assert (candidates_of "self" demo_exits = demo_exits) as -> by (vm_compute; reflexivity).
    intros n Hn. split; [exact Hn|]. unfold demo_exits in Hn.
    rewrite !elem_of_cons in Hn. destruct Hn as [->|[->|[->|[->|[->|[->|Hn]]]]]]; [done..|].
    by apply elem_of_nil in Hn.
  - refine (bool_decide_unpack _ _). vm_compute. exact I.
  - refine (bool_decide_unpack _ _). vm_compute. exact I.
  - vm_compute. lia.
  - vm_compute. lia.
Defined.

(** ** No panic *)

Definition no_panic {A} (m : M A) : Prop := ∀ ent, (m ent).1 ≠ Panic.

Lemma no_panic_bind {A B} (m : M A) (f : A → M B) :
  no_panic m → (∀ a ent ent', m ent = (Ok a, ent') → no_panic (f a)) → no_panic (m ≫= f).
Proof.
  intros Hm Hf ent. unfold mbind, M_bind. specialize (Hm ent).
  destruct (m ent) as [[a|e|] ent1] eqn:E; simpl in *; [|done..]. by eapply Hf.
Qed.

Lemma no_panic_randomInt n : no_panic (randomInt n).
Proof.
  intros ent. unfold randomInt, randomInt_w, rand_Read. case_bool_decide; [done|]. by case_bool_decide.
Qed.

Lemma no_panic_ret {A} (a : A) : no_panic (mret a).
Proof. by intros ent. Qed.

Lemma no_panic_raise {A} msg : no_panic (raise (A := A) msg).
Proof. by intros ent. Qed.

(** A drawn index into the list it was drawn for. *)
Lemma no_panic_pick {A} (l : list A) v ent ent' :
  randomInt (length l) ent = (Ok v, ent') → no_panic (lift (index l v)).
Proof.
  intros (Hr & _)%randomInt_Ok ent1. destruct (index_run l v Hr) as (x & Hx & _).
  unfold lift. by rewrite Hx.
Qed.

Lemma no_panic_select k sel last scored : no_panic (select_loop k sel last scored).
Proof.
  revert sel last scored. induction k as [|k IH]; intros sel last scored; cbn [select_loop];
    [apply no_panic_ret|]. case_bool_decide; [apply no_panic_ret|].
  apply no_panic_bind; [apply no_panic_randomInt|]. intros v ent ent' Hv.
  apply no_panic_bind; [by eapply no_panic_pick|]. intros. apply IH.
Qed.

(** Construction never panics: every index it takes into a slice was drawn
    below the length of that slice, whatever nodes it is given and whatever the
    entropy source delivers. *)
Theorem build_no_panic own now nodes imsi ent : (build own now nodes imsi ent).1 ≠ Panic.
Proof.
  revert ent. change (no_panic (build own now nodes imsi)). unfold build.
  case_bool_decide; [apply no_panic_raise|]. case_bool_decide; [apply no_panic_raise|].
  apply no_panic_bind; [apply no_panic_randomInt|]. intros v _ _ _.
  apply no_panic_bind.
  { unfold selectMiddleHops. apply no_panic_bind; [apply no_panic_select|]. intros sel _ _ _.
    case_bool_decide; [apply no_panic_raise|apply no_panic_ret]. }
  intros mid _ _ _. case_bool_decide; [apply no_panic_raise|].
  apply no_panic_bind; [apply no_panic_randomInt|]. intros w ent ent' Hw.
  apply no_panic_bind; [by eapply no_panic_pick|]. intros ex _ _ _.
  apply no_panic_bind.
  { intros ent1. unfold newSessionToken, rand_Read. by case_bool_decide. }
  intros tok _ _ _. apply no_panic_bind; [done|]. intros. apply no_panic_ret.
Qed.

(** ** Scoring *)

(** C20: for nodes decoded from JSON (finite uptime, 64-bit pool size) the
    in-place sort returns a permutation of the nodes in which no node scores
    higher than one before it, the score being a hundred times the uptime plus
    the pool size (so not, as the comment of the function has it, by uptime and
    then by pool size); it agrees with inserting the nodes one by one behind all
    that score at least as high, so equal scores keep their order. *)
Theorem scoreNodes_sorts nodes :
  Forall (λ n, is_finite (Uptime30d (Capabilities n)) = true ∧
               (- 2 ^ 63 ≤ SIMPoolSize (Capabilities n) < 2 ^ 63)%Z) nodes →
  scoreNodes nodes ≡ₚ nodes ∧ StronglySorted not_higher (scoreNodes nodes) ∧
  scoreNodes nodes = foldl (λ acc x, insert_desc x acc) [] nodes.
Proof.
  intros H. assert (Forall numeric nodes) as Hn.
  { eapply Forall_impl; [done|]. intros n [? ?]. by apply score_numeric. }
  split; [apply scoreNodes_perm|]. rewrite scoreNodes_ref by done. split; [|done].
  apply foldl_insert_desc; [done|constructor].
Qed.

(** A node that was never up and has 150 SIMs goes before one that was always up
    and has 10. *)
Definition idle_node : NodeRecord :=
  mkNodeRecord "idle" "key-idle" "idle:51820" (mkNodeCapabilities ["NL"] ["NL"] (float64_of_int 0) 150 true 100).
Definition scored_net : list NodeRecord := [demo_node "n1" "NL" 10 true; idle_node].

Lemma scoreNodes_sorts_witness :
  StronglySorted not_higher (scoreNodes scored_net) ∧ scoreNodes scored_net = [idle_node; demo_node "n1" "NL" 10 true].
Proof.
  split; [|vm_compute; reflexivity]. apply (scoreNodes_sorts scored_net). unfold scored_net.
  repeat (apply Forall_cons; split; [split; [vm_compute; reflexivity|simpl; lia]|]). apply Forall_nil. exact I.
Defined.

(** ** Jurisdictions *)

Lemma top_pool {A} (l : list A) :
  take (if bool_decide (length l < 3) then length l else 3) l = take 3 l.
Proof. case_bool_decide; [|done]. by rewrite firstn_all, take_ge by lia. Qed.

Lemma select_loop_diversity k sel last scored ent res ent' :
  select_loop k sel last scored ent = (Ok res, ent') →
  ∃ mid, res = sel ++ mid ∧
    (∀ b, mid !! 0 = Some b → primaryJurisdiction b = last →
       ∀ n, n ∈ take 3 scored → primaryJurisdiction n = last) ∧
    (∀ i a b, mid !! i = Some a → mid !! S i = Some b →
       primaryJurisdiction b = primaryJurisdiction a →
       ∀ n, n ∈ take 3 (filter (λ n, ServerID n ∉ ids (take (S i) mid)) scored) →
            primaryJurisdiction n = primaryJurisdiction a).
Proof.
  revert sel last scored ent. induction k as [|k IH]; intros sel last scored ent H; cbn [select_loop] in H.
  { injection H as <- <-. exists []. rewrite app_nil_r. by split_and!. }
  case_bool_decide as Hne.
  { injection H as <- <-. exists []. rewrite app_nil_r. by split_and!. }
  apply M_bind_Ok in H as (idx & ent1 & _ & H). apply M_bind_Ok in H as (ch & ent2 & Hc & H).
  injection Hc as Hc _. apply index_Ok in Hc.
  rewrite top_pool in Hc. apply IH in H as (mid & -> & H0 & Hi). exists (ch :: mid).
  split; [by rewrite <-app_assoc|]. split.
  - intros b [= <-] Hb n Hn. case_bool_decide as Hel.
    + destruct (decide (primaryJurisdiction n = last)); [done|]. exfalso.
      apply (not_elem_of_nil n). rewrite <-Hel. by apply list_elem_of_filter.
    + by apply list_elem_of_filter in Hc as [? _].
  - intros [|i] a b Ha Hb E n Hn.
    + injection Ha as <-. apply (H0 b Hb E). simpl in Hn. unfold ids in Hn. simpl in Hn.
      erewrite list_filter_iff; [exact Hn|]. intros x. simpl. rewrite elem_of_cons, elem_of_nil. tauto.
    + apply (Hi i a b Ha Hb E). rewrite list_filter_filter.
      erewrite list_filter_iff; [exact Hn|]. intros x. simpl. unfold ids. simpl.
      rewrite elem_of_cons. tauto.
Qed.

(** Two consecutive middle hops lie in the same jurisdiction only when the
    three best-scored nodes not yet chosen all lie in that jurisdiction: the
    constraint is relaxed only after the whole pool failed it. *)
Theorem middle_hops_diverse cands n ent mid ent' i a b :
  selectMiddleHops cands n ent = (Ok mid, ent') →
  mid !! i = Some a → mid !! S i = Some b → primaryJurisdiction b = primaryJurisdiction a →
  ∀ x, x ∈ take 3 (filter (λ n, ServerID n ∉ ids (take (S i) mid)) (scoreNodes cands)) →
       primaryJurisdiction x = primaryJurisdiction a.
Proof.
  intros H Ha Hb E. unfold selectMiddleHops in H. apply M_bind_Ok in H as (sel & ent1 & Hs & H).
  case_bool_decide; [done|]. injection H as -> ->.
  apply select_loop_diversity in Hs as (mid' & Em & _ & Hi). simpl in Em. subst mid'. by eapply Hi.
Qed.

(** Six nodes: the four best-scored ones are in one jurisdiction. *)
Definition demo_clustered : list NodeRecord :=
  [demo_node "n1" "NL" 50 false; demo_node "n2" "NL" 40 false; demo_node "n3" "NL" 30 false;
   demo_node "n4" "NL" 20 false; demo_node "n5" "CH" 10 true; demo_node "n6" "IS" 5 true].

Definition demo_mid : list NodeRecord := [demo_node "n1" "NL" 50 false; demo_node "n2" "NL" 40 false].

Lemma middle_hops_diverse_witness :
  selectMiddleHops demo_clustered 2 (zeros 8) = (Ok demo_mid, []) ∧
  primaryJurisdiction (demo_node "n4" "NL" 20 false) = "NL".
Proof.
  assert (selectMiddleHops demo_clustered 2 (zeros 8) = (Ok demo_mid, [])) as H
    by (vm_compute; reflexivity).
  split; [exact H|].
  apply (middle_hops_diverse demo_clustered 2 (zeros 8) demo_mid [] 0
           (demo_node "n1" "NL" 50 false) (demo_node "n2" "NL" 40 false) H eq_refl eq_refl eq_refl).
  apply list_elem_of_In. vm_compute. tauto.
Defined.

(** The jurisdictional rule is not enforced on circuits: there is a network
    with three jurisdictions and an entropy draw for which [build] returns a
    circuit whose first two hops are in the same jurisdiction, and the circuit
    as a whole crosses only two jurisdictions. *)
Theorem build_not_diverse :
  ∃ c ent', build "self" 0 demo_clustered "imsi" (zeros 60) = (Ok c, ent') ∧
    jurisdictionCount (candidates_of "self" demo_clustered) = 3 ∧
    HopJurisdiction <$> Hops c = ["NL"; "NL"; "CH"].
Proof.
  destruct (build "self" 0 demo_clustered "imsi" (zeros 60)) as [[c|e|] ent'] eqn:E;
    [|exfalso; vm_compute in E; discriminate E..].
  exists c, ent'. split; [done|]. split; [vm_compute; reflexivity|].
  apply (f_equal (λ r, match r.1 with Ok c => HopJurisdiction <$> Hops c | _ => [] end)) in E.
  simpl in E. rewrite <-E. vm_compute. reflexivity.
Qed.

(** Two exit nodes, the best-scored of the network. *)
Definition demo_exit_first : list NodeRecord :=
  [demo_node "n1" "NL" 10 false; demo_node "n2" "CH" 20 false;
   demo_node "n3" "IS" 30 true; demo_node "n4" "NO" 40 true].

(** Exit nodes are not kept out of the middle of a circuit: with two exit
    nodes among four, the selection may take both as middle hops, and [build]
    then reports that no exit is available, although other choices on the same
    network succeed. *)
Theorem exit_nodes_used_as_middle :
  (∃ mid ent', selectMiddleHops demo_exit_first 2 (zeros 8) = (Ok mid, ent') ∧
     Forall (λ n, ExitNode (Capabilities n) = true) mid) ∧
  (build "self" 0 demo_exit_first "imsi" (zeros 60)).1 = Err errNoExit ∧
  is_ok (build "self" 0 demo_exit_first "imsi" (zeros 7 ++ [x02] ++ zeros 52)).1 = true.
Proof.
  split_and!; [|vm_compute; reflexivity..].
  exists [demo_node "n4" "NO" 40 true; demo_node "n3" "IS" 30 true], []. split; [vm_compute; reflexivity|].
  by repeat constructor.
Qed.

(** ** Random integers *)

(** On a 64-bit platform [randomInt n] returns an integer in the range from
    0 below [n], fails exactly when [n] is not positive or four bytes cannot be
    read, and never returns anything else. *)
Theorem randomInt_range n ent :
  match randomInt_w 64 n ent with
  | (Ok v, ent') => (0 ≤ v < n)%Z ∧ ent' = drop 4 ent
  | (Err e, _) => (n ≤ 0)%Z ∨ length ent < 4
  | (Panic, _) => False
  end.
Proof.
  unfold randomInt_w, rand_Read. case_bool_decide; [by left|]. case_bool_decide; [|right; lia].
  rewrite draw_index_64 by lia. split; [apply Z.mod_pos_bound; lia|done].
Qed.

(** On a platform where [int] has 32 bits the same code breaks its promise:
    for the bytes 80 00 00 00 the value is the smallest integer, negating it
    changes nothing, and the result for [n = 3] is -2, which as an index
    panics. *)
Theorem randomInt_32_negative :
  randomInt_w 32 3 [x80; x00; x00; x00] = (Ok (-2)%Z, []) ∧
  index demo_min_net (-2) = Panic.
Proof. split; vm_compute; reflexivity. Qed.

(** ** UUIDs *)

Lemma uuid_version b : hex_digit (byte_Z (Z_byte (Z.lor (Z.land (byte_Z b) 15) 64)) / 16) = "4"%char.
Proof. destruct b; vm_compute; reflexivity. Qed.

Lemma uuid_variant b :
  hex_digit (byte_Z (Z_byte (Z.lor (Z.land (byte_Z b) 63) 128)) / 16) ∈ ["8"; "9"; "a"; "b"]%char.
Proof. apply list_elem_of_In. destruct b; vm_compute; tauto. Qed.

(** [mustUUID] always returns, even when the entropy source fails, and its
    result has the form of a version 4 UUID: 36 characters with dashes after
    positions 8, 13, 18 and 23, the version digit 4, and a variant digit among
    8, 9, a and b. *)
Theorem mustUUID_v4 (ent : entropy) :
  ∃ s ent', mustUUID ent = (Ok s, ent') ∧
    length (list_ascii_of_string s) = 36 ∧
    (∀ i, i ∈ [8; 13; 18; 23] → list_ascii_of_string s !! i = Some "-"%char) ∧
    list_ascii_of_string s !! 14 = Some "4"%char ∧
    (∃ v, list_ascii_of_string s !! 19 = Some v ∧ v ∈ ["8"; "9"; "a"; "b"]%char).
Proof.
  unfold mustUUID, rand_Read.
  assert (length (take 16 ent ++ replicate (16 - length ent) x00) = 16) as Hl.
  { rewrite length_app, length_take, length_replicate. lia. }
  set (b := take 16 ent ++ replicate (16 - length ent) x00) in *.
  eexists _, _. split; [reflexivity|]. rewrite list_ascii_of_string_of_list_ascii.
  do 16 (destruct b as [|? b]; [discriminate Hl|]). destruct b; [|discriminate Hl]. clear Hl.
  cbn [uuid_bytes alter list_alter uuid_text take drop hex_bytes app length].
  split; [reflexivity|]. split.
  { intros i Hi. rewrite !elem_of_cons, elem_of_nil in Hi.
    destruct Hi as [->|[->|[->|[->|[]]]]]; reflexivity. }
  split; [|eexists; split; [reflexivity|]].
  - apply (f_equal Some), uuid_version.
  - apply uuid_variant.
Qed.
