(* ===== verification/WireGuard.v ===== *)
(** * The WireGuard peer manager (camo-wireguard/main.go)

    The manager decodes keys, parses addresses and hands peer configurations to
    the kernel through wgctrl.  The resolver of host names and the wgctrl client
    are interfaces; what the theorems use of them is stated as laws.  The last
    part is the program: the bytes on its socket, its configuration file and its
    start-up. *)

From Stdlib Require Import ZArith Lia Ascii String Strings.Byte.
From stdpp Require Import base option list gmap strings fin_maps.
From S2P Require Import Prelude GoText GoUtf8 GoBase64 GoTime GoJson GoJsonRead GoNumber GoTimeParse.
From S2P Require Import GoJsonDecode GoLines GoService GoNet.

(** ** Data *)

Record wgAPIRequest := mkWGReq {
  WCommand : string;
  PublicKey : string;
  Endpoint : string;
  AllowedIP : string;
  PeerID : string
}.

Record wgPeer := mkWGPeer {
  PeerPublicKey : string;
  PeerEndpoint : string;
  PeerAllowedIPs : list string;
  LastHandshake : Time
}.

Record wgAPIResponse := mkWGResp {
  WStatus : string;
  WRespCommand : string;
  Peers : list wgPeer;
  WMessage : string
}.

Record wgConfig := mkWGConfig {
  InterfaceName : string;
  ListenPort : Z;
  PrivateKeyPath : string
}.

(** The defaults [loadWGConfig] starts from. *)
Definition defaultWGConfig : wgConfig := mkWGConfig "camo0" 51820 "/var/lib/camo/wg.key".

Definition dec_wg_config : decoder wgConfig :=
  struct [field "interface_name" dec_string; field "listen_port" dec_int; field "private_key_path" dec_string] (λ c vs,
    mkWGConfig (get_field "interface_name" dec_string (InterfaceName c) vs)
      (get_field "listen_port" dec_int (ListenPort c) vs) (get_field "private_key_path" dec_string (PrivateKeyPath c) vs)).

Definition loadWGConfig (file : read_result) : go wgConfig := load_optional dec_wg_config defaultWGConfig file.

(** ** The kernel *)

Record PeerConfig := mkPeerConfig {
  CfgPublicKey : list byte;
  CfgRemove : bool;
  CfgReplaceAllowedIPs : bool;
  CfgEndpoint : option string;
  CfgAllowedIPs : list IPNet;
  CfgKeepalive : option Z
}.

(** A peer as the kernel reports it. *)
Record DevicePeer := mkDevicePeer {
  DevPublicKey : list byte;
  DevEndpoint : option string;
  DevAllowedIPs : list IPNet;
  DevLastHandshake : Time
}.

(** The wgctrl client on kernel state [K]: [Device] gives the peers the interface
    reports. *)
Class WGClient (K : Type) := {
  ConfigureDevice : string → list PeerConfig → K → go unit * K;
  Device : string → K → go (list DevicePeer)
}.

(** What wgctrl and the kernel document of one peer configuration: removing makes
    the peer with that key absent, the other peers stay on the interface (an
    allowed address may move away from them), and the calls return. *)
Class WGClientLaws (K : Type) `{WGClient K} := {
  configure_remove dev pc k k' ps :
    CfgRemove pc = true → ConfigureDevice dev [pc] k = (Ok (), k') → Device dev k' = Ok ps →
    CfgPublicKey pc ∉ DevPublicKey <$> ps;
  configure_other dev pc k k' ps ps' key :
    ConfigureDevice dev [pc] k = (Ok (), k') → Device dev k = Ok ps → Device dev k' = Ok ps' →
    key ≠ CfgPublicKey pc → key ∈ DevPublicKey <$> ps ↔ key ∈ DevPublicKey <$> ps';
  configure_no_panic dev pcs k : (ConfigureDevice dev pcs k).1 ≠ Panic;
  device_no_panic dev k : Device dev k ≠ Panic
}.

(** ** The manager *)

Definition keyLen : nat := 32.

(** [copy(pubKey[:], b)] into a zero key of 32 bytes. *)
Definition copy_key (b : list byte) : list byte := take keyLen b ++ replicate (keyLen - length b) x00.

Definition b64_error : string := "illegal base64 data".

Section manager.
Context `{Resolver} {K : Type} `{WGClient K} (cfg : wgConfig).

Definition addPeer (pubKeyB64 endpoint allowedIP : string) (k : K) : go unit * K :=
  match DecodeString StdEncoding pubKeyB64 with
  | None => (Err b64_error, k)
  | Some pubKeyBytes =>
      let pubKey := copy_key pubKeyBytes in
      match (if bool_decide (endpoint = "") then Ok None else Some <$> ResolveUDPAddr endpoint) with
      | Err e => (Err e, k)
      | Panic => (Panic, k)
      | Ok ep =>
          match (if bool_decide (allowedIP = "") then Ok [] else (λ n, [n]) <$> ParseCIDR allowedIP) with
          | Err e => (Err e, k)
          | Panic => (Panic, k)
          | Ok ips =>
              ConfigureDevice (InterfaceName cfg)
                [mkPeerConfig pubKey false true ep ips (Some (25 * Second)%Z)] k
          end
      end
  end.

Definition removePeer (pubKeyB64 : string) (k : K) : go unit * K :=
  match DecodeString StdEncoding pubKeyB64 with
  | None => (Err b64_error, k)
  | Some pubKeyBytes =>
      ConfigureDevice (InterfaceName cfg)
        [mkPeerConfig (copy_key pubKeyBytes) true false None [] None] k
  end.

Definition peer_summary (p : DevicePeer) : wgPeer :=
  mkWGPeer (EncodeToString StdEncoding (DevPublicKey p)) (default "" (DevEndpoint p))
    (IPNet_String <$> DevAllowedIPs p) (DevLastHandshake p).

Definition listPeers (k : K) : go (list wgPeer) :=
  list_fmap _ _ peer_summary <$> Device (InterfaceName cfg) k.

(** ** The API *)

Definition wg_error (cmd msg : string) : wgAPIResponse := mkWGResp "error" cmd [] msg.
Definition wg_ok (cmd : string) : wgAPIResponse := mkWGResp "ok" cmd [] "".

(** One line of a connection; [None] is a line [json.Unmarshal] refuses.  After
    a successful change the handler logs [req.PublicKey[:8]], which panics when
    the key text is shorter. *)
Definition handleLine (req : option wgAPIRequest) (k : K) : go wgAPIResponse * K :=
  match req with
  | None => (Ok (wg_error "" "invalid request"), k)
  | Some r =>
      if bool_decide (WCommand r = "add_peer") then
        match addPeer (PublicKey r) (Endpoint r) (AllowedIP r) k with
        | (Err e, k') => (Ok (wg_error (WCommand r) e), k')
        | (Panic, k') => (Panic, k')
        | (Ok _, k') =>
            if bool_decide (String.length (PublicKey r) < 8) then (Panic, k')
            else (Ok (wg_ok (WCommand r)), k')
        end
      else if bool_decide (WCommand r = "remove_peer") then
        match removePeer (PublicKey r) k with
        | (Err e, k') => (Ok (wg_error (WCommand r) e), k')
        | (Panic, k') => (Panic, k')
        | (Ok _, k') =>
            if bool_decide (String.length (PublicKey r) < 8) then (Panic, k')
            else (Ok (wg_ok (WCommand r)), k')
        end
      else if bool_decide (WCommand r = "list_peers") then
        match listPeers k with
        | Ok peers => (Ok (mkWGResp "ok" (WCommand r) peers ""), k)
        | Err e => (Ok (wg_error (WCommand r) e), k)
        | Panic => (Panic, k)
        end
      else (Ok (wg_error (WCommand r) "unknown command"), k)
  end.

(** [handleConn]: the responses of the lines answered so far and whether the
    goroutine, and with it the process, died in one of them. *)
Fixpoint handleConn (lines : list (option wgAPIRequest)) (k : K) : list wgAPIResponse * bool * K :=
  match lines with
  | [] => ([], false, k)
  | req :: lines =>
      match handleLine req k with
      | (Ok resp, k') => let '(resps, died, k'') := handleConn lines k' in (resp :: resps, died, k'')
      | (_, k') => ([], true, k')
      end
  end.
End manager.

(** ** Lemmas *)

Lemma length_copy_key b : length (copy_key b) = keyLen.
Proof. unfold copy_key. rewrite length_app, length_take, length_replicate. unfold keyLen. lia. Qed.

Lemma copy_key_id b : length b = keyLen → copy_key b = b.
Proof.
  intros E. unfold copy_key. rewrite E, Nat.sub_diag, take_ge by lia. apply app_nil_r.
Qed.

Lemma count_char_app c s t : count_char c (s ++ t) = count_char c s + count_char c t.
Proof. unfold count_char. by rewrite list_ascii_of_string_app, filter_app, length_app. Qed.

Lemma count_char_digits c m :
  is_digit c = false → Forall (λ c, is_digit c = true) (list_ascii_of_string m) → count_char c m = 0.
Proof.
  intros Hc Hm. unfold count_char. induction Hm as [|x l Hx _ IH]; [done|].
  rewrite filter_cons_False; [done|]. intros ->. congruence.
Qed.

Section manager_lemmas.
Context `{Resolver}.

(** An address that resolves as an endpoint is not the host of a CIDR. *)
Lemma endpoint_not_cidr a e r : a ≠ "" → ResolveUDPAddr a = Ok e → ParseCIDR (a ++ "/32") ≠ Ok r.
Proof.
  intros Ha He Hr. apply resolve_form in He; [|done].
  destruct (cidr_form _ _ Hr) as (h & m & Es & Hh & Hs & Hb & Hc & Hm).
  assert (∀ c, is_digit c = false → c ≠ "/"%char →  count_char c a = count_char c h) as Heq.
  { intros c Hd Hne. assert (count_char c (a ++ "/32") = count_char c (h ++ "/" ++ m)) as E by congruence.
    rewrite !count_char_app, (count_char_digits c m) in E by done.
    assert (count_char c "/" = 0 ∧ count_char c "/32" = 0) as [E1 E2]; [|rewrite E1, E2 in E; lia].
    unfold count_char. simpl. rewrite !filter_cons_False by (intros <-; done). done. }
  rewrite (Heq "["%char), (Heq ":"%char) in He by done. lia.
Qed.

(** For a hop the command ends before it reaches the device. *)
Lemma addPeer_hop {K} `{WGClient K} cfg pk a k :
  (addPeer cfg pk a (a ++ "/32") k).1 ≠ Ok () ∧ (addPeer cfg pk a (a ++ "/32") k).2 = k.
Proof.
  unfold addPeer. destruct (DecodeString _ _); [|done].
  case_bool_decide as Ha; simpl.
  - subst a. rewrite bool_decide_false by done. change ("" ++ "/32")%string with "/32".
    destruct (ParseCIDR "/32") as [r|e|] eqn:E; [|done..].
    destruct (cidr_form _ _ E) as (h & m & Es & Hh & Hs & _). destruct h as [|c h]; [done|].
    injection Es as <- _. discriminate Hs.
  - destruct (ResolveUDPAddr a) as [e|e|] eqn:E; simpl; [|done..].
    rewrite bool_decide_false by (destruct a; done).
    destruct (ParseCIDR (a ++ "/32")) as [r|e'|] eqn:E'; simpl; [|done..].
    by destruct (endpoint_not_cidr a e r Ha E).
Qed.
End manager_lemmas.

(** ** A concrete resolver and a concrete kernel

    A resolver that takes every host as an address, and a table of peers that
    follows the kernel's rules; they satisfy the laws, so the laws can hold. *)

#[export] Instance literal_resolver : Resolver := λ host port, Ok (host ++ ":" ++ port)%string.
#[export] Instance literal_resolver_laws : ResolverLaws.
Proof. by split. Qed.

Record peer_table := mkPeerTable { table_key : list byte; table_peers : list DevicePeer }.

Definition without (key : list byte) (ps : list DevicePeer) : list DevicePeer :=
  filter (λ p, DevPublicKey p ≠ key) ps.

#[export] Instance addr_eq_dec : EqDecision addr.
Proof. solve_decision. Defined.
#[export] Instance IPNet_eq_dec : EqDecision IPNet.
Proof. solve_decision. Defined.

(** Networks that move to another peer are taken from this one. *)
Definition strip_ips (ips : list IPNet) (p : DevicePeer) : DevicePeer :=
  mkDevicePeer (DevPublicKey p) (DevEndpoint p) (filter (λ n, n ∉ ips) (DevAllowedIPs p)) (DevLastHandshake p).

Definition apply_peer (t : peer_table) (pc : PeerConfig) : peer_table :=
  let key := CfgPublicKey pc in
  let rest := without key (table_peers t) in
  if CfgRemove pc then mkPeerTable (table_key t) rest
  else if bool_decide (key = table_key t) then t
  else
    let old := List.find (λ p, bool_decide (DevPublicKey p = key)) (table_peers t) in
    let ep := match CfgEndpoint pc with Some e => Some e | None => old ≫= DevEndpoint end in
    let kept := if CfgReplaceAllowedIPs pc then [] else from_option DevAllowedIPs [] old in
    let ips := filter (λ n, n ∉ CfgAllowedIPs pc) kept ++ CfgAllowedIPs pc in
    mkPeerTable (table_key t) (mkDevicePeer key ep ips (from_option DevLastHandshake zero_time old) ::
      (strip_ips (CfgAllowedIPs pc) <$> rest)).

#[export] Instance table_client : WGClient peer_table := {
  ConfigureDevice dev pcs t :=
    if bool_decide (dev = "camo0") then (Ok (), foldl apply_peer t pcs) else (Err "file does not exist", t);
  Device dev t := if bool_decide (dev = "camo0") then Ok (table_peers t) else Err "file does not exist"
}.

Lemma elem_of_without key key' ps :
  key ∈ DevPublicKey <$> without key' ps ↔ key ≠ key' ∧ key ∈ DevPublicKey <$> ps.
Proof.
  rewrite !list_elem_of_fmap. setoid_rewrite list_elem_of_filter. split.
  - intros (p & -> & ? & ?). eauto.
  - intros [Hne (p & -> & Hp)]. eauto.
Qed.

Lemma keys_strip ips (ps : list DevicePeer) : DevPublicKey <$> (strip_ips ips <$> ps) = DevPublicKey <$> ps.
Proof. by rewrite <-list_fmap_compose. Qed.

#[export] Instance table_client_laws : WGClientLaws peer_table.
Proof.
  split.
  - intros dev pc k k' ps Hr. simpl. case_bool_decide; [|done]. intros [= <-] [= <-]. simpl.
    unfold apply_peer. rewrite Hr. simpl. rewrite elem_of_without. tauto.
  - intros dev pc k k' ps ps' key. simpl. case_bool_decide; [|done].
    intros [= <-] [= <-] [= <-] Hne. simpl. unfold apply_peer.
    repeat case_match; simpl; rewrite ?elem_of_cons, ?keys_strip, ?elem_of_without; tauto.
  - intros dev pcs k. simpl. by case_bool_decide.
  - intros dev k. simpl. by case_bool_decide.
Qed.

(** ** Properties *)

(** The change a request asks of the device, when it asks for one. *)
Definition change `{Resolver} {K} `{WGClient K} (cfg : wgConfig) (r : wgAPIRequest) (k : K) : option (go unit * K) :=
  if bool_decide (WCommand r = "add_peer") then
    Some (addPeer cfg (PublicKey r) (Endpoint r) (AllowedIP r) k)
  else if bool_decide (WCommand r = "remove_peer") then Some (removePeer cfg (PublicKey r) k)
  else None.

Section manager_props.
Context `{ResolverLaws} {K : Type} `{WGClientLaws K} (cfg : wgConfig).

Lemma addPeer_no_panic pk e ip k : (addPeer cfg pk e ip k).1 ≠ Panic.
Proof.
  unfold addPeer. destruct (DecodeString _ _); [|done].
  pose proof (resolve_no_panic e). pose proof (cidr_no_panic ip).
  destruct (bool_decide (e = "")); [|destruct (ResolveUDPAddr e)]; simpl; try done;
    (destruct (bool_decide (ip = "")); [|destruct (ParseCIDR ip)]); simpl; try done;
    apply configure_no_panic.
Qed.

Lemma removePeer_no_panic pk k : (removePeer cfg pk k).1 ≠ Panic.
Proof. unfold removePeer. destruct (DecodeString _ _); [|done]. apply configure_no_panic. Qed.

Lemma handleLine_panic r k k' :
  handleLine cfg (Some r) k = (Panic, k') ↔
  String.length (PublicKey r) < 8 ∧ change cfg r k = Some (Ok (), k').
Proof.
  unfold handleLine, change.
  pose proof (addPeer_no_panic (PublicKey r) (Endpoint r) (AllowedIP r) k) as Ha.
  pose proof (removePeer_no_panic (PublicKey r) k) as Hr.
  pose proof (device_no_panic (InterfaceName cfg) k) as Hd.
  case_bool_decide; [|case_bool_decide; [|case_bool_decide]].
  - destruct (addPeer _ _ _ _ _) as [[[]|e|] k1]; [case_bool_decide|..]; simpl in *; intuition congruence.
  - destruct (removePeer _ _ _) as [[[]|e|] k1]; [case_bool_decide|..]; simpl in *; intuition congruence.
  - unfold listPeers. destruct (Device _ _); simpl; intuition congruence.
  - intuition congruence.
Qed.

Lemma handleConn_app l1 l2 k :
  handleConn cfg (l1 ++ l2) k =
  let '(rs1, d1, k1) := handleConn cfg l1 k in
  if d1 : bool then (rs1, true, k1)
  else let '(rs2, d2, k2) := handleConn cfg l2 k1 in (rs1 ++ rs2, d2, k2).
Proof.
  revert k. induction l1 as [|q l1 IH]; intros k; cbn [handleConn app].
  { by destruct (handleConn cfg l2 k) as [[??]?]. }
  destruct (handleLine cfg q k) as [[r|e|] k']; [|done..]. rewrite IH.
  destruct (handleConn cfg l1 k') as [[rs1 d1] k1]. destruct d1; [done|].
  by destruct (handleConn cfg l2 k1) as [[??]?].
Qed.

Lemma handleLine_never_err q k e k' : handleLine cfg q k ≠ (Err e, k').
Proof. unfold handleLine. intros E. repeat case_match; simplify_eq. Qed.

(** The peer that the circuit controller asks for, whose allowed address is the
    hop's [host:port] with [/32] appended, is refused for every key and every
    address, and the device is not touched. *)
Lemma hop_peer_refused pk a id k :
  ∃ msg, handleLine cfg (Some (mkWGReq "add_peer" pk a (a ++ "/32") id)) k
         = (Ok (wg_error "add_peer" msg), k).
Proof.
  destruct (addPeer_hop cfg pk a k) as [Hno Hk]. pose proof (addPeer_no_panic pk a (a ++ "/32") k) as Hp.
  unfold handleLine. rewrite bool_decide_true by done. cbn [PublicKey Endpoint AllowedIP WCommand].
  destruct (addPeer cfg pk a (a ++ "/32") k) as [[[]|m|] k'] eqn:E; simpl in *; [done| |done].
  subst k'. eauto.
Qed.

(** C26: a connection kills the process exactly at its first line that changed
    the device successfully with a key text of fewer than eight characters: the
    lines before it were answered, the change is in the device, and neither it
    nor any later line is answered. *)
Theorem handleConn_dies lines k resps k' :
  handleConn cfg lines k = (resps, true, k') ↔
  ∃ pre r post k1, lines = pre ++ Some r :: post ∧
    handleConn cfg pre k = (resps, false, k1) ∧
    String.length (PublicKey r) < 8 ∧ change cfg r k1 = Some (Ok (), k').
Proof.
  split.
  - revert k resps. induction lines as [|q lines IH]; intros k resps E; [done|]. cbn [handleConn] in E.
    destruct (handleLine cfg q k) as [[resp|e|] k1] eqn:El.
    + destruct (handleConn cfg lines k1) as [[rs d] k2] eqn:Ec. injection E as <- -> ->.
      destruct (IH k1 rs Ec) as (pre & r & post & k3 & -> & Hpre & Hlen & Hch).
      exists (q :: pre), r, post, k3. repeat split; try done. cbn [handleConn]. by rewrite El, Hpre.
    + by apply handleLine_never_err in El.
    + injection E as <- <-. destruct q as [r|]; [|done]. apply handleLine_panic in El as [Hlen Hch].
      by exists [], r, lines, k.
  - intros (pre & r & post & k1 & -> & Hpre & Hlen & Hch). rewrite handleConn_app, Hpre.
    cbn [handleConn]. rewrite (proj2 (handleLine_panic r k1 k')) by done. by rewrite app_nil_r.
Qed.

End manager_props.

(** ** Witnesses *)

Definition key_of (b : byte) : list byte := replicate keyLen b.
(** 10.0.0.1/32 *)
Definition host_net : IPNet := mkIPNet (mkAddr false 167772161) 32.
Definition empty_table : peer_table := mkPeerTable (key_of xff) [].

Lemma handleConn_dies_witness :
  handleConn defaultWGConfig
    [Some (mkWGReq "add_peer" "AQ==" "" "10.0.0.1/32" ""); Some (mkWGReq "list_peers" "" "" "" "")] empty_table
  = ([], true, mkPeerTable (key_of xff) [mkDevicePeer (x01 :: replicate 31 x00) None [host_net] zero_time]).
Proof.
  apply handleConn_dies.
  exists [], (mkWGReq "add_peer" "AQ==" "" "10.0.0.1/32" ""), [Some (mkWGReq "list_peers" "" "" "" "")], empty_table.
  split; [reflexivity|]. split; [reflexivity|]. split; [simpl; lia|]. vm_compute. reflexivity.
Defined.
