(* ===== verification/WireGuardApi.v ===== *)
(** * The camo-wireguard program (camo-wireguard/main.go)

    The socket protocol in bytes, the process that serves several connections
    at once, and start-up. *)

From Stdlib Require Import ZArith Lia Ascii String Strings.Byte.
From stdpp Require Import base option list gmap strings fin_maps relations.
From S2P Require Import Prelude GoText GoUtf8 GoBase64 GoTime GoJson GoJsonRead GoNumber GoTimeParse.
From S2P Require Import GoJsonDecode GoLines GoService GoNet WireGuard.

(** ** Requests and responses on the wire *)

Definition zero_wg_request : wgAPIRequest := mkWGReq "" "" "" "" "".

Definition dec_wg_request : decoder wgAPIRequest :=
  struct [field "command" dec_string; field "public_key" dec_string; field "endpoint" dec_string;
          field "allowed_ip" dec_string; field "peer_id" dec_string] (λ r vs,
    mkWGReq (get_field "command" dec_string (WCommand r) vs) (get_field "public_key" dec_string (PublicKey r) vs)
      (get_field "endpoint" dec_string (Endpoint r) vs) (get_field "allowed_ip" dec_string (AllowedIP r) vs)
      (get_field "peer_id" dec_string (PeerID r) vs)).

(** A slice that was only appended to is nil when empty, and nil is null. *)
Definition appended_strings (l : list string) : jval := match l with [] => JNull | _ => JArr (JStr <$> l) end.

Definition wg_peer_json (p : wgPeer) : option jval :=
  ts ← time_json (LastHandshake p);
  Some (JObj [("public_key", JStr (PeerPublicKey p)); ("endpoint", JStr (PeerEndpoint p));
              ("allowed_ips", appended_strings (PeerAllowedIPs p)); ("last_handshake", JStr ts)]).

Definition wg_response_json (r : wgAPIResponse) : option jval :=
  ps ← mapM wg_peer_json (Peers r);
  Some (JObj ([("status", JStr (WStatus r)); ("command", JStr (WRespCommand r))] ++
              match ps with [] => [] | _ => [("peers", JArr ps)] end ++ omitempty "message" (WMessage r))).

Definition wg_response_line (r : wgAPIResponse) : list ascii := encode_opt (wg_response_json r).

Section wire.
Context `{Resolver} {K : Type} `{WGClient K} (cfg : wgConfig).

(** [handleConn] on the bytes of a connection: the bytes written back, whether
    the process died, and the device afterwards. *)
Definition serve_bytes (bytes : list ascii) (k : K) : list ascii * bool * K :=
  let '(resps, died, k') := handleConn cfg (requests dec_wg_request zero_wg_request bytes) k in
  (resps ≫= wg_response_line, died, k').
End wire.

(** ** The process *)

(** A connection: the bytes its client sends, the lines still to be handled, the
    outcome of the command that was carried out and is not answered yet, and the
    answers written. *)
Record conn := mkConn {
  c_bytes : list ascii;
  c_lines : list (option wgAPIRequest);
  c_pending : option (go wgAPIResponse);
  c_answers : list wgAPIResponse
}.

Definition new_conn (bytes : list ascii) : conn :=
  mkConn bytes (requests dec_wg_request zero_wg_request bytes) None [].

Record wg_proc (K : Type) := mkProc { p_alive : bool; p_kernel : K; p_conns : list conn }.
Arguments mkProc {K}.
Arguments p_alive {K}.
Arguments p_kernel {K}.
Arguments p_conns {K}.

Section process.
Context {K : Type} `{WGClient K} (cfg : wgConfig).

(** The accept loop starts a goroutine per connection.  A goroutine carries out
    the command of its next line, which is one call of the kernel, and then
    either writes the answer or dies in the slice expression of its log line,
    and the process with it; between the two the other goroutines run.  Names
    are looked up anew for every command. *)
Inductive wg_step : wg_proc K → wg_proc K → Prop :=
| wg_accept k cs bytes :
    wg_step (mkProc true k cs) (mkProc true k (cs ++ [new_conn bytes]))
| wg_call (R : Resolver) k k' cs i b req lines ans out :
    ResolverLaws → cs !! i = Some (mkConn b (req :: lines) None ans) →
    handleLine cfg req k = (out, k') →
    wg_step (mkProc true k cs) (mkProc true k' (<[i := mkConn b lines (Some out) ans]> cs))
| wg_write k cs i b lines ans resp :
    cs !! i = Some (mkConn b lines (Some (Ok resp)) ans) →
    wg_step (mkProc true k cs) (mkProc true k (<[i := mkConn b lines None (ans ++ [resp])]> cs))
| wg_panic k cs i b lines ans :
    cs !! i = Some (mkConn b lines (Some Panic) ans) →
    wg_step (mkProc true k cs) (mkProc false k cs).

Definition wg_start (k : K) : wg_proc K := mkProc true k [].

(** A run of the process on a device that also changes for reasons of its own
    (handshakes, other programs): [outs] are those changes, in order. *)
Inductive wg_run (k0 : K) : list (K * K) → wg_proc K → Prop :=
| run_start : wg_run k0 [] (wg_start k0)
| run_step outs p q : wg_run k0 outs p → wg_step p q → wg_run k0 outs q
| run_outside outs al k k' cs :
    wg_run k0 outs (mkProc al k cs) → wg_run k0 (outs ++ [(k, k')]) (mkProc al k' cs).
End process.

(** ** Start-up *)

Record wg_env := mkWGEnv {
  we_config : read_result;     (* /etc/camo/wireguard.json *)
  we_client : go unit;         (* wgctrl.New() *)
  we_remove : go unit;         (* the stale socket *)
  we_mkdir : go unit;
  we_bind : go unit
}.

(** A manager is its configuration; the client is the kernel interface. *)
Definition newManager (client : go unit) (cfg : wgConfig) : go wgConfig :=
  match client with Ok _ => Ok cfg | Err e => Err e | Panic => Panic end.

Definition wg_listen (env : wg_env) : go unit := open_socket (we_remove env) (we_mkdir env) (we_bind env).

Definition wg_main (env : wg_env) : status wgConfig :=
  or_exit (loadWGConfig (we_config env)) (λ cfg,
  or_exit (newManager (we_client env) cfg) (λ mgr,
  or_exit (wg_listen env) (λ _, Running mgr))).

(** ** Lemmas *)

Lemma wg_request_written c v :
  v = JObj [("allowed_ip", JStr (AllowedIP c)); ("command", JStr (WCommand c)); ("endpoint", JStr (Endpoint c));
            ("public_key", JStr (PublicKey c))] →
  dec_into dec_wg_request zero_wg_request [quoted v] =
    mkWGReq (delivered (WCommand c)) (delivered (PublicKey c)) (delivered (Endpoint c)) (delivered (AllowedIP c)) "" ∧
  dec_err dec_wg_request (quoted v) = false ∧ fits max_depth v.
Proof.
  intros ->. rewrite quoted_obj. cbn [quoted_members quoted]. split_and!; [| |done].
  - unfold dec_wg_request. cbn [struct dec_into zero_wg_request WCommand PublicKey Endpoint AllowedIP PeerID].
    decode_fields. cbn. by rewrite !unquote_delivered.
  - unfold dec_wg_request. cbn [struct dec_err struct_err check_fields existsb field fst snd]. decode_fields. done.
Qed.

Lemma wg_remove_written cmd key v :
  v = JObj [("command", JStr cmd); ("public_key", JStr key)] →
  dec_into dec_wg_request zero_wg_request [quoted v] = mkWGReq (delivered cmd) (delivered key) "" "" "" ∧
  dec_err dec_wg_request (quoted v) = false ∧ fits max_depth v.
Proof.
  intros ->. rewrite quoted_obj. cbn [quoted_members quoted]. split_and!; [| |done].
  - unfold dec_wg_request. cbn [struct dec_into zero_wg_request WCommand PublicKey Endpoint AllowedIP PeerID].
    decode_fields. cbn. by rewrite !unquote_delivered.
  - unfold dec_wg_request. cbn [struct dec_err struct_err check_fields existsb field fst snd]. decode_fields. done.
Qed.

(** A response without peers, as an object. *)
Definition plain_response (r : wgAPIResponse) : jval :=
  JObj ([("status", JStr (WStatus r)); ("command", JStr (WRespCommand r))] ++ omitempty "message" (WMessage r)).

Lemma wg_response_plain r : Peers r = [] → wg_response_json r = Some (plain_response r).
Proof. intros Hp. unfold wg_response_json. by rewrite Hp. Qed.

(** Reading a response into a map of strings. *)
Lemma plain_response_map r :
  fits max_depth (plain_response r) ∧
  (Unmarshal dec_map (marshal (plain_response r)) ∅).1 !! "status" = Some (delivered (WStatus r)) ∧
  (Unmarshal dec_map (marshal (plain_response r)) ∅).1 !! "message" =
    (if bool_decide (WMessage r = "") then None else Some (delivered (WMessage r))).
Proof.
  assert (fits max_depth (plain_response r)) as Hf.
  { split; [done|]. unfold omitempty. by case_bool_decide. }
  split; [done|]. rewrite Unmarshal_marshal by done. cbn [fst]. unfold plain_response, omitempty.
  rewrite quoted_obj. assert (∀ s, unquote (quoted_string s) = delivered s) as Hu by apply unquote_delivered.
  case_bool_decide; cbn [app quoted_members quoted dec_map dec_into foldl map_into fst snd];
    rewrite !Hu; change (delivered "status") with "status"; change (delivered "command") with "command";
    change (delivered "message") with "message"; cbn [dec_string scalar dec_into foldl default]; rewrite !Hu.
  - by rewrite lookup_insert_ne, lookup_insert_eq, !lookup_insert_ne, lookup_empty by done.
  - by rewrite lookup_insert_eq, !lookup_insert_ne, lookup_insert_eq by done.
Qed.

(** ** The commands of all connections have one order *)

(** What happened to the device: a command of connection [i] with its outcome,
    or a change from outside. *)
Inductive event (K : Type) :=
| Call (i : nat) (req : option wgAPIRequest) (out : go wgAPIResponse)
| Outside (k k' : K).
Arguments Call {K}.
Arguments Outside {K}.

Definition call_at {K} (i : nat) (e : event K) : option (option wgAPIRequest * go wgAPIResponse) :=
  match e with Call j req out => if decide (j = i) then Some (req, out) else None | Outside _ _ => None end.

Definition outside_at {K} (e : event K) : option (K * K) :=
  match e with Call _ _ _ => None | Outside k k' => Some (k, k') end.

(** The commands of connection [i], and the changes from outside. *)
Definition calls_of {K} (i : nat) (tr : list (event K)) : list (option wgAPIRequest * go wgAPIResponse) :=
  omap (call_at i) tr.
Definition outside_of {K} (tr : list (event K)) : list (K * K) := omap outside_at tr.

Section serial.
Context {K : Type} `{WGClientLaws K} (cfg : wgConfig).

(** The events, one after the other, take the device from [k] to [k']. *)
Inductive serial (k : K) : list (event K) → K → Prop :=
| serial_nil : serial k [] k
| serial_call (R : Resolver) tr k1 k2 i req out :
    serial k tr k1 → ResolverLaws → handleLine cfg req k1 = (out, k2) →
    serial k (tr ++ [Call i req out]) k2
| serial_outside tr k1 k2 : serial k tr k1 → serial k (tr ++ [Outside k1 k2]) k2.

Lemma calls_of_snoc i (tr : list (event K)) e : calls_of i (tr ++ [e]) = calls_of i tr ++ option_list (call_at i e).
Proof. unfold calls_of. rewrite omap_app. cbn. by destruct (call_at i e). Qed.

Lemma elem_of_calls i (tr : list (event K)) req out : (req, out) ∈ calls_of i tr → Call i req out ∈ tr.
Proof.
  unfold calls_of. rewrite list_elem_of_omap. intros ([j r o|] & He & Hc); [|done].
  cbn in Hc. by case_decide; simplify_eq.
Qed.

Lemma serial_lethal k tr k' i req :
  serial k tr k' → Call i req Panic ∈ tr → ∃ r, req = Some r ∧ String.length (PublicKey r) < 8.
Proof.
  intros Hs. induction Hs as [|R tr k1 k2 j q out Hs IH HR Hl|tr k1 k2 Hs IH]; [by intros ?%elem_of_nil|..].
  - intros [Ht|Heq%list_elem_of_singleton]%elem_of_app; [by apply IH|].
    injection Heq as -> -> <-. destruct q as [r|]; [|done].
    apply handleLine_panic in Hl as [Hlen _]. eauto.
  - intros [Ht|[=]%list_elem_of_singleton]%elem_of_app. by apply IH.
Qed.

(** What one connection knows of the events. *)
Definition conn_traced (i : nat) (c : conn) (tr : list (event K)) : Prop :=
  (calls_of i tr).*1 ++ c_lines c = requests dec_wg_request zero_wg_request (c_bytes c) ∧
  (calls_of i tr).*2 = (Ok <$> c_answers c) ++ option_list (c_pending c).

Definition traced (cs : list conn) (tr : list (event K)) : Prop :=
  (∀ i c, cs !! i = Some c → conn_traced i c tr) ∧ (∀ i, length cs ≤ i → calls_of i tr = []).

Lemma traced_accept cs tr bytes : traced cs tr → traced (cs ++ [new_conn bytes]) tr.
Proof.
  intros [Hc Hn]. split.
  - intros i c [Hi|[Hlen Hi]]%lookup_app_Some; [by apply Hc|].
    apply list_lookup_singleton_Some in Hi as [Hz <-]. unfold conn_traced. by rewrite Hn.
  - intros i Hi. apply Hn. rewrite length_app in Hi. lia.
Qed.

Lemma traced_call cs tr i b req lines ans out :
  cs !! i = Some (mkConn b (req :: lines) None ans) → traced cs tr →
  traced (<[i := mkConn b lines (Some out) ans]> cs) (tr ++ [Call i req out]).
Proof.
  intros Hi [Hc Hn]. pose proof (lookup_lt_Some _ _ _ Hi) as Hlt. split.
  - intros j c. rewrite list_lookup_insert_Some. unfold conn_traced. rewrite calls_of_snoc. cbn [call_at].
    intros [(-> & <- & _)|[Hne Hj]].
    + destruct (Hc _ _ Hi) as [H1 H2]. cbn [c_lines c_bytes c_pending c_answers option_list option_rect] in *.
      rewrite decide_True by done. cbn [option_list option_rect]. rewrite !fmap_app, H2, <-H1, app_nil_r, <-app_assoc. done.
    + rewrite decide_False by done. cbn [option_list option_rect]. rewrite app_nil_r. by apply Hc.
  - intros j. rewrite length_insert. intros Hj. rewrite calls_of_snoc, Hn by done. cbn. by rewrite decide_False by lia.
Qed.

Lemma traced_write cs tr i b lines ans resp :
  cs !! i = Some (mkConn b lines (Some (Ok resp)) ans) → traced cs tr →
  traced (<[i := mkConn b lines None (ans ++ [resp])]> cs) tr.
Proof.
  intros Hi [Hc Hn]. split; [|intros j; rewrite length_insert; apply Hn].
  intros j c. rewrite list_lookup_insert_Some. intros [(-> & <- & _)|[_ Hj]]; [|by apply Hc].
  destruct (Hc _ _ Hi) as [H1 H2]. split; [done|]. rewrite H2.
  cbn [c_pending c_answers option_list option_rect]. by rewrite fmap_app, app_nil_r.
Qed.

Lemma traced_outside cs tr k k' : traced cs tr → traced cs (tr ++ [Outside k k']).
Proof.
  intros [Hc Hn]. split.
  - intros i c Hi. unfold conn_traced. rewrite calls_of_snoc, app_nil_r. by apply Hc.
  - intros i Hi. by rewrite calls_of_snoc, Hn.
Qed.

Lemma traced_pending cs tr i c out :
  cs !! i = Some c → c_pending c = Some out → traced cs tr → ∃ req, Call i req out ∈ tr.
Proof.
  intros Hi Hp [Hc _]. destruct (Hc _ _ Hi) as [_ H2].
  assert (out ∈ (calls_of i tr).*2) as Hout by (rewrite H2, Hp; apply elem_of_app; right; by left).
  apply list_elem_of_fmap in Hout as ([req o] & -> & He). exists req. by apply elem_of_calls.
Qed.

End serial.

(** ** What start-up needs *)

(** The manager runs exactly when its configuration is absent, and then with
    the defaults, or a JSON object of the right types, and then with the
    defaults overwritten by it, and the kernel client opens and the socket is
    bound; every failure ends it with code 1. *)
Theorem wg_startup env :
  we_client env ≠ Panic → we_mkdir env ≠ Panic → we_bind env ≠ Panic →
  (∀ cfg, wg_main env = Running cfg ↔
     ((we_config env = ReadNotExist ∧ cfg = defaultWGConfig) ∨
      (∃ data v, we_config env = ReadOk data ∧ json_text v data ∧ dec_err dec_wg_config v = false ∧
         cfg = dec_into dec_wg_config defaultWGConfig [v])) ∧
     we_client env = Ok () ∧ we_mkdir env = Ok () ∧ we_bind env = Ok ()) ∧
  (∀ c, wg_main env = Exited c → c = 1%Z).
Proof.
  intros Hc Hm Hb. assert (∀ cfg, loadWGConfig (we_config env) = Ok cfg ↔
     (we_config env = ReadNotExist ∧ cfg = defaultWGConfig) ∨
     (∃ data v, we_config env = ReadOk data ∧ json_text v data ∧ dec_err dec_wg_config v = false ∧
        cfg = dec_into dec_wg_config defaultWGConfig [v])) as Hload.
  { intros cfg. unfold loadWGConfig, load_optional. destruct (we_config env) as [data| |e].
    - rewrite decode_config_Ok. split; [intros (v & ?); right; by exists data, v|].
      intros [[? _]|(data' & v & [= <-] & ?)]; [done|by exists v].
    - split; [intros [= <-]; by left|]. by intros [[_ ->]|(? & ? & ? & _)].
    - split; [done|]. by intros [[? _]|(? & ? & ? & _)]. }
  unfold wg_main. split.
  - intros cfg. rewrite <-Hload. split.
    + intros (cfg' & El & H1)%or_exit_Running. apply or_exit_Running in H1 as (mgr & En & H1).
      apply or_exit_Running in H1 as ([] & Es & H1). injection H1 as ->. unfold newManager in En. unfold wg_listen, open_socket in Es.
      destruct (we_client env) as [[]|e|]; [|done..]. injection En as <-. destruct (we_mkdir env) as [[]|e|]; done.
    + intros (-> & -> & Hmk & Hbd). cbn [or_exit newManager]. unfold wg_listen, open_socket. by rewrite Hmk, Hbd.
  - intros c [(cfg & _ & H1)|[(? & _ & ->)|[El _]]]%or_exit_code; [|done|].
    + apply or_exit_code in H1 as [(mgr & _ & H1)|[(? & _ & ->)|[En _]]]; [|done|].
      * apply or_exit_code in H1 as [([] & _ & H1)|[(? & _ & ->)|[Es _]]]; [done|done|].
        exfalso. unfold wg_listen, open_socket in Es. by destruct (we_mkdir env).
      * exfalso. unfold newManager in En. by destruct (we_client env).
    + exfalso. revert El. unfold loadWGConfig, load_optional, decode_config. destruct (we_config env); [|done..].
      by destruct (Unmarshal _ _ _) as [? []].
Qed.

(** ** Witnesses *)

(** Two connections.  The first adds a peer with a short key; before it dies in
    its log line, the second lists the peers and is answered. *)
Definition lethal_bytes : list ascii :=
  qt "{'command':'add_peer','public_key':'AQ==','allowed_ip':'10.0.0.1/32'}" ++ [newline].
Definition list_bytes : list ascii := qt "{'command':'list_peers'}" ++ [newline].
Definition lethal_add : wgAPIRequest := mkWGReq "add_peer" "AQ==" "" "10.0.0.1/32" "".
Definition list_line : wgAPIRequest := mkWGReq "list_peers" "" "" "" "".
Definition dead_table : peer_table := mkPeerTable (key_of xff) [mkDevicePeer (x01 :: replicate 31 x00) None [host_net] zero_time].
Definition one_listed : wgAPIResponse := mkWGResp "ok" "list_peers" (peer_summary <$> table_peers dead_table) "".

Definition dead_conns : list conn :=
  [mkConn lethal_bytes [] (Some Panic) []; mkConn list_bytes [] None [one_listed]].

Lemma dead_reached : wg_run defaultWGConfig empty_table [] (mkProc false dead_table dead_conns).
Proof.
  eapply run_step; [|apply (wg_panic _ dead_table dead_conns 0 lethal_bytes [] []); reflexivity].
  eapply run_step; [|apply (wg_write _ dead_table [mkConn lethal_bytes [] (Some Panic) []; mkConn list_bytes [] (Some (Ok one_listed)) []]
    1 list_bytes [] [] one_listed); reflexivity].
  eapply run_step; [|apply (wg_call _ literal_resolver dead_table dead_table
    [mkConn lethal_bytes [] (Some Panic) []; mkConn list_bytes [Some list_line] None []]
    1 list_bytes (Some list_line) [] [] (Ok one_listed) _ eq_refl); vm_compute; reflexivity].
  eapply run_step; [|apply (wg_call _ literal_resolver empty_table dead_table
    [mkConn lethal_bytes [Some lethal_add] None []; mkConn list_bytes [Some list_line] None []]
    0 lethal_bytes (Some lethal_add) [] [] Panic _ eq_refl); vm_compute; reflexivity].
  assert (∀ b l, requests dec_wg_request zero_wg_request b = l → new_conn b = mkConn b l None []) as Hnew by (intros b l <-; done).
  rewrite <-(Hnew lethal_bytes [Some lethal_add]), <-(Hnew list_bytes [Some list_line]) by (vm_compute; reflexivity).
  eapply run_step; [|apply (wg_accept _ _ [new_conn lethal_bytes] list_bytes)].
  eapply run_step; [|apply (wg_accept _ _ [] lethal_bytes)]. apply run_start.
Qed.


Lemma wg_startup_witness :
  wg_main (mkWGEnv (ReadOk (qt "{'listen_port':4500}")) (Ok ()) (Err "no such file") (Ok ()) (Ok ())) =
  Running (mkWGConfig "camo0" 4500 "/var/lib/camo/wg.key").
Proof.
  apply (wg_startup (mkWGEnv (ReadOk (qt "{'listen_port':4500}")) (Ok ()) (Err "no such file") (Ok ()) (Ok ())));
    try discriminate.
  split; [|repeat split; reflexivity]. right. eexists _, (JObj [("listen_port", JNum ["4"; "5"; "0"; "0"]%char)]).
  split; [reflexivity|]. split; [apply read_json_sound; vm_compute; reflexivity|]. split; vm_compute; reflexivity.
Defined.
