(* ===== verification/CircuitRotation.v ===== *)
(** * Circuit rotation (camo-circuit/main.go)

    The rotation manager asks the gossip agent for nodes, builds a circuit,
    programs WireGuard peers through the socket of camo-wireguard, stores the
    circuit and tears the old peers down after an overlap.  The socket is an
    interface; the last part instantiates it with the model of camo-wireguard. *)

From Stdlib Require Import ZArith Lia Ascii String Strings.Byte.
From stdpp Require Import base option list gmap strings fin_maps sorting.
From S2P Require Import Prelude GoFloat GoText GoUtf8 GoBase64 GoTime GoJson GoJsonRead GoNumber GoTimeParse.
From S2P Require Import GoJsonDecode GoLines GoService GoNet CircuitStore CircuitConstructor CircuitProps WireGuard WireGuardApi.

(** ** Configuration *)

Record circuitConfig := mkCircuitConfig {
  OwnServerID : string;
  RotationInterval : Z;
  GossipSocket : string;
  WireGuardSocket : string;
  APNSocket : string;
  SIMPoolSocket : string
}.

Definition defaultCircuitConfig : circuitConfig :=
  mkCircuitConfig "" (chainRotationInterval / Second) "/run/camo/gossip.sock"
    "/run/camo/wireguard.sock" "/run/apncore.sock" "/run/camo/simpool.sock".

Definition dec_circuit_config : decoder circuitConfig :=
  struct [field "own_server_id" dec_string; field "rotation_interval" dec_int; field "gossip_socket" dec_string;
          field "wireguard_socket" dec_string; field "apn_socket" dec_string; field "simpool_socket" dec_string] (λ c vs,
    mkCircuitConfig (get_field "own_server_id" dec_string (OwnServerID c) vs)
      (get_field "rotation_interval" dec_int (RotationInterval c) vs)
      (get_field "gossip_socket" dec_string (GossipSocket c) vs)
      (get_field "wireguard_socket" dec_string (WireGuardSocket c) vs)
      (get_field "apn_socket" dec_string (APNSocket c) vs) (get_field "simpool_socket" dec_string (SIMPoolSocket c) vs)).

Definition loadCircuitConfig (file : read_result) : go circuitConfig :=
  load_optional dec_circuit_config defaultCircuitConfig file.

(** ** The WireGuard socket *)

Definition command := gmap string string.

(** A map is marshalled in the order of its keys. *)
Definition key_le (x y : string * string) : Prop := String.leb x.1 y.1 = true.
#[export] Instance key_le_dec : RelDecision key_le.
Proof. intros x y. unfold key_le. apply _. Defined.

Definition map_json (m : command) : jval := JObj (prod_map id JStr <$> merge_sort key_le (map_to_list m)).

(** One connection to the socket: an error when it cannot be dialled or written,
    otherwise what is written back. *)
Class WGSocket (W : Type) := converse : list ascii → W → go (list ascii) * W.

(** The object on the first line of an answer; empty when there is no line or it
    is not one. *)
Definition first_line_map (out : list ascii) : gmap string string :=
  match scan_lines out with l :: _ => (Unmarshal dec_map l ∅).1 | [] => ∅ end.

Section manager.
Context {W : Type} `{WGSocket W}.

Definition wgCommand (cmd : command) (w : W) : go unit * W :=
  match converse (encode_line (map_json cmd)) w with
  | (Err e, w') => (Err e, w')
  | (Panic, w') => (Panic, w')
  | (Ok out, w') =>
      let resp := first_line_map out in
      if bool_decide (default "" (resp !! "status") = "ok") then (Ok (), w')
      else (Err ("wg command failed: " ++ default "" (resp !! "message")), w')
  end.

Definition addWGPeer (pubKey endpoint allowedIP : string) : W → go unit * W :=
  wgCommand {["command" := "add_peer"; "public_key" := pubKey; "endpoint" := endpoint; "allowed_ip" := allowedIP]}.

Definition removeWGPeer (pubKey : string) : W → go unit * W :=
  wgCommand {["command" := "remove_peer"; "public_key" := pubKey]}.

(** ** The rotation manager *)

Fixpoint hop_in (hops : list Hop) (serverID : string) : bool :=
  match hops with
  | [] => false
  | h :: hops => if bool_decide (HopServerID h = serverID) then true else hop_in hops serverID
  end.

Definition hopInCircuit (c : Circuit) (serverID : string) : bool := hop_in (Hops c) serverID.

(** The goroutine a rotation leaves behind: the hops of the old circuit it has
    still to look at, and the new circuit. *)
Record teardown := mkTeardown { td_hops : list Hop; td_new : Circuit }.

(** The process: the store, camo-wireguard behind its socket, the entropy left,
    and the teardown goroutines. *)
Record node := mkNode {
  n_store : circuitStore;
  n_wg : W;
  n_ent : entropy;
  n_pending : list teardown
}.

(** What a rotation observes: the clock when it tests [RotateAt], the clock in
    [build], and the answer of the gossip agent. *)
Record observation := mkObservation {
  obs_now : Z;
  obs_build : Z;
  obs_peers : go (list NodeRecord)
}.

Definition add_hops (hops : list Hop) (w : W) : W :=
  foldl (λ w hop, (addWGPeer (WireGuardPubKey hop) (WireGuardAddress hop)
                     (WireGuardAddress hop ++ "/32") w).2) w hops.

Definition rotate (own : string) (obs : observation) (old : Circuit) (n : node) : go unit * node :=
  match obs_peers obs with
  | Err e => (Err ("gossip query failed: " ++ e), n)
  | Panic => (Panic, n)
  | Ok nodes =>
      let '(res, ent') := build own (obs_build obs) nodes (DeviceIMSI old) (n_ent n) in
      match res with
      | Err e => (Err ("circuit construction failed: " ++ e),
                  mkNode (n_store n) (n_wg n) ent' (n_pending n))
      | Panic => (Panic, mkNode (n_store n) (n_wg n) ent' (n_pending n))
      | Ok newCircuit =>
          (Ok (), mkNode (put newCircuit (n_store n)) (add_hops (Hops newCircuit) (n_wg n)) ent'
                    (n_pending n ++ [mkTeardown (Hops old) newCircuit]))
      end
  end.

(** The loop of [checkRotations] over the circuits [all] returned, with the
    observation each iteration makes.  The error of [rotate] is only logged; a
    panic in it ends the process. *)
Fixpoint check_loop (own : string) (obs : list observation) (cs : list Circuit) (n : node) : go node :=
  match cs, obs with
  | c :: cs, o :: obs =>
      if time_After (obs_now o) (RotateAt c) then
        match rotate own o c n with
        | (Panic, _) => Panic
        | (_, n') => check_loop own obs cs n'
        end
      else check_loop own obs cs n
  | _, _ => Ok n
  end.

Definition checkRotations (own : string) (it : list string) (obs : list observation) (n : node) : go node :=
  check_loop own obs (all it (n_store n)) n.

(** One iteration of a teardown goroutine. *)
Definition teardown_hop (hop : Hop) (newCircuit : Circuit) (w : W) : W :=
  if negb (hopInCircuit newCircuit (HopServerID hop)) then (removeWGPeer (WireGuardPubKey hop) w).2 else w.

Definition teardown_all (td : teardown) (w : W) : W :=
  foldl (λ w hop, teardown_hop hop (td_new td) w) w (td_hops td).

(** ** The process *)

Definition start (w : W) (ent : entropy) : node := mkNode newCircuitStore w ent [].

(** [main] runs the rotation ticker; teardown goroutines advance one hop at a
    time, interleaved with the ticks and with each other. *)
Inductive step (own : string) : node → node → Prop :=
| step_tick n it obs n' :
    range_of (circuits (n_store n)) it → length obs = length it →
    checkRotations own it obs n = Ok n' → step own n n'
| step_teardown s w ent l1 hop hops new l2 :
    step own (mkNode s w ent (l1 ++ mkTeardown (hop :: hops) new :: l2))
             (mkNode s (teardown_hop hop new w) ent (l1 ++ mkTeardown hops new :: l2)).

Definition reachable (own : string) : node → node → Prop := rtc (step own).
End manager.
Arguments node : clear implicits.

(** ** Lemmas *)

Section lemmas.
Context {W : Type} `{WGSocket W} (own : string).
Implicit Types (n : node W).

Lemma hop_in_spec hops id : hop_in hops id = true ↔ id ∈ HopServerID <$> hops.
Proof.
  induction hops as [|h hops IH]; simpl.
  - split; [done|]. by intros ?%elem_of_nil.
  - rewrite elem_of_cons, <-IH. case_bool_decide; intuition congruence.
Qed.

(** What one rotation does to the node. *)
Lemma rotate_cases o old n :
  (∃ nodes c ent', obs_peers o = Ok nodes ∧
     build own (obs_build o) nodes (DeviceIMSI old) (n_ent n) = (Ok c, ent') ∧
     rotate own o old n =
       (Ok (), mkNode (put c (n_store n)) (add_hops (Hops c) (n_wg n)) ent'
                 (n_pending n ++ [mkTeardown (Hops old) c]))) ∨
  (∃ ent', (rotate own o old n).1 ≠ Ok () ∧
     (rotate own o old n).2 = mkNode (n_store n) (n_wg n) ent' (n_pending n)).
Proof.
  unfold rotate. destruct (obs_peers o) as [nodes|e|] eqn:E.
  2,3: right; exists (n_ent n); by destruct n.
  destruct (build _ _ _ _ _) as [[c|e|] ent'] eqn:Eb; simpl; [left|right..]; eauto 10.
Qed.

Lemma build_device now nodes imsi ent c ent' :
  build own now nodes imsi ent = (Ok c, ent') →
  DeviceIMSI c = imsi ∧ RotateAt c = (now + chainRotationInterval)%Z.
Proof.
  intros E. apply build_Ok in E as (mid & ex & b & _ & _ & _ & _ & _ & Hi & _ & _ & _ & _ & Hr). done.
Qed.

(** A circuit after its device was visited with the entropy [ent] left, and the
    entropy left then: unchanged unless due; a due one is replaced by what [build]
    makes for the same device of the nodes observed and this entropy, or kept
    because the gossip agent or exactly this construction failed. *)
Definition refreshed (o : observation) (c : Circuit) (ent : entropy) (c' : Circuit) (ent' : entropy) : Prop :=
  if time_After (obs_now o) (RotateAt c) then
    (∃ nodes, obs_peers o = Ok nodes ∧ build own (obs_build o) nodes (DeviceIMSI c) ent = (Ok c', ent')) ∨
    (∃ nodes e, obs_peers o = Ok nodes ∧ build own (obs_build o) nodes (DeviceIMSI c) ent = (Err e, ent') ∧ c' = c) ∨
    (∃ e, obs_peers o = Err e ∧ c' = c ∧ ent' = ent)
  else c' = c ∧ ent' = ent.

Definition visit (o : observation) (c : Circuit) (n : node W) : node W :=
  if time_After (obs_now o) (RotateAt c) then (rotate own o c n).2 else n.

Lemma visit_spec o c n :
  obs_peers o ≠ Panic → circuits (n_store n) !! DeviceIMSI c = Some c →
  ∃ c', refreshed o c (n_ent n) c' (n_ent (visit o c n)) ∧ DeviceIMSI c' = DeviceIMSI c ∧
    circuits (n_store (visit o c n)) = <[DeviceIMSI c := c']> (circuits (n_store n)) ∧
    (n_store (visit o c n) = n_store n ∨ n_store (visit o c n) = put c' (n_store n)).
Proof.
  intros Hq Hc. unfold visit, refreshed. destruct (time_After _ _); [|exists c; split_and!; auto; by rewrite insert_id].
  unfold rotate. destruct (obs_peers o) as [nodes|e|] eqn:E; [| |done].
  - pose proof (build_no_panic own (obs_build o) nodes (DeviceIMSI c) (n_ent n)) as Hp.
    destruct (build _ _ _ _ _) as [[c'|e|] ent'] eqn:Eb; simpl in *; [| |done].
    + exists c'. destruct (build_device _ _ _ _ _ _ Eb) as [Hd _]. split_and!; [|done|by rewrite Hd|by right]. left. eauto.
    + exists c. split_and!; [|done|by rewrite insert_id|by left]. right. left. eauto.
  - exists c. split_and!; [|done|simpl; by rewrite insert_id|by left]. right. right. eauto.
Qed.

(** The loop when nothing panics. *)
Fixpoint visited (obs : list observation) (cs : list Circuit) (n : node W) : node W :=
  match cs, obs with c :: cs, o :: obs => visited obs cs (visit o c n) | _, _ => n end.

Definition quiet (o : observation) : Prop := obs_peers o ≠ Panic.

Lemma rotate_panics o old n : (rotate own o old n).1 = Panic ↔ obs_peers o = Panic.
Proof.
  unfold rotate. destruct (obs_peers o) as [nodes|e|]; [|done..].
  pose proof (build_no_panic own (obs_build o) nodes (DeviceIMSI old) (n_ent n)) as Hb.
  destruct (build _ _ _ _ _) as [[c|e|] ent']; [done..|]. by cbn in Hb.
Qed.

Lemma check_loop_quiet obs cs n : Forall quiet obs → check_loop own obs cs n = Ok (visited obs cs n).
Proof.
  revert obs n. induction cs as [|c cs IH]; intros obs n Hq; [by destruct obs|].
  destruct Hq as [|o obs Ho Hq]; [done|]. cbn [check_loop visited]. unfold visit.
  destruct (time_After _ _); [|by apply IH]. pose proof (rotate_panics o c n) as Hp.
  destruct (rotate own o c n) as [[[]|e|] n']; cbn [fst snd] in *; [by apply IH..|]. exfalso. by apply Ho, Hp.
Qed.

Lemma visited_spec cs obs n :
  NoDup (DeviceIMSI <$> cs) → length obs = length cs → Forall quiet obs →
  (∀ c, c ∈ cs → circuits (n_store n) !! DeviceIMSI c = Some c) →
  (∀ imsi, imsi ∉ DeviceIMSI <$> cs →
     circuits (n_store (visited obs cs n)) !! imsi = circuits (n_store n) !! imsi) ∧
  ∃ ents, length ents = S (length cs) ∧ ents !! 0 = Some (n_ent n) ∧ ents !! length cs = Some (n_ent (visited obs cs n)) ∧
    ∀ i c o, cs !! i = Some c → obs !! i = Some o →
      ∃ c' e e', circuits (n_store (visited obs cs n)) !! DeviceIMSI c = Some c' ∧
        ents !! i = Some e ∧ ents !! S i = Some e' ∧ refreshed o c e c' e'.
Proof.
  revert obs n. induction cs as [|c cs IH]; intros [|o obs] n Hnd Hlen Hq Hin; try done.
  { split; [done|]. by exists [n_ent n]. }
  cbn [visited]. rewrite fmap_cons, NoDup_cons in Hnd. destruct Hnd as [Hc Hnd]. apply Forall_cons in Hq as [Ho Hq].
  destruct (visit_spec o c n) as (c' & Href & Hdev & Hmap & _); [done|apply Hin; by left|].
  destruct (IH obs (visit o c n) Hnd) as [Hout (ents & Hl & H0 & Hlast & Hvis)]; [by injection Hlen|done| |].
  { intros d Hd. rewrite Hmap, lookup_insert_ne; [apply Hin; by right|].
    intros E. apply Hc. rewrite E. by apply list_elem_of_fmap_2. }
  split.
  - intros imsi Hn. rewrite fmap_cons, not_elem_of_cons in Hn. destruct Hn as [Hne Hn].
    rewrite Hout by done. by rewrite Hmap, lookup_insert_ne.
  - exists (n_ent n :: ents). cbn [length]. split_and!; [by rewrite Hl|done|exact Hlast|].
    intros [|i] d o' Hd Ho'; simpl in Hd, Ho'; [|by apply (Hvis i)].
    injection Hd as <-. injection Ho' as <-. exists c', (n_ent n), (n_ent (visit o c n)). split_and!; try done.
    rewrite Hout by done. by rewrite Hmap, lookup_insert_eq.
Qed.

Lemma visited_sound cs obs n :
  NoDup (DeviceIMSI <$> cs) → Forall quiet obs → (∀ c, c ∈ cs → circuits (n_store n) !! DeviceIMSI c = Some c) →
  circuits_keyed (n_store n) → index_sound (n_store n) →
  circuits_keyed (n_store (visited obs cs n)) ∧ index_sound (n_store (visited obs cs n)).
Proof.
  revert obs n. induction cs as [|c cs IH]; intros [|o obs] n Hnd Hq Hin Hk Hs; try done.
  apply Forall_cons in Hq as [Ho Hq]. cbn [visited]. rewrite fmap_cons, NoDup_cons in Hnd. destruct Hnd as [Hc Hnd].
  destruct (visit_spec o c n) as (c' & _ & _ & Hmap & Hst); [done|apply Hin; by left|]. apply IH; [done|done| | |].
  - intros d Hd. rewrite Hmap, lookup_insert_ne; [apply Hin; by right|].
    intros E. apply Hc. rewrite E. by apply list_elem_of_fmap_2.
  - destruct Hst as [->| ->]; [done|]. by apply put_sound.
  - destruct Hst as [->| ->]; [done|]. by apply put_sound.
Qed.

(** The list [all] returns, position by position. *)
Lemma all_lookup it s i imsi :
  (∀ k, k ∈ it → is_Some (circuits s !! k)) → it !! i = Some imsi →
  all it s !! i = circuits s !! imsi.
Proof.
  unfold all, range_values. revert i. induction it as [|k it IH]; intros i Hall Hi; [done|].
  destruct (Hall k) as [c Hc]; [by left|]. simpl. rewrite Hc. destruct i as [|i]; simpl in *.
  - by simplify_eq.
  - apply IH; [|done]. intros k' Hk'. apply Hall. by right.
Qed.

Lemma all_keys it s :
  circuits_keyed s → (∀ k, k ∈ it → is_Some (circuits s !! k)) → DeviceIMSI <$> all it s = it.
Proof.
  intros Hk. unfold all, range_values. induction it as [|k it IH]; intros Hall; [done|].
  destruct (Hall k) as [c Hc]; [by left|]. simpl. rewrite Hc. simpl. rewrite (Hk _ _ Hc). f_equal.
  apply IH. intros k' Hk'. apply Hall. by right.
Qed.

Lemma all_elem it s c : circuits_keyed s → c ∈ all it s → circuits s !! DeviceIMSI c = Some c.
Proof. intros Hk (k & _ & Hc)%list_elem_of_omap. by rewrite (Hk _ _ Hc). Qed.
End lemmas.

(** ** camo-wireguard behind the socket *)

Record wg_server (K : Type) := mkServer { wg_alive : bool; wg_kernel : K }.
Arguments mkServer {K}.
Arguments wg_alive {K}.
Arguments wg_kernel {K}.

(** A connection to the running program; a handler that panics takes the
    process with it and answers nothing, and a dead process refuses
    connections. *)
Definition serve `{Resolver} {K} `{WGClient K} (cfg : wgConfig) (bytes : list ascii) (s : wg_server K)
    : go (list ascii) * wg_server K :=
  if wg_alive s then
    let '(out, died, k') := serve_bytes cfg bytes (wg_kernel s) in (Ok out, mkServer (negb died) k')
  else (Err "connect: connection refused", s).

(** The two commands as written. *)
Definition add_json (pubKey endpoint allowedIP : string) : jval :=
  JObj [("allowed_ip", JStr allowedIP); ("command", JStr "add_peer"); ("endpoint", JStr endpoint);
        ("public_key", JStr pubKey)].
Definition remove_json (pubKey : string) : jval := JObj [("command", JStr "remove_peer"); ("public_key", JStr pubKey)].

Lemma add_command_json pubKey endpoint allowedIP :
  map_json {["command" := "add_peer"; "public_key" := pubKey; "endpoint" := endpoint; "allowed_ip" := allowedIP]} =
  add_json pubKey endpoint allowedIP.
Proof. vm_compute. reflexivity. Qed.

Lemma remove_command_json pubKey :
  map_json {["command" := "remove_peer"; "public_key" := pubKey]} = remove_json pubKey.
Proof. vm_compute. reflexivity. Qed.

Section composed.
Context `{ResolverLaws} {K : Type} `{WGClientLaws K} (cfg : wgConfig) (own : string).
#[local] Instance served : WGSocket (wg_server K) := serve cfg.

(** What the server makes of one written line. *)
Lemma serve_line v req k :
  fits max_depth v → dec_err dec_wg_request (quoted v) = false →
  dec_into dec_wg_request zero_wg_request [quoted v] = req →
  serve cfg (encode_line v) (mkServer true k) =
  if line_fits (marshal v) then
    match handleLine cfg (Some req) k with
    | (Ok resp, k') => (Ok (wg_response_line resp), mkServer true k')
    | (_, k') => (Ok [], mkServer false k')
    end
  else (Ok [], mkServer true k).
Proof.
  intros Hf He Hr. unfold serve, serve_bytes. cbn [wg_alive wg_kernel]. destruct (line_fits (marshal v)) eqn:El.
  - rewrite <-(app_nil_r (encode_line v)), requests_cons by done. rewrite Hr. cbn [requests scan_lines pieces scannable fmap list_fmap handleConn].
    destruct (handleLine cfg (Some req) k) as [[resp|e|] k']; [|done..]. cbn. by rewrite app_nil_r.
  - unfold requests, encode_line.
    destruct (visible_no_newline (marshal v) (render_visible v (fits_wf _ _ Hf))) as [Hn _].
    by rewrite (scan_lines_long (marshal v) []) by done.
Qed.

Lemma add_refused pk a (s : wg_server K) : (addWGPeer pk a (a ++ "/32") s).2 = s.
Proof.
  unfold addWGPeer, wgCommand, converse, served. rewrite add_command_json.
  destruct s as [[] k]; [|done].
  destruct (wg_request_written (mkWGReq "add_peer" pk a (a ++ "/32") "") (add_json pk a (a ++ "/32")) eq_refl)
    as (Hd & He & Hf). cbn [WCommand PublicKey Endpoint AllowedIP] in Hd.
  rewrite (serve_line _ _ k Hf He Hd). destruct (line_fits _); [|by case_bool_decide].
  change (delivered "add_peer") with "add_peer". rewrite delivered_app by (by repeat constructor).
  destruct (hop_peer_refused cfg (delivered pk) (delivered a) "" k) as [msg ->]. by case_bool_decide.
Qed.

Lemma add_hops_refused hops (s : wg_server K) : add_hops hops s = s.
Proof.
  unfold add_hops. induction hops as [|h hops IH]; [done|]. cbn [foldl]. by rewrite add_refused.
Qed.

(** C29: with camo-wireguard behind the socket, a rotation that succeeds stores
    a circuit none of whose hops is programmed: the device is left as it was,
    because the allowed address of every hop is refused. *)
Theorem rotation_programs_no_peer o old (n n' : node (wg_server K)) :
  rotate own o old n = (Ok (), n') →
  n_wg n' = n_wg n ∧
  ∃ c, getByIMSI (DeviceIMSI old) (n_store n') = Some c ∧ 3 ≤ length (Hops c).
Proof.
  intros E. destruct (rotate_cases own o old n) as [(nodes & c & ent' & Ho & Hb & Er)|(ent' & Hne & _)].
  - rewrite Er in E. injection E as <-. cbn [n_wg n_store]. split; [apply add_hops_refused|].
    exists c. destruct (build_device own _ _ _ _ _ _ Hb) as [<- _]. unfold getByIMSI. simpl.
    rewrite lookup_insert_eq. split; [done|].
    apply build_Ok in Hb as (mid & ex & b & Hl & _ & _ & _ & _ & _ & _ & _ & -> & _).
    pose proof (drawn_hops_range (n_ent n)). rewrite length_app, length_imap. simpl. lia.
  - by rewrite E in Hne.
Qed.

(** The peer keys the device reports. *)
Definition device_keys (k : K) : list (list byte) :=
  match Device (InterfaceName cfg) k with Ok ps => DevPublicKey <$> ps | _ => [] end.

(** A device that answers every call. *)
Definition responsive : Prop :=
  (∀ pcs k, (ConfigureDevice (InterfaceName cfg) pcs k).1 = Ok ()) ∧
  (∀ k, is_ok (Device (InterfaceName cfg) k) = true).

(** A removal of a key of 32 bytes fits a line. *)
Lemma remove_line_fits key :
  length key = keyLen → line_fits (marshal (remove_json (EncodeToString StdEncoding key))) = true.
Proof.
  intros Hl. unfold line_fits, remove_json. apply N.leb_le.
  assert (length (escape (list_ascii_of_string (EncodeToString StdEncoding key))) = 44%nat) as He.
  { rewrite escape_inert by apply std_base64_inert. unfold EncodeToString.
    rewrite list_ascii_of_string_of_list_ascii. unfold keyLen in Hl.
    do 32 (destruct key as [|? key]; [discriminate Hl|]). by destruct key. }
  assert (∀ s, marshal (JObj [("command", JStr "remove_peer"); ("public_key", JStr s)]) =
    qt "{'command':'remove_peer','public_key':'" ++ escape (list_ascii_of_string s) ++ qt "'}") as ->.
  { intros s. transitivity (qt "{'command':'remove_peer','public_key':'" ++
      (escape (list_ascii_of_string s) ++ [quote]) ++ ["}"%char]); [reflexivity|]. by rewrite <-app_assoc. }
  rewrite !length_app, He. vm_compute. discriminate.
Qed.

Lemma remove_hop key (s : wg_server K) :
  responsive → wg_alive s = true → length key = keyLen →
  let s' := (removeWGPeer (EncodeToString StdEncoding key) s).2 in
  wg_alive s' = true ∧ ∀ key', key' ∈ device_keys (wg_kernel s') ↔ key' ≠ key ∧ key' ∈ device_keys (wg_kernel s).
Proof.
  intros [Hc Hd] Halive Hlen. destruct s as [al k]. simpl in Halive. subst al.
  assert (8 ≤ String.length (EncodeToString StdEncoding key)) as Htext.
  { pose proof (EncodeToString_length StdEncoding key). unfold keyLen in Hlen. lia. }
  unfold removeWGPeer, wgCommand, converse, served. rewrite remove_command_json.
  destruct (wg_remove_written "remove_peer" (EncodeToString StdEncoding key)
    (remove_json (EncodeToString StdEncoding key)) eq_refl) as (Hd' & He & Hf).
  rewrite (serve_line _ _ k Hf He Hd'), remove_line_fits by done. clear Hd' He Hf.
  change (delivered "remove_peer") with "remove_peer". rewrite delivered_utf8 by apply std_base64_utf8.
  unfold handleLine. rewrite bool_decide_false, bool_decide_true by done. cbn [PublicKey WCommand].
  unfold removePeer. rewrite Decode_Encode by apply _. rewrite copy_key_id by done.
  set (pc := mkPeerConfig key true false None [] None).
  specialize (Hc [pc] k). destruct (ConfigureDevice _ _ k) as [r k'] eqn:Ec. simpl in Hc. subst r.
  rewrite bool_decide_false by lia. generalize (wg_response_line (wg_ok "remove_peer")) as out. intros out. cbv zeta.
  case_bool_decide; cbn [snd wg_alive wg_kernel]; (split; [done|]).
  all: intros key'; unfold device_keys; pose proof (Hd k) as Hdk; pose proof (Hd k') as Hdk'.
  all: destruct (Device _ k) as [ps|e|] eqn:D; try done; destruct (Device _ k') as [ps'|e'|] eqn:D'; try done.
  all: destruct (decide (key' = key)) as [->|Hne];
    [pose proof (configure_remove (InterfaceName cfg) pc k k' ps' eq_refl Ec D'); tauto|].
  all: rewrite (configure_other _ pc _ _ _ _ key' Ec D D' Hne); tauto.
Qed.

Lemma hop_in_false hops id : hop_in hops id = false ↔ id ∉ HopServerID <$> hops.
Proof. rewrite <-hop_in_spec. destruct (hop_in hops id); split; congruence. Qed.

(** C28: a teardown that runs to its end against a live manager and a responsive
    device removes from the device exactly the keys of those hops of the old
    circuit whose server is not in the new one, and keeps every other peer. *)
Theorem teardown_removes td (keys : Hop → list byte) (s : wg_server K) :
  responsive → wg_alive s = true →
  (∀ h, h ∈ td_hops td → length (keys h) = keyLen ∧ WireGuardPubKey h = EncodeToString StdEncoding (keys h)) →
  wg_alive (teardown_all td s) = true ∧
  ∀ key, key ∈ device_keys (wg_kernel (teardown_all td s)) ↔
    key ∈ device_keys (wg_kernel s) ∧
    ¬ ∃ h, h ∈ td_hops td ∧ (HopServerID h ∉ HopServerID <$> Hops (td_new td)) ∧ keys h = key.
Proof.
  destruct td as [hops new]. unfold teardown_all. cbn [td_hops td_new]. intros Hresp.
  revert s. induction hops as [|h hops IH]; intros s Halive Hkeys.
  { split; [done|]. intros key. simpl. split; [|tauto]. intros ?. split; [done|].
    by intros (h & ?%elem_of_nil & _). }
  destruct (Hkeys h) as [Hlen Htext]; [by left|]. cbn [foldl]. unfold teardown_hop at 2 4, hopInCircuit.
  assert (∀ h', h' ∈ hops → length (keys h') = keyLen ∧ WireGuardPubKey h' = EncodeToString StdEncoding (keys h'))
    as Hrest by (intros h' ?; apply Hkeys; by right).
  destruct (hop_in (Hops new) (HopServerID h)) eqn:Ein; cbn [negb].
  - destruct (IH s Halive Hrest) as [Ha Hk]. split; [done|]. intros key. rewrite Hk.
    setoid_rewrite elem_of_cons. apply hop_in_spec in Ein. split; intros [? Hno]; (split; [done|]).
    + intros (h' & [->|?] & Hni & ?); [done|]. apply Hno. eauto.
    + intros (h' & ? & ? & ?). apply Hno. eauto.
  - rewrite Htext. destruct (remove_hop (keys h) s Hresp Halive Hlen) as [Ha' Hk'].
    destruct (IH _ Ha' Hrest) as [Ha Hk]. split; [done|]. intros key. rewrite Hk, Hk'.
    setoid_rewrite elem_of_cons. apply hop_in_false in Ein. split.
    + intros [[Hne ?] Hno]. split; [done|]. intros (h' & [->|?] & Hni & E); [congruence|]. apply Hno. eauto.
    + intros [? Hno]. split; [split; [|done]|].
      * intros ->. apply Hno. eauto.
      * intros (h' & ? & ? & ?). apply Hno. eauto.
Qed.
End composed.

(** ** Properties of the process *)

Section process.
Context {W : Type} `{WGSocket W} (own : string).

(** A rotation is all or nothing for the store: on success the device's
    circuit is one that [build] made for this device, every other device keeps
    its circuit and one teardown of the old hops is scheduled; on failure the
    store, camo-wireguard and the scheduled teardowns are as before. *)
Theorem rotate_atomic o old (n n' : node W) res :
  rotate own o old n = (res, n') →
  (∃ nodes c ent', res = Ok () ∧ obs_peers o = Ok nodes ∧
     build own (obs_build o) nodes (DeviceIMSI old) (n_ent n) = (Ok c, ent') ∧
     getByIMSI (DeviceIMSI old) (n_store n') = Some c ∧
     (∀ imsi, imsi ≠ DeviceIMSI old → getByIMSI imsi (n_store n') = getByIMSI imsi (n_store n)) ∧
     n_wg n' = add_hops (Hops c) (n_wg n) ∧
     n_pending n' = n_pending n ++ [mkTeardown (Hops old) c]) ∨
  (res ≠ Ok () ∧ n_store n' = n_store n ∧ n_wg n' = n_wg n ∧ n_pending n' = n_pending n).
Proof.
  intros E. destruct (rotate_cases own o old n) as [(nodes & c & ent' & Ho & Hb & Er)|(ent' & Hne & Hn)].
  - left. rewrite Er in E. injection E as <- <-. exists nodes, c, ent'.
    destruct (build_device own _ _ _ _ _ _ Hb) as [Hd _]. unfold getByIMSI. simpl. rewrite Hd.
    split_and!; try done; [by rewrite lookup_insert_eq|]. intros imsi Hi. by rewrite lookup_insert_ne.
  - right. rewrite E in Hne, Hn. simpl in *. by rewrite Hn.
Qed.

(** C10: a pass of [checkRotations] over a consistent store, in any visiting
    order and with any answers of the gossip agent without a null record,
    completes; it keeps the store consistent and the set of devices unchanged, and
    determines every device's circuit: one that is not due is kept; a due one is
    replaced by the circuit [build] makes for its device of the nodes observed at
    its turn and the entropy left by the turns before, and is kept only if the
    gossip agent failed at its turn or that very construction did. *)
Theorem checkRotations_exact it obs (n : node W) :
  range_of (circuits (n_store n)) it → length obs = length it → Forall quiet obs →
  circuits_keyed (n_store n) → index_sound (n_store n) →
  ∃ n' ents, checkRotations own it obs n = Ok n' ∧ circuits_keyed (n_store n') ∧ index_sound (n_store n') ∧
    dom (circuits (n_store n')) = dom (circuits (n_store n)) ∧
    length ents = S (length it) ∧ ents !! 0 = Some (n_ent n) ∧ ents !! length it = Some (n_ent n') ∧
    ∀ i imsi o c, it !! i = Some imsi → obs !! i = Some o → circuits (n_store n) !! imsi = Some c →
      ∃ c' e e', circuits (n_store n') !! imsi = Some c' ∧ ents !! i = Some e ∧ ents !! S i = Some e' ∧
        refreshed own o c e c' e'.
Proof.
  intros Hit Hlen Hq Hk Hs. unfold checkRotations. exists (visited own obs (all it (n_store n)) n).
  rewrite check_loop_quiet by done.
  assert (∀ k, k ∈ it → is_Some (circuits (n_store n) !! k)) as Hall.
  { intros k Hin. by apply (range_of_elem (circuits (n_store n)) it k Hit). }
  pose proof (all_keys it _ Hk Hall) as Hkeys.
  assert (length (all it (n_store n)) = length it) as Hla by (rewrite <-Hkeys at 2; by rewrite length_fmap).
  assert (NoDup (DeviceIMSI <$> all it (n_store n))) as Hnd by (rewrite Hkeys; by eapply range_of_NoDup).
  assert (∀ c, c ∈ all it (n_store n) → circuits (n_store n) !! DeviceIMSI c = Some c) as Hin
    by (intros c; by apply all_elem).
  destruct (visited_spec own _ obs n Hnd ltac:(congruence) Hq Hin) as [Hout (ents & Hl & H0 & Hlast & Hvis)].
  destruct (visited_sound own _ obs n Hnd Hq Hin Hk Hs) as [Hk' Hs']. rewrite Hla in Hl, Hlast. exists ents.
  assert (∀ i imsi o c, it !! i = Some imsi → obs !! i = Some o → circuits (n_store n) !! imsi = Some c →
    ∃ c' e e', circuits (n_store (visited own obs (all it (n_store n)) n)) !! imsi = Some c' ∧
      ents !! i = Some e ∧ ents !! S i = Some e' ∧ refreshed own o c e c' e') as Hex.
  { intros i imsi o c Hi Ho Hc. destruct (Hvis i c o) as (c' & e & e' & Hc' & Hr); [|done|].
    - by rewrite (all_lookup it _ i imsi).
    - exists c', e, e'. by rewrite <-(Hk _ _ Hc). }
  split_and!; [done..| |done|done|done|done]. apply set_eq. intros imsi. rewrite !elem_of_dom. split.
  - intros Hsome. destruct (decide (imsi ∈ it)) as [Hi|Hi]; [by apply Hall|]. rewrite Hout in Hsome; [done|].
    by rewrite Hkeys.
  - intros [c Hc]. assert (imsi ∈ it) as Hi by (apply (range_of_elem _ it imsi Hit); eauto).
    apply list_elem_of_lookup in Hi as [i Hi].
    destruct (lookup_lt_is_Some_2 obs i) as [o Ho]; [rewrite Hlen; by eapply lookup_lt_Some|].
    destruct (Hex i imsi o c Hi Ho Hc) as (c' & ? & ? & Hc' & _). eauto.
Qed.

(** C30: the process [main] starts never carries a circuit: in every reachable
    state the store is empty, no peer was programmed, no entropy drawn and no
    teardown scheduled, since rotation only replaces circuits that exist. *)
Theorem process_carries_no_circuit w ent n :
  reachable own (start w ent) n → n = start w ent.
Proof.
  intros Hr. remember (start w ent) as n0 eqn:E0. induction Hr as [|n1 n2 n3 Hstep _ IH]; [done|].
  assert (n2 = n1) as ->; [|auto]. subst n1. clear IH.
  inversion Hstep as [n' it obs n'' Hit Hlen E|s w' ent' l1 hop hops new l2 E]; subst.
  - assert (it = []) as ->; [|destruct obs; [|done]; by injection E].
    apply range_of_length in Hit. simpl in Hit. rewrite map_size_empty in Hit. by destruct it.
  - match goal with E : _ ++ _ = [] |- _ => by destruct l1 end.
Qed.
End process.

(** ** Witnesses *)

Definition rot_node (id j : string) (b : byte) : NodeRecord :=
  mkNodeRecord id (EncodeToString StdEncoding (key_of b)) "192.0.2.1:51820"
    (mkNodeCapabilities [j] [j] (float64_of_int 1) 10 true 100).

Definition rot_net : list NodeRecord :=
  [rot_node "n1" "NL" x01; rot_node "n2" "CH" x02; rot_node "n3" "IS" x03; rot_node "n4" "NO" x04].

Definition hop_n (id : string) (b : byte) : Hop :=
  mkHop id "192.0.2.1:51820" (EncodeToString StdEncoding (key_of b)) "NL" 0 false.

(** Two devices whose circuits share the hop n9, and a manager whose device
    carries the peer. *)
Definition shared_old (imsi token : string) : Circuit :=
  mkCircuit "c" imsi token [hop_n "n9" x09] 0 (600 * Second).

Definition table_server : wg_server peer_table :=
  mkServer true (mkPeerTable (key_of xff) [mkDevicePeer (key_of x09) None [] zero_time]).

#[export] Instance table_socket : WGSocket (wg_server peer_table) := serve defaultWGConfig.

Definition shared_node : node (wg_server peer_table) :=
  mkNode (put (shared_old "B" "tB") (put (shared_old "A" "tA") newCircuitStore)) table_server
    (replicate 60 x00) [].

Definition due_obs : observation := mkObservation (601 * Second) (601 * Second) (Ok rot_net).
Definition early_obs : observation := mkObservation (599 * Second) (599 * Second) (Ok rot_net).

Lemma rotation_programs_no_peer_witness :
  n_wg (rotate "self" due_obs (shared_old "A" "tA") shared_node).2 = table_server.
Proof.
  apply (rotation_programs_no_peer defaultWGConfig "self" due_obs (shared_old "A" "tA") shared_node).
  vm_compute. reflexivity.
Defined.

Lemma teardown_removes_witness :
  key_of x09 ∈ device_keys defaultWGConfig
    (wg_kernel (teardown_all (mkTeardown [hop_n "n9" x09] (shared_old "A" "tA2")) table_server)).
Proof.
  apply (teardown_removes defaultWGConfig (mkTeardown [hop_n "n9" x09] (shared_old "A" "tA2"))
    (λ _, key_of x09) table_server); [split; intros; reflexivity|reflexivity| |].
  - intros h Hh. apply list_elem_of_singleton in Hh as ->. split; reflexivity.
  - split; [left|]. intros (h & Hh & Hni & _). apply list_elem_of_singleton in Hh as ->.
    apply Hni. simpl. left.
Defined.

Lemma rotate_atomic_witness :
  ∃ c, getByIMSI "A" (n_store (rotate "self" due_obs (shared_old "A" "tA") shared_node).2) = Some c ∧
       SessionToken c ≠ "tA".
Proof.
  destruct (rotate "self" due_obs (shared_old "A" "tA") shared_node) as [res n'] eqn:E.
  pose proof (rotate_atomic "self" due_obs (shared_old "A" "tA") shared_node n' res E)
    as [(nodes & c & ent' & _ & Ho & Hb & Hg & _)|[Hne _]].
  - exists c. split; [exact Hg|]. injection Ho as <-.
    apply (f_equal (λ p, match p.1 with Ok c => SessionToken c | _ => "" end)) in Hb.
    cbn [fst] in Hb. rewrite <-Hb. vm_compute. discriminate.
  - exfalso. apply Hne. apply (f_equal fst) in E. cbn [fst] in E. rewrite <-E. vm_compute. reflexivity.
Defined.

(** A's circuit is due and replaced by what [build] makes, B's is kept. *)
Lemma checkRotations_exact_witness :
  ∃ n' cA, checkRotations "self" ["A"; "B"] [due_obs; early_obs] shared_node = Ok n' ∧
    circuits (n_store n') !! "A" = Some cA ∧
    (build "self" (601 * Second) rot_net "A" (replicate 60 x00)).1 = Ok cA ∧
    circuits (n_store n') !! "B" = Some (shared_old "B" "tB").
Proof.
  destruct (checkRotations_exact "self" ["A"; "B"] [due_obs; early_obs] shared_node)
    as (n' & ents & E & _ & _ & _ & _ & H0 & _ & Hex).
  - unfold range_of. vm_compute. apply Permutation_refl.
  - reflexivity.
  - repeat constructor; discriminate.
  - apply put_sound; [apply put_sound|apply put_sound]; try done.
  - apply put_sound; [apply put_sound|apply put_sound]; try done.
  - destruct (Hex 1 "B" early_obs (shared_old "B" "tB")) as (cB & ? & ? & HB & _ & _ & [-> _]); [reflexivity..|].
    destruct (Hex 0 "A" due_obs (shared_old "A" "tA")) as (cA & e & e' & HA & He & _ & Hr); [reflexivity..|].
    rewrite H0 in He. injection He as <-.
    exists n', cA. split; [exact E|]. split; [exact HA|]. split; [|exact HB].
    destruct Hr as [(nodes & Ho & Hb)|[(nodes & err & Ho & Hb & _)|(err & Ho & _)]]; [|exfalso|discriminate Ho].
    + injection Ho as <-. apply (f_equal fst) in Hb. exact Hb.
    + injection Ho as <-. apply (f_equal (λ p, is_ok p.1)) in Hb. vm_compute in Hb. discriminate Hb.
Defined.

Lemma process_carries_no_circuit_witness :
  ∃ n', checkRotations "self" [] [] (start table_server []) = Ok n' ∧ n' = start table_server [].
Proof.
  exists (start table_server []). split; [reflexivity|].
  apply (process_carries_no_circuit "self" table_server [] (start table_server [])).
  eapply rtc_once, (step_tick _ _ [] []); [|reflexivity|reflexivity]. unfold range_of. vm_compute. apply perm_nil.
Defined.

(** Teardown after the rotation of one device removes the peer that the live
    circuit of another device still routes through: devices A and B share the
    hop n9, A is rotated away from it, and B's circuit stays in the store while
    its peer is gone. *)
Theorem teardown_cuts_other_device :
  key_of x09 ∈ device_keys defaultWGConfig (wg_kernel (n_wg shared_node)) ∧
  (rotate "self" due_obs (shared_old "A" "tA") shared_node).1 = Ok () ∧
  getByIMSI "B" (n_store (rotate "self" due_obs (shared_old "A" "tA") shared_node).2)
    = Some (shared_old "B" "tB") ∧
  ∃ td, n_pending (rotate "self" due_obs (shared_old "A" "tA") shared_node).2 = [td] ∧
    device_keys defaultWGConfig (wg_kernel (teardown_all td table_server)) = [].
Proof.
  split; [left|]. split; [vm_compute; reflexivity|]. split; [vm_compute; reflexivity|].
  eexists. split; [vm_compute; reflexivity|]. vm_compute. reflexivity.
Qed.
