(* ===== verification/CircuitSteps.v ===== *)
(** * Rotation step by step (camo-circuit/main.go)

    [rotate] takes no lock: between its query, each of its socket commands and
    its store, the teardown goroutines of earlier rotations run.  Here the
    ticker's goroutine is a state machine that performs one query, command or
    store at a time; what it leaves in the store is what atomic passes leave. *)

From Stdlib Require Import ZArith Lia Ascii String Strings.Byte.
From stdpp Require Import base option list gmap strings fin_maps relations.
From S2P Require Import Prelude CircuitStore CircuitConstructor CircuitProps WireGuard CircuitRotation.

(** Where the ticker's goroutine is: waiting, in a pass with circuits left to
    look at, or adding the peers of a circuit it built. *)
Inductive phase :=
| Idle
| Pass (left : list Circuit)
| Adding (hops : list Hop) (new old : Circuit) (left : list Circuit).

Record fine (W : Type) := mkFine { f_node : node W; f_phase : phase }.
Arguments mkFine {W}.
Arguments f_node {W}.
Arguments f_phase {W}.

Section steps.
Context {W : Type} `{WGSocket W} (own : string).

Inductive fine_step : fine W → fine W → Prop :=
| f_tick n it :
    range_of (circuits (n_store n)) it → fine_step (mkFine n Idle) (mkFine n (Pass (all it (n_store n))))
| f_early n c cs now :
    time_After now (RotateAt c) = false → fine_step (mkFine n (Pass (c :: cs))) (mkFine n (Pass cs))
| f_failed n o c cs e n' :
    time_After (obs_now o) (RotateAt c) = true → rotate own o c n = (Err e, n') →
    fine_step (mkFine n (Pass (c :: cs))) (mkFine n' (Pass cs))
| f_built n o c cs nodes new ent' :
    time_After (obs_now o) (RotateAt c) = true → obs_peers o = Ok nodes →
    build own (obs_build o) nodes (DeviceIMSI c) (n_ent n) = (Ok new, ent') →
    fine_step (mkFine n (Pass (c :: cs)))
      (mkFine (mkNode (n_store n) (n_wg n) ent' (n_pending n)) (Adding (Hops new) new c cs))
| f_add s w ent td hop hops new old cs :
    fine_step (mkFine (mkNode s w ent td) (Adding (hop :: hops) new old cs))
      (mkFine (mkNode s (addWGPeer (WireGuardPubKey hop) (WireGuardAddress hop) (WireGuardAddress hop ++ "/32") w).2 ent td)
         (Adding hops new old cs))
| f_store s w ent td new old cs :
    fine_step (mkFine (mkNode s w ent td) (Adding [] new old cs))
      (mkFine (mkNode (put new s) w ent (td ++ [mkTeardown (Hops old) new])) (Pass cs))
| f_done n : fine_step (mkFine n (Pass [])) (mkFine n Idle)
| f_teardown s w ent l1 hop hops new l2 ph :
    fine_step (mkFine (mkNode s w ent (l1 ++ mkTeardown (hop :: hops) new :: l2)) ph)
      (mkFine (mkNode s (teardown_hop hop new w) ent (l1 ++ mkTeardown hops new :: l2)) ph).
End steps.

(** ** Without the sockets *)

(** A socket that always refuses: the store does not depend on the answers. *)
#[local] Instance no_socket : WGSocket unit := λ _ _, (Err "connect: connection refused", tt).

Definition strip {W} (n : node W) : node unit := mkNode (n_store n) tt (n_ent n) (n_pending n).

(** Teardowns alone. *)
Inductive teardown_step : node unit → node unit → Prop :=
| td_hop s w ent l1 hop hops new l2 :
    teardown_step (mkNode s w ent (l1 ++ mkTeardown (hop :: hops) new :: l2))
                  (mkNode s w ent (l1 ++ mkTeardown hops new :: l2)).

Lemma teardown_frame a b s ent l :
  rtc teardown_step a b → rtc teardown_step (mkNode s tt ent (n_pending a ++ l)) (mkNode s tt ent (n_pending b ++ l)).
Proof.
  induction 1 as [|a b c [s' w' ent' l1 hop hops new l2] _ IH]; [apply rtc_refl|]. eapply rtc_l; [|exact IH].
  cbn [n_pending]. rewrite <-!app_assoc. cbn [app]. apply td_hop.
Qed.

Lemma teardown_same a b : rtc teardown_step a b → n_store b = n_store a ∧ n_ent b = n_ent a.
Proof. induction 1 as [|a b c [] _ IH]; [done|]. exact IH. Qed.

Lemma teardown_coarse own a b : rtc teardown_step a b → rtc (step own) a b.
Proof.
  induction 1 as [|a b c [s w ent l1 hop hops new l2] _ IH]; [apply rtc_refl|]. eapply rtc_l; [|exact IH].
  destruct w. assert (teardown_hop hop new () = ()) as E by (by destruct (teardown_hop hop new ())).
  pose proof (step_teardown own s () ent l1 hop hops new l2) as Hstep. by rewrite E in Hstep.
Qed.

Section serial.
Context {W : Type} `{WGSocket W} (own : string).

(** What atomic passes do to everything but the sockets. *)
Lemma rotate_strip o c (n : node W) e n' :
  rotate own o c n = (Err e, n') →
  ∃ ent', n' = mkNode (n_store n) (n_wg n) ent' (n_pending n) ∧
    ∀ l, rotate own o c (mkNode (n_store n) tt (n_ent n) l) = (Err e, mkNode (n_store n) tt ent' l).
Proof.
  unfold rotate. cbn [n_ent n_store n_wg n_pending]. destruct (obs_peers o) as [nodes|e0|]; [| |done].
  - destruct (build _ _ _ _ _) as [[c'|e'|] ent'] eqn:Eb; try done. intros E. injection E as <- <-. by exists ent'.
  - intros E. injection E as <- <-. exists (n_ent n). split; [by destruct n|done].
Qed.

Lemma check_loop_app (obs obs' : list observation) cs cs' (b mid : node unit) :
  length obs = length cs → check_loop own obs cs b = Ok mid →
  check_loop own (obs ++ obs') (cs ++ cs') b = check_loop own obs' cs' mid.
Proof.
  revert obs b. induction cs as [|d cs IH]; intros [|o obs] b Hl E; try done.
  { cbn in E. by injection E as <-. }
  injection Hl as Hl. cbn [app check_loop] in *. destruct (time_After _ _); [|by apply IH].
  destruct (rotate own o d b) as [[[]|e|] b']; [by apply IH..|done].
Qed.

(** A pass under way: it started from a state [b] reached by atomic steps, the
    circuits before [cs] are done, and only teardowns happened besides. *)
Definition under_way (n0 : node unit) (cs : list Circuit) (n : node unit) : Prop :=
  ∃ b it obs cs0 mid, rtc (step own) n0 b ∧ range_of (circuits (n_store b)) it ∧ all it (n_store b) = cs0 ++ cs ∧
    length obs = length cs0 ∧ check_loop own obs cs0 b = Ok mid ∧ rtc teardown_step mid n.

Definition tracked (n0 : node unit) (f : fine W) : Prop :=
  match f_phase f with
  | Idle => rtc (step own) n0 (strip (f_node f))
  | Pass cs => under_way n0 cs (strip (f_node f))
  | Adding _ new old cs =>
      ∃ o nodes ent, time_After (obs_now o) (RotateAt old) = true ∧ obs_peers o = Ok nodes ∧
        build own (obs_build o) nodes (DeviceIMSI old) ent = (Ok new, n_ent (f_node f)) ∧
        under_way n0 (old :: cs) (mkNode (n_store (f_node f)) tt ent (n_pending (f_node f)))
  end.

(** One more circuit is done. *)
Lemma under_way_next n0 c cs n o l s' ent' :
  under_way n0 (c :: cs) n →
  (∀ td, check_loop own [o] [c] (mkNode (n_store n) tt (n_ent n) td) = Ok (mkNode s' tt ent' (td ++ l))) →
  under_way n0 cs (mkNode s' tt ent' (n_pending n ++ l)).
Proof.
  intros (b & it & obs & cs0 & mid & Hb & Hit & Hall & Hlen & Hc & Htd) Hnext.
  destruct (teardown_same _ _ Htd) as [Es Ee]. exists b, it, (obs ++ [o]), (cs0 ++ [c]), (mkNode s' tt ent' (n_pending mid ++ l)).
  split_and!; [done|done|by rewrite <-app_assoc|by rewrite !length_app, Hlen| |by apply teardown_frame].
  rewrite (check_loop_app _ _ _ _ _ _ Hlen Hc), <-Hnext, Es, Ee. by destruct mid as [s [] ent td].
Qed.

Lemma length_all it s : range_of (circuits s) it → length (all it s) = length it.
Proof.
  intros Hit. assert (∀ k, k ∈ it → is_Some (circuits s !! k)) as Hall.
  { intros k Hk. by apply (range_of_elem (circuits s) it k Hit). }
  clear Hit. unfold all, range_values. induction it as [|k it IH]; [done|].
  destruct (Hall k) as [c Hc]; [by left|]. cbn. rewrite Hc. cbn. f_equal. apply IH. intros k' Hk'. apply Hall. by right.
Qed.

Lemma fine_step_tracked n0 f f' : fine_step own f f' → tracked n0 f → tracked n0 f'.
Proof.
  intros Hstep. destruct Hstep as [n it Hit|n c cs now Hn|n o c cs e n' Hdue Hrot|n o c cs nodes new ent' Hdue Ho Hb
    |s w ent td hop hops new old cs|s w ent td new old cs|n|s w ent l1 hop hops new l2 ph]; cbn [tracked f_phase f_node]; intros Ht.
  - exists (strip n), it, [], [], (strip n). split_and!; try done; apply rtc_refl.
  - assert (strip n = mkNode (n_store (strip n)) tt (n_ent (strip n)) (n_pending (strip n) ++ [])) as -> by (by rewrite app_nil_r).
    eapply (under_way_next _ c _ _ (mkObservation now now (Err ""))); [exact Ht|]. intros td. cbn [check_loop obs_now].
    rewrite Hn. by rewrite app_nil_r.
  - apply rotate_strip in Hrot as (ent' & -> & Hr). unfold strip. cbn [n_store n_ent n_pending].
    rewrite <-(app_nil_r (n_pending n)). eapply (under_way_next _ c _ (strip n) o []); [exact Ht|]. intros td.
    cbn [check_loop strip n_store n_ent]. rewrite Hdue, Hr. by rewrite app_nil_r.
  - exists o, nodes, (n_ent n). by split_and!.
  - exact Ht.
  - destruct Ht as (o & nodes & ent0 & Hdue & Ho & Hb & Ht). cbn [n_ent n_store n_pending] in *. unfold strip.
    cbn [n_store n_ent n_pending].
    eapply (under_way_next _ old _ (mkNode s tt ent0 td) o [mkTeardown (Hops old) new]); [exact Ht|]. intros l.
    cbn [check_loop n_store n_ent n_pending]. rewrite Hdue. unfold rotate. cbn [n_ent n_store n_wg n_pending]. rewrite Ho, Hb.
    by destruct (add_hops (Hops new) ()).
  - destruct Ht as (b & it & obs & cs0 & mid & Hb & Hit & Hall & Hlen & Hc & Htd). rewrite app_nil_r in Hall.
    etrans; [exact Hb|]. eapply rtc_l; [|by apply teardown_coarse].
    apply (step_tick _ b it obs mid Hit); [by rewrite Hlen, <-Hall, length_all|]. unfold checkRotations. by rewrite Hall.
  - assert (teardown_step (strip (mkNode s w ent (l1 ++ mkTeardown (hop :: hops) new :: l2)))
      (strip (mkNode s (teardown_hop hop new w) ent (l1 ++ mkTeardown hops new :: l2)))) as Hone by apply td_hop.
    assert (∀ cs e0, under_way n0 cs (mkNode s tt e0 (l1 ++ mkTeardown (hop :: hops) new :: l2)) →
      under_way n0 cs (mkNode s tt e0 (l1 ++ mkTeardown hops new :: l2))) as Hu.
    { intros cs e0 (b & it & obs & cs0 & mid & ? & ? & ? & ? & ? & Htd). exists b, it, obs, cs0, mid. split_and!; try done.
      eapply rtc_r; [exact Htd|apply td_hop]. }
    unfold tracked in *. destruct ph as [|cs|hs new' old cs]; cbn [f_phase f_node] in *.
    + etrans; [exact Ht|]. apply teardown_coarse. by apply rtc_once.
    + by apply Hu.
    + destruct Ht as (o & nodes & ent0 & ? & ? & ? & Ht). exists o, nodes, ent0. split_and!; try done. by apply Hu.
Qed.

(** C27: rotation needs no lock: however the queries, socket commands and stores of
    the ticker's goroutine interleave with the teardown goroutines, whenever the
    goroutine is between passes the circuits, the token index, the scheduled
    teardowns and the entropy used are those of a process that runs each pass as
    one atomic step. *)
Theorem rotation_serializable (n0 n : node W) :
  rtc (fine_step own) (mkFine n0 Idle) (mkFine n Idle) → rtc (step own) (strip n0) (strip n).
Proof.
  intros Hr. assert (∀ f f', rtc (fine_step own) f f' → tracked (strip n0) f → tracked (strip n0) f') as Hinv.
  { induction 1 as [|f f1 f2 Hstep _ IH]; [done|]. intros Ht. by eapply IH, fine_step_tracked. }
  apply (Hinv _ _ Hr). apply rtc_refl.
Qed.
End serial.

(** ** Witness *)

(** A rotation with nothing in between is one way through the steps. *)
Lemma fine_rotation {W} `{WGSocket W} own o c cs nodes new ent' (n : node W) :
  time_After (obs_now o) (RotateAt c) = true → obs_peers o = Ok nodes →
  build own (obs_build o) nodes (DeviceIMSI c) (n_ent n) = (Ok new, ent') →
  rtc (fine_step own) (mkFine n (Pass (c :: cs))) (mkFine (rotate own o c n).2 (Pass cs)).
Proof.
  intros Hdue Ho Hb. eapply rtc_l; [by eapply f_built|]. unfold rotate. rewrite Ho, Hb. cbn [snd]. unfold add_hops.
  generalize (n_wg n) as w. generalize (Hops new) as hops.
  induction hops as [|hop hops IH]; intros w; [by apply rtc_once, f_store|]. eapply rtc_l; [apply f_add|apply IH].
Qed.

(** Device A is rotated, its teardown runs before device B is looked at. *)
Lemma rotation_serializable_witness :
  ∃ n : node (wg_server peer_table), rtc (step "self") (strip shared_node) (strip n) ∧
    n_pending n ≠ [] ∧ Forall (λ td, td_hops td = []) (n_pending n).
Proof.
  set (rotated := (rotate "self" due_obs (shared_old "A" "tA") shared_node).2).
  destruct (build "self" (obs_build due_obs) rot_net (DeviceIMSI (shared_old "A" "tA")) (n_ent shared_node)) as [res ent'] eqn:Eb.
  assert (is_ok res = true) as Hok by (apply (f_equal (is_ok ∘ fst)) in Eb; simpl in Eb; rewrite <-Eb; by vm_compute).
  destruct res as [new|e|]; [|discriminate Hok..]. clear Hok.
  assert (n_pending rotated = [] ++ mkTeardown [hop_n "n9" x09] new :: []) as Hp.
  { unfold rotated, rotate. change (obs_peers due_obs) with (Ok rot_net). cbv iota. by rewrite Eb. }
  exists (mkNode (n_store rotated) (teardown_hop (hop_n "n9" x09) new (n_wg rotated)) (n_ent rotated) ([] ++ mkTeardown [] new :: [])).
  split; [|split; [done|by repeat constructor]]. apply (rotation_serializable "self" shared_node).
  eapply rtc_l; [apply (f_tick _ _ ["A"; "B"]); unfold range_of; vm_compute; apply Permutation_refl|].
  etrans; [eapply (fine_rotation "self" due_obs (shared_old "A" "tA") [shared_old "B" "tB"]); [done|done|exact Eb]|].
  fold rotated. replace rotated with (mkNode (n_store rotated) (n_wg rotated) (n_ent rotated)
    ([] ++ mkTeardown [hop_n "n9" x09] new :: [])) by (rewrite <-Hp; by destruct rotated).
  eapply rtc_l; [apply f_teardown|]. eapply rtc_l; [by apply (f_early _ _ _ _ (599 * Second))|]. apply rtc_once, f_done.
Defined.
