(* ===== verification/CircuitMain.v ===== *)
(** * The camo-circuit program (camo-circuit/main.go)

    The queries to the gossip agent in bytes, and start-up. *)

From Stdlib Require Import ZArith Lia Ascii String Strings.Byte Floats.SpecFloat.
From stdpp Require Import base option list gmap strings fin_maps.
From S2P Require Import Prelude GoFloat GoText GoUtf8 GoBase64 GoTime GoJson GoJsonRead GoNumber GoTimeParse.
From S2P Require Import GoJsonDecode GoLines GoService GoNet CircuitStore CircuitConstructor WireGuard CircuitRotation.

(** ** Queries *)

(** A connection to the gossip socket: it cannot be dialled, the request cannot
    be written, or it is; in the last two cases with what can be read back. *)
Inductive conversation :=
| NoDial (msg : string)
| NoWrite (msg : string) (out : list ascii)
| Answered (out : list ascii).

Definition dialer : Type := list ascii → conversation.

Definition zero_node : NodeRecord :=
  mkNodeRecord "" "" "" (mkNodeCapabilities [] [] (S754_zero false) 0 false 0).

(** A nil slice and an empty one are not told apart here. *)
Definition get_list (name : string) (vs : list jval) : list string := default [] (get_field name dec_strings None vs).

Definition dec_node_endpoint : decoder string :=
  struct [field "wireguard" dec_string] (get_field "wireguard" dec_string).

Definition dec_node_capabilities : decoder NodeCapabilities :=
  struct [field "jurisdictions" dec_strings; field "regions" dec_strings; field "uptime_30d" dec_float64;
          field "sim_pool_size" dec_int; field "exit_node" dec_bool; field "max_circuits" dec_int] (λ c vs,
    mkNodeCapabilities (get_list "jurisdictions" vs) (get_list "regions" vs)
      (get_field "uptime_30d" dec_float64 (Uptime30d c) vs) (get_field "sim_pool_size" dec_int (SIMPoolSize c) vs)
      (get_field "exit_node" dec_bool (ExitNode c) vs) (get_field "max_circuits" dec_int (MaxCircuits c) vs)).

(** A record, decoded into a fresh one. *)
Definition dec_node : decoder NodeRecord :=
  struct [field "server_id" dec_string; field "wireguard_pubkey" dec_string; field "endpoints" dec_node_endpoint;
          field "capabilities" dec_node_capabilities] (λ n vs,
    mkNodeRecord (get_field "server_id" dec_string (ServerID n) vs)
      (get_field "wireguard_pubkey" dec_string (WireGuardKey n) vs)
      (get_field "endpoints" dec_node_endpoint (Endpoint_WireGuard n) vs)
      (get_field "capabilities" dec_node_capabilities (Capabilities n) vs)).

Record peers_response := mkPeersResponse { pr_status : string; pr_records : option (list (option NodeRecord)) }.

Definition dec_peers_response : decoder peers_response :=
  struct [field "status" dec_string; field "records" (dec_pointers zero_node dec_node)] (λ r vs,
    mkPeersResponse (get_field "status" dec_string (pr_status r) vs)
      (get_field "records" (dec_pointers zero_node dec_node) (pr_records r) vs)).

Definition errDecode : string := "invalid response".

(** [queryGossipPeers]: the records as pointers, nil where the answer has null.
    The status is not looked at. *)
Definition queryGossipPeers (dial : dialer) : go (list (option NodeRecord)) :=
  match dial (encode_line (JObj [("command", JStr "list_peers")])) with
  | Answered out =>
      let '(resp, bad) := Decode dec_peers_response out (mkPeersResponse "" None) in
      if bad then Err errDecode else Ok (default [] (pr_records resp))
  | NoDial e | NoWrite e _ => Err e
  end.

(** What [build] works on: its first loop dereferences every pointer. *)
Definition deref_nodes (ns : list (option NodeRecord)) : go (list NodeRecord) :=
  match mapM id ns with Some l => Ok l | None => Panic end.

Definition observe (now built : Z) (dial : dialer) : observation :=
  mkObservation now built (queryGossipPeers dial ≫= deref_nodes).

(** ** Start-up *)

Definition dec_info_record : decoder string := struct [field "server_id" dec_string] (get_field "server_id" dec_string).
Definition dec_node_info : decoder string := struct [field "record" dec_info_record] (get_field "record" dec_info_record).

(** The identity [main] gives the constructor: the configured one, or the
    server_id of the gossip agent's answer, empty when the answer has none.  Only
    a failed dial is an error. *)
Definition own_identity (cfg : circuitConfig) (dial : dialer) : go string :=
  if bool_decide (OwnServerID cfg = "") then
    match dial (encode_line (JObj [("command", JStr "node_info")])) with
    | Answered out | NoWrite _ out => Ok (Decode dec_node_info out "").1
    | NoDial e => Err e
    end
  else Ok (OwnServerID cfg).

(** The program runs with its configuration and identity. *)
Definition circuit_main (file : read_result) (dial : string → dialer) : status (circuitConfig * string) :=
  or_exit (loadCircuitConfig file) (λ cfg,
  or_exit (own_identity cfg (dial (GossipSocket cfg))) (λ own, Running (cfg, own))).
