(* ===== verification/ApnMock.v ===== *)
(** * The mock APN core (camo-apncore/mock/mock.go)

    Sessions and routes under a lock, and the channel of session events.  A
    simulated connection changes the state under the lock and sends its event
    after the lock is released, so the send is a step of its own. *)

From Stdlib Require Import ZArith Lia String.
From stdpp Require Import base option list gmap strings pretty fin_maps.
From S2P Require Import Prelude GoText.

(** ** Data *)

Record MSession := mkMSession {
  MIMSI : string;
  MGTPTEID : Z;  (* uint32 *)
  MDeviceIP : string;
  MCreatedAt : Z
}.

Record MRouteRule := mkMRouteRule {
  MRouteIMSI : string;
  MNextHopWireGuardIP : string;
  MSessionToken : string
}.

Inductive MSessionEventType := MEventSessionCreated | MEventSessionTerminated.

Record MSessionEvent := mkMSessionEvent { MType : MSessionEventType; MEvSession : MSession }.

Record Adapter := mkAdapter {
  sessions : gmap string MSession;
  routes : gmap string MRouteRule;
  events : list MSessionEvent;  (* buffered, oldest first *)
  teidSeq : Z;
  ipSeq : Z
}.

Definition events_cap : nat := 64.

(** ** Operations *)

Definition New : Adapter := mkAdapter ∅ ∅ [] 0 0.

Definition mock_SetRoute (rule : MRouteRule) (a : Adapter) : go unit * Adapter :=
  (Ok (), mkAdapter (sessions a) (<[MRouteIMSI rule := rule]> (routes a)) (events a) (teidSeq a) (ipSeq a)).

Definition mock_ClearRoute (imsi : string) (a : Adapter) : go unit * Adapter :=
  (Ok (), mkAdapter (sessions a) (delete imsi (routes a)) (events a) (teidSeq a) (ipSeq a)).

(** The loop visits the sessions in the order [it]. *)
Definition mock_ListSessions (it : list string) (a : Adapter) : go (list MSession) :=
  Ok (range_values (sessions a) it).

(** [fmt.Sprintf("10.0.%d.%d", ipSeq/256, ipSeq%256)] *)
Definition device_ip (n : Z) : string :=
  "10.0." ++ pretty (Z.quot n 256) ++ "." ++ pretty (Z.rem n 256).

(** [SimulateConnect] up to the release of the lock, with the event it is about
    to send. *)
Definition SimulateConnect (now : Z) (imsi : string) (a : Adapter) : MSessionEvent * Adapter :=
  let teid := uwrap32 (teidSeq a + 1) in
  let ip := wrap64 (ipSeq a + 1) in
  let s := mkMSession imsi teid (device_ip ip) now in
  (mkMSessionEvent MEventSessionCreated s,
   mkAdapter (<[imsi := s]> (sessions a)) (routes a) (events a) teid ip).

(** [SimulateDisconnect] likewise; an unknown device sends nothing. *)
Definition SimulateDisconnect (imsi : string) (a : Adapter) : option MSessionEvent * Adapter :=
  match sessions a !! imsi with
  | None => (None, a)
  | Some s =>
      (Some (mkMSessionEvent MEventSessionTerminated s),
       mkAdapter (delete imsi (sessions a)) (routes a) (events a) (teidSeq a) (ipSeq a))
  end.

(** [a.events <- e]: blocks, here is refused, while the buffer is full. *)
Definition send (e : MSessionEvent) (a : Adapter) : option Adapter :=
  if bool_decide (length (events a) < events_cap) then
    Some (mkAdapter (sessions a) (routes a) (events a ++ [e]) (teidSeq a) (ipSeq a))
  else None.

(** A receive from the channel. *)
Definition receive (a : Adapter) : option (MSessionEvent * Adapter) :=
  match events a with
  | [] => None
  | e :: es => Some (e, mkAdapter (sessions a) (routes a) es (teidSeq a) (ipSeq a))
  end.

(** ** Calls one after another *)

Inductive call := Connect (now : Z) (imsi : string) | Disconnect (imsi : string).

(** The locked parts of a sequence of calls, with the events in sending order. *)
Definition run_call (st : list MSessionEvent * Adapter) (c : call) : list MSessionEvent * Adapter :=
  let '(sent, a) := st in
  match c with
  | Connect now imsi => let '(e, a') := SimulateConnect now imsi a in (sent ++ [e], a')
  | Disconnect imsi =>
      match SimulateDisconnect imsi a with
      | (Some e, a') => (sent ++ [e], a')
      | (None, a') => (sent, a')
      end
  end.

Definition run_calls (cs : list call) : list MSessionEvent * Adapter := foldl run_call ([], New) cs.

(** What a listener reconstructs from events. *)
Definition replay_event (m : gmap string MSession) (e : MSessionEvent) : gmap string MSession :=
  match MType e with
  | MEventSessionCreated => <[MIMSI (MEvSession e) := MEvSession e]> m
  | MEventSessionTerminated => delete (MIMSI (MEvSession e)) m
  end.

Definition replay (es : list MSessionEvent) : gmap string MSession := foldl replay_event ∅ es.

Definition is_connect (c : call) : bool := match c with Connect _ _ => true | Disconnect _ => false end.
Definition connects (cs : list call) : nat := length (filter (λ c, is_connect c = true) cs).

(** ** Lemmas *)

Lemma run_calls_snoc cs c : run_calls (cs ++ [c]) = run_call (run_calls cs) c.
Proof. apply foldl_snoc. Qed.

Lemma connects_snoc cs c : connects (cs ++ [c]) = connects cs + Nat.b2n (is_connect c).
Proof.
  unfold connects. rewrite filter_app, length_app. f_equal. rewrite filter_cons. by destruct c.
Qed.

Lemma run_calls_keyed cs imsi s : sessions (run_calls cs).2 !! imsi = Some s → MIMSI s = imsi.
Proof.
  revert imsi s. induction cs as [|c cs IH] using rev_ind; intros imsi s; [done|].
  rewrite run_calls_snoc. destruct (run_calls cs) as [sent a]. destruct c as [now i|i]; simpl in *.
  - rewrite lookup_insert. case_decide; [by intros [= <-]|apply IH].
  - unfold SimulateDisconnect. destruct (sessions a !! i); simpl; [|apply IH].
    intros [_ ?]%lookup_delete_Some. by apply IH.
Qed.

(** Below 2^32 connections both counters count the connections, and every live
    session carries the number of the connection that made it. *)
Lemma run_calls_counters cs :
  (Z.of_nat (connects cs) < 2 ^ 32)%Z →
  teidSeq (run_calls cs).2 = Z.of_nat (connects cs) ∧ ipSeq (run_calls cs).2 = Z.of_nat (connects cs) ∧
  ∀ imsi s, sessions (run_calls cs).2 !! imsi = Some s →
    (1 ≤ MGTPTEID s ≤ Z.of_nat (connects cs))%Z ∧ MDeviceIP s = device_ip (MGTPTEID s) ∧
    ∀ imsi' s', sessions (run_calls cs).2 !! imsi' = Some s' → MGTPTEID s = MGTPTEID s' → imsi = imsi'.
Proof.
  induction cs as [|c cs IH] using rev_ind; intros Hn.
  { split_and!; [done..|]. intros imsi s. simpl. by rewrite lookup_empty. }
  rewrite connects_snoc in *. rewrite run_calls_snoc. destruct IH as (Ht & Hi & Hs); [lia|].
  destruct (run_calls cs) as [sent a]. destruct c as [now i|i]; simpl in *.
  - rewrite Ht, Hi. unfold uwrap32, wrap64. rewrite Z.mod_small by lia. rewrite swrap_small by lia.
    split_and!; [lia..|]. intros imsi s. rewrite lookup_insert.
    case_decide as Hd; [subst; intros [= <-]; simpl|intros H; destruct (Hs _ _ H) as (Hr & Hip & Hu)].
    + split_and!; [lia..|done|]. intros imsi' s'. rewrite lookup_insert. case_decide; [done|].
      intros H' E. destruct (Hs _ _ H') as (Hr' & _). lia.
    + split_and!; [lia..|done|]. intros imsi' s'. rewrite lookup_insert.
      case_decide; [intros [= <-]; simpl; lia|apply Hu].
  - unfold SimulateDisconnect. rewrite Nat.add_0_r.
    destruct (sessions a !! i); simpl; [|done]. split_and!; [done..|]. intros imsi s [_ H]%lookup_delete_Some.
    destruct (Hs _ _ H) as (Hr & Hip & Hu). split_and!; [lia..|done|].
    intros imsi' s' [_ H']%lookup_delete_Some. by apply Hu.
Qed.

Lemma device_ip_inj x y : (0 ≤ x)%Z → (0 ≤ y)%Z → device_ip x = device_ip y → x = y.
Proof.
  intros Hx Hy E. unfold device_ip in E. rewrite !Z.quot_div_nonneg, !Z.rem_mod_nonneg in E by lia.
  injection E as E. apply decimal_cancel in E as [E1 E2]; [|by apply Z.div_pos..| |].
  - injection E2 as E2. assert (x `mod` 256 = y `mod` 256)%Z as E3 by (by apply (inj pretty)).
    by rewrite (Z.div_mod x 256), (Z.div_mod y 256), E1, E3 by lia.
  - intros c k [= <- _]. done.
  - intros c k [= <- _]. done.
Qed.

(** ** Properties *)

(** When the calls follow each other, replaying the events in the order they
    were sent gives exactly the sessions of the adapter. *)
Theorem replay_sessions cs : replay (run_calls cs).1 = sessions (run_calls cs).2.
Proof.
  induction cs as [|c cs IH] using rev_ind; [done|]. rewrite run_calls_snoc.
  pose proof (run_calls_keyed cs) as Hkey.
  destruct (run_calls cs) as [sent a]. unfold replay in *. destruct c as [now i|i]; simpl in *.
  - rewrite foldl_snoc, IH. done.
  - unfold SimulateDisconnect. destruct (sessions a !! i) as [s|] eqn:E; simpl; [|done].
    rewrite foldl_snoc, IH. unfold replay_event. simpl. by rewrite (Hkey _ _ E).
Qed.

(** C38: below 2^32 connections live sessions of different devices differ in
    tunnel identifier and address, and no identifier is zero; the address has
    octets in range exactly for the connections up to 65535, and from connection
    65536 on its third number is above 255, so it is not an IPv4 address. *)
Theorem session_identities cs imsi1 imsi2 s1 s2 :
  (Z.of_nat (connects cs) < 2 ^ 32)%Z → imsi1 ≠ imsi2 →
  sessions (run_calls cs).2 !! imsi1 = Some s1 → sessions (run_calls cs).2 !! imsi2 = Some s2 →
  MGTPTEID s1 ≠ MGTPTEID s2 ∧ MGTPTEID s1 ≠ 0%Z ∧ MDeviceIP s1 ≠ MDeviceIP s2 ∧
  ∃ x y, MDeviceIP s1 = ("10.0." ++ pretty x ++ "." ++ pretty y)%string ∧ (0 ≤ x)%Z ∧ (0 ≤ y ≤ 255)%Z ∧
    ((MGTPTEID s1 ≤ 65535)%Z → (x ≤ 255)%Z) ∧ ((65536 ≤ MGTPTEID s1)%Z → (256 ≤ x)%Z).
Proof.
  intros Hn Hne H1 H2. destruct (run_calls_counters cs Hn) as (_ & _ & Hs).
  destruct (Hs _ _ H1) as (Hr1 & Hip1 & Hu). destruct (Hs _ _ H2) as (Hr2 & Hip2 & _).
  assert (MGTPTEID s1 ≠ MGTPTEID s2) as Hd by (intros E; apply Hne; eauto).
  split_and!; [done|lia| |].
  - rewrite Hip1, Hip2. intros E. apply Hd. apply device_ip_inj; [lia..|done].
  - exists (MGTPTEID s1 / 256)%Z, (MGTPTEID s1 `mod` 256)%Z. split.
    + rewrite Hip1. unfold device_ip. by rewrite Z.quot_div_nonneg, Z.rem_mod_nonneg by lia.
    + split_and!; divlia.
Qed.

Lemma session_identities_witness :
  ∃ x y, "10.0.0.1" = ("10.0." ++ pretty x ++ "." ++ pretty y)%string ∧ (0 ≤ x ≤ 255)%Z ∧ (0 ≤ y ≤ 255)%Z.
Proof.
  destruct (session_identities [Connect 5 "A"; Connect 6 "B"] "A" "B"
    (mkMSession "A" 1 "10.0.0.1" 5) (mkMSession "B" 2 "10.0.0.2" 6)) as (_ & _ & _ & x & y & E & Hx & Hy & H & _);
    [vm_compute; reflexivity|discriminate|vm_compute; reflexivity..|].
  exists x, y. split; [exact E|]. split; [|exact Hy]. split; [exact Hx|]. apply H. simpl. lia.
Defined.
