(* ===== verification/ApnCore.v ===== *)
(** * The APN core adapter (camo-apncore/adapter.go, api.go, main.go)

    The adapter interface, the management API proved against it, the wrapper
    that makes the mock core an adapter, and the pipeline of session events from
    the mock through the wrapper's goroutine to the API server. *)

From Stdlib Require Import ZArith Lia String.
From stdpp Require Import base option list gmap strings pretty fin_maps relations.
From S2P Require Import Prelude GoText GoJsonDecode GoService ApnMock.

(** ** Data *)

Record Session := mkSession {
  IMSI : string;
  GTPTEID : Z;
  DeviceIP : string;
  SessionCreatedAt : Z
}.

Record RouteRule := mkRouteRule {
  RouteIMSI : string;
  NextHopWireGuardIP : string;
  RouteSessionToken : string
}.

Inductive SessionEventType := EventSessionCreated | EventSessionTerminated.

Record SessionEvent := mkSessionEvent { EventType : SessionEventType; EventSession : Session }.

Record apiRequest := mkApiRequest {
  Command : string;
  ReqIMSI : string;
  ReqNextHop : string;
  ReqSessionToken : string
}.

Record apiResponse := mkApiResponse {
  Status : string;
  RespCommand : string;
  Message : string;
  Sessions : list Session
}.

Definition cmdSetRoute : string := "set_route".
Definition cmdClearRoute : string := "clear_route".
Definition cmdListSessions : string := "list_sessions".

(** ** The adapter interface *)

(** [ListSessions] takes the order in which an implementation's map is visited. *)
Class APNAdapter (A : Type) := {
  SetRoute : RouteRule → A → go unit * A;
  ClearRoute : string → A → go unit * A;
  ListSessions : list string → A → go (list Session)
}.

(** The abstract state of an adapter. *)
Class APNTables (A : Type) := {
  route_table : A → gmap string RouteRule;
  session_table : A → gmap string Session
}.

(** What an adapter promises: a table of routes by device that the two route
    commands change and a table of sessions that they do not; a failed command
    changes neither. *)
Class APNContract (A : Type) `{APNAdapter A, APNTables A} := {
  set_route_ok rule a a' : SetRoute rule a = (Ok (), a') →
    route_table a' = <[RouteIMSI rule := rule]> (route_table a) ∧ session_table a' = session_table a;
  clear_route_ok imsi a a' : ClearRoute imsi a = (Ok (), a') →
    route_table a' = delete imsi (route_table a) ∧ session_table a' = session_table a;
  set_route_err rule a e a' : SetRoute rule a = (Err e, a') →
    route_table a' = route_table a ∧ session_table a' = session_table a;
  clear_route_err imsi a e a' : ClearRoute imsi a = (Err e, a') →
    route_table a' = route_table a ∧ session_table a' = session_table a;
  list_sessions_ok it a l : range_of (session_table a) it → ListSessions it a = Ok l →
    l ≡ₚ (map_to_list (session_table a)).*2;
  set_route_no_panic rule a : (SetRoute rule a).1 ≠ Panic;
  clear_route_no_panic imsi a : (ClearRoute imsi a).1 ≠ Panic;
  list_sessions_no_panic it a : ListSessions it a ≠ Panic
}.

(** ** The API server *)

Definition apn_error (cmd msg : string) : apiResponse := mkApiResponse "error" cmd msg [].
Definition apn_ok (cmd : string) : apiResponse := mkApiResponse "ok" cmd "" [].

Section api.
Context {A : Type} `{APNAdapter A}.

(** One line of a connection; [None] is a line [json.Unmarshal] refuses. *)
Definition handleLine (it : list string) (req : option apiRequest) (a : A) : go apiResponse * A :=
  match req with
  | None => (Ok (apn_error "" "invalid request"), a)
  | Some r =>
      if bool_decide (Command r = cmdSetRoute) then
        match SetRoute (mkRouteRule (ReqIMSI r) (ReqNextHop r) (ReqSessionToken r)) a with
        | (Ok _, a') => (Ok (apn_ok (Command r)), a')
        | (Err e, a') => (Ok (apn_error (Command r) e), a')
        | (Panic, a') => (Panic, a')
        end
      else if bool_decide (Command r = cmdClearRoute) then
        match ClearRoute (ReqIMSI r) a with
        | (Ok _, a') => (Ok (apn_ok (Command r)), a')
        | (Err e, a') => (Ok (apn_error (Command r) e), a')
        | (Panic, a') => (Panic, a')
        end
      else if bool_decide (Command r = cmdListSessions) then
        match ListSessions it a with
        | Ok l => (Ok (mkApiResponse "ok" (Command r) "" l), a)
        | Err e => (Ok (apn_error (Command r) e), a)
        | Panic => (Panic, a)
        end
      else (Ok (apn_error (Command r) "unknown command"), a)
  end.

(** [handleConn]: the responses of a connection, [None] when the process died. *)
Fixpoint handleConn (lines : list (list string * option apiRequest)) (a : A)
    : option (list apiResponse) * A :=
  match lines with
  | [] => (Some [], a)
  | (it, req) :: lines =>
      match handleLine it req a with
      | (Ok resp, a') =>
          let '(resps, a'') := handleConn lines a' in (cons resp <$> resps, a'')
      | (_, a') => (None, a')
      end
  end.
End api.

(** ** The mock core as an adapter *)

Definition session_of (s : MSession) : Session :=
  mkSession (MIMSI s) (MGTPTEID s) (MDeviceIP s) (MCreatedAt s).

Definition rule_to_mock (r : RouteRule) : MRouteRule :=
  mkMRouteRule (RouteIMSI r) (NextHopWireGuardIP r) (RouteSessionToken r).

(** The rule a mock rule stands for. *)
Definition rule_of (r : MRouteRule) : RouteRule :=
  mkRouteRule (MRouteIMSI r) (MNextHopWireGuardIP r) (MSessionToken r).

Definition event_of (e : MSessionEvent) : SessionEvent :=
  mkSessionEvent
    (match MType e with
     | MEventSessionCreated => EventSessionCreated
     | MEventSessionTerminated => EventSessionTerminated
     end) (session_of (MEvSession e)).

#[export] Instance mockAdapterWrapper : APNAdapter Adapter := {
  SetRoute rule a := mock_SetRoute (rule_to_mock rule) a;
  ClearRoute imsi a := mock_ClearRoute imsi a;
  ListSessions it a :=
    match mock_ListSessions it a with
    | Ok ms => Ok (session_of <$> ms)
    | Err e => Err e
    | Panic => Panic
    end
}.

(** ** Configuration *)

Record apnConfig := mkApnConfig { AdapterName : string }.

Definition dec_apn_config : decoder apnConfig :=
  struct [field "adapter" dec_string] (λ c vs, mkApnConfig (get_field "adapter" dec_string (AdapterName c) vs)).

Definition loadAPNConfig (file : read_result) : go apnConfig :=
  load_optional dec_apn_config (mkApnConfig "mock") file.

(** The adapter [main] selects, or the reason it exits. *)
Definition select_adapter (cfg : apnConfig) : go Adapter :=
  if bool_decide (AdapterName cfg = "mock") then Ok New
  else if bool_decide (AdapterName cfg = "open5gs") then
    Err "open5gs adapter not yet implemented"
  else if bool_decide (AdapterName cfg = "free5gc") then
    Err "free5gc adapter not yet implemented"
  else Err "unknown adapter".

(** ** The event pipeline *)

(** The mock with the sends that wait outside its lock, the event the wrapper's
    goroutine holds, its output channel, and the histories of what entered the
    mock's channel and of what [forwardEvents] logged. *)
Record pipeline := mkPipeline {
  p_mock : Adapter;
  p_waiting : list MSessionEvent;
  p_hand : option SessionEvent;
  p_out : list SessionEvent;
  p_sent : list MSessionEvent;
  p_logged : list SessionEvent
}.

Definition out_cap : nat := 64.

Definition start_pipeline : pipeline := mkPipeline New [] None [] [] [].

Inductive step : pipeline → pipeline → Prop :=
| step_connect m w h o s l now imsi e m' :
    SimulateConnect now imsi m = (e, m') →
    step (mkPipeline m w h o s l) (mkPipeline m' (w ++ [e]) h o s l)
| step_disconnect m w h o s l imsi e m' :
    SimulateDisconnect imsi m = (Some e, m') →
    step (mkPipeline m w h o s l) (mkPipeline m' (w ++ [e]) h o s l)
| step_send m w1 e w2 h o s l m' :
    send e m = Some m' →
    step (mkPipeline m (w1 ++ e :: w2) h o s l) (mkPipeline m' (w1 ++ w2) h o (s ++ [e]) l)
| step_receive m w o s l e m' :
    receive m = Some (e, m') →
    step (mkPipeline m w None o s l) (mkPipeline m' w (Some (event_of e)) o s l)
| step_forward m w e o s l :
    length o < out_cap →
    step (mkPipeline m w (Some e) o s l) (mkPipeline m w None (o ++ [e]) s l)
| step_log m w h e o s l :
    step (mkPipeline m w h (e :: o) s l) (mkPipeline m w h o s (l ++ [e])).

Definition reachable : pipeline → Prop := rtc step start_pipeline.

(** ** Lemmas *)

Lemma rule_of_to_mock r : rule_of (rule_to_mock r) = r.
Proof. by destruct r. Qed.

#[export] Instance mock_tables : APNTables Adapter := {
  route_table a := rule_of <$> routes a;
  session_table a := session_of <$> sessions a
}.

#[export] Instance mock_contract : APNContract Adapter.
Proof.
  split; try done; simpl.
  - intros rule a a' [= <-]. simpl. by rewrite fmap_insert, rule_of_to_mock.
  - intros imsi a a' [= <-]. simpl. by rewrite fmap_delete.
  - intros it a l Hit [= <-].
    assert (range_of (sessions a) it) as Hit'.
    { unfold range_of, keys in *. rewrite Hit. rewrite map_to_list_fmap, <-list_fmap_compose. done. }
    rewrite map_to_list_fmap, <-list_fmap_compose.
    change (snd ∘ prod_map id session_of) with (session_of ∘ snd (A := string)).
    rewrite list_fmap_compose. apply fmap_Permutation.
    by apply range_values_perm.
Qed.

(** ** The API against the contract *)

(** What a line with its response means for the routes: a route command that was
    answered with ok takes effect, everything else does not. *)
Definition spec_line (m : gmap string RouteRule) (lr : option apiRequest * apiResponse)
    : gmap string RouteRule :=
  match lr with
  | (Some r, resp) =>
      if bool_decide (Status resp = "ok") then
        if bool_decide (Command r = cmdSetRoute) then
          <[ReqIMSI r := mkRouteRule (ReqIMSI r) (ReqNextHop r) (ReqSessionToken r)]> m
        else if bool_decide (Command r = cmdClearRoute) then delete (ReqIMSI r) m
        else m
      else m
  | (None, _) => m
  end.

Section api_lemmas.
Context {A : Type} `{APNContract A}.

(** A listing that was answered with ok lists the sessions; other answers carry
    none. *)
Definition lists_sessions (it : list string) (req : option apiRequest) (resp : apiResponse) (a : A) : Prop :=
  Sessions resp = [] ∧ (Status resp = "ok" → ∀ r, req = Some r → Command r ≠ cmdListSessions) ∨
  (range_of (session_table a) it → Sessions resp ≡ₚ (map_to_list (session_table a)).*2).

Lemma handleLine_spec it req a :
  ∃ resp a', handleLine it req a = (Ok resp, a') ∧ session_table a' = session_table a ∧
    route_table a' = spec_line (route_table a) (req, resp) ∧ lists_sessions it req resp a.
Proof.
  destruct req as [r|]; [|eexists _, a; split_and!; [done..|by left]].
  unfold handleLine, spec_line, lists_sessions.
  destruct (decide (Command r = cmdSetRoute)) as [E|N1];
    [|destruct (decide (Command r = cmdClearRoute)) as [E|N2];
      [|destruct (decide (Command r = cmdListSessions)) as [E|N3]]].
  - rewrite bool_decide_true by done. set (rule := mkRouteRule _ _ _).
    pose proof (set_route_no_panic rule a) as Hp.
    assert (∀ r', Some r = Some r' → Command r' ≠ cmdListSessions) as Hne by (intros ? [= <-]; by rewrite E).
    destruct (SetRoute rule a) as [[[]|e|] a'] eqn:Er; [| |done]; eexists _, a'; (split; [done|]).
    + apply set_route_ok in Er as [-> ->]. split_and!; [done| |by left]. done.
    + apply set_route_err in Er as [-> ->]. split_and!; [done..|by left].
  - rewrite bool_decide_false, bool_decide_true by congruence.
    pose proof (clear_route_no_panic (ReqIMSI r) a) as Hp.
    assert (∀ r', Some r = Some r' → Command r' ≠ cmdListSessions) as Hne by (intros ? [= <-]; by rewrite E).
    destruct (ClearRoute (ReqIMSI r) a) as [[[]|e|] a'] eqn:Er; [| |done]; eexists _, a'; (split; [done|]).
    + apply clear_route_ok in Er as [-> ->]. split_and!; [done| |by left]. done.
    + apply clear_route_err in Er as [-> ->]. split_and!; [done..|by left].
  - rewrite !bool_decide_false, bool_decide_true by congruence. pose proof (list_sessions_no_panic it a) as Hp.
    destruct (ListSessions it a) as [l|e|] eqn:El; [| |done]; eexists _, a; (split; [done|]); cbn.
    + split_and!; [done..|]. right. intros Hit. by apply list_sessions_ok in El.
    + split_and!; [done..|by left].
  - rewrite !bool_decide_false by congruence. eexists _, a. split_and!; [done..|by left].
Qed.

(** Every line of a connection is answered, and the routes are those of the
    commands answered with ok. *)
Lemma handleConn_refines lines (a : A) :
  ∃ resps a', handleConn lines a = (Some resps, a') ∧ session_table a' = session_table a ∧
    route_table a' = foldl spec_line (route_table a) (zip lines.*2 resps) ∧
    Forall2 (λ line resp, lists_sessions line.1 line.2 resp a) lines resps.
Proof.
  revert a. induction lines as [|[it req] lines IH]; intros a; [eexists [], a; by split_and!|].
  destruct (handleLine_spec it req a) as (resp & a1 & E & Hs & Hr & Hl).
  destruct (IH a1) as (resps & a2 & E' & Hs' & Hr' & Hl'). exists (resp :: resps), a2.
  cbn [handleConn]. rewrite E, E'. split_and!; [done|congruence|by rewrite Hr', Hr|]. constructor; [done|].
  eapply Forall2_impl; [exact Hl'|]. intros line resp'. unfold lists_sessions. by rewrite Hs.
Qed.
End api_lemmas.

(** ** Properties of the event pipeline *)

Definition in_flight (p : pipeline) : list SessionEvent :=
  p_out p ++ option_list (p_hand p) ++ (event_of <$> events (p_mock p)).

Lemma send_Some e m m' :
  send e m = Some m' → events m' = events m ++ [e] ∧ length (events m) < events_cap ∧ sessions m' = sessions m.
Proof. unfold send. case_bool_decide; [|done]. by intros [= <-]. Qed.

Lemma receive_Some m e m' : receive m = Some (e, m') → events m = e :: events m' ∧ sessions m' = sessions m.
Proof. unfold receive. destruct (events m); [done|]. by intros [= -> <-]. Qed.

Definition fifo_inv (p : pipeline) : Prop :=
  event_of <$> p_sent p = p_logged p ++ in_flight p ∧
  length (events (p_mock p)) ≤ events_cap ∧ length (p_out p) ≤ out_cap.

Lemma fifo_step p q : step p q → fifo_inv p → fifo_inv q.
Proof.
  unfold fifo_inv, in_flight.
  intros [m w h o s l now imsi e m' E|m w h o s l imsi e m' E|m w1 e w2 h o s l m' E
         |m w o s l e m' E|m w e o s l Hlen|m w h e o s l]; simpl; intros (Hs & Hm & Ho).
  - unfold SimulateConnect in E. by injection E as <- <-.
  - unfold SimulateDisconnect in E. destruct (sessions m !! imsi); [|done]. by injection E as <- <-.
  - apply send_Some in E as (-> & Hlt & _). rewrite !fmap_app, Hs, !app_assoc, length_app. simpl.
    split_and!; [done|lia|done].
  - apply receive_Some in E as [E _]. rewrite E in Hs, Hm. simpl in *. split_and!; [done|lia|done].
  - rewrite Hs, length_app. simpl. split_and!; [by rewrite <-!app_assoc|done|lia].
  - rewrite Hs. simpl in Ho. split_and!; [by rewrite <-!app_assoc|done|lia].
Qed.

Lemma fifo_reachable p : reachable p → fifo_inv p.
Proof.
  unfold reachable. intros Hr. assert (fifo_inv start_pipeline) as Hs.
  { unfold fifo_inv. simpl. by split_and!; [|lia..]. }
  revert Hs. induction Hr as [|x y z Hxy _ IH]; [done|]. intros Hx. by eapply IH, fifo_step.
Qed.

(** C36: under every interleaving of connections, disconnections, waiting sends,
    the wrapper's goroutine and the logging loop, the events logged are, in
    order and without loss or duplication, those that entered the mock's channel,
    the rest being in the two channels or in the goroutine's hand; neither
    channel exceeds its capacity. *)
Theorem events_fifo p :
  reachable p →
  event_of <$> p_sent p =
    p_logged p ++ p_out p ++ option_list (p_hand p) ++ (event_of <$> events (p_mock p)) ∧
  length (events (p_mock p)) ≤ 64 ∧ length (p_out p) ≤ 64.
Proof. apply fifo_reachable. Qed.

Definition load (p : pipeline) : nat :=
  4 * length (p_waiting p) + 3 * length (events (p_mock p)) + 2 * length (option_list (p_hand p)) + length (p_out p).

(** A step that starts no new event. *)
Definition deliver (p q : pipeline) : Prop := step p q ∧ length (p_waiting q) ≤ length (p_waiting p).

(** Every delivery takes an event one stage further. *)
Lemma deliver_load p q : deliver p q → load q < load p ∧ sessions (p_mock q) = sessions (p_mock p).
Proof.
  intros [Hstep Hw]. unfold load.
  destruct Hstep as [m w h o s l now imsi e m' E|m w h o s l imsi e m' E|m w1 e w2 h o s l m' E
         |m w o s l e m' E|m w e o s l Hlen|m w h e o s l]; cbn in *; rewrite ?length_app in *; cbn in *; try lia.
  - apply send_Some in E as (-> & _ & ->). rewrite length_app. cbn. split; [lia|done].
  - apply receive_Some in E as [-> ->]. cbn. split; [lia|done].
  - split; [lia|done].
  - split; [lia|done].
Qed.

(** While an event is under way some stage can move one. *)
Lemma pipeline_progress p : 0 < load p → ∃ q, deliver p q.
Proof.
  destruct p as [m w h o s l]. unfold load, deliver. cbn. destruct o as [|e o].
  2:{ intros _. eexists. split; [apply step_log|done]. }
  destruct h as [e|].
  { intros _. eexists. split; [apply step_forward; cbn; unfold out_cap; lia|done]. }
  destruct (events m) as [|e es] eqn:Em.
  - destruct w as [|e w]; cbn; [lia|]. intros _.
    destruct (send e m) as [m'|] eqn:Es.
    2:{ unfold send in Es. rewrite Em in Es. done. }
    eexists. split; [by apply (step_send m [] e w)|]. cbn. lia.
  - intros _. eexists. split; [apply step_receive; unfold receive; rewrite Em; done|done].
Qed.

Lemma deliver_reachable p q : reachable p → rtc deliver p q → reachable q ∧ sessions (p_mock q) = sessions (p_mock p).
Proof.
  intros Hr Hd. induction Hd as [|p p1 q Hd _ IH]; [done|]. destruct (deliver_load p p1 Hd) as [_ Hs].
  destruct IH as [IH1 IH2]; [by eapply rtc_r; [exact Hr|apply Hd]|]. split; [done|congruence].
Qed.

(** C21: delivery comes to an end, and only when everything is delivered: from
    every reachable state at most four steps per waiting event, three per event
    in the mock's channel, two for one in hand and one per event in the output
    channel can follow each other without a new event, in whatever order the
    senders, the wrapper and the logging loop take turns; and when no step is
    left every event has been logged, with the sessions unchanged.  The bounded
    channels cannot deadlock. *)
Theorem deliveries_terminate p :
  reachable p →
  (∀ n q, nsteps deliver n p q → n ≤ load p) ∧
  (∀ q, rtc deliver p q → (∀ q', ¬ deliver q q') →
     p_waiting q = [] ∧ events (p_mock q) = [] ∧ p_logged q = event_of <$> p_sent q ∧
     sessions (p_mock q) = sessions (p_mock p)).
Proof.
  intros Hr. split.
  - intros n q Hn. induction Hn as [|n p p1 q Hd _ IH]; [lia|].
    destruct (deliver_load p p1 Hd) as [Hl _]. specialize (IH ltac:(eapply rtc_r; [exact Hr|apply Hd])). lia.
  - intros q Hd Hstuck. destruct (deliver_reachable p q Hr Hd) as [Hq Hs].
    destruct (decide (0 < load q)) as [Hl|Hl]; [by destruct (pipeline_progress q Hl) as [q' ?%Hstuck]|].
    destruct (fifo_reachable q Hq) as [Hf _]. unfold in_flight in Hf. unfold load in Hl.
    destruct (p_waiting q), (events (p_mock q)), (p_hand q), (p_out q); cbn in *; try lia.
    rewrite app_nil_r in Hf. by split_and!.
Qed.

(** ** Event order *)

Definition early_session : MSession := mkMSession "A" 1 "10.0.0.1" 0.
Definition created : MSessionEvent := mkMSessionEvent MEventSessionCreated early_session.
Definition terminated : MSessionEvent := mkMSessionEvent MEventSessionTerminated early_session.

Definition mock_after (es : list MSessionEvent) : Adapter := mkAdapter ∅ ∅ es 1 1.

(** Because the event is sent after the lock is released, a disconnection
    can overtake the connection it ends: a reachable state has every event
    logged and no session, while the logged events replay to a live session. *)
Theorem events_out_of_order :
  ∃ p, reachable p ∧ p_waiting p = [] ∧ p_logged p = event_of <$> p_sent p ∧
    sessions (p_mock p) = ∅ ∧ replay (p_sent p) !! "A" = Some early_session.
Proof.
  exists (mkPipeline (mock_after []) [] None [] [terminated; created] [event_of terminated; event_of created]).
  split_and!; [|reflexivity..]. unfold reachable, start_pipeline.
  eapply rtc_l; [apply (step_connect _ _ _ _ _ _ 0 "A"); reflexivity|].
  eapply rtc_l; [apply (step_disconnect _ _ _ _ _ _ "A"); reflexivity|].
  eapply rtc_l; [apply (step_send _ [created] terminated []); reflexivity|].
  eapply rtc_l; [apply (step_send _ [] created []); reflexivity|].
  do 2 (eapply rtc_l; [apply step_receive; reflexivity|];
        eapply rtc_l; [apply step_forward; simpl; unfold out_cap; lia|];
        eapply rtc_l; [apply step_log|]).
  apply rtc_refl.
Qed.

(** ** Witnesses *)

Definition connected : pipeline :=
  mkPipeline (mkAdapter {["A" := early_session]} ∅ [] 1 1) [created] None [] [] [].

Lemma connected_reachable : reachable connected.
Proof. apply rtc_once. apply (step_connect New [] None [] [] [] 0 "A" created). reflexivity. Qed.

Lemma events_fifo_witness :
  event_of <$> p_sent connected = [] ++ [] ++ [] ++ [] ∧ length (events (p_mock connected)) ≤ 64.
Proof. destruct (events_fifo connected connected_reachable) as (H & H' & _). split; [exact H|exact H']. Defined.

Definition channelled : pipeline :=
  mkPipeline (mkAdapter {["A" := early_session]} ∅ [created] 1 1) [] None [] [created] [].

Lemma first_delivery : nsteps deliver 1 connected channelled.
Proof.
  apply nsteps_once. split; [|cbn; lia].
  apply (step_send _ [] created [] None [] [] [] (mkAdapter {["A" := early_session]} ∅ [created] 1 1)). reflexivity.
Qed.

Lemma deliveries_terminate_witness : nsteps deliver 1 connected channelled ∧ 1 ≤ load connected.
Proof.
  split; [exact first_delivery|].
  exact (proj1 (deliveries_terminate connected connected_reachable) 1 channelled first_delivery).
Defined.
