(* ===== verification/ApnMain.v ===== *)
(** * The camo-apncore program (camo-apncore/main.go, api.go)

    The management socket in bytes, for any adapter that keeps its contract, and
    start-up. *)

From Stdlib Require Import ZArith Lia Ascii String.
From stdpp Require Import base option list gmap strings pretty fin_maps.
From S2P Require Import Prelude GoText GoUtf8 GoTime GoJson GoJsonRead GoNumber GoTimeParse.
From S2P Require Import GoJsonDecode GoLines GoService ApnMock ApnCore.

(** ** The socket *)

Definition dec_apn_request : decoder apiRequest :=
  struct [field "command" dec_string; field "imsi" dec_string; field "next_hop_wireguard_ip" dec_string;
          field "session_token" dec_string] (λ r vs,
    mkApiRequest (get_field "command" dec_string (Command r) vs) (get_field "imsi" dec_string (ReqIMSI r) vs)
      (get_field "next_hop_wireguard_ip" dec_string (ReqNextHop r) vs)
      (get_field "session_token" dec_string (ReqSessionToken r) vs)).

Section socket.
(** Creation times are local times: [zone] is the offset in minutes at a time. *)
Context (zone : Z → Z).

Definition session_time (s : Session) : Time := mkTime (SessionCreatedAt s) (zone (SessionCreatedAt s)).

Definition session_json (s : Session) : option jval :=
  ts ← time_json (session_time s);
  Some (JObj [("imsi", JStr (IMSI s)); ("gtp_teid", json_int (GTPTEID s)); ("device_ip", JStr (DeviceIP s));
              ("created_at", JStr ts)]).

Definition apn_response_json (r : apiResponse) : option jval :=
  ss ← mapM session_json (Sessions r);
  Some (JObj ([("status", JStr (Status r)); ("command", JStr (RespCommand r))] ++ omitempty "message" (Message r) ++
              match ss with [] => [] | _ => [("sessions", JArr ss)] end)).

Context {A : Type} `{APNAdapter A}.

(** [handleConn] on the bytes of a connection; a listing for line [i] visits the
    sessions in the order [it i].  [None] when the process died. *)
Definition serve_apn (it : nat → list string) (bytes : list ascii) (a : A) : option (list ascii) * A :=
  let '(resps, a') := handleConn (imap (λ i req, (it i, req)) (requests dec_apn_request (mkApiRequest "" "" "" "") bytes)) a in
  ((λ resps, resps ≫= λ r, encode_opt (apn_response_json r)) <$> resps, a').
End socket.

(** ** Start-up *)

Record apn_env := mkApnEnv {
  ae_config : read_result;     (* /etc/camo/apncore.json *)
  ae_remove : go unit;         (* the stale socket *)
  ae_bind : go unit
}.

(** No directory is created for this socket. *)
Definition apn_listen (env : apn_env) : go unit := open_socket (ae_remove env) (Ok ()) (ae_bind env).

Definition apn_main (env : apn_env) : status Adapter :=
  or_exit (loadAPNConfig (ae_config env)) (λ cfg,
  or_exit (select_adapter cfg) (λ adapter,
  or_exit (apn_listen env) (λ _, Running adapter))).

(** ** Lemmas *)

Section answers.
Context (zone : Z → Z) {A : Type} `{APNContract A}.

Lemma sessions_marshal ss :
  Forall (λ s, in_json_range (session_time zone s) = true) ss →
  ∃ vs, mapM (session_json zone) ss = Some vs ∧ Forall (fits 1) vs.
Proof.
  induction 1 as [|s ss Hs _ (vs & E & Hf)]; [by exists []|]. cbn [mapM].
  assert (session_json zone s = Some (JObj [("imsi", JStr (IMSI s)); ("gtp_teid", json_int (GTPTEID s)); ("device_ip", JStr (DeviceIP s));
    ("created_at", JStr (default "" (time_json (session_time zone s))))])) as ->.
  { unfold session_json, time_json. by rewrite Hs. }
  cbn [mbind option_bind]. rewrite E. eexists. split; [done|]. constructor; [|done]. apply fits_obj. split; [done|].
  repeat (constructor; [try done|]); [apply json_int_number|constructor].
Qed.

Lemma apn_response_marshals r :
  Forall (λ s, in_json_range (session_time zone s) = true) (Sessions r) →
  ∃ v, apn_response_json zone r = Some v ∧ wf v.
Proof.
  intros Hr. unfold apn_response_json. destruct (sessions_marshal _ Hr) as (vs & -> & Hf). cbn [mbind option_bind].
  eexists. split; [done|]. apply (fits_wf max_depth), fits_obj. split; [done|]. rewrite !Forall_app.
  split_and!; [by repeat constructor|apply omitempty_fits|]. destruct vs as [|v vs]; constructor; [|constructor].
  apply fits_arr. split; [done|]. eapply Forall_impl; [exact Hf|]. intros w Hw. by eapply fits_mono.
Qed.

(** C12: for every adapter that keeps its contract the management socket answers
    every line of every connection with exactly one line of JSON, whatever bytes
    arrive; the routes afterwards are those obtained by applying, in order,
    exactly the route commands that were answered with ok, the sessions are
    untouched, and every listing answered with ok is a listing of all sessions,
    each once (times JSON can express assumed for the listing to be written). *)
Theorem apn_socket_refines it bytes (a : A) :
  (∀ s, s ∈ (map_to_list (session_table a)).*2 → in_json_range (session_time zone s) = true) →
  (∀ i, range_of (session_table a) (it i)) →
  let lines := requests dec_apn_request (mkApiRequest "" "" "" "") bytes in
  ∃ resps vs out a', serve_apn zone it bytes a = (Some out, a') ∧
    mapM (apn_response_json zone) resps = Some vs ∧ pieces out = marshal <$> vs ∧ length vs = length (scan_lines bytes) ∧
    session_table a' = session_table a ∧ route_table a' = foldl spec_line (route_table a) (zip lines resps) ∧
    ∀ i r resp, lines !! i = Some (Some r) → resps !! i = Some resp → Command r = cmdListSessions → Status resp = "ok" →
      Sessions resp ≡ₚ (map_to_list (session_table a)).*2.
Proof.
  intros Htime Hit lines. unfold serve_apn. fold lines.
  set (its := imap (λ i req, (it i, req)) lines).
  destruct (handleConn_refines its a) as (resps & a' & E & Hs & Hr & Hl). rewrite E. cbn [fmap option_fmap option_map].
  assert (its.*2 = lines) as Hlines.
  { apply list_eq. intros i. unfold its. rewrite list_lookup_fmap, list_lookup_imap. by destruct (lines !! i). }
  assert (length resps = length lines) as Hlen.
  { apply Forall2_length in Hl. unfold its in Hl. by rewrite length_imap in Hl. }
  assert (∀ i req resp, lines !! i = Some req → resps !! i = Some resp → lists_sessions (it i) req resp a) as Hi.
  { intros i req resp L1 L2. apply (Forall2_lookup_lr _ _ _ i (it i, req) resp Hl); [|done].
    unfold its. by rewrite list_lookup_imap, L1. }
  destruct (answers_lines (apn_response_json zone) resps) as (vs & Hvs & Hp).
  { intros resp [i L2]%list_elem_of_lookup. apply apn_response_marshals.
    destruct (lookup_lt_is_Some_2 lines i) as [req L1]; [rewrite <-Hlen; by eapply lookup_lt_Some|].
    destruct (Hi i req resp L1 L2) as [[-> _]|Hperm]; [constructor|]. rewrite (Hperm (Hit i)). by apply Forall_forall. }
  exists resps, vs, (resps ≫= λ r, encode_opt (apn_response_json zone r)), a'. split_and!; try done.
  - rewrite <-(Forall2_length _ _ _ (proj1 (mapM_Some _ _ _) Hvs)), Hlen. unfold lines, requests. by rewrite length_fmap.
  - by rewrite Hr, Hlines.
  - intros i r resp L1 L2 Hc Hok. destruct (Hi i _ resp L1 L2) as [[_ Hno]|Hperm]; [by destruct (Hno Hok r)|by apply Hperm].
Qed.
End answers.

(** The APN core runs exactly when its configuration is absent or a JSON
    object of the right types that names the mock adapter or none, and its
    socket can be bound, and then with an empty mock core; the adapters that are
    named but not written, unknown ones, unreadable files and a socket in use
    end it with code 1. *)
Theorem apn_startup env :
  ae_bind env ≠ Panic →
  (apn_main env = Running New ↔
   (ae_config env = ReadNotExist ∨
    ∃ data v, ae_config env = ReadOk data ∧ json_text v data ∧ dec_err dec_apn_config v = false ∧
      AdapterName (dec_into dec_apn_config (mkApnConfig "mock") [v]) = "mock") ∧ ae_bind env = Ok ()) ∧
  (apn_main env = Running New ∨ apn_main env = Exited 1).
Proof.
  intros Hb. unfold apn_main, loadAPNConfig, load_optional, apn_listen, open_socket.
  assert (∀ cfg, or_exit (select_adapter cfg) (λ adapter, or_exit (ae_bind env) (λ _, Running adapter)) =
    if bool_decide (AdapterName cfg = "mock") && bool_decide (ae_bind env = Ok ()) then Running New else Exited 1) as Hrun.
  { intros cfg. unfold select_adapter. case_bool_decide; cbn [or_exit andb]; [|by repeat case_bool_decide].
    destruct (ae_bind env) as [[]|e|]; cbn [or_exit]; by rewrite ?bool_decide_true, ?bool_decide_false by done. }
  destruct (ae_config env) as [data| |e] eqn:Ec.
  - destruct (decode_config dec_apn_config (mkApnConfig "mock") data) as [cfg|e|] eqn:Ed; cbn [or_exit].
    + apply decode_config_Ok in Ed as (v & Hv & He & ->). rewrite Hrun. destruct (_ && _) eqn:Eb.
      * apply andb_true_iff in Eb as [E1%bool_decide_eq_true E2%bool_decide_eq_true]. split; [|by left]. split; [|done].
        intros _. split; [|done]. right. by exists data, v.
      * split; [|by right]. split; [done|]. intros [[?|(data' & v' & [= <-] & Hv' & He' & Hn)] Hbind]; [done|].
        assert (v' = v) as -> by (apply read_json_complete in Hv, Hv'; congruence).
        by rewrite !bool_decide_true in Eb by done.
    + split; [|by right]. split; [done|]. intros [[?|(data' & v' & [= <-] & Hv' & He' & Hn)] Hbind]; [done|].
      assert (decode_config dec_apn_config (mkApnConfig "mock") data = Ok (dec_into dec_apn_config (mkApnConfig "mock") [v'])) as E'
        by (apply decode_config_Ok; by exists v'). congruence.
    + exfalso. unfold decode_config in Ed. by destruct (Unmarshal _ _ _) as [? []].
  - cbn [or_exit]. rewrite Hrun. cbn [AdapterName]. rewrite bool_decide_true by done. cbn [andb].
    case_bool_decide; (split; [|by auto]); (split; [by auto|]); [by auto|by intros [_ ?]].
  - split; [|by right]. split; [done|]. by intros [[?|(? & ? & ? & _)] _].
Qed.

(** ** Witnesses *)

Definition apn_session : list ascii :=
  qt "{'command':'set_route','imsi':'imsi','next_hop_wireguard_ip':'10.8.0.2','session_token':'token'}" ++ [newline] ++
  qt "{" ++ [newline] ++ qt "{'command':'list_sessions'}".

Definition one_session : Adapter := (SimulateConnect 0 "A" New).2.

Lemma apn_socket_refines_witness :
  ∃ out a', serve_apn (A := Adapter) (λ _, 60%Z) (λ _, ["A"]) apn_session one_session = (Some out, a') ∧
    length (pieces out) = 3 ∧ route_table a' = {["imsi" := mkRouteRule "imsi" "10.8.0.2" "token"]}.
Proof.
  destruct (apn_socket_refines (λ _, 60%Z) (λ _, ["A"]) apn_session one_session) as (resps & vs & out & a' & E & _ & Hp & Hl & _ & Hr & _).
  - intros s Hs. vm_compute in Hs. apply list_elem_of_singleton in Hs. subst s. vm_compute. reflexivity.
  - intros i. apply range_of_keys.
  - exists out, a'. split; [exact E|]. split; [rewrite Hp, length_fmap, Hl; vm_compute; reflexivity|].
    apply (f_equal (λ p, route_table p.2)) in E. cbn [snd] in E. rewrite <-E. vm_compute. reflexivity.
Defined.

Lemma apn_startup_witness :
  apn_main (mkApnEnv (ReadOk (qt "{'adapter':'mock'}")) (Ok ()) (Ok ())) = Running New.
Proof.
  apply (apn_startup (mkApnEnv (ReadOk (qt "{'adapter':'mock'}")) (Ok ()) (Ok ()))); [discriminate|].
  split; [|reflexivity]. right. eexists _, (JObj [("adapter", JStr "mock")]). split; [reflexivity|].
  split; [apply read_json_sound; vm_compute; reflexivity|]. split; vm_compute; reflexivity.
Defined.
