(* ===== verification/GossipRecord.v ===== *)
(** * Gossip records and keys (camo-gossip/record.go, keys.go)

    Node records and heartbeats, the JSON bytes their signatures cover, the
    node's key pair and its persistence.  Ed25519 is an interface with the laws
    the code relies on; the signed bytes are concrete. *)

From Stdlib Require Import ZArith Lia Ascii String Strings.Byte Floats.SpecFloat.
From stdpp Require Import base option list gmap strings pretty.
From S2P Require Import Prelude GoFloat GoText GoUtf8 GoBase64 GoTime GoJson GoJsonRead GoNumber GoJsonDecode.
From S2P Require Import GoJsonIndent GoService.

(** ** Data *)

Definition protocolVersion : string := "0.1".

Record Endpoints := mkEndpoints { EpWireGuard : string; EpGTP : string }.

(** A slice that is nil is distinguished from an empty one: they marshal
    differently. *)
Record Capabilities := mkCapabilities {
  SIMPoolSize : Z;
  Regions : option (list string);
  Jurisdictions : option (list string);
  Uptime30d : float64;
  ExitNode : bool;
  MaxCircuits : Z
}.

Record NodeRecord := mkNodeRecord {
  Version : string;
  ServerID : string;
  WireGuardKey : string;
  RecEndpoints : Endpoints;
  RecCapabilities : Capabilities;
  Timestamp : Time;
  Signature : string
}.

Record Heartbeat := mkHeartbeat {
  HbServerID : string;
  HbTimestamp : Time;
  ActiveCircuits : Z;
  SIMPoolAvailable : Z;
  HbSignature : string
}.

(** The field assignments [r.Signature = s] and [r.Timestamp = t]. *)
Definition set_Signature (s : string) (r : NodeRecord) : NodeRecord :=
  mkNodeRecord (Version r) (ServerID r) (WireGuardKey r) (RecEndpoints r) (RecCapabilities r) (Timestamp r) s.
Definition set_Timestamp (t : Time) (r : NodeRecord) : NodeRecord :=
  mkNodeRecord (Version r) (ServerID r) (WireGuardKey r) (RecEndpoints r) (RecCapabilities r) t (Signature r).
Definition set_HbSignature (s : string) (h : Heartbeat) : Heartbeat :=
  mkHeartbeat (HbServerID h) (HbTimestamp h) (ActiveCircuits h) (SIMPoolAvailable h) s.

Definition msgNodeRecord : string := "node_record".
Definition msgHeartbeat : string := "heartbeat".

(** ** Marshalling *)

Definition json_strings (l : option (list string)) : jval :=
  match l with None => JNull | Some l => JArr (JStr <$> l) end.

Definition errMarshal : string := "json: unsupported value".

(** A float that is infinite or NaN cannot be marshalled. *)
Definition json_capabilities (c : Capabilities) : option jval :=
  uptime ← format_float (Uptime30d c);
  Some (JObj [("sim_pool_size", json_int (SIMPoolSize c)); ("regions", json_strings (Regions c));
              ("jurisdictions", json_strings (Jurisdictions c)); ("uptime_30d", JNum uptime);
              ("exit_node", JBool (ExitNode c)); ("max_circuits", json_int (MaxCircuits c))]).

Definition json_record (r : NodeRecord) : option jval :=
  caps ← json_capabilities (RecCapabilities r);
  ts ← time_json (Timestamp r);
  Some (JObj ([("version", JStr (Version r)); ("server_id", JStr (ServerID r));
               ("wireguard_pubkey", JStr (WireGuardKey r));
               ("endpoints", JObj [("wireguard", JStr (EpWireGuard (RecEndpoints r)));
                                   ("gtp", JStr (EpGTP (RecEndpoints r)))]);
               ("capabilities", caps); ("timestamp", JStr ts)] ++ omitempty "signature" (Signature r))).

Definition json_heartbeat (h : Heartbeat) : option jval :=
  ts ← time_json (HbTimestamp h);
  Some (JObj ([("server_id", JStr (HbServerID h)); ("timestamp", JStr ts);
               ("active_circuits", json_int (ActiveCircuits h));
               ("sim_pool_available", json_int (SIMPoolAvailable h))] ++ omitempty "signature" (HbSignature h))).

Definition bytes_of (l : list ascii) : list byte := byte_of_ascii <$> l.

(** [json.Marshal], which [canonicalJSON] calls. *)
Definition canonicalJSON (v : option jval) : go (list byte) :=
  match v with Some v => Ok (bytes_of (marshal v)) | None => Err errMarshal end.

(** ** Keys *)

(** Ed25519: the key pair of a 32-byte seed, signing and verification. *)
Class Ed25519 := {
  NewKeyFromSeed : list byte → list byte * list byte;
  ed25519_Sign : list byte → list byte → list byte;
  ed25519_Verify : list byte → list byte → list byte → bool
}.
Class Ed25519Laws `{Ed25519} := {
  pub_length seed : length seed = 32 → length (NewKeyFromSeed seed).1 = 32;
  priv_length seed : length seed = 32 → length (NewKeyFromSeed seed).2 = 64;
  sig_length priv m : length priv = 64 → length (ed25519_Sign priv m) = 64;
  verify_sign seed m : length seed = 32 →
    ed25519_Verify (NewKeyFromSeed seed).1 m (ed25519_Sign (NewKeyFromSeed seed).2 m) = true
}.

Record nodeKey := mkNodeKey { PublicKey : list byte; PrivateKey : list byte }.

Definition PublicKeySize : nat := 32.
Definition PrivateKeySize : nat := 64.

Definition serverID (k : nodeKey) : string := EncodeToString RawURLEncoding (PublicKey k).

Record persistedKey := mkPersistedKey { PkPublicKey : string; PkPrivateKey : string }.

Section keys.
Context `{Ed25519}.

(** [ed25519.Sign] panics on a private key of the wrong length. *)
Definition sign (k : nodeKey) (message : list byte) : go string :=
  if bool_decide (length (PrivateKey k) = PrivateKeySize)
  then Ok (EncodeToString StdEncoding (ed25519_Sign (PrivateKey k) message)) else Panic.

(** [ed25519.Verify] panics on a public key of the wrong length. *)
Definition verify (pubKeyB64 sigB64 : string) (message : list byte) : go unit :=
  match DecodeString RawURLEncoding pubKeyB64 with
  | None => Err "invalid public key encoding"
  | Some pubKey =>
      match DecodeString StdEncoding sigB64 with
      | None => Err "invalid signature encoding"
      | Some sig =>
          if bool_decide (length pubKey = PublicKeySize) then
            if ed25519_Verify pubKey message sig then Ok () else Err "signature verification failed"
          else Panic
      end
  end.

Definition signRecord (r : NodeRecord) (key : nodeKey) : go NodeRecord :=
  let r := set_Signature "" r in
  data ← canonicalJSON (json_record r);
  s ← sign key data;
  Ok (set_Signature s r).

Definition verifyRecord (r : NodeRecord) : go unit :=
  if bool_decide (Signature r = "") then Err "missing signature"
  else
    data ← canonicalJSON (json_record (set_Signature "" r));
    verify (ServerID r) (Signature r) data.

Definition signHeartbeat (h : Heartbeat) (key : nodeKey) : go Heartbeat :=
  let h := set_HbSignature "" h in
  data ← canonicalJSON (json_heartbeat h);
  s ← sign key data;
  Ok (set_HbSignature s h).

Definition verifyHeartbeat (h : Heartbeat) (pubKeyB64 : string) : go unit :=
  if bool_decide (HbSignature h = "") then Err "missing signature"
  else
    data ← canonicalJSON (json_heartbeat (set_HbSignature "" h));
    verify pubKeyB64 (HbSignature h) data.

(** ** The key file *)

Definition dec_key : decoder persistedKey :=
  struct [field "public_key" dec_string; field "private_key" dec_string] (λ k vs,
    mkPersistedKey (get_field "public_key" dec_string (PkPublicKey k) vs)
      (get_field "private_key" dec_string (PkPrivateKey k) vs)).

Definition key_json (pk : persistedKey) : jval :=
  JObj [("public_key", JStr (PkPublicKey pk)); ("private_key", JStr (PkPrivateKey pk))].

Definition b64_error : string := "illegal base64 data".

(** [loadOrGenerateKey] on what reading the file returns: the key and the bytes
    written to the file.  [mkdir] and [write] are the outcomes of creating the
    directory and writing the file. *)
Definition loadOrGenerateKey (file : read_result) (mkdir write : go unit) : M (nodeKey * option (list ascii)) := λ ent,
  match file with
  | ReadOk data =>
      (pk ← decode_config dec_key (mkPersistedKey "" "") data;
       match DecodeString StdEncoding (PkPublicKey pk) with
       | None => Err b64_error
       | Some pub =>
           match DecodeString StdEncoding (PkPrivateKey pk) with
           | None => Err b64_error
           | Some priv => Ok (mkNodeKey pub priv, None)
           end
       end, ent)
  | ReadErr e => (Err e, ent)
  | ReadNotExist =>
      let '(seed, ok, ent') := rand_Read 32 ent in
      if ok then
        let '(pub, priv) := NewKeyFromSeed seed in
        let pk := mkPersistedKey (EncodeToString StdEncoding pub) (EncodeToString StdEncoding priv) in
        let data := MarshalIndent (key_json pk) in
        (mkdir ≫= λ _, write ≫= λ _, Ok (mkNodeKey pub priv, Some data), ent')
      else (Err "rand: read error", ent')
  end.
End keys.

(** ** Deduplication key *)

Definition recordKey (r : NodeRecord) : string :=
  (ServerID r ++ "|" ++ Format_RFC3339 (UTC (Timestamp r)))%string.

(** ** The signed bytes *)

Lemma bytes_of_inj l1 l2 : bytes_of l1 = bytes_of l2 → l1 = l2.
Proof.
  unfold bytes_of. apply list_fmap_eq_inj. intros a b E.
  by rewrite <-(ascii_of_byte_of_ascii a), E, ascii_of_byte_of_ascii.
Qed.

Lemma json_strings_inj l1 l2 : json_strings l1 = json_strings l2 → l1 = l2.
Proof.
  destruct l1 as [l1|], l2 as [l2|]; try done. intros [= E]. f_equal.
  revert E. apply list_fmap_eq_inj. by intros ? ? [= ->].
Qed.

Lemma json_strings_fits d l : d ≠ 0%N → fits d (json_strings l).
Proof.
  intros Hd. destruct l as [l|]; [|done]. apply fits_arr. split; [done|]. by apply Forall_fmap, Forall_true.
Qed.

Lemma json_capabilities_fits c v : json_capabilities c = Some v → fits 2 v.
Proof.
  unfold json_capabilities. destruct (format_float (Uptime30d c)) as [u|] eqn:E; [|done]. intros [= <-].
  apply fits_obj. split; [done|]. repeat constructor; cbn [snd];
    first [apply json_int_number|by apply json_strings_fits|by apply (format_float_number _ _ E)].
Qed.

Lemma json_capabilities_inj c1 c2 v :
  json_capabilities c1 = Some v → json_capabilities c2 = Some v → c1 = c2.
Proof.
  unfold json_capabilities. destruct c1 as [s1 r1 j1 u1 e1 m1], c2 as [s2 r2 j2 u2 e2 m2]. simpl.
  destruct (format_float u1) as [t1|] eqn:F1; [|done]. destruct (format_float u2) as [t2|] eqn:F2; [|done].
  intros [= <-] E. injection E as Es Er Ej -> -> Em.
  assert (s1 = s2) as -> by (apply json_int_inj; unfold json_int; congruence).
  assert (m1 = m2) as -> by (apply json_int_inj; unfold json_int; congruence).
  apply eq_sym, json_strings_inj in Er as ->. apply eq_sym, json_strings_inj in Ej as ->.
  by rewrite (format_float_inj u1 u2 t1).
Qed.

Lemma json_record_fits r v : json_record r = Some v → fits 3 v.
Proof.
  unfold json_record. destruct (json_capabilities _) as [caps|] eqn:Ec; [|done]. cbn [mbind option_bind].
  destruct (time_json _) as [ts|]; [|done]. intros [= <-]. apply fits_obj. split; [done|].
  rewrite !Forall_cons. split_and!; try done; [by eapply json_capabilities_fits|apply omitempty_fits].
Qed.

Lemma json_heartbeat_fits h v : json_heartbeat h = Some v → fits 3 v.
Proof.
  unfold json_heartbeat. destruct (time_json _) as [ts|]; [|done]. intros [= <-]. apply fits_obj. split; [done|].
  rewrite !Forall_cons. split_and!; try done; [apply json_int_number..|apply omitempty_fits].
Qed.

Lemma json_record_inj r1 r2 v :
  Signature r1 = "" → Signature r2 = "" → json_record r1 = Some v → json_record r2 = Some v → r1 = r2.
Proof.
  unfold json_record. intros S1 S2. rewrite S1, S2.
  destruct (json_capabilities (RecCapabilities r1)) as [c1|] eqn:C1; [|done].
  destruct (json_capabilities (RecCapabilities r2)) as [c2|] eqn:C2; [|done]. simpl.
  destruct (time_json (Timestamp r1)) as [t1|] eqn:T1; [|done].
  destruct (time_json (Timestamp r2)) as [t2|] eqn:T2; [|done]. simpl.
  destruct r1 as [v1 i1 w1 [a1 g1] p1 m1 s1], r2 as [v2 i2 w2 [a2 g2] p2 m2 s2]. simpl in *. subst s1 s2.
  intros [= <-] [= -> -> -> -> -> -> ->].
  by rewrite (json_capabilities_inj p1 p2 c1), (time_json_inj m1 m2 t1).
Qed.

Lemma json_heartbeat_inj h1 h2 v :
  HbSignature h1 = "" → HbSignature h2 = "" → json_heartbeat h1 = Some v → json_heartbeat h2 = Some v → h1 = h2.
Proof.
  unfold json_heartbeat. intros S1 S2. rewrite S1, S2.
  destruct (time_json (HbTimestamp h1)) as [t1|] eqn:T1; [|done].
  destruct (time_json (HbTimestamp h2)) as [t2|] eqn:T2; [|done]. simpl.
  destruct h1 as [i1 m1 a1 p1 s1], h2 as [i2 m2 a2 p2 s2]. simpl in *. subst s1 s2.
  intros [= <-] E. injection E as -> -> Ea Ep.
  assert (a1 = a2) as -> by (apply json_int_inj; unfold json_int; congruence).
  assert (p1 = p2) as -> by (apply json_int_inj; unfold json_int; congruence).
  by rewrite (time_json_inj m1 m2 t1).
Qed.

(** What arrives of a record or a heartbeat: its strings, made UTF-8. *)
Definition delivered_list (l : option (list string)) : option (list string) := option_map (map delivered) l.

Definition delivered_record (r : NodeRecord) : NodeRecord :=
  let c := RecCapabilities r in
  mkNodeRecord (delivered (Version r)) (delivered (ServerID r)) (delivered (WireGuardKey r))
    (mkEndpoints (delivered (EpWireGuard (RecEndpoints r))) (delivered (EpGTP (RecEndpoints r))))
    (mkCapabilities (SIMPoolSize c) (delivered_list (Regions c)) (delivered_list (Jurisdictions c)) (Uptime30d c)
       (ExitNode c) (MaxCircuits c)) (Timestamp r) (delivered (Signature r)).

Definition delivered_heartbeat (h : Heartbeat) : Heartbeat :=
  mkHeartbeat (delivered (HbServerID h)) (HbTimestamp h) (ActiveCircuits h) (SIMPoolAvailable h) (delivered (HbSignature h)).

Definition utf8_record (r : NodeRecord) : Prop :=
  let c := RecCapabilities r in
  utf8 (Version r) ∧ utf8 (ServerID r) ∧ utf8 (WireGuardKey r) ∧ utf8 (EpWireGuard (RecEndpoints r)) ∧
  utf8 (EpGTP (RecEndpoints r)) ∧ utf8_list (Regions c) ∧ utf8_list (Jurisdictions c) ∧ utf8 (Signature r).

Lemma delivered_list_utf8 l : utf8_list l → delivered_list l = l.
Proof.
  destruct l as [l|]; [|done]. cbn. intros Hl. f_equal. induction Hl as [|s l Hs _ IH]; [done|].
  cbn. by rewrite delivered_utf8, IH.
Qed.

Lemma delivered_record_utf8 r : utf8_record r → delivered_record r = r.
Proof.
  destruct r as [v i w [a g] [n rs js u e m] t s]. unfold utf8_record, delivered_record.
  cbn -[delivered delivered_list utf8 utf8_list].
  intros (? & ? & ? & ? & ? & ? & ? & ?). by rewrite !delivered_list_utf8, !delivered_utf8.
Qed.

Lemma delivered_heartbeat_utf8 h : utf8 (HbServerID h) → utf8 (HbSignature h) → delivered_heartbeat h = h.
Proof. destruct h as [i t a p s]. unfold delivered_heartbeat. cbn -[delivered utf8]. intros ? ?. by rewrite !delivered_utf8. Qed.

Lemma delivered_time t s : time_json t = Some s → delivered s = s.
Proof.
  intros Ht. apply delivered_utf8, ascii_valid. eapply Forall_impl; [by eapply time_json_inert|]. by intros c [_ ?].
Qed.

Lemma delivered_strings l : map_strings delivered (json_strings l) = json_strings (delivered_list l).
Proof.
  destruct l as [l|]; [|done]. cbn. f_equal. induction l as [|s l IH]; [done|]. cbn. by rewrite IH.
Qed.

(** Marshalling goes with delivery. *)
Lemma delivered_json_record r v :
  Signature r = "" → json_record r = Some v → json_record (delivered_record r) = Some (map_strings delivered v).
Proof.
  unfold json_record, delivered_record. cbn [Signature RecCapabilities Timestamp]. intros ->.
  destruct (json_capabilities (RecCapabilities r)) as [caps|] eqn:Ec; [|done]. cbn [mbind option_bind].
  destruct (time_json (Timestamp r)) as [ts|] eqn:Et; [|done]. apply delivered_time in Et as Ed. cbn [mbind option_bind].
  intros [= <-]. revert Ec. unfold json_capabilities. cbn [Uptime30d].
  destruct (format_float _) as [u|]; [|done]. cbn [mbind option_bind]. intros [= <-].
  cbn [map_strings app omitempty bool_decide decide_rel]. cbn -[delivered json_strings]. rewrite !delivered_strings, Ed. reflexivity.
Qed.

Lemma delivered_json_heartbeat h v :
  HbSignature h = "" → json_heartbeat h = Some v → json_heartbeat (delivered_heartbeat h) = Some (map_strings delivered v).
Proof.
  unfold json_heartbeat, delivered_heartbeat. cbn [HbSignature HbTimestamp]. intros ->.
  destruct (time_json (HbTimestamp h)) as [ts|] eqn:Et; [|done]. apply delivered_time in Et as Ed. cbn [mbind option_bind].
  intros [= <-]. cbn -[delivered]. rewrite Ed. reflexivity.
Qed.

Lemma canonicalJSON_delivered v1 v2 b :
  (∀ v, v1 = Some v → fits 3 v) → (∀ v, v2 = Some v → fits 3 v) →
  canonicalJSON v1 = Ok b → canonicalJSON v2 = Ok b →
  ∃ w1 w2, v1 = Some w1 ∧ v2 = Some w2 ∧ map_strings delivered w1 = map_strings delivered w2.
Proof.
  destruct v1 as [v1|], v2 as [v2|]; simpl; try done. intros F1 F2 [= <-] [= E]. exists v1, v2. split_and!; [done..|].
  apply bytes_of_inj in E. apply marshal_delivered; [| |done]; (eapply fits_mono; [eauto|done]).
Qed.

(** C11: the signed bytes determine what is signed: two records with the same
    canonical bytes agree in every field but the signature once their strings are
    made UTF-8, so they are equal but for the signature when their strings are
    UTF-8 to begin with, as in every record that was decoded; the same holds for
    two heartbeats, and no record has the canonical bytes of a heartbeat. *)
Theorem signed_bytes_exact (r1 r2 : NodeRecord) (h1 h2 : Heartbeat) b :
  canonicalJSON (json_record (set_Signature "" r1)) = Ok b →
  (canonicalJSON (json_record (set_Signature "" r2)) = Ok b →
     delivered_record (set_Signature "" r1) = delivered_record (set_Signature "" r2) ∧
     (utf8_record r1 → utf8_record r2 → set_Signature (Signature r2) r1 = r2)) ∧
  (canonicalJSON (json_heartbeat (set_HbSignature "" h1)) ≠ Ok b) ∧
  (∀ b', canonicalJSON (json_heartbeat (set_HbSignature "" h1)) = Ok b' →
     canonicalJSON (json_heartbeat (set_HbSignature "" h2)) = Ok b' →
     delivered_heartbeat (set_HbSignature "" h1) = delivered_heartbeat (set_HbSignature "" h2) ∧
     (utf8 (HbServerID h1) → utf8 (HbServerID h2) → set_HbSignature (HbSignature h2) h1 = h2)).
Proof.
  intros E1. split_and!.
  - intros E2.
    destruct (canonicalJSON_delivered _ _ _ (json_record_fits _) (json_record_fits _) E1 E2) as (w1 & w2 & V1 & V2 & Ew).
    apply delivered_json_record in V1, V2; [|done..]. rewrite Ew in V1.
    assert (delivered_record (set_Signature "" r1) = delivered_record (set_Signature "" r2)) as E
      by (by eapply json_record_inj).
    split; [exact E|]. intros U1 U2. assert (∀ r, utf8_record r → utf8_record (set_Signature "" r)) as Hu
      by (intros r (? & ? & ? & ? & ? & ? & ? & ?); by split_and!).
    rewrite !delivered_record_utf8 in E by auto. destruct r1, r2. unfold set_Signature in *.
    cbn [Version ServerID WireGuardKey RecEndpoints RecCapabilities Timestamp Signature] in *. by injection E as -> -> -> -> -> ->.
  - intros E2.
    destruct (canonicalJSON_delivered _ _ _ (json_record_fits _) (json_heartbeat_fits _) E1 E2) as (w1 & w2 & V1 & V2 & Ew).
    apply delivered_json_record in V1; [|done]. apply delivered_json_heartbeat in V2; [|done]. rewrite Ew in V1.
    unfold json_record in V1. unfold json_heartbeat in V2.
    destruct (json_capabilities _); simpl in V1, V2; [|done].
    destruct (time_json (Timestamp r1)); simpl in V1; [|done].
    destruct (time_json (HbTimestamp h1)); simpl in V2; [|done]. rewrite <-V1 in V2. discriminate V2.
  - intros b' E2 E3.
    destruct (canonicalJSON_delivered _ _ _ (json_heartbeat_fits _) (json_heartbeat_fits _) E2 E3) as (w1 & w2 & V1 & V2 & Ew).
    apply delivered_json_heartbeat in V1, V2; [|done..]. rewrite Ew in V1.
    assert (delivered_heartbeat (set_HbSignature "" h1) = delivered_heartbeat (set_HbSignature "" h2)) as E
      by (by eapply json_heartbeat_inj).
    split; [exact E|]. intros U1 U2. rewrite !delivered_heartbeat_utf8 in E by done.
    destruct h1, h2. unfold set_HbSignature in *. cbn in *. by injection E as -> -> -> ->.
Qed.

(** ** Signing *)

Section signing.
Context `{Ed25519Laws}.

Definition key_of_seed (seed : list byte) : nodeKey :=
  mkNodeKey (NewKeyFromSeed seed).1 (NewKeyFromSeed seed).2.

Lemma sign_seed seed m :
  length seed = 32 →
  ∃ s, sign (key_of_seed seed) m = Ok s ∧ s ≠ "" ∧ verify (serverID (key_of_seed seed)) s m = Ok ().
Proof.
  intros Hl. unfold sign, key_of_seed, serverID. cbn [PrivateKey PublicKey].
  rewrite bool_decide_true by (by rewrite priv_length).
  eexists. split; [done|]. split.
  - apply EncodeToString_nonempty; [apply _|]. intros E.
    pose proof (sig_length (NewKeyFromSeed seed).2 m (priv_length seed Hl)) as Hs. by rewrite E in Hs.
  - unfold verify. rewrite !Decode_Encode by apply _.
    rewrite bool_decide_true by (by rewrite pub_length). by rewrite verify_sign.
Qed.

Lemma signRecord_verifies seed r :
  length seed = 32 → ServerID r = serverID (key_of_seed seed) →
  is_ok (canonicalJSON (json_record (set_Signature "" r))) = true →
  ∃ s, signRecord r (key_of_seed seed) = Ok (set_Signature s r) ∧ verifyRecord (set_Signature s r) = Ok ().
Proof.
  intros Hl Hid Hr. unfold signRecord, verifyRecord.
  cbn [set_Signature Signature ServerID Version WireGuardKey RecEndpoints RecCapabilities Timestamp].
  fold (set_Signature "" r).
  destruct (canonicalJSON (json_record (set_Signature "" r))) as [d|e|] eqn:E; try done.
  destruct (sign_seed seed d Hl) as (s & Es & Hne & Hv). exists s. cbn [mbind go_bind].
  rewrite Es. split; [done|]. rewrite bool_decide_false by done. unfold set_Signature in E |- *.
  cbn [Version ServerID WireGuardKey RecEndpoints RecCapabilities Timestamp]. rewrite E, Hid. exact Hv.
Qed.

Lemma signHeartbeat_verifies seed h :
  length seed = 32 → is_ok (canonicalJSON (json_heartbeat (set_HbSignature "" h))) = true →
  ∃ s, signHeartbeat h (key_of_seed seed) = Ok (set_HbSignature s h) ∧
       verifyHeartbeat (set_HbSignature s h) (serverID (key_of_seed seed)) = Ok ().
Proof.
  intros Hl Hh. unfold signHeartbeat, verifyHeartbeat.
  cbn [set_HbSignature HbSignature HbServerID HbTimestamp ActiveCircuits SIMPoolAvailable].
  fold (set_HbSignature "" h).
  destruct (canonicalJSON (json_heartbeat (set_HbSignature "" h))) as [d|e|] eqn:E; try done.
  destruct (sign_seed seed d Hl) as (s & Es & Hne & Hv). exists s. cbn [mbind go_bind].
  rewrite Es. split; [done|]. rewrite bool_decide_false by done. unfold set_HbSignature in E |- *.
  cbn [HbServerID HbTimestamp ActiveCircuits SIMPoolAvailable]. rewrite E. exact Hv.
Qed.

(** Marshalling a record fails only on a float or a time JSON cannot express. *)
Lemma canonical_record_ok r :
  is_ok (canonicalJSON (json_record r)) =
  bool_decide (is_Some (format_float (Uptime30d (RecCapabilities r)))) && in_json_range (Timestamp r).
Proof.
  unfold json_record, json_capabilities, time_json.
  destruct (format_float _); [|done]. simpl. by destruct (in_json_range (Timestamp r)).
Qed.

Lemma verifyRecord_marshals r : verifyRecord r = Ok () → is_ok (canonicalJSON (json_record (set_Signature "" r))) = true.
Proof. unfold verifyRecord. case_bool_decide; [done|]. by destruct (canonicalJSON _). Qed.

(** A verified server id decodes to a key of the right size. *)
Lemma verifyRecord_key r :
  verifyRecord r = Ok () → ∃ pub, DecodeString RawURLEncoding (ServerID r) = Some pub ∧ length pub = 32.
Proof.
  unfold verifyRecord. case_bool_decide; [done|]. destruct (canonicalJSON _); try done.
  cbn [mbind go_bind]. unfold verify. destruct (DecodeString RawURLEncoding _) as [pub|]; [|done].
  destruct (DecodeString StdEncoding _); [|done]. case_bool_decide as Hp; [|done]. eauto.
Qed.

(** C17: what a node signs its peers accept: a record that carries the node's
    server id and can be marshalled is signed without touching another field and
    verifies, and so does a heartbeat checked against the node's server id. *)
Theorem sign_then_verify seed r h :
  length seed = 32 → ServerID r = serverID (key_of_seed seed) →
  is_ok (canonicalJSON (json_record (set_Signature "" r))) = true →
  is_ok (canonicalJSON (json_heartbeat (set_HbSignature "" h))) = true →
  (∃ s, signRecord r (key_of_seed seed) = Ok (set_Signature s r) ∧ verifyRecord (set_Signature s r) = Ok ()) ∧
  (∃ s, signHeartbeat h (key_of_seed seed) = Ok (set_HbSignature s h) ∧
        verifyHeartbeat (set_HbSignature s h) (serverID (key_of_seed seed)) = Ok ()).
Proof. intros. split; [by apply signRecord_verifies|by apply signHeartbeat_verifies]. Qed.

(** A key pair that was written is read back. *)
Lemma key_file_read pk :
  utf8 (PkPublicKey pk) → utf8 (PkPrivateKey pk) →
  decode_config dec_key (mkPersistedKey "" "") (MarshalIndent (key_json pk)) = Ok pk.
Proof.
  intros Hp Hq. unfold decode_config, Unmarshal. rewrite read_MarshalIndent by done. unfold key_json.
  rewrite quoted_obj. cbn [quoted_members quoted]. unfold dec_key.
  cbn [struct dec_into dec_err struct_err check_fields existsb field fst snd PkPublicKey PkPrivateKey]. decode_fields.
  rewrite !dec_string_quoted by done. by destruct pk.
Qed.

(** C25: the identity survives a restart: the key pair generated on first start
    is the one every later start reads back from the bytes that were written to
    the file, it has the sizes signing and verification need, and its server id
    decodes to the public key. *)
Theorem key_persists ent ent' k written :
  loadOrGenerateKey ReadNotExist (Ok ()) (Ok ()) ent = (Ok (k, written), ent') →
  length (PublicKey k) = 32 ∧ length (PrivateKey k) = 64 ∧
  DecodeString RawURLEncoding (serverID k) = Some (PublicKey k) ∧
  ∃ data, written = Some data ∧
    ∀ mkdir write ent2, loadOrGenerateKey (ReadOk data) mkdir write ent2 = (Ok (k, None), ent2).
Proof.
  unfold loadOrGenerateKey, rand_Read. case_bool_decide as Hl; [|done].
  assert (length (take 32 ent ++ replicate (32 - length ent) x00) = 32) as Hs.
  { rewrite length_app, length_take, length_replicate. lia. }
  pose proof (pub_length _ Hs) as Hpub. pose proof (priv_length _ Hs) as Hpriv.
  destruct (NewKeyFromSeed _) as [pub priv]. cbn [fst snd mbind go_bind] in *. intros [= <- <- <-]. cbn [PublicKey PrivateKey].
  split_and!; [done..| |].
  - unfold serverID. cbn [PublicKey]. by rewrite Decode_Encode by apply _.
  - eexists. split; [done|]. intros mkdir write ent2. rewrite key_file_read by apply std_base64_utf8.
    cbn [mbind go_bind PkPublicKey PkPrivateKey]. by rewrite !Decode_Encode by apply _.
Qed.

(** When verification takes the process down. *)
Lemma verify_panics pk sg d :
  verify pk sg d = Panic ↔
  (∃ pub, DecodeString RawURLEncoding pk = Some pub ∧ length pub ≠ 32) ∧ is_Some (DecodeString StdEncoding sg).
Proof.
  unfold verify. destruct (DecodeString RawURLEncoding _) as [pub|]; [|split; [done|]; by intros [(? & ? & _) _]].
  destruct (DecodeString StdEncoding _) as [b|]; [|split; [done|]; by intros [_ [? ?]]].
  case_bool_decide as Hl; unfold PublicKeySize in Hl.
  - split; [by case_match|]. by intros [(? & [= <-] & ?) _].
  - split; [|done]. intros _. split; eauto.
Qed.

Lemma verifyRecord_panics r :
  verifyRecord r = Panic ↔
  Signature r ≠ "" ∧ is_ok (canonicalJSON (json_record (set_Signature "" r))) = true ∧
  (∃ pub, DecodeString RawURLEncoding (ServerID r) = Some pub ∧ length pub ≠ 32) ∧
  is_Some (DecodeString StdEncoding (Signature r)).
Proof.
  unfold verifyRecord. case_bool_decide as Hs; [split; [done|by intros [? _]]|]. unfold canonicalJSON.
  destruct (json_record _); cbn [mbind go_bind is_ok]; [|split; [done|by intros (_ & ? & _)]].
  rewrite verify_panics. tauto.
Qed.

Lemma verifyHeartbeat_panics h pk :
  verifyHeartbeat h pk = Panic ↔
  HbSignature h ≠ "" ∧ is_ok (canonicalJSON (json_heartbeat (set_HbSignature "" h))) = true ∧
  (∃ pub, DecodeString RawURLEncoding pk = Some pub ∧ length pub ≠ 32) ∧
  is_Some (DecodeString StdEncoding (HbSignature h)).
Proof.
  unfold verifyHeartbeat. case_bool_decide as Hs; [split; [done|by intros [? _]]|]. unfold canonicalJSON.
  destruct (json_heartbeat _); cbn [mbind go_bind is_ok]; [|split; [done|by intros (_ & ? & _)]].
  rewrite verify_panics. tauto.
Qed.

(** A record a node signed with its pair of keys verifies. *)
Lemma signed_verifies seed r :
  length seed = 32 → ServerID r = serverID (key_of_seed seed) → signRecord r (key_of_seed seed) = Ok r → verifyRecord r = Ok ().
Proof.
  intros Hl Hid E. destruct (signRecord_verifies seed r Hl Hid) as (s & Es & Hv).
  - unfold signRecord in E. by destruct (canonicalJSON _).
  - rewrite E in Es. injection Es as Es. by rewrite <-Es in Hv.
Qed.
End signing.

(** C24: the deduplication key identifies server and second: two records have
    the same key exactly when they carry the same server id and timestamps
    within the same second, whatever characters the server id contains; so two
    records of one server that differ in a fraction of a second only count as
    one, where the specification tells them apart by the timestamp. *)
Theorem recordKey_exact r1 r2 :
  representable (civil_of (unix_ns (Timestamp r1) / Second)) →
  representable (civil_of (unix_ns (Timestamp r2) / Second)) →
  recordKey r1 = recordKey r2 ↔
  ServerID r1 = ServerID r2 ∧ (unix_ns (Timestamp r1) / Second = unix_ns (Timestamp r2) / Second)%Z.
Proof.
  intros R1 R2. unfold recordKey. split.
  - rewrite <-!string_app_assoc. intros E. apply Format_UTC_suffix in E as [E Et]; [|done..].
    apply app_cancel_suffix in E as [E _]; done.
  - intros [-> Et]. unfold Format_RFC3339, local_second. cbn [UTC unix_ns offset_min]. by rewrite Et.
Qed.

(** ** Instances of the interfaces

    A signature scheme that satisfies the laws (and nothing more). *)

Definition digest (m : list byte) : list byte := take 32 (m ++ replicate 32 x00).

#[export] Instance toy_ed25519 : Ed25519 := {
  NewKeyFromSeed seed := (seed, seed ++ seed);
  ed25519_Sign priv m := take 32 priv ++ digest m;
  ed25519_Verify pub m sig := bool_decide (sig = pub ++ digest m)
}.

#[export] Instance toy_laws : Ed25519Laws.
Proof.
  assert (∀ m, length (digest m) = 32) as Hd.
  { intros m. unfold digest. rewrite length_take, length_app, length_replicate. lia. }
  split; simpl.
  - done.
  - intros seed Hs. rewrite length_app. lia.
  - intros priv m Hp. rewrite length_app, length_take, Hd. lia.
  - intros seed m Hs. apply bool_decide_eq_true. by rewrite take_app_length' by done.
Qed.

(** ** Witnesses *)

Definition seed_of (b : byte) : list byte := replicate 32 b.

Definition sample_caps : Capabilities :=
  mkCapabilities 0 (Some ["SE"]) None (float64_of_int 1) true 100.

(** The record a node with this seed announces. *)
Definition sample_record (b : byte) (ns : Z) : NodeRecord :=
  mkNodeRecord protocolVersion (serverID (key_of_seed (seed_of b))) "wg" (mkEndpoints "192.0.2.1:51820" "")
    sample_caps (mkTime ns 0) "".

Definition sample_heartbeat (b : byte) (ns : Z) : Heartbeat :=
  mkHeartbeat (serverID (key_of_seed (seed_of b))) (mkTime ns 0) 0 0 "".

Lemma signed_bytes_exact_witness :
  canonicalJSON (json_heartbeat (sample_heartbeat x01 0)) ≠ canonicalJSON (json_record (sample_record x01 0)).
Proof.
  destruct (canonicalJSON (json_record (sample_record x01 0))) as [b|e|] eqn:E.
  - apply (signed_bytes_exact (sample_record x01 0) (sample_record x01 0) (sample_heartbeat x01 0)
      (sample_heartbeat x01 0) b E).
  - exfalso. apply (f_equal is_ok) in E. vm_compute in E. discriminate E.
  - exfalso. apply (f_equal is_ok) in E. vm_compute in E. discriminate E.
Defined.

Lemma sign_then_verify_witness :
  ∃ s, signRecord (sample_record x01 0) (key_of_seed (seed_of x01)) = Ok (set_Signature s (sample_record x01 0)) ∧
       verifyRecord (set_Signature s (sample_record x01 0)) = Ok ().
Proof.
  apply (sign_then_verify (seed_of x01) (sample_record x01 0) (sample_heartbeat x01 0)); vm_compute; reflexivity.
Defined.

Lemma key_persists_witness :
  ∃ data, (loadOrGenerateKey ReadNotExist (Ok ()) (Ok ()) (seed_of x07)).1 = Ok (key_of_seed (seed_of x07), Some data) ∧
    loadOrGenerateKey (ReadOk data) (Ok ()) (Ok ()) [] = (Ok (key_of_seed (seed_of x07), None), []).
Proof.
  destruct (loadOrGenerateKey ReadNotExist (Ok ()) (Ok ()) (seed_of x07)) as [res ent'] eqn:E.
  assert (fst <$> res = Ok (key_of_seed (seed_of x07))) as Hr.
  { apply (f_equal (λ p, fst <$> p.1)) in E. cbn [fst] in E. rewrite <-E. vm_compute. reflexivity. }
  destruct res as [[k w]|e|]; try discriminate Hr. injection Hr as Hk. cbn [fst] in Hk. subst k.
  destruct (key_persists (seed_of x07) ent' _ _ E) as (_ & _ & _ & data & Hw & Hl).
  exists data. cbn [fst]. rewrite Hw. split; [reflexivity|apply Hl].
Defined.

Lemma recordKey_exact_witness :
  recordKey (sample_record x01 0) = recordKey (sample_record x01 999999999).
Proof.
  apply (proj2 (recordKey_exact (sample_record x01 0) (sample_record x01 999999999)
    ltac:(vm_compute; split; congruence) ltac:(vm_compute; split; congruence))).
  split; reflexivity.
Defined.
