(* ===== verification/GossipWire.v ===== *)
(** * Gossip messages on the wire (camo-gossip/record.go, server.go)

    The bytes of a message as [forwardRecord], [sendHeartbeat] and [announce]
    send them, and how [handleConn] decodes a line: the envelope, then the
    payload by its type.  A message that was sent is decoded as the same
    message. *)

From Stdlib Require Import ZArith Lia Ascii String Strings.Byte Floats.SpecFloat.
From stdpp Require Import base option list gmap strings pretty.
From S2P Require Import Prelude GoFloat GoText GoUtf8 GoBase64 GoTime GoJson GoJsonRead GoNumber GoTimeParse.
From S2P Require Import GoJsonDecode GoLines GoService GossipRecord.

(** ** Decoders *)

Definition zero_record : NodeRecord :=
  mkNodeRecord "" "" "" (mkEndpoints "" "") (mkCapabilities 0 None None (S754_zero false) false 0) zero_time "".
Definition zero_heartbeat : Heartbeat := mkHeartbeat "" zero_time 0 0 "".

Definition dec_endpoints : decoder Endpoints :=
  struct [field "wireguard" dec_string; field "gtp" dec_string] (λ e vs,
    mkEndpoints (get_field "wireguard" dec_string (EpWireGuard e) vs) (get_field "gtp" dec_string (EpGTP e) vs)).

Definition dec_capabilities : decoder Capabilities :=
  struct [field "sim_pool_size" dec_int; field "regions" dec_strings; field "jurisdictions" dec_strings;
          field "uptime_30d" dec_float64; field "exit_node" dec_bool; field "max_circuits" dec_int] (λ c vs,
    mkCapabilities (get_field "sim_pool_size" dec_int (SIMPoolSize c) vs)
      (get_field "regions" dec_strings (Regions c) vs) (get_field "jurisdictions" dec_strings (Jurisdictions c) vs)
      (get_field "uptime_30d" dec_float64 (Uptime30d c) vs) (get_field "exit_node" dec_bool (ExitNode c) vs)
      (get_field "max_circuits" dec_int (MaxCircuits c) vs)).

Definition dec_record : decoder NodeRecord :=
  struct [field "version" dec_string; field "server_id" dec_string; field "wireguard_pubkey" dec_string;
          field "endpoints" dec_endpoints; field "capabilities" dec_capabilities; field "timestamp" dec_time;
          field "signature" dec_string] (λ r vs,
    mkNodeRecord (get_field "version" dec_string (Version r) vs) (get_field "server_id" dec_string (ServerID r) vs)
      (get_field "wireguard_pubkey" dec_string (WireGuardKey r) vs)
      (get_field "endpoints" dec_endpoints (RecEndpoints r) vs)
      (get_field "capabilities" dec_capabilities (RecCapabilities r) vs)
      (get_field "timestamp" dec_time (Timestamp r) vs) (get_field "signature" dec_string (Signature r) vs)).

Definition dec_heartbeat : decoder Heartbeat :=
  struct [field "server_id" dec_string; field "timestamp" dec_time; field "active_circuits" dec_int;
          field "sim_pool_available" dec_int; field "signature" dec_string] (λ h vs,
    mkHeartbeat (get_field "server_id" dec_string (HbServerID h) vs) (get_field "timestamp" dec_time (HbTimestamp h) vs)
      (get_field "active_circuits" dec_int (ActiveCircuits h) vs)
      (get_field "sim_pool_available" dec_int (SIMPoolAvailable h) vs)
      (get_field "signature" dec_string (HbSignature h) vs)).

(** ** Messages *)

(** The envelope; the payload is the value its raw text stands for, absent when
    the field is. *)
Record Message := mkMessage { Type_ : string; Payload : option jval }.

(** A [json.RawMessage] takes any value, the last one given. *)
Definition dec_raw : decoder (option jval) := {|
  dec_err _ := false;
  dec_into x vs := match last vs with Some v => Some v | None => x end
|}.

Definition dec_message : decoder Message :=
  struct [field "type" dec_string; field "payload" dec_raw] (λ m vs,
    mkMessage (get_field "type" dec_string (Type_ m) vs) (get_field "payload" dec_raw (Payload m) vs)).

(** What a line carries. *)
Inductive message := MsgRecord (r : NodeRecord) | MsgHeartbeat (h : Heartbeat).

(** [json.Unmarshal(payload, &x)] on the raw payload; an absent payload is the
    empty text. *)
Definition decode_payload {A} (D : decoder A) (zero : A) (p : option jval) : option A :=
  match p with
  | None => None
  | Some v => if dec_err D v then None else Some (dec_into D zero [v])
  end.

(** What [handleConn] hands to a handler for a line; [None] when the line is
    only logged. *)
Definition parse_message (line : list ascii) : option message :=
  let '(msg, bad) := Unmarshal dec_message line (mkMessage "" None) in
  if bad then None
  else if bool_decide (Type_ msg = msgNodeRecord) then MsgRecord <$> decode_payload dec_record zero_record (Payload msg)
  else if bool_decide (Type_ msg = msgHeartbeat) then
    MsgHeartbeat <$> decode_payload dec_heartbeat zero_heartbeat (Payload msg)
  else None.

(** The envelope around a marshalled payload, and the line [sendLine] writes. *)
Definition message_json (m : message) : option jval :=
  match m with
  | MsgRecord r => (λ v, JObj [("type", JStr msgNodeRecord); ("payload", v)]) <$> json_record r
  | MsgHeartbeat h => (λ v, JObj [("type", JStr msgHeartbeat); ("payload", v)]) <$> json_heartbeat h
  end.

Definition message_line (m : message) : option (list ascii) := encode_line <$> message_json m.

(** ** Types *)

(** What a record of the running program is: its strings are UTF-8 and its
    integers have 64 bits. *)
Definition record_typed (r : NodeRecord) : Prop :=
  utf8 (Version r) ∧ utf8 (ServerID r) ∧ utf8 (WireGuardKey r) ∧ utf8 (Signature r) ∧
  utf8 (EpWireGuard (RecEndpoints r)) ∧ utf8 (EpGTP (RecEndpoints r)) ∧
  int64 (SIMPoolSize (RecCapabilities r)) ∧ int64 (MaxCircuits (RecCapabilities r)) ∧
  utf8_list (Regions (RecCapabilities r)) ∧ utf8_list (Jurisdictions (RecCapabilities r)) ∧
  is_finite (Uptime30d (RecCapabilities r)) = true.

Definition heartbeat_typed (h : Heartbeat) : Prop :=
  utf8 (HbServerID h) ∧ utf8 (HbSignature h) ∧ int64 (ActiveCircuits h) ∧ int64 (SIMPoolAvailable h).

Definition message_typed (m : message) : Prop :=
  match m with MsgRecord r => record_typed r | MsgHeartbeat h => heartbeat_typed h end.

(** ** Round trip *)

Lemma dec_strings_quoted l :
  utf8_list l →
  dec_into dec_strings None [quoted (json_strings l)] = l ∧ dec_err dec_strings (quoted (json_strings l)) = false.
Proof.
  destruct l as [l|]; [|done]. intros Hl. cbn [json_strings].
  assert (quoted (JArr (JStr <$> l)) = JArr (JStr ∘ quoted_string <$> l)) as ->.
  { change (quoted (JArr (JStr <$> l))) with (JArr (quoted_list (JStr <$> l))). by rewrite quoted_list_strings. }
  split.
  - destruct l as [|s l]; [done|]. unfold dec_strings, slice_into. cbn [dec_into foldl].
    unfold slice_step. rewrite fmap_cons. cbn [fst]. rewrite <-fmap_cons, fill_strings by done.
    cbn. f_equal. rewrite length_fmap. by rewrite firstn_all.
  - cbn. induction l as [|s l IH]; [done|]. apply Forall_cons in Hl as [_ Hl]. exact (IH Hl).
Qed.

Lemma decode_endpoints e :
  utf8 (EpWireGuard e) → utf8 (EpGTP e) →
  let v := quoted (JObj [("wireguard", JStr (EpWireGuard e)); ("gtp", JStr (EpGTP e))]) in
  dec_into dec_endpoints (mkEndpoints "" "") [v] = e ∧ dec_err dec_endpoints v = false.
Proof.
  intros H1 H2. cbv zeta. rewrite quoted_obj. cbn [quoted_members quoted]. split.
  - unfold dec_endpoints. cbn [struct dec_into EpWireGuard EpGTP]. decode_fields.
    rewrite !dec_string_quoted by done. by destruct e.
  - unfold dec_endpoints. cbn [struct dec_err struct_err check_fields existsb field fst snd]. decode_fields. done.
Qed.

Lemma decode_capabilities c v :
  int64 (SIMPoolSize c) → int64 (MaxCircuits c) → utf8_list (Regions c) → utf8_list (Jurisdictions c) →
  json_capabilities c = Some v →
  dec_into dec_capabilities (mkCapabilities 0 None None (S754_zero false) false 0) [quoted v] = c ∧
  dec_err dec_capabilities (quoted v) = false ∧ fits 2 v.
Proof.
  intros H1 H2 H3 H4. unfold json_capabilities. destruct (format_float (Uptime30d c)) as [u|] eqn:Eu; [|done].
  cbn [mbind option_bind]. intros [= <-].
  pose proof (dec_int_quoted _ 0 H1) as [Es Es']. pose proof (dec_int_quoted _ 0 H2) as [Em Em'].
  pose proof (dec_strings_quoted _ H3) as [Er Er']. pose proof (dec_strings_quoted _ H4) as [Ej Ej'].
  pose proof (dec_float_quoted _ _ (S754_zero false) Eu) as [Ef Ef'].
  rewrite quoted_obj. cbn [quoted_members]. split_and!.
  - unfold dec_capabilities.
    cbn [struct dec_into SIMPoolSize Regions Jurisdictions Uptime30d ExitNode MaxCircuits]. decode_fields.
    change (quoted (JNum u)) with (JNum u). change (quoted (json_int ?x)) with (json_int x).
    rewrite Er, Ej, Ef. change (quoted (json_int (SIMPoolSize c))) with (json_int (SIMPoolSize c)).
    change (quoted (json_int (MaxCircuits c))) with (json_int (MaxCircuits c)). rewrite Es, Em. by destruct c.
  - unfold dec_capabilities. cbn [struct dec_err struct_err check_fields existsb field fst snd]. decode_fields.
    cbn [existsb]. rewrite Er', Ej'. change (quoted (JNum u)) with (JNum u). rewrite Ef'.
    change (quoted (json_int (SIMPoolSize c))) with (json_int (SIMPoolSize c)).
    change (quoted (json_int (MaxCircuits c))) with (json_int (MaxCircuits c)). by rewrite Es', Em'.
  - cbn [fits]. split; [done|]. split_and!; try done; try (by apply json_int_number); try (by apply json_strings_fits).
    by eapply format_float_number.
Qed.

Lemma quoted_omitempty k s :
  quoted_members (omitempty k s) = if bool_decide (s = "") then [] else [(quoted_string k, JStr (quoted_string s))].
Proof. unfold omitempty. by case_bool_decide. Qed.

(** The signature field, written or omitted. *)
Lemma decode_signature s :
  utf8 s →
  let vs := occurrences "signature" (quoted_members (omitempty "signature" s)) in
  dec_into dec_string "" vs = s ∧ existsb (dec_err dec_string) vs = false.
Proof.
  intros Hs. cbv zeta. rewrite quoted_omitempty. case_bool_decide; [by subst|].
  rewrite occurrences_cons, occurrences_nil. eval_keys. cbn [existsb]. split; [by apply dec_string_quoted|done].
Qed.

Lemma occurrences_signature f s :
  key_matches f (quoted_string "signature") = false → occurrences f (quoted_members (omitempty "signature" s)) = [].
Proof.
  intros Hf. rewrite quoted_omitempty. case_bool_decide; [done|]. rewrite occurrences_cons, Hf. done.
Qed.

Lemma occurrences_app f l1 l2 : occurrences f (l1 ++ l2) = occurrences f l1 ++ occurrences f l2.
Proof. unfold occurrences. by rewrite omap_app. Qed.

Lemma signature_fits d s : d ≠ 0%N → fits d (JObj (omitempty "signature" s)).
Proof. intros Hd. apply fits_obj. split; [done|apply omitempty_fits]. Qed.

(** Drop the fields of a trailing optional signature. *)
Ltac decode_signed :=
  unfold get_field; rewrite ?members_single; cbn [members_of];
  rewrite ?quoted_members_app, ?occurrences_app; cbn [quoted_members];
  rewrite ?occurrences_cons, ?occurrences_nil; eval_keys;
  repeat match goal with
  | |- context [occurrences ?f (quoted_members (omitempty "signature" ?s))] =>
      rewrite (occurrences_signature f s) by (vm_compute; reflexivity)
  end; cbn [app].

Lemma decode_record r v :
  record_typed r → json_record r = Some v →
  dec_into dec_record zero_record [quoted v] = r ∧ dec_err dec_record (quoted v) = false ∧ fits 3 v.
Proof.
  intros (H1 & H2 & H3 & H4 & H5 & H6 & H7 & H8 & H9 & H10 & _). unfold json_record.
  destruct (json_capabilities (RecCapabilities r)) as [c|] eqn:Ec; [|done].
  destruct (time_json (Timestamp r)) as [t|] eqn:Et; [|done]. cbn [mbind option_bind]. intros [= <-].
  destruct (decode_capabilities _ _ H7 H8 H9 H10 Ec) as (Dc & Dc' & Fc).
  destruct (decode_endpoints (RecEndpoints r) H5 H6) as [De De']. cbv zeta in De, De'.
  destruct (dec_time_quoted _ _ zero_time Et) as [Dt Dt']. destruct (decode_signature _ H4) as [Ds Ds'].
  cbv zeta in Ds, Ds'. rewrite quoted_obj. split_and!.
  - unfold dec_record. cbn [struct dec_into zero_record Version ServerID WireGuardKey RecEndpoints RecCapabilities Timestamp Signature].
    decode_signed. cbn [quoted] in De |- *. rewrite !dec_string_quoted by done. rewrite Dc, Dt, Ds. rewrite De. by destruct r.
  - unfold dec_record. cbn [struct dec_err struct_err check_fields existsb field fst snd]. decode_signed.
    cbn [existsb]. rewrite De', Dc', Ds'. cbn [quoted]. by rewrite Dt'.
  - cbn [fits app]. split; [done|]. split_and!; try done. by apply signature_fits.
Qed.

Lemma decode_heartbeat h v :
  heartbeat_typed h → json_heartbeat h = Some v →
  dec_into dec_heartbeat zero_heartbeat [quoted v] = h ∧ dec_err dec_heartbeat (quoted v) = false ∧ fits 3 v.
Proof.
  intros (H1 & H2 & H3 & H4). unfold json_heartbeat.
  destruct (time_json (HbTimestamp h)) as [t|] eqn:Et; [|done]. cbn [mbind option_bind]. intros [= <-].
  destruct (dec_time_quoted _ _ zero_time Et) as [Dt Dt']. destruct (decode_signature _ H2) as [Ds Ds'].
  pose proof (dec_int_quoted _ 0 H3) as [Ea Ea']. pose proof (dec_int_quoted _ 0 H4) as [Ep Ep'].
  cbv zeta in Ds, Ds'. rewrite quoted_obj. split_and!.
  - unfold dec_heartbeat. cbn [struct dec_into zero_heartbeat HbServerID HbTimestamp ActiveCircuits SIMPoolAvailable HbSignature].
    decode_signed. unfold json_int in *. cbn [quoted]. rewrite !dec_string_quoted by done.
    rewrite Dt, Ds, Ea, Ep. by destruct h.
  - unfold dec_heartbeat. cbn [struct dec_err struct_err check_fields existsb field fst snd]. decode_signed.
    unfold json_int in *. cbn [existsb quoted]. by rewrite Dt', Ds', Ea', Ep'.
  - cbn [fits app]. split; [done|]. split_and!; try done; try (by apply json_int_number). by apply signature_fits.
Qed.

Lemma parse_envelope ty v :
  utf8 ty → fits 3 v →
  Unmarshal dec_message (marshal (JObj [("type", JStr ty); ("payload", v)])) (mkMessage "" None) =
  (mkMessage ty (Some (quoted v)), false).
Proof.
  intros Hty Hv. rewrite Unmarshal_marshal.
  - rewrite quoted_obj. cbn [quoted_members quoted]. f_equal.
    unfold dec_message. cbn [struct dec_into Type_ Payload]. decode_fields. by rewrite dec_string_quoted.
  - split; [done|]. split; [done|]. split; [by eapply fits_mono|done].
Qed.

Lemma message_fits m v : message_typed m → message_json m = Some v → fits max_depth v.
Proof.
  destruct m as [r|h]; intros Ht; cbn [message_json message_typed] in *.
  - destruct (json_record r) as [w|] eqn:E; [|done]. intros [= <-].
    destruct (decode_record _ _ Ht E) as (_ & _ & Hf). split; [done|]. split; [done|]. split; [by eapply fits_mono|done].
  - destruct (json_heartbeat h) as [w|] eqn:E; [|done]. intros [= <-].
    destruct (decode_heartbeat _ _ Ht E) as (_ & _ & Hf). split; [done|]. split; [done|]. split; [by eapply fits_mono|done].
Qed.

Lemma parse_marshal m v : message_typed m → message_json m = Some v → parse_message (marshal v) = Some m.
Proof.
  destruct m as [r|h]; intros Ht; cbn [message_json message_typed] in *.
  - destruct (json_record r) as [w|] eqn:E; [|done]. intros [= <-].
    destruct (decode_record _ _ Ht E) as (Hd & He & Hf). unfold parse_message. rewrite parse_envelope by done.
    cbn [Type_ Payload]. rewrite bool_decide_true by done. unfold decode_payload. by rewrite He, Hd.
  - destruct (json_heartbeat h) as [w|] eqn:E; [|done]. intros [= <-].
    destruct (decode_heartbeat _ _ Ht E) as (Hd & He & Hf). unfold parse_message. rewrite parse_envelope by done.
    cbn [Type_ Payload]. rewrite bool_decide_false, bool_decide_true by done. unfold decode_payload. by rewrite He, Hd.
Qed.

(** ** What a handler receives *)

Lemma dec_record_typed vs : record_typed (dec_into dec_record zero_record vs).
Proof.
  assert (int64 0) as H0 by done.
  unfold record_typed, dec_record, dec_endpoints, dec_capabilities, zero_record.
  cbn [struct dec_into Version ServerID WireGuardKey RecEndpoints RecCapabilities Timestamp Signature EpWireGuard EpGTP
       SIMPoolSize Regions Jurisdictions Uptime30d ExitNode MaxCircuits get_field].
  split_and!; try (by apply dec_string_utf8); try (by apply dec_int_int64); try (by apply dec_strings_utf8).
  by apply dec_float_finite.
Qed.

Lemma dec_heartbeat_typed vs : heartbeat_typed (dec_into dec_heartbeat zero_heartbeat vs).
Proof.
  assert (int64 0) as H0 by done. unfold heartbeat_typed, dec_heartbeat, zero_heartbeat.
  cbn [struct dec_into HbServerID HbTimestamp ActiveCircuits SIMPoolAvailable HbSignature].
  split_and!; try (by apply dec_string_utf8); by apply dec_int_int64.
Qed.

Lemma decode_payload_Some {A} (D : decoder A) zero p x :
  decode_payload D zero p = Some x → ∃ v, x = dec_into D zero [v].
Proof.
  unfold decode_payload. destruct p as [v|]; [|done]. destruct (dec_err D v); [done|].
  intros E. exists v. congruence.
Qed.

Lemma parse_message_typed line m : parse_message line = Some m → message_typed m.
Proof.
  unfold parse_message. destruct (Unmarshal _ _ _) as [msg bad]. destruct bad; [done|].
  repeat case_bool_decide; try done; intros (x & (v & Hx)%decode_payload_Some & ->)%fmap_Some; rewrite Hx.
  - apply dec_record_typed.
  - apply dec_heartbeat_typed.
Qed.

(** C9: what is sent is what arrives: the line a node writes for a record or a
    heartbeat, of at most 65535 bytes, is the first line the receiver scans,
    whatever follows it on the connection, and it is decoded as exactly the
    message that was sent, every field included. *)
Theorem message_roundtrip m line rest :
  message_typed m → message_line m = Some line → (N.of_nat (length line) <= 65536)%N →
  ∃ l ls, scan_lines (line ++ rest) = l :: ls ∧ parse_message l = Some m ∧ ls = scan_lines rest.
Proof.
  intros Ht Hl Hlen. unfold message_line in Hl. destruct (message_json m) as [v|] eqn:E; [|done].
  cbn in Hl. injection Hl as <-. pose proof (message_fits m v Ht E) as Hf.
  exists (marshal v), (scan_lines rest). rewrite scan_lines_encode; [|by eapply fits_wf|].
  - split_and!; [done| |done]. by apply parse_marshal.
  - unfold line_fits, max_line. unfold encode_line in Hlen. rewrite length_app in Hlen. cbn [length] in Hlen.
    apply N.leb_le. lia.
Qed.

(** Whatever bytes a peer sends, what reaches a handler is well typed: its
    strings are valid UTF-8, its integers fit 64 bits and its float is finite. *)
Theorem received_well_typed bytes m :
  m ∈ omap parse_message (scan_lines bytes) → message_typed m.
Proof. intros (l & _ & Hm)%list_elem_of_omap. by eapply parse_message_typed. Qed.

(** ** Witnesses *)

Definition sample_message : message := MsgRecord (set_Signature "c2ln" (sample_record x01 0)).

Definition sample_line : list ascii := default [] (message_line sample_message).

Lemma sample_typed : message_typed sample_message.
Proof.
  unfold sample_message, message_typed, record_typed.
  split_and!; first [vm_compute; reflexivity|split; vm_compute; discriminate|repeat constructor].
Qed.

Lemma message_roundtrip_witness :
  omap parse_message (scan_lines (sample_line ++ qt "{'type':'heartbeat'}")) = [sample_message].
Proof.
  destruct (message_roundtrip sample_message sample_line (qt "{'type':'heartbeat'}")) as (l & ls & -> & Hm & ->).
  - exact sample_typed.
  - vm_compute. reflexivity.
  - vm_compute. discriminate.
  - cbn [omap list_omap]. rewrite Hm. vm_compute. reflexivity.
Defined.

(** A peer repeats a key in another case, escapes a character, and sends a byte
    that is not UTF-8. *)
Definition odd_line : list ascii :=
  qt "{'TYPE':'node\u005frecord','payload':{'server_id':'a','SERVER_ID':'b\ud83d\ude00" ++ ["255"%char] ++
  qt "','capabilities':{'sim_pool_size':7,'regions':['x',null],'regions':[null,'y','z'],'uptime_30d':0.5}}}".

Lemma received_well_typed_witness :
  ∃ r, omap parse_message (scan_lines odd_line) = [MsgRecord r] ∧ record_typed r ∧
    Regions (RecCapabilities r) = Some ["x"; "y"; "z"].
Proof.
  eexists. split; [vm_compute; reflexivity|]. split; [|reflexivity].
  apply (received_well_typed odd_line (MsgRecord _)). vm_compute. left.
Defined.
