(* ===== verification/GossipStore.v ===== *)
(** * The gossip store and peer table (camo-gossip/store.go, peer.go)

    Records by server id with liveness, the set of deduplication keys, and the
    addresses of peers.  The store holds pointers: one record, the node's own,
    is written through another pointer while it is stored, so a stored pointer
    says whether it is that one. *)

From Stdlib Require Import ZArith Lia Ascii String Strings.Byte.
From stdpp Require Import base option list gmap strings pretty fin_maps.
From S2P Require Import Prelude GoText GoTime GossipRecord.
Local Open Scope Z_scope.

(** ** Data *)

Definition recordExpiry : Z := 24 * Hour.
Definition livenessTimeout : Z := 300 * Second.

(** A [*NodeRecord]: the record that [main] shares with the broadcaster and the
    API server, or one that only the store refers to. *)
Inductive ptr := Own | Fresh (r : NodeRecord).

(** What a pointer refers to when the shared record is [own]. *)
Definition deref (own : NodeRecord) (p : ptr) : NodeRecord :=
  match p with Own => own | Fresh r => r end.

Record entry := mkEntry {
  EntryRecord : ptr;
  LastSeen : Z;
  Active : bool
}.

Record store := mkStore {
  records : gmap string entry;
  seen : gmap string bool
}.

(** ** Store operations *)

Definition newStore : store := mkStore ∅ ∅.

Definition isSeen (key : string) (s : store) : bool := default false (seen s !! key).

Definition put (own : NodeRecord) (now : Z) (p : ptr) (s : store) : bool * store :=
  let r := deref own p in
  let key := recordKey r in
  if default false (seen s !! key) then (false, s)
  else (true, mkStore (<[ServerID r := mkEntry p now true]> (records s)) (<[key := true]> (seen s))).

Definition heartbeat (now : Z) (id : string) (s : store) : store :=
  match records s !! id with
  | Some e => mkStore (<[id := mkEntry (EntryRecord e) now true]> (records s)) (seen s)
  | None => s
  end.

Definition get (id : string) (s : store) : option ptr := EntryRecord <$> records s !! id.

(** The loops visit the map in the order [it]. *)
Definition activeRecords (it : list string) (s : store) : list ptr :=
  EntryRecord <$> filter (λ e, Active e = true) (range_values (records s) it).

Definition allRecords (it : list string) (s : store) : list ptr :=
  EntryRecord <$> range_values (records s) it.

(** The body of the maintenance loop for one entry: [None] deletes it. *)
Definition expire_one (own : NodeRecord) (now : Z) (e : entry) : option entry :=
  let age := time_Sub now (unix_ns (Timestamp (deref own (EntryRecord e)))) in
  if bool_decide (recordExpiry < age) then None
  else if bool_decide (livenessTimeout < time_Sub now (LastSeen e))
  then Some (mkEntry (EntryRecord e) (LastSeen e) false)
  else Some e.

Definition expireAndCheck (own : NodeRecord) (now : Z) (it : list string) (s : store) : store :=
  mkStore (foldl (λ m id, partial_alter (λ o, o ≫= expire_one own now) id m) (records s) it) (seen s).

(** ** Peers *)

Record peer := mkPeer { Addr : string; PeerLastSeen : Z; PeerActive : bool }.

Abbreviation peerManager := (gmap string peer).

Definition newPeerManager (now : Z) (bootstrapAddrs : list string) : peerManager :=
  foldl (λ pm addr, <[addr := mkPeer addr now true]> pm) ∅ bootstrapAddrs.

Definition add (now : Z) (addr : string) (pm : peerManager) : peerManager :=
  match pm !! addr with Some _ => pm | None => <[addr := mkPeer addr now true]> pm end.

Definition peer_seen (now : Z) (addr : string) (pm : peerManager) : peerManager :=
  match pm !! addr with Some p => <[addr := mkPeer (Addr p) now true]> pm | None => pm end.

Definition activeAddrs (it : list string) (pm : peerManager) : list string :=
  filter (λ addr, sat PeerActive (pm !! addr) = true) it.

Definition allAddrs (it : list string) (pm : peerManager) : list string := it.

(** ** Lemmas *)

Lemma time_Sub_gt t u d : 0 ≤ d < max_int64 → d < time_Sub t u ↔ d < t - u.
Proof. unfold time_Sub, max_int64, min_int64. lia. Qed.

Lemma foldl_partial_alter {A} (f : A → option A) ks (m : gmap string A) j :
  NoDup ks →
  foldl (λ m k, partial_alter (λ o, o ≫= f) k m) m ks !! j =
  (if decide (j ∈ ks) then m !! j ≫= f else m !! j).
Proof.
  revert m. induction ks as [|k ks IH]; intros m Hnd; cbn [foldl].
  { by rewrite decide_False by apply not_elem_of_nil. }
  apply NoDup_cons in Hnd as [Hk Hnd]. rewrite IH by done.
  destruct (decide (k = j)) as [->|Hkj].
  - rewrite decide_False by done. rewrite decide_True by left. by rewrite lookup_partial_alter_eq.
  - rewrite lookup_partial_alter_ne by done.
    destruct (decide (j ∈ ks)), (decide (j ∈ k :: ks)) as [Hj|Hj]; try done.
    + exfalso. apply Hj. by right.
    + apply elem_of_cons in Hj. intuition congruence.
Qed.

(** The maintenance pass treats every entry by itself, in any order. *)
Lemma expireAndCheck_lookup own now it s id :
  range_of (records s) it →
  records (expireAndCheck own now it s) !! id = records s !! id ≫= expire_one own now.
Proof.
  intros Hit. simpl. rewrite foldl_partial_alter by (by eapply range_of_NoDup).
  destruct (decide (id ∈ it)) as [Hi|Hi]; [done|].
  destruct (records s !! id) eqn:E; [|done]. destruct Hi. apply (range_of_elem (records s) it id Hit). eauto.
Qed.

Lemma expire_one_spec own now e :
  (recordExpiry < now - unix_ns (Timestamp (deref own (EntryRecord e))) → expire_one own now e = None) ∧
  (now - unix_ns (Timestamp (deref own (EntryRecord e))) ≤ recordExpiry →
   expire_one own now e =
     Some (mkEntry (EntryRecord e) (LastSeen e)
             (Active e && bool_decide (now - LastSeen e ≤ livenessTimeout)))).
Proof.
  unfold expire_one. split; intros Ha.
  - rewrite bool_decide_true; [done|]. apply time_Sub_gt; [done|lia].
  - rewrite bool_decide_false; [|rewrite time_Sub_gt by done; lia].
    destruct (decide (livenessTimeout < now - LastSeen e)) as [Hl|Hl].
    + rewrite bool_decide_true by (by apply time_Sub_gt).
      by rewrite (bool_decide_false (now - LastSeen e ≤ livenessTimeout)), andb_false_r by lia.
    + rewrite bool_decide_false by (rewrite time_Sub_gt; [lia|done]).
      rewrite (bool_decide_true (now - LastSeen e ≤ livenessTimeout)) by lia. rewrite andb_true_r. by destruct e.
Qed.

Lemma put_seen own now p s key : isSeen key s = true → isSeen key (put own now p s).2 = true.
Proof.
  unfold put, isSeen. destruct (default false (seen s !! recordKey (deref own p))); [done|]. simpl.
  rewrite lookup_insert. by case_decide.
Qed.

(** ** Properties *)

(** C18: one maintenance pass over the store, in any visiting order, removes
    exactly the records older than 24 hours, marks inactive exactly the entries
    not heard of for more than 300 seconds, leaves record and time of last
    contact of every kept entry alone and never forgets a deduplication key. *)
Theorem expireAndCheck_exact own now it s :
  range_of (records s) it →
  seen (expireAndCheck own now it s) = seen s ∧
  ∀ id, match records s !! id with
        | None => records (expireAndCheck own now it s) !! id = None
        | Some e =>
            let age := now - unix_ns (Timestamp (deref own (EntryRecord e))) in
            (86400 * Second < age → records (expireAndCheck own now it s) !! id = None) ∧
            (age ≤ 86400 * Second →
             records (expireAndCheck own now it s) !! id =
               Some (mkEntry (EntryRecord e) (LastSeen e)
                       (Active e && bool_decide (now - LastSeen e ≤ 300 * Second))))
        end.
Proof.
  intros Hit. split; [done|]. intros id. rewrite expireAndCheck_lookup by done.
  destruct (records s !! id) as [e|]; [|done]. apply expire_one_spec.
Qed.

(** A record is stored whatever its age relative to the stored one: of two
    unseen records of one server, the one that arrives last is what [get]
    returns and counts as active, also when its timestamp is the older one. *)
Theorem put_ignores_age own now1 now2 (r1 r2 : NodeRecord) s :
  ServerID r1 = ServerID r2 → recordKey r1 ≠ recordKey r2 →
  isSeen (recordKey r1) s = false → isSeen (recordKey r2) s = false →
  (put own now1 (Fresh r1) s).1 = true ∧
  (put own now2 (Fresh r2) (put own now1 (Fresh r1) s).2).1 = true ∧
  records (put own now2 (Fresh r2) (put own now1 (Fresh r1) s).2).2 !! ServerID r1
    = Some (mkEntry (Fresh r2) now2 true).
Proof.
  unfold put, isSeen. intros Hid Hne H1 H2. cbn [deref]. rewrite H1. cbn [fst snd seen records].
  rewrite lookup_insert_ne by done. rewrite H2. cbn [fst snd records].
  split_and!; [done..|]. rewrite Hid. by rewrite lookup_insert_eq.
Qed.

(** A heartbeat restores a known node: it is active again with the new time
    of last contact and its record unchanged, a pass within 300 seconds keeps it
    so while the record is younger than 24 hours, and no other entry changes. *)
Theorem heartbeat_restores own now now' it id e s :
  records s !! id = Some e →
  range_of (records (heartbeat now id s)) it →
  now' - now ≤ livenessTimeout → now' - unix_ns (Timestamp (deref own (EntryRecord e))) ≤ recordExpiry →
  records (heartbeat now id s) !! id = Some (mkEntry (EntryRecord e) now true) ∧
  records (expireAndCheck own now' it (heartbeat now id s)) !! id = Some (mkEntry (EntryRecord e) now true) ∧
  ∀ id', id' ≠ id → records (heartbeat now id s) !! id' = records s !! id'.
Proof.
  intros He Hit Hl Ha.
  assert (records (heartbeat now id s) !! id = Some (mkEntry (EntryRecord e) now true)) as Hh.
  { unfold heartbeat. rewrite He. simpl. by rewrite lookup_insert_eq. }
  split_and!; [done| |].
  - rewrite expireAndCheck_lookup by done. rewrite Hh. simpl.
    rewrite (proj2 (expire_one_spec own now' (mkEntry (EntryRecord e) now true))) by done. simpl.
    by rewrite bool_decide_true.
  - intros id' Hne. unfold heartbeat. rewrite He. simpl. by rewrite lookup_insert_ne.
Qed.

(** ** Witnesses *)

Definition own_record : NodeRecord := sample_record xee 0.

(** A store that holds the record of node 01 made at second [t]. *)
Definition one_record (t : Z) : store := (put own_record (t * Second) (Fresh (sample_record x01 (t * Second))) newStore).2.

Definition id01 : string := ServerID (sample_record x01 0).

Lemma expireAndCheck_exact_witness :
  records (expireAndCheck own_record (86401 * Second) [id01] (one_record 0)) !! id01 = None.
Proof.
  destruct (expireAndCheck_exact own_record (86401 * Second) [id01] (one_record 0)) as [_ H].
  - unfold range_of. vm_compute. apply Permutation_refl.
  - specialize (H id01). assert (records (one_record 0) !! id01 = Some (mkEntry (Fresh (sample_record x01 0)) 0 true))
      as E by (vm_compute; reflexivity).
    rewrite E in H. apply H. vm_compute. reflexivity.
Defined.

Lemma put_ignores_age_witness :
  records (put own_record 9 (Fresh (sample_record x01 (1 * Second)))
    (put own_record 8 (Fresh (sample_record x01 (5 * Second))) newStore).2).2 !! id01
  = Some (mkEntry (Fresh (sample_record x01 (1 * Second))) 9 true).
Proof.
  apply (put_ignores_age own_record 8 9 (sample_record x01 (5 * Second)) (sample_record x01 (1 * Second)) newStore);
    [reflexivity|vm_compute; discriminate|reflexivity|reflexivity].
Defined.

Lemma heartbeat_restores_witness :
  records (expireAndCheck own_record (900 * Second) [id01] (heartbeat (800 * Second) id01 (one_record 0))) !! id01
  = Some (mkEntry (Fresh (sample_record x01 0)) (800 * Second) true).
Proof.
  apply (heartbeat_restores own_record (800 * Second) (900 * Second) [id01] id01
    (mkEntry (Fresh (sample_record x01 0)) 0 true) (one_record 0)).
  - vm_compute. reflexivity.
  - unfold range_of. vm_compute. apply Permutation_refl.
  - vm_compute. discriminate.
  - vm_compute. discriminate.
Defined.
