(* ===== verification/GossipServer.v ===== *)
(** * The gossip agent (camo-gossip/server.go, heartbeat.go, api.go, main.go, config.go)

    The handlers of inbound messages, the broadcaster, the query API and the
    process [main] starts.  A record handler is split where another goroutine
    can run: after its deduplication test and before it stores; forwarding is a
    goroutine of its own.  An announcement writes to the record that the query
    API answers with and takes no lock, so each of its writes is an event of its
    own.  Every theorem about the process holds for every sequence of events. *)

From Stdlib Require Import ZArith Lia Ascii String Strings.Byte.
From stdpp Require Import base option list gmap strings pretty fin_maps.
From S2P Require Import Prelude GoFloat GoText GoBase64 GoTime GoJson GoJsonRead GoNumber GoJsonDecode GoService.
From S2P Require Import GossipRecord GossipWire GossipStore.
Local Open Scope Z_scope.

(** ** Configuration *)

Record config := mkConfig {
  ListenAddr : string;
  WireGuardAddr : string;
  GTPAddr : string;
  BootstrapPeers : list string;
  DataDir : string;
  CfgRegions : option (list string);
  CfgJurisdictions : option (list string);
  CfgExitNode : bool;
  CfgMaxCircuits : Z;
  WireGuardPubKey : string
}.

Definition defaultConfig : config :=
  mkConfig "0.0.0.0:7946" "" "" [] "/var/lib/camo" None None false 100 "".

(** A list of peers that is nil and one that is empty are not told apart: it is
    only ranged over. *)
Definition dec_config : decoder config :=
  struct [field "listen_addr" dec_string; field "wireguard_addr" dec_string; field "gtp_addr" dec_string;
          field "bootstrap_peers" dec_strings; field "data_dir" dec_string; field "regions" dec_strings;
          field "jurisdictions" dec_strings; field "exit_node" dec_bool; field "max_circuits" dec_int;
          field "wireguard_pubkey" dec_string] (λ c vs,
    mkConfig (get_field "listen_addr" dec_string (ListenAddr c) vs)
      (get_field "wireguard_addr" dec_string (WireGuardAddr c) vs) (get_field "gtp_addr" dec_string (GTPAddr c) vs)
      (default [] (get_field "bootstrap_peers" dec_strings None vs)) (get_field "data_dir" dec_string (DataDir c) vs)
      (get_field "regions" dec_strings (CfgRegions c) vs) (get_field "jurisdictions" dec_strings (CfgJurisdictions c) vs)
      (get_field "exit_node" dec_bool (CfgExitNode c) vs) (get_field "max_circuits" dec_int (CfgMaxCircuits c) vs)
      (get_field "wireguard_pubkey" dec_string (WireGuardPubKey c) vs)).

(** [loadConfig] on what [os.ReadFile] returned. *)
Definition loadConfig (file : read_result) : go config := load_required dec_config defaultConfig file.

(** ** Messages *)

Definition heartbeatInterval : Z := 60 * Second.
Definition expiryCheckInterval : Z := 60 * Second.
Definition announceInterval : Z := 6 * Hour.

(** ** State *)

(** Where the broadcaster's goroutine is in [announce]: not in it, or after it
    has written the timestamp, cleared the signature, or set the new one. *)
Inductive announce_phase := Idle | Stamped | Cleared | Signed.

#[export] Instance announce_phase_eq_dec : EqDecision announce_phase.
Proof. solve_decision. Defined.

(** The process: the record shared by [main], the broadcaster and the API; the
    store and the peers; the handlers that passed the deduplication test and
    have yet to store, with the sender; the forwarding goroutines that have yet
    to run; two histories, of forwarded and of broadcast lines; and the position
    of the broadcaster. *)
Record node := mkNode {
  n_own : NodeRecord;
  n_store : store;
  n_peers : peerManager;
  n_checked : list (NodeRecord * string);
  n_forwards : list (NodeRecord * string);
  n_forwarded : list (string * NodeRecord * string);
  n_broadcast : list (string * message);
  n_phase : announce_phase
}.

Section agent.
Context `{Ed25519} (key : nodeKey).

(** ** Handlers *)

(** [handleNodeRecord] up to its deduplication test: whether to go on. *)
Definition check_record (r : NodeRecord) (s : store) : go bool :=
  if bool_decide (ServerID r = serverID key) then Ok false
  else
    match verifyRecord r with
    | Err _ => Ok false
    | Panic => Panic
    | Ok _ => Ok (negb (isSeen (recordKey r) s))
    end.

(** [handleNodeRecord] from there: store, and forward when it was stored. *)
Definition store_record (now : Z) (r : NodeRecord) (fromAddr : string) (n : node) : node :=
  let '(fresh, s') := put (n_own n) now (Fresh r) (n_store n) in
  mkNode (n_own n) s' (n_peers n) (n_checked n)
    (if fresh then n_forwards n ++ [(r, fromAddr)] else n_forwards n) (n_forwarded n) (n_broadcast n)
    (n_phase n).

Definition handleHeartbeat (now : Z) (h : Heartbeat) (fromAddr : string) (n : node) : go node :=
  match get (HbServerID h) (n_store n) with
  | None => Ok n
  | Some p =>
      match verifyHeartbeat h (ServerID (deref (n_own n) p)) with
      | Err _ => Ok n
      | Panic => Panic
      | Ok _ =>
          Ok (mkNode (n_own n) (heartbeat now (HbServerID h) (n_store n)) (peer_seen now fromAddr (n_peers n))
                (n_checked n) (n_forwards n) (n_forwarded n) (n_broadcast n) (n_phase n))
      end
  end.

(** [forwardRecord]: the lines it sends; nothing when the record cannot be
    marshalled. *)
Definition forwardRecord (r : NodeRecord) (excludeAddr : string) (it : list string) (pm : peerManager)
    : list (string * NodeRecord * string) :=
  if is_ok (canonicalJSON (json_record r)) then
    (λ addr, (addr, r, excludeAddr)) <$> filter (λ addr, addr ≠ excludeAddr) (activeAddrs it pm)
  else [].

(** ** Broadcaster *)

Definition sendHeartbeat (now : Z) (it : list string) (n : node) : go node :=
  match signHeartbeat (mkHeartbeat (serverID key) (mkTime now 0) 0 0 "") key with
  | Err _ => Ok n
  | Panic => Panic
  | Ok h =>
      Ok (mkNode (n_own n) (n_store n) (n_peers n) (n_checked n) (n_forwards n) (n_forwarded n)
            (n_broadcast n ++ ((λ addr, (addr, MsgHeartbeat h)) <$> activeAddrs it (n_peers n))) (n_phase n))
  end.

(** The own record and the position of the broadcaster change together. *)
Definition set_own (r : NodeRecord) (ph : announce_phase) (n : node) : node :=
  mkNode r (n_store n) (n_peers n) (n_checked n) (n_forwards n) (n_forwarded n) (n_broadcast n) ph.

(** [announce], one write to the shared record at a time: the timestamp, then in
    [signRecord] the cleared and the new signature (when the record cannot be
    marshalled it stays without one and the announcement ends), then the lines. *)
Definition announce_stamp (now : Z) (n : node) : go node :=
  Ok (set_own (set_Timestamp (mkTime now 0) (n_own n)) Stamped n).

Definition announce_clear (n : node) : go node := Ok (set_own (set_Signature "" (n_own n)) Cleared n).

Definition announce_sign (n : node) : go node :=
  match canonicalJSON (json_record (n_own n)) with
  | Err _ => Ok (set_own (n_own n) Idle n)
  | Panic => Panic
  | Ok data => s ← sign key data; Ok (set_own (set_Signature s (n_own n)) Signed n)
  end.

Definition announce_send (it : list string) (n : node) : go node :=
  if is_ok (canonicalJSON (json_record (n_own n))) then
    Ok (mkNode (n_own n) (n_store n) (n_peers n) (n_checked n) (n_forwards n) (n_forwarded n)
          (n_broadcast n ++ ((λ addr, (addr, MsgRecord (n_own n))) <$> activeAddrs it (n_peers n))) Idle)
  else Ok (set_own (n_own n) Idle n).

(** ** The process *)

Inductive event :=
| EvConn (now : Z) (addr : string)                       (* a peer connects *)
| EvRecord (r : NodeRecord) (fromAddr : string)          (* a record is checked *)
| EvPut (now : Z) (i : nat)                              (* a checked record is stored *)
| EvForward (i : nat) (it : list string)                 (* a forwarding goroutine runs *)
| EvHeartbeat (now : Z) (h : Heartbeat) (fromAddr : string)
| EvTick (now : Z) (it : list string)                    (* heartbeat ticker *)
| EvExpire (now : Z) (it : list string)                  (* expiry ticker *)
| EvStamp (now : Z)                                      (* announce ticker: the timestamp, *)
| EvClear                                                (* the old signature, *)
| EvSign                                                 (* the new one, *)
| EvAnnounce (it : list string).                         (* and the lines *)

(** One event; [Panic] is the death of the process. *)
Definition exec (ev : event) (n : node) : go node :=
  match ev with
  | EvConn now addr =>
      Ok (mkNode (n_own n) (n_store n) (peer_seen now addr (add now addr (n_peers n))) (n_checked n)
            (n_forwards n) (n_forwarded n) (n_broadcast n) (n_phase n))
  | EvRecord r fromAddr =>
      match check_record r (n_store n) with
      | Ok true =>
          Ok (mkNode (n_own n) (n_store n) (n_peers n) (n_checked n ++ [(r, fromAddr)]) (n_forwards n)
                (n_forwarded n) (n_broadcast n) (n_phase n))
      | Ok false => Ok n
      | Err e => Err e
      | Panic => Panic
      end
  | EvPut now i =>
      match n_checked n !! i with
      | None => Ok n
      | Some (r, fromAddr) =>
          Ok (store_record now r fromAddr
                (mkNode (n_own n) (n_store n) (n_peers n) (delete i (n_checked n)) (n_forwards n)
                   (n_forwarded n) (n_broadcast n) (n_phase n)))
      end
  | EvForward i it =>
      match n_forwards n !! i with
      | None => Ok n
      | Some (r, fromAddr) =>
          Ok (mkNode (n_own n) (n_store n) (n_peers n) (n_checked n) (delete i (n_forwards n))
                (n_forwarded n ++ forwardRecord r fromAddr it (n_peers n)) (n_broadcast n) (n_phase n))
      end
  | EvHeartbeat now h fromAddr => handleHeartbeat now h fromAddr n
  | EvTick now it => sendHeartbeat now it n
  | EvExpire now it =>
      Ok (mkNode (n_own n) (expireAndCheck (n_own n) now it (n_store n)) (n_peers n) (n_checked n)
            (n_forwards n) (n_forwarded n) (n_broadcast n) (n_phase n))
  | EvStamp now => announce_stamp now n
  | EvClear => announce_clear n
  | EvSign => announce_sign n
  | EvAnnounce it => announce_send it n
  end.

(** The orders of the loops are orders of the maps, the broadcaster's goroutine
    does one thing after another, and announcements happen in the years JSON can
    express. *)
Definition enabled (ev : event) (n : node) : Prop :=
  match ev with
  | EvForward _ it => range_of (n_peers n) it
  | EvTick _ it => n_phase n = Idle ∧ range_of (n_peers n) it
  | EvExpire _ it => n_phase n = Idle ∧ range_of (records (n_store n)) it
  | EvStamp now => n_phase n = Idle ∧ in_json_range (mkTime now 0) = true
  | EvClear => n_phase n = Stamped
  | EvSign => n_phase n = Cleared
  | EvAnnounce it => n_phase n = Signed ∧ range_of (n_peers n) it
  | _ => True
  end.

Inductive run : node → list event → node → Prop :=
| run_nil n : run n [] n
| run_cons n ev n1 evs n2 : enabled ev n → exec ev n = Ok n1 → run n1 evs n2 → run n (ev :: evs) n2.

(** ** Start-up *)

Definition own_of (cfg : config) (now : Z) : NodeRecord :=
  mkNodeRecord protocolVersion (serverID key) (WireGuardPubKey cfg)
    (mkEndpoints (WireGuardAddr cfg) (GTPAddr cfg))
    (mkCapabilities 0 (CfgRegions cfg) (CfgJurisdictions cfg) (float64_of_int 1) (CfgExitNode cfg) (CfgMaxCircuits cfg))
    (mkTime now 0) "".

(** [main] until the goroutines start: the signed own record is stored and
    announced to the bootstrap peers. *)
Definition start (cfg : config) (now : Z) : go node :=
  own ← signRecord (own_of cfg now) key;
  Ok (mkNode own (put own now Own newStore).2 (newPeerManager now (BootstrapPeers cfg)) [] [] []
        ((λ addr, (addr, MsgRecord own)) <$> BootstrapPeers cfg) Idle).
End agent.

(** ** The query API *)

Record apiRequest := mkApiRequest { Command : string; ReqServerID : string }.

Record apiResponse := mkApiResponse {
  Status : string;
  RespCommand : string;
  RespRecords : list NodeRecord;
  RespRecord : option NodeRecord;
  RespMessage : string
}.

Definition cmdListPeers : string := "list_peers".
Definition cmdGetNode : string := "get_node".
Definition cmdNodeInfo : string := "node_info".

(** The answer to one line; [None] is a line [json.Unmarshal] refuses. *)
Definition handleRequest (it : list string) (req : option apiRequest) (n : node) : apiResponse :=
  match req with
  | None => mkApiResponse "error" "" [] None "invalid request"
  | Some r =>
      if bool_decide (Command r = cmdListPeers) then
        mkApiResponse "ok" cmdListPeers (deref (n_own n) <$> activeRecords it (n_store n)) None ""
      else if bool_decide (Command r = cmdGetNode) then
        match get (ReqServerID r) (n_store n) with
        | None => mkApiResponse "error" cmdGetNode [] None "not found"
        | Some p => mkApiResponse "ok" cmdGetNode [] (Some (deref (n_own n) p)) ""
        end
      else if bool_decide (Command r = cmdNodeInfo) then
        mkApiResponse "ok" cmdNodeInfo [] (Some (n_own n)) ""
      else mkApiResponse "error" (Command r) [] None "unknown command"
  end.

(** ** Invariants *)

(** No announcement is between its first write and its signature. *)
Definition settled (n : node) : Prop := n_phase n = Idle ∨ n_phase n = Signed.

Section invariants.
Context `{Ed25519} (key : nodeKey).

(** An entry under [id]: the own record under the own id, or a verified record
    of another server whose deduplication key is known. *)
Definition entry_ok (s : store) (id : string) (e : entry) : Prop :=
  match EntryRecord e with
  | Own => id = serverID key
  | Fresh r => ServerID r = id ∧ id ≠ serverID key ∧ verifyRecord r = Ok () ∧ isSeen (recordKey r) s = true
  end.

(** The own record can be marshalled at any time, and carries its signature
    whenever no announcement is under way. *)
Record authentic (n : node) : Prop := {
  auth_key : length (PrivateKey key) = PrivateKeySize;
  auth_own_id : ServerID (n_own n) = serverID key;
  auth_marshals : is_ok (canonicalJSON (json_record (n_own n))) = true;
  auth_cleared : n_phase n = Cleared → Signature (n_own n) = "";
  auth_own : settled n → signRecord (n_own n) key = Ok (n_own n);
  auth_entries : ∀ id e, records (n_store n) !! id = Some e → entry_ok (n_store n) id e;
  auth_checked : ∀ r from, (r, from) ∈ n_checked n → verifyRecord r = Ok () ∧ ServerID r ≠ serverID key
}.

Definition fkeys (l : list (NodeRecord * string)) : list string := (λ p, recordKey p.1) <$> l.
Definition sent_keys (l : list (string * NodeRecord * string)) : list (string * string) :=
  (λ p, (p.1.1, recordKey p.1.2)) <$> l.

(** Each key has at most one forwarding goroutine, waiting or done, and it sent
    the record at most once to each address, never to the sender. *)
Record forwarding (n : node) : Prop := {
  fwd_nodup : NoDup (fkeys (n_forwards n));
  fwd_seen : ∀ k, k ∈ fkeys (n_forwards n) → isSeen k (n_store n) = true;
  fwd_sent_nodup : NoDup (sent_keys (n_forwarded n));
  fwd_sent : ∀ addr r from, (addr, r, from) ∈ n_forwarded n →
    addr ≠ from ∧ isSeen (recordKey r) (n_store n) = true ∧ recordKey r ∉ fkeys (n_forwards n)
}.

Definition peers_ok (pm : peerManager) : Prop :=
  ∀ addr p, pm !! addr = Some p → Addr p = addr ∧ PeerActive p = true.

(** ** Authenticity *)

Lemma entry_ok_seen s s' id e :
  (∀ k, isSeen k s = true → isSeen k s' = true) → entry_ok s id e → entry_ok s' id e.
Proof. unfold entry_ok. intros Hs. destruct (EntryRecord e); [done|]. intros (? & ? & ? & ?). auto. Qed.

Lemma put_Fresh_cases own now r s :
  (isSeen (recordKey r) s = true ∧ put own now (Fresh r) s = (false, s)) ∨
  (isSeen (recordKey r) s = false ∧
   put own now (Fresh r) s =
     (true, mkStore (<[ServerID r := mkEntry (Fresh r) now true]> (records s)) (<[recordKey r := true]> (seen s)))).
Proof. unfold put, isSeen. cbn [deref]. destruct (default false _); auto. Qed.

Lemma check_record_true r s :
  check_record key r s = Ok true → ServerID r ≠ serverID key ∧ verifyRecord r = Ok () ∧ isSeen (recordKey r) s = false.
Proof.
  unfold check_record. case_bool_decide; [done|]. destruct (verifyRecord r) as [[]|e|]; try done.
  destruct (isSeen _ _); [done|]. auto.
Qed.

(** The own record and the broadcaster aside, nothing the invariant looks at. *)
Lemma authentic_frame n n' :
  n_own n' = n_own n → n_phase n' = n_phase n → authentic n →
  (∀ id e, records (n_store n') !! id = Some e → entry_ok (n_store n') id e) →
  (∀ r from, (r, from) ∈ n_checked n' → verifyRecord r = Ok () ∧ ServerID r ≠ serverID key) → authentic n'.
Proof. intros Eo Ep [A1 A2 A3 A4 A5 A6 A7] He Hc. split; unfold settled in *; rewrite ?Eo, ?Ep; done. Qed.

(** Whether a record marshals does not depend on its signature. *)
Lemma marshals_signature s r :
  is_ok (canonicalJSON (json_record (set_Signature s r))) = is_ok (canonicalJSON (json_record r)).
Proof. by rewrite !canonical_record_ok. Qed.

Lemma set_own_authentic r ph n :
  authentic n → ServerID r = serverID key → is_ok (canonicalJSON (json_record r)) = true →
  (ph = Cleared → Signature r = "") → (ph = Idle ∨ ph = Signed → signRecord r key = Ok r) → authentic (set_own r ph n).
Proof. intros [A1 A2 A3 A4 A5 A6 A7] Hid Hm Hc Hs. by split. Qed.

(** A cleared record that marshals is signed. *)
Lemma sign_cleared n :
  authentic n → n_phase n = Cleared →
  ∃ s, announce_sign key n = Ok (set_own (set_Signature s (n_own n)) Signed n) ∧
       signRecord (set_Signature s (n_own n)) key = Ok (set_Signature s (n_own n)).
Proof.
  intros [A1 _ A3 A4 _ _ _] Hph. unfold announce_sign, signRecord. specialize (A4 Hph).
  assert (∀ s, set_Signature "" (set_Signature s (n_own n)) = n_own n) as Hcl.
  { intros s. destruct (n_own n). unfold set_Signature. cbn in *. by subst. }
  destruct (canonicalJSON (json_record (n_own n))) as [d|e|] eqn:Ed; try done. unfold sign.
  rewrite bool_decide_true by done. cbn [mbind go_bind]. eexists. split; [done|]. by rewrite Hcl, Ed.
Qed.

Lemma announce_authentic ev n n' :
  authentic n → enabled ev n → exec key ev n = Ok n' →
  match ev with EvStamp _ | EvClear | EvSign | EvAnnounce _ => authentic n' | _ => True end.
Proof.
  intros Ha Hen E. pose proof Ha as [A1 A2 A3 A4 A5 A6 A7]. destruct ev as [| | | | | | |now| | |it]; try done; cbn [exec enabled] in *.
  - destruct Hen as [_ Ht]. injection E as <-. apply set_own_authentic; try done; [|by intros [|]].
    rewrite canonical_record_ok in A3 |- *. apply andb_true_iff in A3 as [Hf _]. by apply andb_true_iff.
  - injection E as <-. apply set_own_authentic; try done; [by rewrite marshals_signature|by intros [|]].
  - destruct (sign_cleared n Ha Hen) as (sg & Es & Hs). rewrite Es in E. injection E as <-.
    apply set_own_authentic; try done; [by rewrite marshals_signature].
  - unfold announce_send in E. destruct Hen as [Hph _]. rewrite A3 in E. injection E as <-. split; try done.
    intros _. apply A5. by right.
Qed.

Lemma exec_authentic ev n n' : authentic n → enabled ev n → exec key ev n = Ok n' → authentic n'.
Proof.
  intros Ha Hen E. pose proof (announce_authentic ev n n' Ha Hen E) as Hann. pose proof (auth_entries n Ha) as He.
  pose proof (auth_checked n Ha) as Hc. destruct ev as [now addr|r from|now i|i it|now h from|now it|now it|now| | |it]; try exact Hann;
    clear Hann; cbn [exec] in E.
  - injection E as <-. by apply (authentic_frame n).
  - destruct (check_record key r (n_store n)) as [[]|e|] eqn:Er; try done; injection E as <-; [|done].
    apply check_record_true in Er as (Hne & Hok & _). apply (authentic_frame n); try done. cbn [n_checked].
    intros r' from' [Hin|Hin]%elem_of_app; [by eapply Hc|]. apply list_elem_of_singleton in Hin. by simplify_eq.
  - destruct (n_checked n !! i) as [[r from]|] eqn:Ei; [|by injection E as <-]. injection E as <-.
    destruct (Hc r from) as [Hok Hne]; [by eapply list_elem_of_lookup_2|].
    assert (∀ r' from', (r', from') ∈ delete i (n_checked n) → verifyRecord r' = Ok () ∧ ServerID r' ≠ serverID key) as Hd.
    { intros r' from' Hin. apply (Hc r' from'). by eapply list_elem_of_delete_inv. }
    unfold store_record. cbn [n_own n_store]. destruct (put_Fresh_cases (n_own n) now r (n_store n)) as [[Hs ->]|[Hs ->]];
      apply (authentic_frame n); try done; cbn [n_store].
    intros id e. cbn [records]. rewrite lookup_insert. case_decide as Hd'.
    + intros [= <-]. subst id. unfold entry_ok. cbn [EntryRecord]. split_and!; try done.
      unfold isSeen. cbn [seen]. by rewrite lookup_insert_eq.
    + intros Hl. eapply entry_ok_seen; [|by apply He]. intros k Hk. unfold isSeen in *. cbn [seen].
      rewrite lookup_insert. by case_decide.
  - destruct (n_forwards n !! i) as [[r from]|]; injection E as <-; by apply (authentic_frame n).
  - unfold handleHeartbeat in E. destruct (get _ _) as [p|]; [|by injection E as <-].
    destruct (verifyHeartbeat _ _) as [[]|e|]; try done; injection E as <-; [|done]. apply (authentic_frame n); try done.
    cbn [n_store]. intros id e. unfold heartbeat.
    destruct (records (n_store n) !! HbServerID h) as [e0|] eqn:E0; [|apply He]. cbn [records].
    rewrite lookup_insert. case_decide as Hd; [|apply He]. intros [= <-]. subst id.
    specialize (He _ _ E0). exact He.
  - unfold sendHeartbeat in E. destruct (signHeartbeat _ _); try done; injection E as <-; by apply (authentic_frame n).
  - destruct Hen as [_ Hen]. injection E as <-. apply (authentic_frame n); try done. cbn [n_store]. intros id e.
    rewrite expireAndCheck_lookup by done. destruct (records (n_store n) !! id) as [e0|] eqn:E0; [|done]. simpl.
    unfold expire_one. case_bool_decide; [done|]. specialize (He _ _ E0).
    case_bool_decide; intros [= <-]; exact He.
Qed.

(** ** Forwarding *)

Lemma activeAddrs_NoDup it pm : range_of pm it → NoDup (activeAddrs it pm).
Proof. intros Hit. apply NoDup_filter. by eapply range_of_NoDup. Qed.

Lemma forwardRecord_elem r from it pm addr r' from' :
  (addr, r', from') ∈ forwardRecord r from it pm → r' = r ∧ from' = from ∧ addr ≠ from ∧ addr ∈ activeAddrs it pm.
Proof.
  unfold forwardRecord. destruct (is_ok _); [|by intros ?%elem_of_nil].
  intros (x & [= -> -> ->] & [Hne Hin]%list_elem_of_filter)%list_elem_of_fmap. done.
Qed.

Lemma forwardRecord_NoDup r from it pm : range_of pm it → NoDup (sent_keys (forwardRecord r from it pm)).
Proof.
  intros Hit. unfold forwardRecord. destruct (is_ok _); [|constructor].
  unfold sent_keys. rewrite <-list_fmap_compose. apply NoDup_fmap_2.
  - intros x y [= E]. done.
  - by apply NoDup_filter, activeAddrs_NoDup.
Qed.

(** A store that knows at least the same keys keeps the picture. *)
Lemma forwarding_seen n n' :
  n_forwards n' = n_forwards n → n_forwarded n' = n_forwarded n →
  (∀ k, isSeen k (n_store n) = true → isSeen k (n_store n') = true) → forwarding n → forwarding n'.
Proof.
  intros E1 E2 Hs [F1 F2 F3 F4]. split; rewrite ?E1, ?E2; try done.
  - eauto.
  - intros addr r from Hin. destruct (F4 _ _ _ Hin) as (? & ? & ?). auto.
Qed.

Lemma store_record_forwarding now r from n : forwarding n → forwarding (store_record now r from n).
Proof.
  intros Hf. unfold store_record. destruct (put_Fresh_cases (n_own n) now r (n_store n)) as [[Hs ->]|[Hs ->]].
  { by apply (forwarding_seen n). }
  pose proof Hf as [F1 F2 F3 F4].
  assert (∀ k, isSeen k (n_store n) = true →
    isSeen k (mkStore (<[ServerID r := mkEntry (Fresh r) now true]> (records (n_store n)))
      (<[recordKey r := true]> (seen (n_store n)))) = true) as Hmono.
  { intros k Hk. unfold isSeen in *. cbn [seen]. rewrite lookup_insert. by case_decide. }
  assert (fkeys (n_forwards n ++ [(r, from)]) = fkeys (n_forwards n) ++ [recordKey r]) as Hk
    by (unfold fkeys; by rewrite fmap_app).
  split; cbn [n_forwards n_forwarded n_store]; rewrite ?Hk; try done.
  - apply NoDup_app. split_and!; [done| |apply NoDup_singleton]. intros k Hin Hk'.
    apply list_elem_of_singleton in Hk' as ->. apply F2 in Hin. congruence.
  - intros k [Hin|Hin]%elem_of_app; [auto|]. apply list_elem_of_singleton in Hin as ->.
    unfold isSeen. cbn [seen]. by rewrite lookup_insert_eq.
  - intros addr r' from' Hin. destruct (F4 _ _ _ Hin) as (Hne & Hseen & Hnot). split_and!; [done|auto|].
    intros [Hin'|Hin']%elem_of_app; [done|]. apply list_elem_of_singleton in Hin'. congruence.
Qed.

Lemma forward_step_forwarding i it r from n :
  range_of (n_peers n) it → n_forwards n !! i = Some (r, from) → forwarding n →
  forwarding (mkNode (n_own n) (n_store n) (n_peers n) (n_checked n) (delete i (n_forwards n))
    (n_forwarded n ++ forwardRecord r from it (n_peers n)) (n_broadcast n) (n_phase n)).
Proof.
  intros Hit Hi [F1 F2 F3 F4].
  assert (fkeys (n_forwards n) ≡ₚ recordKey r :: fkeys (delete i (n_forwards n))) as Hp.
  { unfold fkeys. by rewrite (delete_Permutation _ _ _ Hi) at 1. }
  rewrite Hp in F1. apply NoDup_cons in F1 as [Hnot Hnd].
  assert (∀ k, k ∈ fkeys (delete i (n_forwards n)) → k ∈ fkeys (n_forwards n)) as Hsub
    by (intros k Hk; rewrite Hp; by right).
  split; cbn [n_forwards n_forwarded n_store]; [done|by auto| |].
  - unfold sent_keys. rewrite fmap_app. apply NoDup_app. split_and!; [done| |by apply forwardRecord_NoDup].
    intros [addr k] ([[a1 r1] f1] & [= -> ->] & Hin1)%list_elem_of_fmap
      ([[a2 r2] f2] & [= E1 E2] & Hin2)%list_elem_of_fmap. cbn in *.
    apply forwardRecord_elem in Hin2 as (-> & _). destruct (F4 _ _ _ Hin1) as (_ & _ & Hn).
    apply Hn. rewrite Hp, E2. by left.
  - intros addr r' from' [Hin|Hin]%elem_of_app.
    + destruct (F4 _ _ _ Hin) as (? & ? & ?). split_and!; auto.
    + apply forwardRecord_elem in Hin as (-> & -> & ? & _). split_and!; [done| |done].
      apply F2. rewrite Hp. by left.
Qed.

Lemma announce_sign_frame n n' : announce_sign key n = Ok n' → ∃ r ph, n' = set_own r ph n.
Proof.
  unfold announce_sign. destruct (canonicalJSON _) as [d|e|]; [|intros [= <-]; eauto|done].
  destruct (sign key d); cbn [mbind go_bind]; try done. intros [= <-]. eauto.
Qed.

Lemma exec_forwarding ev n n' : forwarding n → enabled ev n → exec key ev n = Ok n' → forwarding n'.
Proof.
  intros Hf Hen E.
  destruct ev as [now addr|r from|now i|i it|now h from|now it|now it|now| | |it]; cbn [exec] in E.
  - injection E as <-. by apply (forwarding_seen n).
  - destruct (check_record _ _ _) as [[]|e|]; try done; injection E as <-; [|done]. by apply (forwarding_seen n).
  - destruct (n_checked n !! i) as [[r from]|]; injection E as <-; [|done].
    apply store_record_forwarding. by apply (forwarding_seen n).
  - destruct (n_forwards n !! i) as [[r from]|] eqn:Ei; injection E as <-; [|done].
    by apply forward_step_forwarding.
  - unfold handleHeartbeat in E. destruct (get _ _); [|by injection E as <-].
    destruct (verifyHeartbeat _ _); try done; injection E as <-; [|done].
    apply (forwarding_seen n); [done..| |done]. cbn [n_store]. intros k. unfold heartbeat.
    by destruct (records (n_store n) !! HbServerID h).
  - unfold sendHeartbeat in E. destruct (signHeartbeat _ _); try done; injection E as <-; by apply (forwarding_seen n).
  - injection E as <-. by apply (forwarding_seen n).
  - injection E as <-. by apply (forwarding_seen n).
  - injection E as <-. by apply (forwarding_seen n).
  - apply announce_sign_frame in E as (r & ph & ->). by apply (forwarding_seen n).
  - unfold announce_send in E. destruct (is_ok _); injection E as <-; by apply (forwarding_seen n).
Qed.

(** ** Peers *)

Lemma add_peers_ok now addr pm : peers_ok pm → peers_ok (add now addr pm).
Proof.
  intros Hp. unfold add. destruct (pm !! addr); [done|]. intros a p. rewrite lookup_insert.
  case_decide; [by intros [= <-]|apply Hp].
Qed.

Lemma seen_peers_ok now addr pm : peers_ok pm → peers_ok (peer_seen now addr pm).
Proof.
  intros Hp. unfold peer_seen. destruct (pm !! addr) as [q|] eqn:E; [|done]. intros a p. rewrite lookup_insert.
  case_decide; [|apply Hp]. intros [= <-]. subst. simpl. split; [|done]. by apply Hp in E as [? _].
Qed.

Lemma exec_peers ev n n' : peers_ok (n_peers n) → exec key ev n = Ok n' → peers_ok (n_peers n').
Proof.
  intros Hp E. destruct ev; cbn [exec] in E.
  - injection E as <-. by apply seen_peers_ok, add_peers_ok.
  - destruct (check_record _ _ _) as [[]|e|]; try done; by injection E as <-.
  - destruct (n_checked n !! i) as [[r from]|]; injection E as <-; [|done].
    unfold store_record. by destruct (put _ _ _ _).
  - destruct (n_forwards n !! i) as [[r from]|]; by injection E as <-.
  - unfold handleHeartbeat in E. destruct (get _ _); [|by injection E as <-].
    destruct (verifyHeartbeat _ _); try done; injection E as <-; [|done]. by apply seen_peers_ok.
  - unfold sendHeartbeat in E. destruct (signHeartbeat _ _); try done; by injection E as <-.
  - by injection E as <-.
  - by injection E as <-.
  - by injection E as <-.
  - by apply announce_sign_frame in E as (r & ph & ->).
  - unfold announce_send in E. destruct (is_ok _); by injection E as <-.
Qed.

Lemma newPeerManager_ok now addrs : peers_ok (newPeerManager now addrs).
Proof.
  unfold newPeerManager. assert (peers_ok ∅) as He by (intros a p; by rewrite lookup_empty).
  revert He. generalize (∅ : peerManager). induction addrs as [|x l IH]; intros pm Hp; [done|]. simpl.
  apply IH. intros a p. rewrite lookup_insert. case_decide; [by intros [= <-]|apply Hp].
Qed.

(** ** The process *)

Lemma put_newStore own now :
  put own now Own newStore =
  (true, mkStore (<[ServerID own := mkEntry Own now true]> ∅) (<[recordKey own := true]> ∅)).
Proof. unfold put, newStore. cbn [seen records deref]. by rewrite lookup_empty. Qed.

Lemma signRecord_settled r r' : signRecord r key = Ok r' →
  signRecord r' key = Ok r' ∧ ServerID r' = ServerID r ∧ Timestamp r' = Timestamp r ∧
  is_ok (canonicalJSON (json_record r')) = true ∧ length (PrivateKey key) = PrivateKeySize.
Proof.
  intros E. pose proof E as E'. unfold signRecord in E. destruct (canonicalJSON (json_record (set_Signature "" r))) as [d|e|] eqn:Ed;
    cbn [mbind go_bind] in E; try done.
  unfold sign in E. case_bool_decide as Hl; cbn [mbind go_bind] in E; [|done]. injection E as E.
  assert (is_ok (canonicalJSON (json_record (set_Signature "" r))) = true) as Hok by (by rewrite Ed).
  subst r'. split_and!; try done. by rewrite marshals_signature.
Qed.

Lemma start_ok cfg now n :
  start key cfg now = Ok n →
  authentic n ∧ forwarding n ∧ peers_ok (n_peers n) ∧ n_phase n = Idle ∧
  n_store n = (put (n_own n) now Own newStore).2.
Proof.
  unfold start. set (r0 := own_of key cfg now). assert (ServerID r0 = serverID key) as Hr0 by done. clearbody r0.
  destruct (signRecord r0 key) as [own|e|] eqn:E; try done.
  cbn [mbind go_bind]. intros [= <-]. apply signRecord_settled in E as (Hs & Hid & _ & Hm & Hl). rewrite Hr0 in Hid.
  split_and!; cbn [n_peers n_own n_store]; [| |apply newPeerManager_ok|done|done].
  - split; try done; cbn [n_store n_own n_checked].
    + intros id e. rewrite put_newStore. cbn [snd records]. rewrite lookup_insert.
      case_decide; [|by rewrite lookup_empty]. intros [= <-]. subst. unfold entry_ok. by cbn [EntryRecord].
    + by intros r from ?%elem_of_nil.
  - split; cbn [n_forwards n_forwarded]; [constructor|by intros k ?%elem_of_nil|constructor|].
    by intros addr r from ?%elem_of_nil.
Qed.

Lemma run_inv n evs n' :
  run key n evs n' → authentic n → forwarding n → peers_ok (n_peers n) →
  authentic n' ∧ forwarding n' ∧ peers_ok (n_peers n').
Proof.
  induction 1 as [|n ev n1 evs n2 Hen Ex _ IH]; intros Ha Hf Hp; [done|].
  apply IH; [by eapply exec_authentic|by eapply exec_forwarding|by eapply exec_peers].
Qed.
End invariants.

(** ** Properties of the process *)

Section properties.
Context `{Ed25519} (key : nodeKey).

Lemma run_start_inv cfg now n0 evs n :
  start key cfg now = Ok n0 → run key n0 evs n → authentic key n ∧ forwarding n ∧ peers_ok (n_peers n).
Proof.
  intros Hs Hr. destruct (start_ok key cfg now n0 Hs) as (Ha & Hf & Hp & _). by apply (run_inv key n0 evs n).
Qed.

Lemma run_app n evs evs' n' : run key n (evs ++ evs') n' → ∃ n1, run key n evs n1 ∧ run key n1 evs' n'.
Proof.
  revert n. induction evs as [|ev evs IH]; intros n Hr; [exists n; split; [apply run_nil|done]|].
  inversion Hr as [|? ? n1 ? ? Hen E Hr']; subst. destruct (IH n1 Hr') as (n2 & H1 & H2).
  exists n2. split; [by eapply run_cons|done].
Qed.

Lemma run_trans n evs n1 evs' n' : run key n evs n1 → run key n1 evs' n' → run key n (evs ++ evs') n'.
Proof. induction 1 as [|n ev n1 evs n2 Hen Ex _ IH]; [done|]. intros Hr. eapply run_cons; [done|done|by apply IH]. Qed.

Lemma stored_id n id p : authentic key n → get id (n_store n) = Some p → ServerID (deref (n_own n) p) = id.
Proof.
  intros Ha. unfold get. destruct (records (n_store n) !! id) as [e|] eqn:E; [|done].
  intros [= <-]. apply (auth_entries key n Ha) in E. unfold entry_ok in E. destruct (EntryRecord e); simpl.
  - subst. by apply Ha.
  - by destruct E.
Qed.

Lemma stored_fresh n id r :
  authentic key n → get id (n_store n) = Some (Fresh r) → id ≠ serverID key ∧ verifyRecord r = Ok ().
Proof.
  intros Ha. unfold get. destruct (records (n_store n) !! id) as [e|] eqn:E; [|done].
  intros [= Er]. apply (auth_entries key n Ha) in E. unfold entry_ok in E. rewrite Er in E.
  by destruct E as (_ & ? & ? & _).
Qed.

Lemma stored_own n id : authentic key n → get id (n_store n) = Some Own → id = serverID key.
Proof.
  intros Ha. unfold get. destruct (records (n_store n) !! id) as [e|] eqn:E; [|done].
  intros [= Er]. apply (auth_entries key n Ha) in E. unfold entry_ok in E. by rewrite Er in E.
Qed.

(** What the store returns is the own record, or a verified one of another server. *)
Lemma stored_other n id p :
  authentic key n → get id (n_store n) = Some p → id ≠ serverID key → verifyRecord (deref (n_own n) p) = Ok ().
Proof.
  intros Ha Hg Hne. destruct p as [|r]; [by apply stored_own in Hg|]. by apply (stored_fresh n id).
Qed.

(** The records [list_peers] answers with are stored under their own id and active. *)
Lemma listed_stored it n r :
  r ∈ deref (n_own n) <$> activeRecords it (n_store n) →
  ∃ id e, records (n_store n) !! id = Some e ∧ Active e = true ∧ r = deref (n_own n) (EntryRecord e).
Proof.
  unfold activeRecords. rewrite <-list_fmap_compose.
  intros (e & -> & [Ha Hin]%list_elem_of_filter)%list_elem_of_fmap.
  apply list_elem_of_omap in Hin as (id & _ & Hl). exists id, e. done.
Qed.

(** A record in an answer: the own one, or one that is stored. *)
Lemma answered_stored it req n r :
  r ∈ RespRecords (handleRequest it req n) ∨ RespRecord (handleRequest it req n) = Some r →
  r = n_own n ∨ ∃ id p, get id (n_store n) = Some p ∧ r = deref (n_own n) p.
Proof.
  unfold handleRequest. destruct req as [q|]; simpl; [|by intros [?%elem_of_nil|?]].
  case_bool_decide; simpl.
  { intros [Hin|?]; [|done]. apply listed_stored in Hin as (id & e & Hl & _ & ->). right. exists id, (EntryRecord e).
    split; [|done]. unfold get. by rewrite Hl. }
  case_bool_decide; simpl.
  { destruct (get (ReqServerID q) (n_store n)) as [p|] eqn:Eg; simpl; intros [?%elem_of_nil|E]; try done.
    injection E as <-. right. by exists (ReqServerID q), p. }
  case_bool_decide; simpl; intros [?%elem_of_nil|E]; try done. injection E as <-. by left.
Qed.

(** C4: a record is never sent back to the peer it came from, and of all records
    with one deduplication key at most one is forwarded to an address, at most
    once, even when several handlers pass the deduplication test before the
    first of them stores. *)
Theorem forwarded_once cfg now n0 evs n :
  start key cfg now = Ok n0 → run key n0 evs n →
  NoDup ((λ p : string * NodeRecord * string, (p.1.1, recordKey p.1.2)) <$> n_forwarded n) ∧
  ∀ addr r from, (addr, r, from) ∈ n_forwarded n → addr ≠ from.
Proof.
  intros Hs Hr. destruct (run_start_inv cfg now n0 evs n Hs Hr) as (_ & [_ _ Hnd Hsent] & _); clear Hs Hr.
  split; [exact Hnd|]. intros addr r from Hin. by destruct (Hsent _ _ _ Hin).
Qed.


Lemma check_record_panics r s :
  check_record key r s = Panic ↔ ServerID r ≠ serverID key ∧ verifyRecord r = Panic.
Proof.
  unfold check_record. case_bool_decide; [split; [done|by intros [? _]]|].
  destruct (verifyRecord r); split; try done; by intros [_ ?].
Qed.

(** A heartbeat is fatal only when it names the node itself and the node's own
    public key has the wrong length. *)
Lemma heartbeat_panics now h from n :
  authentic key n →
  handleHeartbeat now h from n = Panic ↔
  HbServerID h = serverID key ∧ is_Some (get (serverID key) (n_store n)) ∧ length (PublicKey key) ≠ 32%nat ∧
  HbSignature h ≠ "" ∧ is_ok (canonicalJSON (json_heartbeat (set_HbSignature "" h))) = true ∧
  is_Some (DecodeString StdEncoding (HbSignature h)).
Proof.
  intros Ha. unfold handleHeartbeat. destruct (get (HbServerID h) (n_store n)) as [p|] eqn:Eg.
  2: { split; [done|]. intros (E & [p Hp] & _). congruence. }
  assert (match verifyHeartbeat h (ServerID (deref (n_own n) p)) with
    | Ok _ => Ok (mkNode (n_own n) (heartbeat now (HbServerID h) (n_store n)) (peer_seen now from (n_peers n))
                (n_checked n) (n_forwards n) (n_forwarded n) (n_broadcast n) (n_phase n))
    | Err _ => Ok n | Panic => Panic end = Panic ↔ verifyHeartbeat h (ServerID (deref (n_own n) p)) = Panic) as ->
    by (by destruct (verifyHeartbeat _ _)).
  rewrite verifyHeartbeat_panics, (stored_id n (HbServerID h) p) by done. destruct p as [|r].
  - apply stored_own in Eg as E; [|done]. rewrite E. unfold serverID at 1. rewrite Decode_Encode by apply _.
    rewrite E in Eg. rewrite Eg. split.
    + intros (? & ? & (pub & [= <-] & ?) & ?). by split_and!.
    + intros (_ & _ & ? & ? & ? & ?). split_and!; eauto.
  - destruct (stored_fresh n _ r Ha Eg) as [Hne Hv]. apply verifyRecord_key in Hv as (pub & Hd & Hl).
    assert (ServerID r = HbServerID h) as Hid by apply (stored_id n _ (Fresh r) Ha Eg). rewrite <-Hid, Hd. split.
    + by intros (_ & _ & (pub' & [= <-] & ?) & _).
    + intros (E & _). congruence.
Qed.

Lemma tick_no_panic now it n : length (PrivateKey key) = PrivateKeySize → sendHeartbeat key now it n ≠ Panic.
Proof.
  intros Hl. unfold sendHeartbeat, signHeartbeat, canonicalJSON, sign. destruct (json_heartbeat _); cbn [mbind go_bind]; [|done].
  by rewrite bool_decide_true.
Qed.

(** When an event kills the process. *)
Lemma exec_panics n ev :
  authentic key n → enabled ev n →
  exec key ev n = Panic ↔
  match ev with
  | EvRecord r _ => ServerID r ≠ serverID key ∧ verifyRecord r = Panic
  | EvHeartbeat now h from => handleHeartbeat now h from n = Panic
  | _ => False
  end.
Proof.
  intros Ha Hen. destruct ev as [t addr|r from|t i|i it|t h from|t it|t it|t| | |it]; cbn [exec]; try done.
  - rewrite <-(check_record_panics r (n_store n)). by destruct (check_record key r (n_store n)) as [[]|e|].
  - split; [|done]. by destruct (n_checked n !! i) as [[]|].
  - split; [|done]. by destruct (n_forwards n !! i) as [[]|].
  - split; [|done]. intros E. apply tick_no_panic in E; [done|]. by apply Ha.
  - split; [|done]. destruct (sign_cleared key n Ha Hen) as (s & -> & _). done.
  - split; [|done]. unfold announce_send. by destruct (is_ok _).
Qed.

(** Heartbeats carry no freshness: a heartbeat that was signed by a node once
    is accepted in every later state in which the node's record is stored, and
    marks the node active as of the time of arrival, whatever its timestamp. *)
Theorem heartbeat_replay cfg now n0 evs n h from now' e :
  start key cfg now = Ok n0 → run key n0 evs n →
  verifyHeartbeat h (HbServerID h) = Ok () → records (n_store n) !! HbServerID h = Some e →
  ∃ n', exec key (EvHeartbeat now' h from) n = Ok n' ∧
    records (n_store n') !! HbServerID h = Some (mkEntry (EntryRecord e) now' true).
Proof.
  intros Hs Hr Hv He. destruct (run_start_inv cfg now n0 evs n Hs Hr) as (Ha & _ & _); clear Hs Hr.
  assert (get (HbServerID h) (n_store n) = Some (EntryRecord e)) as Hg by (unfold get; by rewrite He).
  pose proof (stored_id n _ _ Ha Hg) as Hid. cbn [exec]. unfold handleHeartbeat.
  rewrite Hg, Hid, Hv. eexists. split; [done|]. cbn [n_store]. unfold heartbeat. rewrite He. cbn [records].
  by rewrite lookup_insert_eq.
Qed.

(** No peer is ever given up: in every reachable state every known address
    counts as active, so records and heartbeats go to every address that ever
    connected, the ephemeral ports of inbound connections included. *)
Theorem peers_never_inactive cfg now n0 evs n it :
  start key cfg now = Ok n0 → run key n0 evs n → range_of (n_peers n) it →
  activeAddrs it (n_peers n) = allAddrs it (n_peers n).
Proof.
  intros Hs Hr Hit. destruct (run_start_inv cfg now n0 evs n Hs Hr) as (_ & _ & Hp); clear Hs Hr.
  unfold activeAddrs, allAddrs. apply filter_all, Forall_forall. intros addr Hin.
  apply (range_of_elem (n_peers n) it addr Hit) in Hin as [p Hl]. rewrite Hl. simpl. by apply Hp in Hl as [_ ?].
Qed.

(** ** The own record *)

(** The own entry was last touched at [t0]. *)
Definition own_since (t0 : Z) (n : node) : Prop :=
  ∀ e, records (n_store n) !! serverID key = Some e → LastSeen e = t0.

Definition not_own_heartbeat (ev : event) : Prop :=
  match ev with EvHeartbeat _ h _ => HbServerID h ≠ serverID key | _ => True end.

Lemma exec_own_since t0 ev n n' :
  authentic key n → own_since t0 n → not_own_heartbeat ev → enabled ev n →
  exec key ev n = Ok n' → own_since t0 n'.
Proof.
  intros Ha Ho Hq Hen E. destruct ev as [t addr|r from|t i|i it|t h from|t it|t it|t| | |it]; cbn [exec] in E.
  - by injection E as <-.
  - destruct (check_record _ _ _) as [[]|e|]; try done; by injection E as <-.
  - destruct (n_checked n !! i) as [[r from]|] eqn:Ei; injection E as <-; [|done].
    destruct (auth_checked key n Ha r from) as [_ Hne]; [by eapply list_elem_of_lookup_2|].
    unfold store_record. cbn [n_own n_store].
    destruct (put_Fresh_cases (n_own n) t r (n_store n)) as [[_ ->]|[_ ->]]; [done|].
    intros e. cbn [n_store records]. rewrite lookup_insert_ne by done. apply Ho.
  - destruct (n_forwards n !! i) as [[]|]; by injection E as <-.
  - unfold handleHeartbeat in E. destruct (get _ _); [|by injection E as <-].
    destruct (verifyHeartbeat _ _); try done; injection E as <-; [|done]. intros e. cbn [n_store].
    unfold heartbeat. destruct (records (n_store n) !! HbServerID h); [|apply Ho]. cbn [records].
    rewrite lookup_insert_ne by done. apply Ho.
  - unfold sendHeartbeat in E. destruct (signHeartbeat _ _); try done; by injection E as <-.
  - destruct Hen as [_ Hen]. injection E as <-. intros e. cbn [n_store]. rewrite expireAndCheck_lookup by done.
    destruct (records (n_store n) !! serverID key) as [e0|] eqn:E0; [|done]. simpl.
    unfold expire_one. case_bool_decide; [done|]. specialize (Ho _ E0). case_bool_decide; by intros [= <-].
  - by injection E as <-.
  - by injection E as <-.
  - by apply announce_sign_frame in E as (r & ph & ->).
  - unfold announce_send in E. destruct (is_ok _); by injection E as <-.
Qed.

Lemma run_own_since t0 n evs n' :
  run key n evs n' → authentic key n → own_since t0 n → Forall not_own_heartbeat evs →
  own_since t0 n'.
Proof.
  induction 1 as [|n ev n1 evs n2 Hen Ex _ IH]; intros Ha Ho Hq; [done|].
  apply Forall_cons in Hq as [Hq Hqs]. apply IH; [by eapply exec_authentic|by eapply exec_own_since|done].
Qed.

(** The own record, which [main] stores so that it is listed, leaves the
    listing: unless a peer echoes the node's own heartbeat back to it, the first
    maintenance pass later than 300 seconds after the start takes it out of
    every list_peers answer, although the node announces itself. *)
Theorem own_record_drops_out cfg t0 n0 evs n now it n' it' r :
  start key cfg t0 = Ok n0 → run key n0 evs n → Forall not_own_heartbeat evs →
  n_phase n = Idle → range_of (records (n_store n)) it → t0 + livenessTimeout < now →
  exec key (EvExpire now it) n = Ok n' →
  r ∈ RespRecords (handleRequest it' (Some (mkApiRequest cmdListPeers "")) n') →
  ServerID r ≠ serverID key.
Proof.
  intros Hs Hr Hq Hph Hit Hnow E Hin.
  destruct (start_ok key cfg t0 n0 Hs) as (Ha0 & Hf0 & Hp0 & _ & Hst). clear Hs.
  assert (own_since t0 n0) as Ho0.
  { intros e. rewrite Hst, put_newStore. cbn [snd records]. rewrite lookup_insert.
    case_decide; [by intros [= <-]|by rewrite lookup_empty]. }
  pose proof (run_own_since t0 n0 evs n Hr Ha0 Ho0 Hq) as Ho.
  destruct (run_inv key n0 evs n Hr Ha0 Hf0 Hp0) as (Ha & _ & _).
  assert (authentic key n') as Ha' by (by eapply (exec_authentic key (EvExpire now it) n)).
  unfold handleRequest in Hin. rewrite bool_decide_true in Hin by done. cbn [RespRecords] in Hin.
  apply listed_stored in Hin as (id & e & Hl & Hact & ->). intros Hid.
  assert (id = serverID key) as ->.
  { rewrite <-Hid. symmetry. apply (stored_id n' id (EntryRecord e) Ha'). unfold get. by rewrite Hl. }
  injection E as <-. cbn [n_store n_own] in *. rewrite expireAndCheck_lookup in Hl by done.
  destruct (records (n_store n) !! serverID key) as [e0|] eqn:E0; [|done]. simpl in Hl.
  specialize (Ho _ E0). unfold expire_one in Hl. case_bool_decide; [done|].
  rewrite bool_decide_true in Hl.
  - injection Hl as <-. done.
  - apply time_Sub_gt; [done|]. rewrite Ho. lia.
Qed.

(** The timestamp of the own record is that of the last announcement begun. *)
Definition not_stamp (ev : event) : Prop := match ev with EvStamp _ => False | _ => True end.

Lemma exec_timestamp ev n n' : not_stamp ev → exec key ev n = Ok n' → Timestamp (n_own n') = Timestamp (n_own n).
Proof.
  intros Hev E. destruct ev as [t addr|r from|t i|i it|t h from|t it|t it|t| | |it]; try done; cbn [exec] in E.
  - by injection E as <-.
  - destruct (check_record _ _ _) as [[]|e|]; try done; by injection E as <-.
  - destruct (n_checked n !! i) as [[r from]|]; injection E as <-; [|done]. unfold store_record. by destruct (put _ _ _ _).
  - destruct (n_forwards n !! i) as [[]|]; by injection E as <-.
  - unfold handleHeartbeat in E. destruct (get _ _); [|by injection E as <-]. destruct (verifyHeartbeat _ _); try done; by injection E as <-.
  - unfold sendHeartbeat in E. destruct (signHeartbeat _ _); try done; by injection E as <-.
  - by injection E as <-.
  - by injection E as <-.
  - unfold announce_sign in E. destruct (canonicalJSON _) as [d|e|]; [|by injection E as <-|done].
    destruct (sign key d); cbn [mbind go_bind] in E; try done. by injection E as <-.
  - unfold announce_send in E. destruct (is_ok _); by injection E as <-.
Qed.

Lemma run_timestamp n evs n' : run key n evs n' → Forall not_stamp evs → Timestamp (n_own n') = Timestamp (n_own n).
Proof.
  induction 1 as [|n ev n1 evs n2 _ Ex _ IH]; [done|]. intros [Hev Hevs]%Forall_cons. rewrite IH by done.
  by eapply exec_timestamp.
Qed.
End properties.

(** With a key pair that belongs together. *)
Section paired.
Context `{Ed25519Laws} (seed : list byte).
Context (Hseed : length seed = 32%nat).

Abbreviation me := (key_of_seed seed).

Lemma settled_verifies n : authentic me n → settled n → verifyRecord (n_own n) = Ok ().
Proof. intros Ha Hs. apply (signed_verifies seed); [done|apply Ha|by apply Ha]. Qed.


End paired.

(** ** Witnesses *)

Definition demo_cfg : config :=
  mkConfig "0.0.0.0:7946" "192.0.2.1:51820" "" ["192.0.2.9:7946"] "/var/lib/camo" (Some ["SE"]) (Some ["SE"]) true 100 "wg".

Abbreviation demo_key := (key_of_seed (seed_of xee)).

Definition demo_start : node :=
  match start demo_key demo_cfg 0 with
  | Ok n => n
  | _ => mkNode own_record newStore ∅ [] [] [] [] Idle
  end.

Lemma demo_started : start demo_key demo_cfg 0 = Ok demo_start.
Proof. vm_compute. reflexivity. Qed.

(** A signed record of node 01, and the agent after it arrived twice at once. *)
Definition signed_record : NodeRecord :=
  match signRecord (sample_record x01 0) (key_of_seed (seed_of x01)) with Ok r => r | _ => own_record end.

Definition exec_all (evs : list event) (n : node) : node :=
  foldl (λ n ev, match exec demo_key ev n with Ok n' => n' | _ => n end) n evs.

Definition arrival : list event :=
  [EvConn 1 "198.51.100.7:4000"; EvRecord signed_record "198.51.100.7:4000"; EvRecord signed_record "192.0.2.9:7946";
   EvPut 2 0; EvPut 2 0].

(** A sequence of messages that all succeed is a run. *)
Definition is_message (ev : event) : bool :=
  match ev with EvConn _ _ | EvRecord _ _ | EvPut _ _ | EvHeartbeat _ _ _ => true | _ => false end.

Fixpoint runs_ok (evs : list event) (n : node) : bool :=
  match evs with
  | [] => true
  | ev :: evs => is_message ev && match exec demo_key ev n with Ok n' => runs_ok evs n' | _ => false end
  end.

Lemma runs_ok_run evs n : runs_ok evs n = true → run demo_key n evs (exec_all evs n).
Proof.
  revert n. induction evs as [|ev evs IH]; intros n Hok; [apply run_nil|].
  cbn [runs_ok] in Hok. apply andb_true_iff in Hok as [Hm Hok]. unfold exec_all. cbn [foldl].
  destruct (exec demo_key ev n) as [n'|e|] eqn:E; try done.
  eapply run_cons; [by destruct ev|exact E|]. by apply IH.
Qed.

Lemma arrival_run : run demo_key demo_start arrival (exec_all arrival demo_start).
Proof. apply runs_ok_run. vm_compute. reflexivity. Qed.


Lemma forwarded_once_witness :
  length (n_forwards (exec_all arrival demo_start)) = 1%nat ∧
  NoDup ((λ p : string * NodeRecord * string, (p.1.1, recordKey p.1.2)) <$> n_forwarded (exec_all arrival demo_start)).
Proof.
  split; [vm_compute; reflexivity|].
  apply (forwarded_once demo_key demo_cfg 0 demo_start arrival (exec_all arrival demo_start)
    demo_started arrival_run).
Defined.

Definition signed_heartbeat : Heartbeat :=
  match signHeartbeat (sample_heartbeat x01 0) (key_of_seed (seed_of x01)) with Ok h => h | _ => sample_heartbeat x01 0 end.

Lemma heartbeat_replay_witness :
  ∃ n', exec demo_key (EvHeartbeat (1000000 * Second) signed_heartbeat "203.0.113.5:4000")
          (exec_all arrival demo_start) = Ok n' ∧
    records (n_store n') !! HbServerID signed_heartbeat = Some (mkEntry (Fresh signed_record) (1000000 * Second) true).
Proof.
  apply (heartbeat_replay demo_key demo_cfg 0 demo_start arrival (exec_all arrival demo_start)
    signed_heartbeat "203.0.113.5:4000" (1000000 * Second) (mkEntry (Fresh signed_record) 2 true)
    demo_started arrival_run); vm_compute; reflexivity.
Defined.

Lemma peers_never_inactive_witness :
  activeAddrs (keys (n_peers (exec_all arrival demo_start))) (n_peers (exec_all arrival demo_start))
  = allAddrs (keys (n_peers (exec_all arrival demo_start))) (n_peers (exec_all arrival demo_start)).
Proof.
  exact (peers_never_inactive demo_key demo_cfg 0 demo_start arrival (exec_all arrival demo_start)
    (keys (n_peers (exec_all arrival demo_start))) demo_started arrival_run (range_of_keys _)).
Defined.

Definition pass : event := EvExpire (301 * Second) (keys (records (n_store (exec_all arrival demo_start)))).

Lemma own_record_drops_out_witness :
  Forall (λ r, ServerID r ≠ serverID demo_key)
    (RespRecords (handleRequest [serverID demo_key; id01] (Some (mkApiRequest "list_peers" ""))
      (exec_all [pass] (exec_all arrival demo_start)))).
Proof.
  apply Forall_forall. intros r Hin.
  apply (own_record_drops_out demo_key demo_cfg 0 demo_start arrival (exec_all arrival demo_start)
    (301 * Second) (keys (records (n_store (exec_all arrival demo_start))))
    (exec_all [pass] (exec_all arrival demo_start)) [serverID demo_key; id01] r demo_started arrival_run).
  - repeat constructor.
  - vm_compute. reflexivity.
  - apply range_of_keys.
  - vm_compute. reflexivity.
  - vm_compute. reflexivity.
  - exact Hin.
Defined.

(** An announcement; a heartbeat of node 01 arrives while its record has no
    signature. *)
Definition announcement : list event :=
  [EvClear; EvHeartbeat (3601 * Second) signed_heartbeat "198.51.100.7:4000"; EvSign;
   EvAnnounce (keys (n_peers (exec_all arrival demo_start)))].

Definition announced : node := exec_all (EvStamp (3600 * Second) :: announcement) (exec_all arrival demo_start).

Lemma announcement_run : run demo_key demo_start (arrival ++ EvStamp (3600 * Second) :: announcement) announced.
Proof.
  eapply run_trans; [exact arrival_run|]. unfold announcement.
  eapply run_cons; [split; vm_compute; reflexivity|vm_compute; reflexivity|].
  eapply run_cons; [vm_compute; reflexivity|vm_compute; reflexivity|].
  eapply run_cons; [exact I|vm_compute; reflexivity|].
  eapply run_cons; [vm_compute; reflexivity|vm_compute; reflexivity|].
  eapply run_cons; [split; [vm_compute; reflexivity|unfold range_of; vm_compute; apply Permutation_refl]|vm_compute; reflexivity|].
  replace announced with (exec_all announcement (exec_all [EvStamp (3600 * Second)] (exec_all arrival demo_start)))
    by (vm_compute; reflexivity). vm_compute. apply run_nil.
Qed.


