(* ===== verification/GossipNode.v ===== *)
(** * The camo-gossip program (camo-gossip/main.go, server.go, api.go)

    The agent on the network: connections carry bytes, each accepted connection
    has its goroutine, and the handlers of GossipServer run on the lines that
    parse.  The query socket in bytes, and start-up. *)

From Stdlib Require Import ZArith Lia Ascii String Strings.Byte Floats.SpecFloat.
From stdpp Require Import base option list gmap strings pretty fin_maps relations.
From S2P Require Import Prelude GoFloat GoText GoUtf8 GoBase64 GoTime GoJson GoJsonRead GoNumber GoTimeParse.
From S2P Require Import GoJsonDecode GoLines GoService GoJsonIndent GossipRecord GossipWire GossipStore GossipServer.

(** ** The query socket *)

Definition dec_api_request : decoder apiRequest :=
  struct [field "command" dec_string; field "server_id" dec_string] (λ r vs,
    mkApiRequest (get_field "command" dec_string (Command r) vs) (get_field "server_id" dec_string (ReqServerID r) vs)).

(** A response with a record that cannot be marshalled cannot be either. *)
Definition api_response_json (r : apiResponse) : option jval :=
  rs ← mapM json_record (RespRecords r);
  one ← match RespRecord r with None => Some [] | Some rec => (λ v, [("record", v)]) <$> json_record rec end;
  Some (JObj ([("status", JStr (Status r)); ("command", JStr (RespCommand r))] ++
              match rs with [] => [] | _ => [("records", JArr rs)] end ++ one ++ omitempty "message" (RespMessage r))).

(** [apiServer.handleConn]: request [i] is answered from the state [view i], in
    which the store is ranged over in the order that comes with it. *)
Definition api_answer (view : nat → node * list string) (req : nat * option apiRequest) : option jval :=
  api_response_json (handleRequest (view req.1).2 req.2 (view req.1).1).

Definition serve_api (view : nat → node * list string) (bytes : list ascii) : list ascii :=
  imap pair (requests dec_api_request (mkApiRequest "" "") bytes) ≫= λ req, encode_opt (api_answer view req).

(** ** Connections *)

Section network.
Context `{Ed25519} (key : nodeKey).

(** [handleConn] on one line. *)
Definition receive (now : Z) (fromAddr : string) (line : list ascii) (n : node) : go node :=
  match parse_message line with
  | None => Ok n
  | Some (MsgRecord r) => exec key (EvRecord r fromAddr) n
  | Some (MsgHeartbeat h) => exec key (EvHeartbeat now h fromAddr) n
  end.

(** An open connection: the remote address and the lines still to be read. *)
Record peer_conn := mkPeerConn { pc_addr : string; pc_lines : list (list ascii) }.

Record net := mkNet { net_node : node; net_conns : list peer_conn }.

(** What happens without a line: stores, forwards and tickers. *)
Definition internal (ev : event) : bool :=
  match ev with
  | EvPut _ _ | EvForward _ _ | EvTick _ _ | EvExpire _ _ | EvStamp _ | EvClear | EvSign | EvAnnounce _ => true
  | _ => false
  end.

(** The running process.  Goroutines interleave at every line and at every
    event; a handler's store may come later than its own connection's next line,
    which allows more interleavings than there are. *)
Inductive net_step : net → net → Prop :=
| net_accept now addr bytes n n' cs :
    exec key (EvConn now addr) n = Ok n' →
    net_step (mkNet n cs) (mkNet n' (cs ++ [mkPeerConn addr (scan_lines bytes)]))
| net_line now n n' cs1 cs2 addr l ls :
    receive now addr l n = Ok n' →
    net_step (mkNet n (cs1 ++ mkPeerConn addr (l :: ls) :: cs2)) (mkNet n' (cs1 ++ mkPeerConn addr ls :: cs2))
| net_internal ev n n' cs :
    internal ev = true → enabled ev n → exec key ev n = Ok n' → net_step (mkNet n cs) (mkNet n' cs).

(** What the node has written to other nodes. *)
Definition sent (n : node) : list (string * message) :=
  ((λ p : string * NodeRecord * string, (p.1.1, MsgRecord p.1.2)) <$> n_forwarded n) ++ n_broadcast n.
End network.

(** ** Start-up *)

Record gossip_env := mkGossipEnv {
  ge_config : read_result;             (* /etc/camo/gossip.json *)
  ge_key : string → read_result;       (* node.key in a directory *)
  ge_mkdir : string → go unit;         (* os.MkdirAll *)
  ge_write : string → go unit;         (* writing node.key in a directory *)
  ge_remove : go unit;                 (* the stale socket *)
  ge_tcp : string → go unit;           (* net.Listen on an address *)
  ge_unix : go unit;                   (* net.Listen on the socket *)
  ge_now : Z;
  ge_entropy : entropy
}.

Section startup.
Context `{Ed25519}.

Definition server_listen (env : gossip_env) (cfg : config) : go unit := ge_tcp env (ListenAddr cfg).

Definition api_listen (env : gossip_env) : go unit := open_socket (ge_remove env) (ge_mkdir env "/run/camo") (ge_unix env).

(** [main] with its two listeners started: the key and the agent. *)
Definition gossip_main (env : gossip_env) : status (nodeKey * node) :=
  or_exit (loadConfig (ge_config env)) (λ cfg,
  or_exit (loadOrGenerateKey (ge_key env (DataDir cfg)) (ge_mkdir env (DataDir cfg)) (ge_write env (DataDir cfg))
             (ge_entropy env)).1 (λ kw,
  or_exit (start kw.1 cfg (ge_now env)) (λ n,
  or_exit (server_listen env cfg) (λ _,
  or_exit (api_listen env) (λ _, Running (kw.1, n)))))).
End startup.

(** ** Types of the state *)

Definition config_typed (cfg : config) : Prop :=
  utf8 (WireGuardAddr cfg) ∧ utf8 (GTPAddr cfg) ∧ utf8_list (CfgRegions cfg) ∧ utf8_list (CfgJurisdictions cfg) ∧
  int64 (CfgMaxCircuits cfg) ∧ utf8 (WireGuardPubKey cfg).

Lemma loadConfig_typed file cfg : loadConfig file = Ok cfg → config_typed cfg.
Proof.
  unfold loadConfig, load_required. destruct file as [data| |e]; try done.
  intros (v & _ & _ & ->)%decode_config_Ok. assert (int64 100) as H100 by done.
  unfold config_typed, dec_config, defaultConfig.
  cbn [struct dec_into WireGuardAddr GTPAddr CfgRegions CfgJurisdictions CfgMaxCircuits WireGuardPubKey ListenAddr
       BootstrapPeers DataDir CfgExitNode].
  split_and!; try (by apply dec_string_utf8); try (by apply dec_strings_utf8). by apply dec_int_int64.
Qed.

(** ** From bytes to events *)

Definition event_typed (ev : event) : Prop :=
  match ev with EvRecord r _ => record_typed r | EvHeartbeat _ h _ => heartbeat_typed h | _ => True end.

Section bytes.
Context `{Ed25519} (key : nodeKey).

(** Every step on bytes is at most one event, of well-typed content. *)
Lemma net_step_event s s' :
  net_step key s s' →
  net_node s' = net_node s ∨
  ∃ ev, event_typed ev ∧ enabled ev (net_node s) ∧ exec key ev (net_node s) = Ok (net_node s').
Proof.
  destruct 1 as [now addr bytes n n' cs E|now n n' cs1 cs2 addr l ls E|ev n n' cs Hi Hen E]; cbn [net_node].
  - right. by exists (EvConn now addr).
  - unfold receive in E. destruct (parse_message l) as [m|] eqn:El; [|left; by injection E].
    apply parse_message_typed in El. right. destruct m as [r|h]; cbn [message_typed] in El.
    + by exists (EvRecord r addr).
    + by exists (EvHeartbeat now h addr).
  - right. exists ev. by destruct ev.
Qed.

Lemma net_run s s' :
  rtc (net_step key) s s' → ∃ evs, run key (net_node s) evs (net_node s') ∧ Forall event_typed evs.
Proof.
  induction 1 as [s|s s1 s2 Hstep _ (evs & Hr & Hty)]; [by exists []; split; [apply run_nil|]|].
  destruct (net_step_event s s1 Hstep) as [E|(ev & Ht & Hen & E)]; [rewrite E in Hr; eauto|].
  exists (ev :: evs). split; [by eapply run_cons|by constructor].
Qed.

(** A started program in a reachable state. *)
Lemma main_starts env k n :
  gossip_main env = Running (k, n) →
  ∃ cfg, loadConfig (ge_config env) = Ok cfg ∧ start k cfg (ge_now env) = Ok n ∧
    ∃ w, (loadOrGenerateKey (ge_key env (DataDir cfg)) (ge_mkdir env (DataDir cfg)) (ge_write env (DataDir cfg))
            (ge_entropy env)).1 = Ok (k, w).
Proof.
  unfold gossip_main. intros (cfg & Ec & H1)%or_exit_Running. exists cfg.
  apply or_exit_Running in H1 as ([k' w] & Ek & H1). cbn [fst] in H1.
  apply or_exit_Running in H1 as (n' & Es & H1). apply or_exit_Running in H1 as ([] & _ & H1).
  apply or_exit_Running in H1 as ([] & _ & H1). injection H1 as -> ->. eauto.
Qed.

Lemma net_authentic env n0 s :
  gossip_main env = Running (key, n0) → rtc (net_step key) (mkNet n0 []) s →
  authentic key (net_node s) ∧ forwarding (net_node s) ∧ peers_ok (n_peers (net_node s)).
Proof.
  intros Hm Hr. apply main_starts in Hm as (cfg & _ & Hst & _). apply net_run in Hr as (evs & Hr & _).
  by eapply run_start_inv.
Qed.
End bytes.

(** ** Types of the state *)

Section typed.
Context `{Ed25519Laws} (seed : list byte) (Hseed : length seed = 32%nat).

Abbreviation me := (key_of_seed seed).

(** A message any peer can decode and verify. *)
Definition message_good (m : message) : Prop :=
  message_typed m ∧
  match m with MsgRecord r => verifyRecord r = Ok () | MsgHeartbeat h => verifyHeartbeat h (HbServerID h) = Ok () end.

Record sound (n : node) : Prop := {
  snd_own : record_typed (n_own n);
  snd_entries : ∀ id e r, records (n_store n) !! id = Some e → EntryRecord e = Fresh r → record_typed r;
  snd_checked : ∀ r from, (r, from) ∈ n_checked n → message_good (MsgRecord r);
  snd_forwards : ∀ r from, (r, from) ∈ n_forwards n → message_good (MsgRecord r);
  snd_sent : ∀ addr m, (addr, m) ∈ sent n → message_good m
}.

Lemma signed_typed r s : record_typed r → utf8 s → record_typed (set_Signature s r).
Proof. unfold record_typed. cbn. tauto. Qed.

Lemma signRecord_typed r r' : record_typed r → signRecord r me = Ok r' → record_typed r'.
Proof.
  intros Hr. unfold signRecord. destruct (canonicalJSON _) as [d|e|]; cbn [mbind go_bind]; try done. unfold sign.
  case_bool_decide; cbn [mbind go_bind]; [|done]. intros E. injection E as <-.
  apply (signed_typed (set_Signature "" r)); [by apply signed_typed|apply std_base64_utf8].
Qed.

(** Only the record and what follows from it matters to [sound]. *)
Lemma sound_same n n' :
  sound n → record_typed (n_own n') →
  (∀ id e r, records (n_store n') !! id = Some e → EntryRecord e = Fresh r → record_typed r) →
  (∀ p, p ∈ n_checked n' → p ∈ n_checked n) → (∀ p, p ∈ n_forwards n' → p ∈ n_forwards n) →
  (∀ p, p ∈ sent n' → p ∈ sent n ∨ message_good p.2) → sound n'.
Proof.
  intros [S1 S2 S3 S4 S5] Ho He Hc Hf Hs. split; [done|done|intros r from Hin; by eapply S3, Hc|intros r from Hin; by eapply S4, Hf|].
  intros addr m Hin. destruct (Hs _ Hin) as [H'|H']; [by eapply S5|done].
Qed.

Lemma exec_record_sound r from n n' : record_typed r → sound n → exec me (EvRecord r from) n = Ok n' → sound n'.
Proof.
  intros Hr Hs. cbn [exec]. destruct (check_record me r (n_store n)) as [[]|e|] eqn:E; try done; intros E'; injection E' as <-; [|done].
  apply check_record_true in E as (_ & Hv & _). destruct Hs as [S1 S2 S3 S4 S5]. split; try done.
  cbn [n_checked]. intros r' from' [Hin|Hin]%elem_of_app; [by eapply S3|]. apply list_elem_of_singleton in Hin.
  injection Hin as -> ->. by split.
Qed.

Lemma exec_put_sound now i n n' : sound n → exec me (EvPut now i) n = Ok n' → sound n'.
Proof.
  intros Hs. cbn [exec]. destruct (n_checked n !! i) as [[r from]|] eqn:Ei; intros E; injection E as <-; [|done].
  pose proof Hs as [S1 S2 S3 S4 S5]. pose proof (S3 r from (list_elem_of_lookup_2 _ _ _ Ei)) as Hr.
  assert (∀ r' from', (r', from') ∈ delete i (n_checked n) → message_good (MsgRecord r')) as Hd.
  { intros r' from' Hin. eapply S3. by eapply list_elem_of_delete_inv. }
  unfold store_record. cbn [n_own n_store]. destruct (put_Fresh_cases (n_own n) now r (n_store n)) as [[_ ->]|[_ ->]];
    [by split|]. split; try done; cbn [n_store n_forwards records].
  - intros id e r'. rewrite lookup_insert. case_decide; [|by apply S2]. intros E. injection E as <-. cbn [EntryRecord].
    intros E. injection E as <-. apply Hr.
  - intros r' from' [Hin|Hin]%elem_of_app; [by eapply S4|]. apply list_elem_of_singleton in Hin.
    injection Hin as -> ->. exact Hr.
Qed.

Lemma exec_forward_sound i it n n' : sound n → exec me (EvForward i it) n = Ok n' → sound n'.
Proof.
  intros Hs. cbn [exec]. destruct (n_forwards n !! i) as [[r from]|] eqn:Ei; intros E; injection E as <-; [|done].
  pose proof (snd_forwards n Hs r from (list_elem_of_lookup_2 _ _ _ Ei)) as Hr.
  apply (sound_same n); [done|apply Hs|apply Hs|done| |].
  - intros p Hin. by eapply list_elem_of_delete_inv.
  - intros p. unfold sent. cbn [n_forwarded n_broadcast]. rewrite fmap_app, !elem_of_app.
    intros [[Hin|Hin]|Hin]; [by left; left| |by left; right]. right.
    apply list_elem_of_fmap in Hin as ([[addr r'] from'] & -> & Hin). apply forwardRecord_elem in Hin as (-> & _). exact Hr.
Qed.

Lemma exec_heartbeat_sound now h from n n' : sound n → exec me (EvHeartbeat now h from) n = Ok n' → sound n'.
Proof.
  intros Hs. cbn [exec]. unfold handleHeartbeat. destruct (get _ _); [|intros E; by injection E as <-].
  destruct (verifyHeartbeat _ _) as [[]|e|]; try done; intros E; injection E as <-; [|done].
  apply (sound_same n); [done|apply Hs| |done|done|by left]. cbn [n_store]. unfold heartbeat. intros id e r.
  destruct (records (n_store n) !! HbServerID h) as [e0|] eqn:E0; [|apply (snd_entries n Hs)]. cbn [records].
  rewrite lookup_insert. case_decide; [|apply (snd_entries n Hs)]. intros E. injection E as <-. cbn [EntryRecord].
  by apply (snd_entries n Hs (HbServerID h)).
Qed.

Lemma exec_tick_sound now it n n' : sound n → exec me (EvTick now it) n = Ok n' → sound n'.
Proof.
  intros Hs. cbn [exec]. unfold sendHeartbeat. set (h0 := mkHeartbeat (serverID me) (mkTime now 0) 0 0 "").
  destruct (signHeartbeat h0 me) as [h|e|] eqn:E; try done; intros E'; injection E' as <-; [|done].
  apply (sound_same n); [done|apply Hs|apply Hs|done|done|]. intros p. unfold sent.
  cbn [n_forwarded n_broadcast]. rewrite !elem_of_app. intros [Hin|[Hin|Hin]]; [by left; left|by left; right|]. right.
  apply list_elem_of_fmap in Hin as (addr & -> & _). cbn [snd].
  destruct (signHeartbeat_verifies seed h0 Hseed) as (s & Es & Hv).
  { unfold signHeartbeat in E. by destruct (canonicalJSON _). }
  rewrite E in Es. injection Es as ->. split; [|exact Hv]. cbn [message_typed]. split_and!; try done.
  - apply url_base64_utf8.
  - unfold signHeartbeat in E. destruct (canonicalJSON _); cbn [mbind go_bind] in E; try done. unfold sign in E.
    case_bool_decide; cbn [mbind go_bind] in E; [|done]. injection E as E. cbn [set_HbSignature HbSignature]. rewrite <-E.
    apply std_base64_utf8.
Qed.

Lemma set_own_sound r ph n : sound n → record_typed r → sound (set_own r ph n).
Proof. intros Hs Hr. apply (sound_same n); [done|done|apply Hs|done|done|by left]. Qed.

Lemma exec_sign_sound n n' : sound n → exec me EvSign n = Ok n' → sound n'.
Proof.
  intros Hs. cbn [exec]. unfold announce_sign. destruct (canonicalJSON _) as [d|e|]; try done.
  - unfold sign. case_bool_decide; cbn [mbind go_bind]; [|done]. intros E. injection E as <-.
    apply set_own_sound; [done|]. apply signed_typed; [apply Hs|apply std_base64_utf8].
  - intros E. injection E as <-. apply set_own_sound; [done|apply Hs].
Qed.

Lemma exec_announce_sound it n n' :
  authentic me n → n_phase n = Signed → sound n → exec me (EvAnnounce it) n = Ok n' → sound n'.
Proof.
  intros Ha Hph Hs. cbn [exec]. unfold announce_send. rewrite (auth_marshals me n Ha). intros E. injection E as <-.
  apply (sound_same n); [done|apply Hs|apply Hs|done|done|]. intros p. unfold sent.
  cbn [n_forwarded n_broadcast]. rewrite !elem_of_app. intros [Hin|[Hin|Hin]]; [by left; left|by left; right|]. right.
  apply list_elem_of_fmap in Hin as (addr & -> & _). split; [apply Hs|]. apply (settled_verifies seed); [done..|by right].
Qed.

Lemma exec_sound ev n n' :
  event_typed ev → authentic me n → enabled ev n → sound n → exec me ev n = Ok n' → sound n'.
Proof.
  intros Hev Ha Hen Hs E. destruct ev as [now addr|r from|now i|i it|now h from|now it|now it|now| | |it].
  - injection E as <-. apply (sound_same n); [done|apply Hs|apply Hs|done|done|by left].
  - by eapply exec_record_sound.
  - by eapply exec_put_sound.
  - by eapply exec_forward_sound.
  - by eapply exec_heartbeat_sound.
  - by eapply exec_tick_sound.
  - destruct Hen as [_ Hen]. injection E as <-. apply (sound_same n); [done|apply Hs| |done|done|by left]. cbn [n_store]. intros id e r.
    rewrite expireAndCheck_lookup by done. destruct (records (n_store n) !! id) as [e0|] eqn:E0; [|done]. cbn [mbind option_bind].
    unfold expire_one. case_bool_decide; [done|]. case_bool_decide; intros E; injection E as <-; cbn [EntryRecord];
      by apply (snd_entries n Hs id).
  - injection E as <-. apply set_own_sound; [done|]. apply (snd_own n Hs).
  - injection E as <-. apply set_own_sound; [done|]. apply signed_typed; [apply Hs|done].
  - by eapply exec_sign_sound.
  - destruct Hen as [Hph _]. by eapply exec_announce_sound.
Qed.

Lemma start_sound cfg now n : config_typed cfg → start me cfg now = Ok n → sound n.
Proof.
  intros (H1 & H2 & H3 & H4 & H5 & H6). unfold start.
  assert (record_typed (own_of me cfg now)) as Hr.
  { unfold record_typed, own_of. cbn [Version ServerID WireGuardKey Signature RecEndpoints RecCapabilities EpWireGuard EpGTP
      SIMPoolSize MaxCircuits Regions Jurisdictions Uptime30d]. split_and!; try done. apply url_base64_utf8. }
  assert (ServerID (own_of me cfg now) = serverID me) as Hid by done.
  set (r0 := own_of me cfg now) in *. clearbody r0.
  destruct (signRecord r0 me) as [own|e|] eqn:E; try done. cbn [mbind go_bind]. intros E'. injection E' as <-.
  assert (message_good (MsgRecord own)) as Hown.
  { split; [by eapply (signRecord_typed r0)|]. destruct (signRecord_verifies seed r0 Hseed Hid) as (s & Es & Hok).
    - unfold signRecord in E. by destruct (canonicalJSON _).
    - rewrite E in Es. injection Es as ->. done. }
  split; cbn [n_own n_checked n_forwards n_store]; [apply Hown| |by intros r from ?%elem_of_nil..|].
  - intros id e r. rewrite put_newStore. cbn [snd records]. rewrite lookup_insert. case_decide; [|by rewrite lookup_empty].
    intros E'. injection E' as <-. done.
  - intros addr m. unfold sent. cbn [n_forwarded n_broadcast fmap list_fmap app].
    intros (a & E' & _)%list_elem_of_fmap. injection E' as -> ->. exact Hown.
Qed.

Lemma run_sound n evs n' :
  run me n evs n' → Forall event_typed evs → authentic me n → sound n → sound n'.
Proof.
  induction 1 as [|n ev n1 evs n2 Hen Ex _ IH]; intros Hty Ha Hs; [done|]. apply Forall_cons in Hty as [Ht Hty].
  apply IH; [done|by eapply exec_authentic|by eapply exec_sound].
Qed.

Lemma net_invariants env n0 s :
  gossip_main env = Running (me, n0) → rtc (net_step me) (mkNet n0 []) s → authentic me (net_node s) ∧ sound (net_node s).
Proof.
  intros Hm Hr. destruct (net_authentic me env n0 s Hm Hr) as (Ha & _ & _).
  apply main_starts in Hm as (cfg & Hc & Hst & _). apply net_run in Hr as (evs & Hr & Hty). split; [done|].
  destruct (start_ok me cfg (ge_now env) n0 Hst) as (Ha0 & _).
  pose proof (start_sound cfg (ge_now env) n0 (loadConfig_typed _ _ Hc) Hst) as Hs. clear Hst Hc. cbn [net_node] in Hr.
  by apply (run_sound _ _ _ Hr).
Qed.
End typed.

(** ** Between nodes *)

Section relay.
Context `{Ed25519Laws}.

Lemma verified_marshals r : verifyRecord r = Ok () → is_Some (json_record r).
Proof.
  intros Hv. apply verifyRecord_marshals in Hv. rewrite canonical_record_ok in Hv. cbn [set_Signature RecCapabilities Timestamp] in Hv.
  assert (is_ok (canonicalJSON (json_record r)) = true) as Hr by (by rewrite canonical_record_ok). clear Hv.
  destruct (json_record r); [by eexists|done].
Qed.

Lemma verified_heartbeat_marshals h k : verifyHeartbeat h k = Ok () → is_Some (json_heartbeat h).
Proof.
  unfold verifyHeartbeat. case_bool_decide; [done|]. unfold json_heartbeat.
  cbn [set_HbSignature HbTimestamp]. destruct (time_json (HbTimestamp h)); [|done]. by eexists.
Qed.

Lemma good_line m : message_good m → ∃ v, message_json m = Some v ∧ message_line m = Some (encode_line v) ∧ fits max_depth v.
Proof.
  intros [Ht Hv]. assert (is_Some (message_json m)) as [v Hj].
  { destruct m as [r|h]; cbn [message_json].
    - destruct (verified_marshals r Hv) as [w ->]. by eexists.
    - destruct (verified_heartbeat_marshals h _ Hv) as [w ->]. by eexists. }
  exists v. unfold message_line. rewrite Hj. split_and!; [done..|]. by eapply message_fits.
Qed.

Lemma good_parses m line :
  message_good m → message_line m = Some line → (N.of_nat (length line) <= 65536)%N →
  ∃ l, scan_lines line = [l] ∧ parse_message l = Some m.
Proof.
  intros Hm Hl Hlen. destruct (good_line m Hm) as (v & Hj & Hl' & Hf). rewrite Hl in Hl'. injection Hl' as ->.
  exists (marshal v). rewrite <-(app_nil_r (encode_line v)), scan_lines_encode; [|by eapply fits_wf|].
  - split; [done|]. apply parse_marshal; [apply Hm|done].
  - unfold line_fits, max_line. unfold encode_line in Hlen. rewrite length_app in Hlen. cbn [length] in Hlen.
    apply N.leb_le. lia.
Qed.

(** C3: a node whose key file holds a matching key pair only ever sends messages
    its peers can use: from start-up on, whatever bytes arrive on whatever
    connections, everything it has written, forwarded records included, is a line
    of JSON with a valid signature of the id it names, and a peer decodes the line
    as the same message if it has at most 65536 bytes, the scanner's limit. *)
Theorem sent_messages_accepted seed env n0 s addr m :
  length seed = 32%nat → gossip_main env = Running (key_of_seed seed, n0) →
  rtc (net_step (key_of_seed seed)) (mkNet n0 []) s → (addr, m) ∈ sent (net_node s) →
  (∃ line, message_line m = Some line ∧
     ((N.of_nat (length line) <= 65536)%N → omap parse_message (scan_lines line) = [m])) ∧
  match m with MsgRecord r => verifyRecord r = Ok () | MsgHeartbeat h => verifyHeartbeat h (HbServerID h) = Ok () end.
Proof.
  intros Hl Hm Hr Hin. destruct (net_invariants seed Hl env n0 s Hm Hr) as (_ & Hs). clear Hm Hr.
  pose proof (snd_sent _ Hs addr m Hin) as Hg. split; [|by apply Hg].
  destruct (good_line m Hg) as (v & _ & Hline & _). exists (encode_line v). split; [done|]. intros Hlen.
  destruct (good_parses m _ Hg Hline Hlen) as (l & -> & Hp). cbn. by rewrite Hp.
Qed.

End relay.

(** ** Arrival *)

Section arrival.
Context `{Ed25519} (key : nodeKey).

(** A record with this key is in the store and set to be forwarded. *)
Definition spread (k : string) (n : node) : Prop :=
  ∃ r from, recordKey r = k ∧ get (ServerID r) (n_store n) = Some (Fresh r) ∧ (r, from) ∈ n_forwards n.

(** Storing a checked record: the key was known, or the record is stored. *)
Lemma store_record_cases now r from n :
  (isSeen (recordKey r) (n_store n) = true ∧ n_store (store_record now r from n) = n_store n) ∨
  (spread (recordKey r) (store_record now r from n) ∧ isSeen (recordKey r) (n_store (store_record now r from n)) = true ∧
   ∀ k, k ≠ recordKey r → isSeen k (n_store (store_record now r from n)) = isSeen k (n_store n)).
Proof.
  unfold store_record. destruct (put_Fresh_cases (n_own n) now r (n_store n)) as [[Hs ->]|[Hs ->]]; [by left|right].
  cbn [n_store]. split_and!.
  - exists r, from. unfold get. cbn [n_store n_forwards records]. rewrite lookup_insert_eq. split_and!; [done..|].
    apply elem_of_app. right. by left.
  - unfold isSeen. cbn [seen]. by rewrite lookup_insert_eq.
  - intros k Hk. unfold isSeen. cbn [seen]. by rewrite lookup_insert_ne.
Qed.

(** A key becomes known only together with a stored record. *)
Lemma exec_seen k ev n n' :
  exec key ev n = Ok n' → isSeen k (n_store n') = true → isSeen k (n_store n) = true ∨ spread k n'.
Proof.
  intros E Hs. destruct ev as [t addr|r from|t i|i it|t h from|t it|t it|t| | |it]; cbn [exec] in E.
  3: { destruct (n_checked n !! i) as [[r from]|]; [|injection E as <-; by left]. injection E as <-.
    revert Hs. set (m := mkNode _ _ _ _ _ _ _ _). intros Hs. change (n_store n) with (n_store m).
    destruct (store_record_cases t r from m) as [[_ Em]|(Hsp & _ & Hk)]; [left; by rewrite Em in Hs|].
    destruct (decide (k = recordKey r)) as [->|Hne]; [by right|]. left. by rewrite Hk in Hs. }
  all: left.
  - by injection E as <-.
  - destruct (check_record _ _ _) as [[]|e|]; try done; by injection E as <-.
  - destruct (n_forwards n !! i) as [[]|]; by injection E as <-.
  - unfold handleHeartbeat in E. destruct (get _ _); [|by injection E as <-].
    destruct (verifyHeartbeat _ _); try done; injection E as <-; [|done]. revert Hs. cbn [n_store]. unfold heartbeat.
    by destruct (records (n_store n) !! HbServerID h).
  - unfold sendHeartbeat in E. destruct (signHeartbeat _ _); try done; by injection E as <-.
  - by injection E as <-.
  - by injection E as <-.
  - by injection E as <-.
  - by apply announce_sign_frame in E as (r & ph & ->).
  - unfold announce_send in E. destruct (is_ok _); by injection E as <-.
Qed.

(** A handler that passed the test is waiting until its key is known. *)
Lemma exec_checked p ev n n' :
  exec key ev n = Ok n' → p ∈ n_checked n → p ∈ n_checked n' ∨ isSeen (recordKey p.1) (n_store n') = true.
Proof.
  intros E Hp. destruct ev as [t addr|r from|t i|i it|t h from|t it|t it|t| | |it]; cbn [exec] in E.
  - injection E as <-. by left.
  - destruct (check_record _ _ _) as [[]|e|]; try done; injection E as <-; left; [|done]. cbn [n_checked].
    apply elem_of_app. by left.
  - destruct (n_checked n !! i) as [[r from]|] eqn:Ei; injection E as <-; [|by left].
    set (m := mkNode _ _ _ _ _ _ _ _).
    assert (n_checked (store_record t r from m) = delete i (n_checked n)) as ->
      by (unfold store_record; by destruct (put _ _ _ _)).
    rewrite (delete_Permutation _ _ _ Ei) in Hp. apply elem_of_cons in Hp as [->|Hin]; [|by left]. right.
    cbn [fst]. destruct (store_record_cases t r from m) as [[Hs ->]|(_ & Hs & _)]; exact Hs.
  - destruct (n_forwards n !! i) as [[]|]; injection E as <-; by left.
  - unfold handleHeartbeat in E. destruct (get _ _); [|injection E as <-; by left].
    destruct (verifyHeartbeat _ _); try done; injection E as <-; by left.
  - unfold sendHeartbeat in E. destruct (signHeartbeat _ _); try done; injection E as <-; by left.
  - injection E as <-. by left.
  - injection E as <-. by left.
  - injection E as <-. by left.
  - apply announce_sign_frame in E as (r & ph & ->). by left.
  - unfold announce_send in E. destruct (is_ok _); injection E as <-; by left.
Qed.

(** From a state that does not know the key of a checked record: in every later
    state its handler still waits, or on the way there was a state in which a
    record with the key was stored and set to be forwarded. *)
Lemma checked_spreads p s0 s :
  rtc (net_step key) s0 s → p ∈ n_checked (net_node s0) → isSeen (recordKey p.1) (n_store (net_node s0)) = false →
  p ∈ n_checked (net_node s) ∨
  ∃ sm, rtc (net_step key) s0 sm ∧ rtc (net_step key) sm s ∧ spread (recordKey p.1) (net_node sm).
Proof.
  intros Hr Hp Hn. set (Q s := ∃ sm, rtc (net_step key) s0 sm ∧ rtc (net_step key) sm s ∧ spread (recordKey p.1) (net_node sm)).
  assert ((p ∈ n_checked (net_node s) ∨ Q s) ∧ (isSeen (recordKey p.1) (n_store (net_node s)) = true → Q s)) as [H1 _]; [|exact H1].
  revert s Hr. apply (rtc_ind_r (λ s, (p ∈ n_checked (net_node s) ∨ Q s) ∧
    (isSeen (recordKey p.1) (n_store (net_node s)) = true → Q s))); [split; [by left|congruence]|].
  intros s s' Hs Hstep [IH1 IH2]. assert (Q s → Q s') as Hmono.
  { intros (sm & Ha & Hb & Hc). exists sm. split_and!; [done| |done]. by eapply rtc_r. }
  destruct (net_step_event key s s' Hstep) as [E|(ev & _ & _ & E)].
  { rewrite E. split; [destruct IH1; auto|auto]. }
  assert (isSeen (recordKey p.1) (n_store (net_node s')) = true → Q s') as Hseen.
  { intros H'. destruct (exec_seen _ _ _ _ E H') as [Hold|Hsp]; [auto|]. exists s'. split_and!; [by eapply rtc_r|apply rtc_refl|done]. }
  split; [|done]. destruct IH1 as [Hc|Hq]; [|auto]. destruct (exec_checked p _ _ _ E Hc) as [?|?]; auto.
Qed.
End arrival.

(** C8: records spread: when the bytes an agent with a matching key pair wrote for
    a record (at most 65536, the scanner's limit) arrive at any other agent that
    does not know the record's deduplication key and whose id the record does not
    carry, its handler accepts the record; from then on, under every
    interleaving, that handler still waits to store the record, or a record with
    the key has been stored and set to be forwarded in turn, by this handler or
    by a racing one. *)
Theorem record_spreads `{Ed25519Laws} seed env n0 s addr r line key2 now from n cs :
  length seed = 32%nat → gossip_main env = Running (key_of_seed seed, n0) →
  rtc (net_step (key_of_seed seed)) (mkNet n0 []) s → (addr, MsgRecord r) ∈ sent (net_node s) →
  message_line (MsgRecord r) = Some line → (N.of_nat (length line) <= 65536)%N →
  ServerID r ≠ serverID key2 → isSeen (recordKey r) (n_store n) = false →
  ∃ l n1, scan_lines line = [l] ∧ receive key2 now from l n = Ok n1 ∧
    ∀ s3, rtc (net_step key2) (mkNet n1 cs) s3 →
      (r, from) ∈ n_checked (net_node s3) ∨
      ∃ sm r' from', rtc (net_step key2) (mkNet n1 cs) sm ∧ rtc (net_step key2) sm s3 ∧ recordKey r' = recordKey r ∧
        get (ServerID r') (n_store (net_node sm)) = Some (Fresh r') ∧ (r', from') ∈ n_forwards (net_node sm).
Proof.
  intros Hl Hm Hr Hin Hline Hlen Hne Hseen.
  destruct (net_invariants seed Hl env n0 s Hm Hr) as (_ & Hs). clear Hm Hr.
  pose proof (snd_sent _ Hs addr _ Hin) as Hg. destruct (good_parses _ _ Hg Hline Hlen) as (l & Hscan & Hp).
  assert (check_record key2 r (n_store n) = Ok true) as Hc.
  { unfold check_record. rewrite bool_decide_false by done. destruct Hg as [_ Hv]. by rewrite Hv, Hseen. }
  eexists l, _. split; [done|]. unfold receive. rewrite Hp. cbn [exec]. rewrite Hc. split; [done|]. intros s3 Hr3.
  destruct (checked_spreads key2 (r, from) _ _ Hr3) as [?|(sm & H1 & H2 & r' & from' & H3)]; [|done|by left|right].
  - cbn [net_node n_checked]. apply elem_of_app. right. by left.
  - by exists sm, r', from'.
Qed.

(** ** Death *)

(** C16: the process dies exactly on two kinds of lines: one that carries a
    record of another id that can be marshalled, with a signature text that is
    base64 and not empty, whose server id is base64 of anything but 32 bytes; and,
    only when the node's own public key has another length than 32 bytes (a key
    file may hold one), a heartbeat that names the node itself while its own
    record is stored and has a signature text that is base64 and not empty;
    whatever happened before, no other line and none of the stores, forwards,
    tickers and announcements kills it. *)
Theorem process_dies_exactly `{Ed25519} env key n0 s now addr line :
  gossip_main env = Running (key, n0) → rtc (net_step key) (mkNet n0 []) s →
  (receive key now addr line (net_node s) = Panic ↔
   (∃ r, parse_message line = Some (MsgRecord r) ∧ ServerID r ≠ serverID key ∧ Signature r ≠ "" ∧
      is_ok (canonicalJSON (json_record (set_Signature "" r))) = true ∧
      (∃ pub, DecodeString RawURLEncoding (ServerID r) = Some pub ∧ length pub ≠ 32%nat) ∧
      is_Some (DecodeString StdEncoding (Signature r))) ∨
   (∃ h, parse_message line = Some (MsgHeartbeat h) ∧ HbServerID h = serverID key ∧
      is_Some (get (serverID key) (n_store (net_node s))) ∧ length (PublicKey key) ≠ 32%nat ∧ HbSignature h ≠ "" ∧
      is_ok (canonicalJSON (json_heartbeat (set_HbSignature "" h))) = true ∧
      is_Some (DecodeString StdEncoding (HbSignature h)))) ∧
  (∀ ev, internal ev = true → enabled ev (net_node s) → exec key ev (net_node s) ≠ Panic).
Proof.
  intros Hm Hr. destruct (net_authentic key env n0 s Hm Hr) as (Ha & _ & _). clear Hm Hr. split.
  - unfold receive. destruct (parse_message line) as [[r|h]|].
    + rewrite (exec_panics key _ (EvRecord r addr) Ha I), verifyRecord_panics. split.
      * intros [Hne Hv]. left. by exists r.
      * intros [(r' & [= <-] & Hne & Hv)|(h & E & _)]; done.
    + rewrite (exec_panics key _ (EvHeartbeat now h addr) Ha I), (heartbeat_panics key) by done. split.
      * intros Hv. right. by exists h.
      * intros [(r & E & _)|(h' & [= <-] & Hv)]; done.
    + split; [done|]. by intros [(r & E & _)|(h & E & _)].
  - intros ev Hi Hen Hp%(exec_panics key); [|done..]. by destruct ev.
Qed.

(** ** The query socket answers *)

Section queries.
Context `{Ed25519Laws} (seed : list byte) (Hseed : length seed = 32%nat).

Abbreviation me := (key_of_seed seed).

(** A record an answer can carry. *)
Definition record_good (r : NodeRecord) : Prop := record_typed r ∧ is_Some (json_record r).

Lemma good_record_json r : record_good r → ∃ v, json_record r = Some v ∧ fits 3 v.
Proof. intros [_ [v Hj]]. exists v. split; [done|]. by eapply json_record_fits. Qed.

Lemma mapM_records rs :
  Forall record_good rs → ∃ vs, mapM json_record rs = Some vs ∧ Forall2 (λ r v, json_record r = Some v) rs vs ∧ Forall (fits 3) vs.
Proof.
  induction 1 as [|r rs Hr _ (vs & E & F & G)]; [by exists []|]. destruct (good_record_json r Hr) as (v & Hv & Hf).
  exists (v :: vs). cbn [mapM]. rewrite Hv. cbn [mbind option_bind]. rewrite E. split_and!; [done|by constructor..].
Qed.

Lemma own_good n : authentic me n → sound n → record_good (n_own n).
Proof.
  intros Ha Hs. split; [apply Hs|]. pose proof (auth_marshals me n Ha) as Hm. by destruct (json_record (n_own n)).
Qed.

Lemma stored_good n id p : authentic me n → sound n → get id (n_store n) = Some p → record_good (deref (n_own n) p).
Proof.
  intros Ha Hs Hg. destruct p as [|r]; [by apply own_good|]. split; [|apply verified_marshals; by apply (stored_fresh me n id)].
  unfold get in Hg. destruct (records (n_store n) !! id) as [e|] eqn:E; [|done]. injection Hg as Hg. by eapply (snd_entries n Hs).
Qed.

(** What a response carries is well typed and can be marshalled. *)
Lemma response_good it req n :
  authentic me n → sound n →
  Forall record_good (RespRecords (handleRequest it req n)) ∧
  ∀ r, RespRecord (handleRequest it req n) = Some r → record_good r.
Proof.
  intros Ha Hs. assert (∀ r, r ∈ RespRecords (handleRequest it req n) ∨ RespRecord (handleRequest it req n) = Some r → record_good r) as Hg.
  { intros r [->|(id & p & Hg & ->)]%answered_stored; [by apply own_good|by eapply stored_good]. }
  split; [apply Forall_forall|]; auto.
Qed.

Lemma response_marshals it req n :
  authentic me n → sound n → ∃ v, api_response_json (handleRequest it req n) = Some v ∧ fits max_depth v.
Proof.
  intros Ha Hs. destruct (response_good it req n Ha Hs) as [Hl Ho]. unfold api_response_json.
  destruct (mapM_records _ Hl) as (vs & -> & _ & Hf). cbn [mbind option_bind].
  assert (∃ one, match RespRecord (handleRequest it req n) with None => Some [] | Some rec => (λ v, [("record", v)]) <$> json_record rec end
    = Some one ∧ Forall (λ kv, fits 9999 kv.2) one) as (one & -> & Hone).
  { destruct (RespRecord _) as [r|]; [|by eexists]. destruct (good_record_json r (Ho r eq_refl)) as (v & -> & Hv).
    eexists. split; [done|]. constructor; [by eapply fits_mono|constructor]. }
  eexists. split; [done|]. apply fits_obj. split; [done|]. rewrite !Forall_app. split_and!; [by repeat constructor| |done|].
  - destruct vs as [|v vs]; constructor; [|constructor]. apply fits_arr. split; [done|].
    eapply Forall_impl; [exact Hf|]. intros w Hw. by eapply fits_mono.
  - apply omitempty_fits.
Qed.

(** C22: the query socket answers every line: whatever a client writes, for each
    line it sends there is exactly one line of JSON back, in order, in every
    state of the agent that bytes from the network can lead to. *)
Theorem api_answers_every_line env n0 view bytes :
  gossip_main env = Running (me, n0) →
  (∀ i, ∃ s, rtc (net_step me) (mkNet n0 []) s ∧ (view i).1 = net_node s) →
  ∃ vs, pieces (serve_api view bytes) = marshal <$> vs ∧ length vs = length (scan_lines bytes) ∧
    ∀ i req, requests dec_api_request (mkApiRequest "" "") bytes !! i = Some req →
      api_response_json (handleRequest (view i).2 req (view i).1) = vs !! i.
Proof.
  intros Hm Hview. destruct (answers_lines (api_answer view) (imap pair (requests dec_api_request (mkApiRequest "" "") bytes)))
    as (vs & Hvs & Hp).
  { intros [i req] _. unfold api_answer. cbn [fst snd]. destruct (Hview i) as (s & Hr & ->).
    destruct (net_invariants seed Hseed env n0 s Hm Hr) as (Ha & Hs).
    destruct (response_marshals (view i).2 req (net_node s) Ha Hs) as (v & Hv & Hf). exists v. split; [done|]. by eapply fits_wf. }
  clear Hm Hview. exists vs. apply mapM_Some in Hvs as HF. split_and!; [exact Hp| |].
  - apply Forall2_length in HF. rewrite <-HF, length_imap. unfold requests. by rewrite length_fmap.
  - intros i req Hi. destruct (Forall2_lookup_l _ _ _ i (i, req) HF) as (v & -> & Hv); [|done].
    by rewrite list_lookup_imap, Hi.
Qed.
End queries.

(** ** Exit codes *)

Section exits.
Context `{Ed25519Laws}.

(** The system returns errors and does not panic. *)
Definition calm (env : gossip_env) : Prop :=
  (∀ d, ge_mkdir env d ≠ Panic) ∧ (∀ d, ge_write env d ≠ Panic) ∧ (∀ a, ge_tcp env a ≠ Panic) ∧ ge_unix env ≠ Panic.

Lemma start_panics k cfg now :
  start k cfg now = Panic ↔ in_json_range (mkTime now 0) = true ∧ length (PrivateKey k) ≠ 64%nat.
Proof.
  unfold start. assert (is_ok (canonicalJSON (json_record (set_Signature "" (own_of k cfg now)))) = in_json_range (mkTime now 0)) as Hr.
  { rewrite canonical_record_ok. cbn [set_Signature RecCapabilities own_of Uptime30d Timestamp].
    by rewrite bool_decide_true by (vm_compute; eexists; reflexivity). }
  unfold signRecord. set (v := json_record _) in *. clearbody v. rewrite <-Hr.
  unfold canonicalJSON, sign, PrivateKeySize. destruct v as [v|]; cbn [mbind go_bind is_ok]; [|by split; [|intros [? _]]].
  case_bool_decide; cbn [mbind go_bind]; split; try done. by intros [_ ?].
Qed.

Lemma loadKey_calm file mkdir write ent :
  mkdir ≠ Panic → write ≠ Panic → (loadOrGenerateKey file mkdir write ent).1 ≠ Panic.
Proof.
  intros Hm Hw. unfold loadOrGenerateKey. destruct file as [data| |e]; cbn [fst]; [|unfold rand_Read|done].
  - unfold decode_config. destruct (Unmarshal _ _ _) as [pk []]; cbn [mbind go_bind]; [done|]. by repeat case_match.
  - case_bool_decide; cbn [fst]; [|done]. destruct (NewKeyFromSeed _). cbn [fst]. destruct mkdir; cbn [mbind go_bind]; try done.
    by destruct write.
Qed.

Lemma loadKey_generated mkdir write ent k w :
  (loadOrGenerateKey ReadNotExist mkdir write ent).1 = Ok (k, w) → length (PrivateKey k) = 64%nat.
Proof.
  unfold loadOrGenerateKey, rand_Read. case_bool_decide as Hl; [|done].
  assert (length (take 32 ent ++ replicate (32 - length ent) x00) = 32%nat) as Hs.
  { rewrite length_app, length_take, length_replicate. lia. }
  pose proof (priv_length _ Hs) as Hpriv. destruct (NewKeyFromSeed _) as [pub priv]. cbn [fst snd] in *.
  destruct mkdir, write; cbn [mbind go_bind]; try done. intros E. injection E as <- _. exact Hpriv.
Qed.

(** C23: start-up crashes (exit code 2) exactly when the configuration loads and
    the key file holds a private key that is base64 of anything but 64 bytes;
    every other failure, from the files, the key, signing or the sockets, ends
    the program with code 1. *)
Theorem gossip_exit_codes env :
  calm env →
  (gossip_main env = Exited 2 ↔
   ∃ cfg data pk pub priv, loadConfig (ge_config env) = Ok cfg ∧ ge_key env (DataDir cfg) = ReadOk data ∧
     decode_config dec_key (mkPersistedKey "" "") data = Ok pk ∧
     DecodeString StdEncoding (PkPublicKey pk) = Some pub ∧ DecodeString StdEncoding (PkPrivateKey pk) = Some priv ∧
     length priv ≠ 64%nat ∧ in_json_range (mkTime (ge_now env) 0) = true) ∧
  ∀ c, gossip_main env = Exited c → c = 1%Z ∨ c = 2%Z.
Proof.
  intros (Cm & Cw & Ct & Cu). split; [split|].
  - unfold gossip_main. intros [(cfg & Ec & H1)|[(? & _ & [=])|[Ec _]]]%or_exit_code.
    2: { exfalso. revert Ec. unfold loadConfig, load_required, decode_config. destruct (ge_config env); [|done..].
         by destruct (Unmarshal _ _ _) as [? []]. }
    apply or_exit_code in H1 as [([k w] & Ek & H1)|[(? & _ & [=])|[Ek _]]];
      [|by apply loadKey_calm in Ek; auto]. cbn [fst] in H1.
    apply or_exit_code in H1 as [(n & _ & H1)|[(? & _ & [=])|[Es _]]].
    + exfalso. apply or_exit_code in H1 as [([] & _ & H1)|[(? & _ & [=])|[E _]]]; [|by apply (Ct _ E)].
      apply or_exit_code in H1 as [([] & _ & H1)|[(? & _ & [=])|[E _]]]; [done|].
      unfold api_listen, open_socket in E. destruct (ge_mkdir env "/run/camo") eqn:Em; [by apply Cu|done|by apply (Cm _ Em)].
    + apply start_panics in Es as [Ht Hp]. exists cfg.
      destruct (ge_key env (DataDir cfg)) as [data| |e]; [|by apply loadKey_generated in Ek|done].
      unfold loadOrGenerateKey in Ek. cbn [fst] in Ek. destruct (decode_config _ _ _) as [pk|e|] eqn:Ed; try done.
      cbn [mbind go_bind] in Ek. destruct (DecodeString StdEncoding (PkPublicKey pk)) as [pub|] eqn:E1; [|done].
      destruct (DecodeString StdEncoding (PkPrivateKey pk)) as [priv|] eqn:E2; [|done]. injection Ek as <- <-.
      exists data, pk, pub, priv. by split_and!.
  - intros (cfg & data & pk & pub & priv & Ec & Ek & Ed & E1 & E2 & Hp & Ht). unfold gossip_main. rewrite Ec. cbn [or_exit].
    rewrite Ek. unfold loadOrGenerateKey. cbn [fst]. rewrite Ed. cbn [mbind go_bind]. rewrite E1, E2. cbn [or_exit fst].
    rewrite (proj2 (start_panics (mkNodeKey pub priv) cfg (ge_now env)) (conj Ht Hp)). done.
  - unfold gossip_main. repeat (apply or_exit_failure; intros ?). by intros c.
Qed.
End exits.

(** ** Witnesses *)

Definition demo_key_file : list ascii :=
  MarshalIndent (key_json (mkPersistedKey (EncodeToString StdEncoding (PublicKey demo_key))
    (EncodeToString StdEncoding (PrivateKey demo_key)))).

Definition demo_config_file : list ascii :=
  qt "{'wireguard_addr':'192.0.2.1:51820','bootstrap_peers':['192.0.2.9:7946'],'regions':['SE'],'Jurisdictions':['SE'],'exit_node':true,'wireguard_pubkey':'wg'}".

Definition demo_env (key_file : list ascii) : gossip_env :=
  mkGossipEnv (ReadOk demo_config_file) (λ _, ReadOk key_file) (λ _, Ok ()) (λ _, Ok ()) (Err "no such file or directory")
    (λ _, Ok ()) (Ok ()) 0 [].

Lemma demo_main : gossip_main (demo_env demo_key_file) = Running (demo_key, demo_start).
Proof. vm_compute. reflexivity. Qed.

(** A peer connects and sends a record and a line that is not JSON; the record is
    stored and forwarded. *)
Definition demo_bytes : list ascii := default [] (message_line (MsgRecord signed_record)) ++ qt "nonsense".

Definition node_after (ev : event) (n : node) : node := match exec demo_key ev n with Ok n' => n' | _ => n end.

Definition agent1 : node := node_after (EvConn 1 "198.51.100.7:4000") demo_start.
Definition agent2 : node := node_after (EvRecord signed_record "198.51.100.7:4000") agent1.
Definition agent3 : node := node_after (EvPut 2 0) agent2.
Definition agent4 : node := node_after (EvForward 0 (keys (n_peers agent3))) agent3.

Lemma demo_net : rtc (net_step demo_key) (mkNet demo_start []) (mkNet agent4 [mkPeerConn "198.51.100.7:4000" []]).
Proof.
  eapply rtc_l; [apply (net_accept demo_key 1 "198.51.100.7:4000" demo_bytes demo_start agent1 []); vm_compute; reflexivity|].
  replace (scan_lines demo_bytes) with [default [] (marshal <$> message_json (MsgRecord signed_record)); qt "nonsense"]
    by (vm_compute; reflexivity).
  eapply rtc_l; [apply (net_line demo_key 1 agent1 agent2 [] []); vm_compute; reflexivity|].
  eapply rtc_l; [apply (net_line demo_key 1 agent2 agent2 [] []); vm_compute; reflexivity|].
  eapply rtc_l; [apply (net_internal demo_key (EvPut 2 0) agent2 agent3); [reflexivity|exact I|vm_compute; reflexivity]|].
  eapply rtc_l; [apply (net_internal demo_key (EvForward 0 (keys (n_peers agent3))) agent3 agent4);
    [reflexivity|apply range_of_keys|vm_compute; reflexivity]|apply rtc_refl].
Qed.

Lemma sent_messages_accepted_witness :
  ("192.0.2.9:7946", MsgRecord signed_record) ∈ sent agent4 ∧ verifyRecord signed_record = Ok () ∧
  ∃ line, message_line (MsgRecord signed_record) = Some line ∧ omap parse_message (scan_lines line) = [MsgRecord signed_record].
Proof.
  assert (("192.0.2.9:7946", MsgRecord signed_record) ∈ sent agent4) as Hin.
  { replace (sent agent4) with [("192.0.2.9:7946", MsgRecord signed_record); ("192.0.2.9:7946", MsgRecord (n_own demo_start))]
      by (vm_compute; reflexivity). left. }
  split; [exact Hin|].
  destruct (sent_messages_accepted (seed_of xee) (demo_env demo_key_file) demo_start _ _ _ eq_refl demo_main demo_net Hin)
    as ((line & Hl & Hp) & Hv). split; [exact Hv|]. exists line. split; [exact Hl|]. apply Hp.
  assert (line = default [] (message_line (MsgRecord signed_record))) as -> by (by rewrite Hl). vm_compute. discriminate.
Defined.

(** One short line from anyone kills the agent. *)
Definition lethal_line : list ascii := qt "{'type':'node_record','payload':{'signature':'AA=='}}".

Lemma process_dies_exactly_witness : receive demo_key 9 "203.0.113.5:4000" lethal_line agent4 = Panic.
Proof.
  apply (process_dies_exactly (demo_env demo_key_file) demo_key demo_start
    (mkNet agent4 [mkPeerConn "198.51.100.7:4000" []]) 9 "203.0.113.5:4000" lethal_line demo_main demo_net).
  left. eexists. split; [vm_compute; reflexivity|]. split; [vm_compute; discriminate|]. split; [vm_compute; discriminate|].
  split; [vm_compute; reflexivity|]. split.
  - exists []. split; [vm_compute; reflexivity|vm_compute; discriminate].
  - vm_compute. eexists. reflexivity.
Defined.

(** The record reaches a third node that has just started. *)
Abbreviation third := (key_of_seed (seed_of x33)).
Definition third_start : node := match start third demo_cfg 0 with Ok n => n | _ => demo_start end.

Lemma record_spreads_witness :
  ∃ l n1, receive third 3 "192.0.2.2:7946" l third_start = Ok n1 ∧
    ∀ s3, rtc (net_step third) (mkNet n1 []) s3 → n_checked (net_node s3) = [] →
      ∃ sm r', rtc (net_step third) (mkNet n1 []) sm ∧ recordKey r' = recordKey signed_record ∧
        get (ServerID r') (n_store (net_node sm)) = Some (Fresh r').
Proof.
  destruct (record_spreads (seed_of xee) (demo_env demo_key_file) demo_start _ "192.0.2.9:7946" signed_record
    (default [] (message_line (MsgRecord signed_record))) third 3 "192.0.2.2:7946" third_start []
    eq_refl demo_main demo_net) as (l & n1 & _ & Hr & Hall).
  - replace (sent (net_node (mkNet agent4 [mkPeerConn "198.51.100.7:4000" []]))) with
      [("192.0.2.9:7946", MsgRecord signed_record); ("192.0.2.9:7946", MsgRecord (n_own demo_start))]
      by (vm_compute; reflexivity). left.
  - vm_compute. reflexivity.
  - vm_compute. discriminate.
  - vm_compute. discriminate.
  - vm_compute. reflexivity.
  - exists l, n1. split; [exact Hr|]. intros s3 H3 Hn. destruct (Hall s3 H3) as [Hin|(sm & r' & from' & H1 & _ & H2 & H4 & _)].
    + rewrite Hn in Hin. by apply elem_of_nil in Hin.
    + exists sm, r'. split; [exact H1|]. split; [exact H2|exact H4].
Defined.

Lemma api_answers_every_line_witness :
  length (pieces (serve_api (λ _, (agent4, [])) (qt "{'command':'node_info'}" ++ [newline] ++ qt "oops"))) = 2%nat.
Proof.
  destruct (api_answers_every_line (seed_of xee) eq_refl (demo_env demo_key_file) demo_start (λ _, (agent4, []))
    (qt "{'command':'node_info'}" ++ [newline] ++ qt "oops") demo_main) as (vs & -> & Hl & _).
  - intros i. exists (mkNet agent4 [mkPeerConn "198.51.100.7:4000" []]). split; [exact demo_net|reflexivity].
  - rewrite length_fmap, Hl. vm_compute. reflexivity.
Defined.

(** A key file with a private key of three bytes. *)
Lemma gossip_exit_codes_witness :
  gossip_main (demo_env (MarshalIndent (key_json (mkPersistedKey "AAAA" "AAAA")))) = Exited 2.
Proof.
  apply (gossip_exit_codes (demo_env (MarshalIndent (key_json (mkPersistedKey "AAAA" "AAAA"))))).
  - repeat split; discriminate.
  - exists demo_cfg, (MarshalIndent (key_json (mkPersistedKey "AAAA" "AAAA"))), (mkPersistedKey "AAAA" "AAAA"),
      [x00; x00; x00], [x00; x00; x00]. repeat split; first [vm_compute; reflexivity|vm_compute; discriminate].
Defined.
