(* ===== verification/EndToEnd.v ===== *)
(** * From gossip to circuits

    camo-circuit asks camo-gossip for its identity and for nodes over its socket
    and builds circuits from the answer.  The two programs declare the record
    separately; what one writes and the other reads is bytes. *)

From Stdlib Require Import ZArith Lia Ascii String Strings.Byte Floats.SpecFloat.
From stdpp Require Import base option list gmap strings pretty fin_maps relations.
From S2P Require Import Prelude GoFloat GoText GoUtf8 GoBase64 GoTime GoJson GoJsonRead GoNumber GoTimeParse.
From S2P Require Import GoJsonDecode GoLines GoService.
From S2P Require Import CircuitStore CircuitConstructor WireGuard CircuitRotation CircuitMain.
From S2P Require Import GossipRecord GossipWire GossipStore GossipServer GossipNode.

(** A gossip record as the circuit controller keeps it: fields it does not
    declare are skipped, a null list is a nil slice. *)
Definition mirror (r : GossipRecord.NodeRecord) : CircuitConstructor.NodeRecord :=
  let c := RecCapabilities r in
  CircuitConstructor.mkNodeRecord (GossipRecord.ServerID r) (GossipRecord.WireGuardKey r)
    (EpWireGuard (RecEndpoints r))
    (mkNodeCapabilities (default [] (GossipRecord.Jurisdictions c)) (default [] (GossipRecord.Regions c))
       (GossipRecord.Uptime30d c) (GossipRecord.SIMPoolSize c) (GossipRecord.ExitNode c) (GossipRecord.MaxCircuits c)).

(** The agent's socket while the agent is in state [n]. *)
Definition agent_dial (it : list string) (n : node) : dialer := λ bytes, Answered (serve_api (λ _, (n, it)) bytes).

(** The records [list_peers] answers with. *)
Definition listed (it : list string) (n : node) : list GossipRecord.NodeRecord :=
  deref (n_own n) <$> activeRecords it (n_store n).

(** ** Reading a record *)

Lemma decode_node_capabilities c v :
  int64 (GossipRecord.SIMPoolSize c) → int64 (GossipRecord.MaxCircuits c) → utf8_list (GossipRecord.Regions c) →
  utf8_list (GossipRecord.Jurisdictions c) → json_capabilities c = Some v →
  dec_into dec_node_capabilities (CircuitConstructor.Capabilities zero_node) [quoted v] =
    mkNodeCapabilities (default [] (GossipRecord.Jurisdictions c)) (default [] (GossipRecord.Regions c))
      (GossipRecord.Uptime30d c) (GossipRecord.SIMPoolSize c) (GossipRecord.ExitNode c) (GossipRecord.MaxCircuits c) ∧
  dec_err dec_node_capabilities (quoted v) = false.
Proof.
  intros H1 H2 H3 H4. unfold json_capabilities. destruct (format_float (GossipRecord.Uptime30d c)) as [u|] eqn:Eu; [|done].
  cbn [mbind option_bind]. intros E. injection E as <-.
  pose proof (dec_int_quoted _ 0 H1) as [Es Es']. pose proof (dec_int_quoted _ 0 H2) as [Em Em'].
  pose proof (dec_strings_quoted _ H3) as [Er Er']. pose proof (dec_strings_quoted _ H4) as [Ej Ej'].
  pose proof (dec_float_quoted _ _ (S754_zero false) Eu) as [Ef Ef'].
  rewrite quoted_obj. cbn [quoted_members]. unfold json_int in *. split.
  - unfold dec_node_capabilities, zero_node, get_list.
    cbn [struct dec_into CircuitConstructor.Capabilities CircuitConstructor.Uptime30d CircuitConstructor.SIMPoolSize
         CircuitConstructor.ExitNode CircuitConstructor.MaxCircuits]. decode_fields.
    cbn [quoted]. rewrite Er, Ej, Ef, Es, Em. done.
  - unfold dec_node_capabilities. cbn [struct dec_err struct_err check_fields existsb field fst snd]. decode_fields.
    cbn [existsb quoted]. by rewrite Er', Ej', Ef', Es', Em'.
Qed.

Lemma decode_node r v :
  record_typed r → json_record r = Some v →
  dec_into dec_node zero_node [quoted v] = mirror r ∧ dec_err dec_node (quoted v) = false ∧
  dec_into dec_info_record "" [quoted v] = GossipRecord.ServerID r ∧ is_composite (quoted v) = true.
Proof.
  intros (H1 & H2 & H3 & H4 & H5 & H6 & H7 & H8 & H9 & H10 & _). unfold json_record.
  destruct (json_capabilities (RecCapabilities r)) as [c|] eqn:Ec; [|done].
  destruct (time_json (Timestamp r)) as [t|] eqn:Et; [|done]. cbn [mbind option_bind]. intros E. injection E as <-.
  destruct (decode_node_capabilities _ _ H7 H8 H9 H10 Ec) as (Dc & Dc').
  assert (let e := quoted (JObj [("wireguard", JStr (EpWireGuard (RecEndpoints r))); ("gtp", JStr (EpGTP (RecEndpoints r)))]) in
    dec_into dec_node_endpoint "" [e] = EpWireGuard (RecEndpoints r) ∧ dec_err dec_node_endpoint e = false) as [De De'].
  { cbv zeta. rewrite quoted_obj. cbn [quoted_members quoted]. unfold dec_node_endpoint.
    cbn [struct dec_into dec_err struct_err check_fields existsb field fst snd]. decode_fields.
    by rewrite dec_string_quoted. }
  rewrite quoted_obj. split_and!; [| | |done].
  - unfold dec_node. cbn [struct dec_into].
    cbn [zero_node CircuitConstructor.ServerID CircuitConstructor.WireGuardKey Endpoint_WireGuard].
    decode_signed. rewrite Dc. cbn [quoted] in De |- *. rewrite De, !dec_string_quoted by done. done.
  - unfold dec_node. cbn [struct dec_err struct_err check_fields existsb field fst snd]. decode_signed.
    cbn [existsb]. rewrite De', Dc'. done.
  - unfold dec_info_record. cbn [struct dec_into]. decode_signed. cbn [quoted]. by rewrite dec_string_quoted.
Qed.

(** A slice of pointers to records. *)
Lemma decode_records rs vs :
  Forall record_typed rs → Forall2 (λ r v, json_record r = Some v) rs vs → vs ≠ [] →
  dec_into (dec_pointers zero_node dec_node) None [quoted (JArr vs)] = Some (Some ∘ mirror <$> rs) ∧
  dec_err (dec_pointers zero_node dec_node) (quoted (JArr vs)) = false.
Proof.
  intros Hty HF Hne. change (quoted (JArr vs)) with (JArr (quoted_list vs)).
  assert (map (option_map (dec_into dec_node zero_node)) (fill None pointer_step [] (quoted_list vs)) = Some ∘ mirror <$> rs ∧
    existsb (pointer_err dec_node) (quoted_list vs) = false ∧ length (quoted_list vs) = length rs ∧
    length (fill None pointer_step [] (quoted_list vs)) = length rs) as (Hm & He & Hl & Hl').
  { clear Hne. induction HF as [|r v rs vs Hj _ IH]; [done|]. apply Forall_cons in Hty as [Hr Hty].
    destruct (decode_node r v Hr Hj) as (Hd & Hd' & _ & Hc). destruct (IH Hty) as (Hm & He & Hl & Hl').
    change (quoted_list (v :: vs)) with (quoted v :: quoted_list vs). cbn [fill map existsb length].
    assert (pointer_step None (quoted v) = Some [quoted v] ∧ pointer_err dec_node (quoted v) = false) as [-> ->].
    { generalize dependent (quoted v). intros [] ? ? ?; done. }
    rewrite Hm, He, Hl, Hl'. cbn [option_map]. rewrite Hd. done. }
  unfold dec_pointers, slice_into. cbn [dec_into dec_err slice_err foldl]. split; [|exact He].
  destruct vs as [|v vs]; [done|]. unfold slice_step at 1.
  change (quoted_list (v :: vs)) with (quoted v :: quoted_list vs) in *. cbn [default fst fmap option_fmap option_map].
  rewrite Hl, <-Hl', firstn_all. f_equal. exact Hm.
Qed.

(** ** Queries *)

Section queries.
Context `{Ed25519Laws} (seed : list byte) (Hseed : length seed = 32).

Abbreviation me := (key_of_seed seed).

(** One request for a command, answered. *)
Lemma serve_command cmd it n v :
  utf8 cmd → line_fits (marshal (JObj [("command", JStr cmd)])) = true →
  api_response_json (handleRequest it (Some (mkApiRequest cmd "")) n) = Some v →
  serve_api (λ _, (n, it)) (encode_line (JObj [("command", JStr cmd)])) = marshal v ++ [newline].
Proof.
  intros Hc Hl Hv. unfold serve_api. rewrite <-(app_nil_r (encode_line _)), requests_cons; [|done|exact Hl|].
  - rewrite quoted_obj. cbn [quoted_members quoted dec_api_request struct dec_into Command ReqServerID]. decode_fields.
    rewrite dec_string_quoted by done. cbn [dec_string scalar dec_into foldl].
    change (requests dec_api_request (mkApiRequest "" "") []) with (@nil (option apiRequest)). cbn [imap].
    rewrite bind_cons. cbn [mbind list_bind]. rewrite app_nil_r. unfold api_answer. cbn [fst snd]. by rewrite Hv.
  - rewrite quoted_obj. cbn [quoted_members quoted]. unfold dec_api_request.
    cbn [struct dec_err struct_err check_fields existsb field fst snd]. decode_fields. done.
Qed.

Lemma query_listed it n :
  authentic me n → sound n → CircuitMain.queryGossipPeers (agent_dial it n) = Ok (Some ∘ mirror <$> listed it n).
Proof.
  intros Ha Hs. set (req := Some (mkApiRequest cmdListPeers "")).
  destruct (response_good seed it req n Ha Hs) as [Hg _]. destruct (response_marshals seed it req n Ha Hs) as (v & Hv & Hf).
  unfold CircuitMain.queryGossipPeers, agent_dial. rewrite (serve_command "list_peers" it n v) by done.
  assert (RespRecords (handleRequest it req n) = listed it n) as Hl by done. rewrite Hl in Hg.
  destruct (mapM_records _ Hg) as (vs & Em & HF & _).
  assert (Forall record_typed (listed it n)) as Hty by (eapply Forall_impl; [exact Hg|]; by intros r [? _]).
  unfold api_response_json in Hv. rewrite Hl, Em in Hv. cbn [mbind option_bind handleRequest req] in Hv.
  rewrite bool_decide_true in Hv by done. cbn [Status RespCommand RespRecord RespMessage omitempty app] in Hv. injection Hv as <-.
  rewrite Decode_marshal by done. rewrite quoted_obj. clear Hf.
  destruct vs as [|v vs].
  { apply Forall2_nil_inv_r in HF. rewrite HF. reflexivity. }
  destruct (decode_records _ _ Hty HF ltac:(done)) as [Hd He].
  unfold dec_peers_response. cbn [struct dec_into dec_err struct_err check_fields existsb field fst snd pr_status pr_records].
  unfold get_field. rewrite members_single. cbn [members_of quoted_members app]. rewrite !occurrences_cons, !occurrences_nil.
  eval_keys. cbn [app existsb]. rewrite Hd, He. cbn [quoted dec_err dec_string scalar orb]. done.
Qed.

Lemma deref_all l : deref_nodes (Some ∘ mirror <$> l) = Ok (mirror <$> l).
Proof.
  unfold deref_nodes. replace (mapM id (Some ∘ mirror <$> l)) with (Some (mirror <$> l)); [done|].
  symmetry. apply mapM_Some. induction l as [|r l IH]; by constructor.
Qed.

Lemma query_identity cfg it n :
  authentic me n → sound n → OwnServerID cfg = "" → own_identity cfg (agent_dial it n) = Ok (serverID me).
Proof.
  intros Ha Hs Hcfg. set (req := Some (mkApiRequest cmdNodeInfo "")).
  destruct (response_marshals seed it req n Ha Hs) as (v & Hv & Hf). unfold own_identity. rewrite bool_decide_true by done.
  unfold agent_dial. rewrite (serve_command "node_info" it n v) by done.
  destruct (own_good seed n Ha Hs) as [_ [w Hw]].
  destruct (decode_node (n_own n) w (snd_own n Hs) Hw) as (_ & _ & Hd & _).
  unfold api_response_json in Hv. cbn [handleRequest req Command] in Hv. rewrite 2!bool_decide_false, bool_decide_true in Hv by done.
  cbn [RespRecords RespRecord mapM mbind option_bind Status RespCommand RespMessage omitempty app] in Hv. rewrite Hw in Hv.
  cbn [fmap option_fmap option_map app] in Hv. injection Hv as <-. rewrite Decode_marshal by done. rewrite quoted_obj.
  cbn [fst]. unfold dec_node_info. cbn [struct dec_into]. unfold get_field. rewrite members_single.
  cbn [members_of quoted_members app]. rewrite !occurrences_cons, !occurrences_nil. eval_keys. cbn [app].
  rewrite Hd. f_equal. apply Ha.
Qed.

(** C6: what camo-circuit reads from the gossip socket is what the agent holds:
    in every state the network can bring the agent to, a controller without a
    configured identity takes the agent's server id, and querying the peers
    returns, without a null among them, exactly the active records, field by
    field as the agent stores them. *)
Theorem query_faithful env n0 s cfg it :
  gossip_main env = Running (me, n0) → rtc (net_step me) (mkNet n0 []) s → OwnServerID cfg = "" →
  own_identity cfg (agent_dial it (net_node s)) = Ok (serverID me) ∧
  CircuitMain.queryGossipPeers (agent_dial it (net_node s)) ≫= deref_nodes = Ok (mirror <$> listed it (net_node s)).
Proof.
  intros Hm Hr Hcfg. destruct (net_invariants seed Hseed env n0 s Hm Hr) as (Ha & Hs). clear Hm Hr.
  split; [by apply query_identity|]. rewrite query_listed by done. apply deref_all.
Qed.

(** C1: every hop of a circuit a rotation stores is another server whose record
    the local gossip agent holds as active under the hop's id, with a valid
    signature of that id over the very WireGuard key and address the hop carries;
    whatever bytes the agent was sent before, over whatever connections, and with
    the identity (at start-up) and the records (at the rotation) read over its
    socket. *)
Theorem circuit_hops_authentic env n0 s1 it1 s it file cfg own now built {W} `{WGSocket W} old (m m' : CircuitRotation.node W) c h :
  gossip_main env = Running (me, n0) →
  rtc (net_step me) (mkNet n0 []) s1 → rtc (net_step me) (mkNet n0 []) s →
  circuit_main file (λ _, agent_dial it1 (net_node s1)) = Running (cfg, own) → OwnServerID cfg = "" →
  rotate own (observe now built (agent_dial it (net_node s))) old m = (Ok (), m') →
  getByIMSI (DeviceIMSI old) (CircuitRotation.n_store m') = Some c → h ∈ Hops c →
  HopServerID h ≠ serverID me ∧
  ∃ e, records (n_store (net_node s)) !! HopServerID h = Some e ∧ Active e = true ∧
    let r := deref (n_own (net_node s)) (EntryRecord e) in
    verifyRecord r = Ok () ∧ GossipRecord.ServerID r = HopServerID h ∧
    GossipRecord.WireGuardKey r = CircuitStore.WireGuardPubKey h ∧ EpWireGuard (RecEndpoints r) = WireGuardAddress h.
Proof.
  intros Hm Hr1 Hr Hmain Hcfg Hrot Hget Hh.
  destruct (net_invariants seed Hseed env n0 s1 Hm Hr1) as (Ha1 & Hs1).
  destruct (net_invariants seed Hseed env n0 s Hm Hr) as (Ha & Hs). clear Hm Hr Hr1.
  apply or_exit_Running in Hmain as (cfg' & _ & Hmain). apply or_exit_Running in Hmain as (own' & Hown & Hmain).
  injection Hmain as -> ->. rewrite query_identity in Hown by done. injection Hown as <-.
  destruct (rotate_cases (serverID me) (observe now built (agent_dial it (net_node s))) old m)
    as [(nodes & c' & ent' & Ho & Hb & Er)|(ent' & Hne & _)]; [|by rewrite Hrot in Hne].
  cbn [observe obs_peers obs_build] in Ho, Hb. rewrite query_listed in Ho by done. cbn [mbind go_bind] in Ho.
  rewrite deref_all in Ho. injection Ho as <-. rewrite Hrot in Er. injection Er as ->.
  destruct (build_device _ _ _ _ _ _ _ Hb) as [Hd _]. unfold getByIMSI in Hget. cbn [CircuitRotation.n_store] in Hget.
  rewrite <-Hd in Hget. cbn [CircuitStore.put circuits] in Hget. rewrite lookup_insert_eq in Hget. injection Hget as ->.
  apply build_Ok in Hb as (mid & ex & b & _ & _ & Hin & _ & _ & _ & _ & _ & Hhops & _).
  rewrite Hhops in Hh. apply list_elem_of_lookup in Hh as [i Hi]. apply hops_lookup in Hi as (x & Hx & ->).
  apply list_elem_of_lookup_2, Hin, list_elem_of_filter in Hx as [Hne Hx].
  apply list_elem_of_fmap in Hx as (r & -> & Hx). apply listed_stored in Hx as (id & e & He & Hact & ->).
  cbn [hop_of HopServerID CircuitStore.WireGuardPubKey WireGuardAddress mirror CircuitConstructor.ServerID
    CircuitConstructor.WireGuardKey Endpoint_WireGuard] in *.
  assert (get id (n_store (net_node s)) = Some (EntryRecord e)) as Hstored by (unfold get; by rewrite He).
  pose proof (stored_id me _ _ _ Ha Hstored) as Hid.
  pose proof (stored_other me _ _ _ Ha Hstored ltac:(by rewrite <-Hid)) as Hv.
  split; [done|]. exists e. rewrite Hid. by split_and!.
Qed.
End queries.

(** ** Witness: three signed records arrive and a circuit is built from them *)

Definition exit_record (b : byte) (j : string) : GossipRecord.NodeRecord :=
  let r := GossipRecord.mkNodeRecord protocolVersion (serverID (key_of_seed (seed_of b))) ("wg-" ++ j)
    (mkEndpoints "192.0.2.1:51820" "") (mkCapabilities 10 None (Some [j]) (float64_of_int 1) true 100) (mkTime 0 0) "" in
  match signRecord r (key_of_seed (seed_of b)) with Ok r' => r' | _ => r end.

Definition three_records : list GossipRecord.NodeRecord := [exit_record x01 "NL"; exit_record x02 "CH"; exit_record x03 "IS"].

(** They come over one connection. *)
Definition three_lines : list (list ascii) := (λ r, default [] (marshal <$> message_json (MsgRecord r))) <$> three_records.
Definition three_bytes : list ascii := three_lines ≫= λ l, l ++ [newline].

Definition joined_evs : list event :=
  EvConn 1 "a:1" :: ((λ r, EvRecord r "a:1") <$> three_records) ++ [EvPut 1 0; EvPut 1 0; EvPut 1 0].
Definition joined : node := exec_all joined_evs demo_start.
Definition joined_at (k : nat) : node := exec_all (take k joined_evs) demo_start.

Lemma joined_net : rtc (net_step demo_key) (mkNet demo_start []) (mkNet joined [mkPeerConn "a:1" []]).
Proof.
  eapply rtc_l; [apply (net_accept demo_key 1 "a:1" three_bytes demo_start (joined_at 1) []); vm_compute; reflexivity|].
  replace (scan_lines three_bytes) with three_lines by (vm_compute; reflexivity).
  eapply rtc_l; [apply (net_line demo_key 1 (joined_at 1) (joined_at 2) [] []); vm_compute; reflexivity|].
  eapply rtc_l; [apply (net_line demo_key 1 (joined_at 2) (joined_at 3) [] []); vm_compute; reflexivity|].
  eapply rtc_l; [apply (net_line demo_key 1 (joined_at 3) (joined_at 4) [] []); vm_compute; reflexivity|].
  eapply rtc_l; [apply (net_internal demo_key (EvPut 1 0) (joined_at 4) (joined_at 5)); [reflexivity|exact I|vm_compute; reflexivity]|].
  eapply rtc_l; [apply (net_internal demo_key (EvPut 1 0) (joined_at 5) (joined_at 6)); [reflexivity|exact I|vm_compute; reflexivity]|].
  eapply rtc_l; [apply (net_internal demo_key (EvPut 1 0) (joined_at 6) joined); [reflexivity|exact I|vm_compute; reflexivity]|].
  apply rtc_refl.
Qed.

Abbreviation joined_dial := (agent_dial (keys (records (n_store joined))) joined).

Definition plain_cfg : circuitConfig := defaultCircuitConfig.

Lemma query_faithful_witness :
  own_identity plain_cfg joined_dial = Ok (serverID demo_key) ∧
  length <$> (CircuitMain.queryGossipPeers joined_dial ≫= deref_nodes) = Ok 4.
Proof.
  destruct (query_faithful (seed_of xee) eq_refl (demo_env demo_key_file) demo_start (mkNet joined [mkPeerConn "a:1" []])
    plain_cfg (keys (records (n_store joined))) demo_main joined_net eq_refl) as [Hi Hq].
  split; [exact Hi|]. cbn [net_node] in Hq. rewrite Hq. vm_compute. reflexivity.
Defined.

(** A controller with a due circuit for a device. *)
Definition joined_rotation : go unit * CircuitRotation.node (wg_server peer_table) :=
  rotate (serverID demo_key) (observe 0 0 joined_dial) (shared_old "A" "tA") shared_node.

Lemma circuit_hops_authentic_witness :
  ∃ c, getByIMSI "A" (CircuitRotation.n_store joined_rotation.2) = Some c ∧ length (Hops c) = 3 ∧
    Forall (λ h, is_Some (records (n_store joined) !! HopServerID h)) (Hops c).
Proof.
  destruct (getByIMSI "A" (CircuitRotation.n_store joined_rotation.2)) as [c|] eqn:Eg.
  2: { exfalso. apply (f_equal (λ o : option Circuit, match o with Some _ => true | None => false end)) in Eg.
       vm_compute in Eg. discriminate Eg. }
  exists c. split; [reflexivity|]. split.
  - apply (f_equal (λ o, match o with Some c => length (Hops c) | None => 0 end)) in Eg. rewrite <-Eg. vm_compute. reflexivity.
  - apply Forall_forall. intros h Hh.
    destruct (circuit_hops_authentic (seed_of xee) eq_refl (demo_env demo_key_file) demo_start
      (mkNet demo_start []) [] (mkNet joined [mkPeerConn "a:1" []]) (keys (records (n_store joined))) ReadNotExist plain_cfg
      (serverID demo_key) 0 0 (shared_old "A" "tA") shared_node joined_rotation.2 c h demo_main (rtc_refl _ _) joined_net)
      as (_ & e & He & _).
    + vm_compute. reflexivity.
    + reflexivity.
    + rewrite (surjective_pairing joined_rotation). f_equal.
    + exact Eg.
    + exact Hh.
    + exists e. exact He.
Defined.
